(** * Bigint calculator: a shallow embedding of bigint.c, parser.c and main.c

    The big-integer engine stores a sign and a buffer of 32-bit limbs, least
    significant first.  The buffer is a [list Z]; its size is the C field
    [capacity], and [length] counts the limbs in use.  Reads [digits[i]] are
    [nth i _ 0], writes are stdpp's [<[i:=v]>].  Machine arithmetic is written
    out: a [uint32_t] result is reduced modulo 2^32, a [uint64_t] one modulo
    2^64.  Indices ([size_t], [int]) are natural numbers.

    Allocation always succeeds in this model, and every pointer handed to a
    function is non-null, so the [NULL] returns that only guard those cases
    are absent.  The [NULL] returns that depend on the data (division by zero,
    a malformed literal) are [None]. *)

From Stdlib Require Import ZArith Lia List Bool Ascii String.
From stdpp Require Import list.
Import ListNotations.

Local Open Scope Z_scope.

(** ** Machine words and C loops *)

Definition BITS_IN_WORD : Z := 32.
Definition HEX_WIDTH : nat := 8.
Definition INITIAL_CAPACITY : nat := 4.
Definition BASE_DEC : Z := 10.
Definition DEC_DIVISOR : Z := 10.
Definition HEX_OFFSET : Z := 10.

Definition u32 (x : Z) : Z := x mod 2 ^ 32.
Definition u64 (x : Z) : Z := x mod 2 ^ 64.

(** [~x] on a [uint32_t]. *)
Definition not32 (x : Z) : Z := u32 (Z.lnot x).

(** [for (i = 0; i < n; i++) s = body i s]. *)
Definition for_loop {St : Type} (n : nat) (body : nat -> St -> St) (s : St) : St :=
  fold_left (fun s i => body i s) (seq 0 n) s.

(** [while (cond s) s = body s], cut off after [fuel] iterations. *)
Fixpoint while_loop {St : Type} (fuel : nat) (cond : St -> bool) (body : St -> St)
    (s : St) : St :=
  match fuel with
  | O => s
  | S fuel' =>
      if cond s then while_loop fuel' cond body (body s) else s
  end.

(** ** The BigInt structure *)

Record BigInt : Type := mkBigInt {
  sign : Z;
  length : nat;
  digits : list Z
}.

Definition capacity (n : BigInt) : nat := Datatypes.length (digits n).

Definition digit (n : BigInt) (i : nat) : Z := nth i (digits n) 0.

Definition set_sign (s : Z) (n : BigInt) : BigInt :=
  mkBigInt s (length n) (digits n).
Definition set_length (l : nat) (n : BigInt) : BigInt :=
  mkBigInt (sign n) l (digits n).
Definition set_digit (i : nat) (v : Z) (n : BigInt) : BigInt :=
  mkBigInt (sign n) (length n) (<[i:=v]> (digits n)).

(** [bi_create]: the value zero in a zeroed buffer of four words. *)
Definition bi_create : BigInt :=
  mkBigInt 0 1 (replicate INITIAL_CAPACITY 0).

(** [bi_copy]: [malloc] of [capacity] words, [memcpy] of the [length] words in
    use.  The words past [length] are indeterminate in C; no caller reads one
    before writing it, and the model fills them with zero. *)
Definition bi_copy (original : BigInt) : BigInt :=
  mkBigInt (sign original) (length original)
    (take (length original) (digits original)
       ++ replicate (capacity original - length original) 0).

(** [bi_resize]: grow the buffer to [required_capacity] words, the new words
    zeroed; never shrink. *)
Definition bi_resize (num : BigInt) (required_capacity : nat) : BigInt :=
  if (required_capacity <=? capacity num)%nat then num
  else mkBigInt (sign num) (length num)
         (digits num ++ replicate (required_capacity - capacity num) 0).

(** The [while] of [bi_normalize]: drop zero words from the top, keep one. *)
Fixpoint trim_length (d : list Z) (len : nat) : nat :=
  match len with
  | S (S _ as len') =>
      if nth len' d 0 =? 0 then trim_length d len' else len
  | _ => len
  end.

Definition bi_normalize (num : BigInt) : BigInt :=
  let len := trim_length (digits num) (length num) in
  if (len =? 1)%nat && (nth 0 (digits num) 0 =? 0)
  then mkBigInt 0 len (digits num)
  else mkBigInt (sign num) len (digits num).

(** ** Helper arithmetic on magnitudes *)

(** The loop of [bi_compare_abs], from [i = length] down to 1. *)
Fixpoint compare_digits (a b : list Z) (i : nat) : Z :=
  match i with
  | O => 0
  | S i' =>
      if nth i' b 0 <? nth i' a 0 then 1
      else if nth i' a 0 <? nth i' b 0 then -1
      else compare_digits a b i'
  end.

Definition bi_compare_abs (a b : BigInt) : Z :=
  if (length b <? length a)%nat then 1
  else if (length a <? length b)%nat then -1
  else compare_digits (digits a) (digits b) (length a).

Definition bi_get_bit (n : BigInt) (k : nat) : Z :=
  let digit_idx := (k / 32)%nat in
  let bit_idx := (k mod 32)%nat in
  if (digit_idx <? length n)%nat
  then Z.land (Z.shiftr (digit n digit_idx) (Z.of_nat bit_idx)) 1
  else 0.

Definition bi_bit_length (n : BigInt) : nat :=
  if sign n =? 0 then O
  else
    let bits := ((length n - 1) * 32)%nat in
    let last_digit := digit n (length n - 1) in
    snd (while_loop 32 (fun '(last_digit, _) => 0 <? last_digit)
           (fun '(last_digit, bits) => (Z.shiftr last_digit 1, S bits))
           (last_digit, bits)).

Definition bi_shift_left_one (n : BigInt) : BigInt :=
  if sign n =? 0 then n
  else
    let n := bi_resize n (length n + 1) in
    let '(n, carry) :=
      for_loop (length n)
        (fun i '(n, carry) =>
           let next_carry := Z.shiftr (digit n i) 31 in
           (set_digit i (u32 (Z.lor (Z.shiftl (digit n i) 1) carry)) n,
            next_carry))
        (n, 0) in
    if carry =? 0 then n
    else set_length (S (length n)) (set_digit (length n) carry n).

(** ** In-place kernels *)

Definition bi_add_into_abs (res b : BigInt) : BigInt :=
  let max_n := Nat.max (length res) (length b) in
  let res := bi_resize res (max_n + 1) in
  let '(_, _, res) :=
    while_loop (max_n + 2)
      (fun '(i, carry, res) => (i <? max_n)%nat || negb (carry =? 0))
      (fun '(i, carry, res) =>
         let res := if (length res <=? i)%nat
                    then set_length (S i) (set_digit i 0 res)
                    else res in
         let val_b := if (i <? length b)%nat then digit b i else 0 in
         let sum := u64 (digit res i + val_b + carry) in
         (S i, Z.shiftr sum BITS_IN_WORD, set_digit i (u32 sum) res))
      (O, 0, res) in
  bi_normalize res.

Definition bi_sub_into_abs (result b : BigInt) : BigInt :=
  let '(result, borrow) :=
    for_loop (length b)
      (fun i '(result, borrow) =>
         let diff := u64 (digit result i - digit b i - borrow) in
         let borrow := if digit result i <? diff then 1 else 0 in
         (set_digit i (u32 diff) result, borrow))
      (result, 0) in
  let '(_, _, result) :=
    while_loop (length result)
      (fun '(j, borrow, result) => negb (borrow =? 0) && (j <? length result)%nat)
      (fun '(j, borrow, result) =>
         if 0 <? digit result j
         then (S j, 0, set_digit j (u32 (digit result j - 1)) result)
         else (S j, 1, set_digit j 4294967295 result))
      (length b, borrow, result) in
  bi_normalize result.

Definition bi_add_digit_into (res : BigInt) (val : Z) : BigInt :=
  if val =? 0 then res
  else if sign res =? 0
  then mkBigInt 1 1 (<[O:=val]> (digits res))
  else
    let '(_, carry, res) :=
      while_loop (length res)
        (fun '(i, carry, res) => (i <? length res)%nat && negb (carry =? 0))
        (fun '(i, carry, res) =>
           let sum := u64 (digit res i + carry) in
           (S i, Z.shiftr sum BITS_IN_WORD, set_digit i (u32 sum) res))
        (O, val, res) in
    let res :=
      if carry =? 0 then res
      else
        let res := bi_resize res (length res + 1) in
        set_length (S (length res))
          (set_digit (length res) (u32 carry) res) in
    bi_normalize res.

Definition bi_mul_digit_into (res : BigInt) (d : Z) : BigInt :=
  if (sign res =? 0) || (d =? 0)
  then mkBigInt 0 1 (<[O:=0]> (digits res))
  else
    let res := bi_resize res (length res + 1) in
    let '(res, carry) :=
      for_loop (length res)
        (fun i '(res, carry) =>
           let prod := u64 (digit res i * d + carry) in
           (set_digit i (u32 prod) res, Z.shiftr prod BITS_IN_WORD))
        (res, 0) in
    let res :=
      if carry =? 0 then res
      else set_length (S (length res))
             (set_digit (length res) (u32 carry) res) in
    bi_normalize res.

(** The loop of [bi_div10_into], from [i = length - 1] down to 0. *)
Fixpoint div10_loop (i : nat) (remainder : Z) (res : BigInt) : BigInt * Z :=
  match i with
  | O => (res, remainder)
  | S i' =>
      let current := u64 (digit res i' + Z.shiftl remainder BITS_IN_WORD) in
      div10_loop i' (current mod DEC_DIVISOR)
        (set_digit i' (u32 (current / DEC_DIVISOR)) res)
  end.

Definition bi_div10_into (res : BigInt) : BigInt * Z :=
  if sign res =? 0 then (res, 0)
  else
    let '(res, remainder) := div10_loop (length res) 0 res in
    (bi_normalize res, u32 remainder).

(** ** Arithmetic on magnitudes and signed arithmetic *)

Definition bi_add_abs (a b : BigInt) : BigInt :=
  if 0 <=? bi_compare_abs a b
  then bi_add_into_abs (bi_copy a) b
  else bi_add_into_abs (bi_copy b) a.

Definition bi_sub_abs (a b : BigInt) : BigInt :=
  bi_sub_into_abs (bi_copy a) b.

(** The loop of [bi_div_mod_abs], from [i = bits - 1] down to 0. *)
Fixpoint div_mod_loop (a b : BigInt) (i : nat) (q r : BigInt)
    : BigInt * BigInt :=
  match i with
  | O => (q, r)
  | S i' =>
      let r := bi_shift_left_one r in
      let r := if bi_get_bit a i' =? 0 then r
               else set_sign 1 (set_digit O (Z.lor (digit r O) 1) r) in
      let r := bi_normalize r in
      if 0 <=? bi_compare_abs r b then
        let r := bi_sub_into_abs r b in
        let w := (i' / 32)%nat in
        let q := bi_resize q (w + 1) in
        let q := set_digit w
                   (Z.lor (digit q w) (u32 (Z.shiftl 1 (Z.of_nat (i' mod 32))))) q in
        let q := if (length q <=? w)%nat then set_length (w + 1) q else q in
        div_mod_loop a b i' (set_sign 1 q) r
      else div_mod_loop a b i' q r
  end.

(** [None] stands for both out-parameters being [NULL]. *)
Definition bi_div_mod_abs (a b : BigInt) : option (BigInt * BigInt) :=
  if sign b =? 0 then None
  else if bi_compare_abs a b <? 0 then Some (bi_create, bi_copy a)
  else
    let '(q, r) := div_mod_loop a b (bi_bit_length a) bi_create bi_create in
    Some (bi_normalize q, r).

Definition bi_negate (a : BigInt) : BigInt :=
  let result := bi_copy a in
  if sign result =? 0 then result else set_sign (- sign result) result.

Definition bi_add (a b : BigInt) : BigInt :=
  if sign a =? 0 then bi_copy b
  else if sign b =? 0 then bi_copy a
  else if sign a =? sign b then set_sign (sign a) (bi_add_abs a b)
  else
    let cmp := bi_compare_abs a b in
    if cmp =? 0 then bi_create
    else if 0 <? cmp then set_sign (sign a) (bi_sub_abs a b)
    else set_sign (sign b) (bi_sub_abs b a).

Definition bi_sub (a b : BigInt) : BigInt := bi_add a (bi_negate b).

(** The carry left after the inner loop of [bi_mul] is added at [i + b->length]
    and rippled upwards. *)
Definition mul_ripple (pos : nat) (carry : Z) (res : BigInt) : BigInt :=
  if carry =? 0 then res
  else
    let sum := u64 (digit res pos + carry) in
    let res := set_digit pos (u32 sum) res in
    let '(_, _, res) :=
      while_loop (length res)
        (fun '(k, ripple, res) => (0 <? ripple) && (k <? length res)%nat)
        (fun '(k, ripple, res) =>
           let sum := u64 (digit res k + ripple) in
           (S k, Z.shiftr sum BITS_IN_WORD, set_digit k (u32 sum) res))
        (S pos, Z.shiftr sum BITS_IN_WORD, res) in
    res.

Definition bi_mul (a b : BigInt) : BigInt :=
  if (sign a =? 0) || (sign b =? 0) then bi_create
  else
    let total_len := (length a + length b)%nat in
    let res := bi_resize bi_create total_len in
    let res := mkBigInt (sign res) total_len
                 (replicate total_len 0 ++ drop total_len (digits res)) in
    let res :=
      for_loop (length a)
        (fun i res =>
           let '(res, carry) :=
             for_loop (length b)
               (fun j '(res, carry) =>
                  let current :=
                    u64 (digit a i * digit b j + digit res (i + j) + carry) in
                  (set_digit (i + j) (u32 current) res,
                   Z.shiftr current BITS_IN_WORD))
               (res, 0) in
           mul_ripple (i + length b) carry res)
        res in
    bi_normalize (set_sign (if sign a =? sign b then 1 else -1) res).

Definition bi_div (a b : BigInt) : option BigInt :=
  if sign b =? 0 then None
  else
    match bi_div_mod_abs a b with
    | None => None
    | Some (q, _) =>
        Some (bi_normalize (set_sign (if sign a =? sign b then 1 else -1) q))
    end.

Definition bi_mod (a b : BigInt) : option BigInt :=
  if sign b =? 0 then None
  else
    match bi_div_mod_abs a b with
    | None => None
    | Some (_, r) => Some (bi_normalize (set_sign (sign a) r))
    end.

(** ** C strings

    A C string is the list of its characters; reading at or past the end
    gives the terminating NUL. *)

Definition NUL : ascii := Ascii.zero.

Definition code (c : ascii) : Z := Z.of_N (N_of_ascii c).

Definition char_at (s : list ascii) (i : nat) : ascii := nth i s NUL.

Fixpoint strlen (s : list ascii) : nat :=
  match s with
  | [] => O
  | c :: s' => if Ascii.eqb c NUL then O else S (strlen s')
  end.

Definition in_range (lo hi c : ascii) : bool :=
  (code lo <=? code c) && (code c <=? code hi).

(** <ctype.h> in the C locale. *)
Definition isspace (c : ascii) : bool :=
  (code c =? 32) || ((9 <=? code c) && (code c <=? 13)).
Definition isdigit (c : ascii) : bool := in_range "0" "9" c.
Definition isxdigit (c : ascii) : bool :=
  isdigit c || in_range "a" "f" c || in_range "A" "F" c.
Definition isalpha (c : ascii) : bool :=
  in_range "a" "z" c || in_range "A" "Z" c.

Definition hex_value (c : ascii) : Z :=
  if in_range "0" "9" c then code c - code "0"
  else if in_range "a" "f" c then code c - code "a" + HEX_OFFSET
  else if in_range "A" "F" c then code c - code "A" + HEX_OFFSET
  else -1.

Definition char_of_code (z : Z) : ascii := ascii_of_N (Z.to_N z).

(** ** Conversions from text *)

Definition bi_from_dec (str : list ascii) : option BigInt :=
  if (strlen str =? 0)%nat then None
  else
    let res :=
      for_loop (strlen str)
        (fun p res =>
           if in_range "0" "9" (char_at str p)
           then bi_add_digit_into (bi_mul_digit_into res BASE_DEC)
                  (code (char_at str p) - code "0")
           else res)
        bi_create in
    Some (bi_normalize res).

Definition bi_from_hex (str : list ascii) : option BigInt :=
  let n := strlen str in
  if (n =? 0)%nat then None
  else if negb (forallb (fun i => negb (hex_value (char_at str i) =? -1)) (seq 0 n))
  then None
  else
    let required_digits := ((n + 7) / HEX_WIDTH)%nat in
    let num := bi_resize bi_create required_digits in
    let num := mkBigInt 1 required_digits (replicate (capacity num) 0) in
    (* pack eight nibbles per word, from the end of the string; the second
       hex_value test of the C loop repeats the one above and cannot fail *)
    let '(_, _, num) :=
      while_loop n
        (fun '(i, digit_index, num) => (0 <? i)%nat)
        (fun '(i, digit_index, num) =>
           let '(_, i, current_digit, _) :=
             while_loop HEX_WIDTH
               (fun '(j, i, current_digit, shift) =>
                  (j <? HEX_WIDTH)%nat && (0 <? i)%nat)
               (fun '(j, i, current_digit, shift) =>
                  let i := (i - 1)%nat in
                  let val := hex_value (char_at str i) in
                  (S j, i,
                   Z.lor current_digit (u32 (Z.shiftl val shift)), shift + 4))
               (O, i, 0, 0) in
           (i, S digit_index, set_digit digit_index current_digit num))
        (n, O, num) in
    let num := set_sign 1 num in
    let first_val := hex_value (char_at str 0) in
    let num :=
      if 8 <=? first_val then
        let bits_used := ((n mod HEX_WIDTH) * 4)%nat in
        let bits_used := if (bits_used =? 0)%nat then 32%nat else bits_used in
        let num :=
          if (bits_used <? 32)%nat then
            let mask := u32 (Z.shiftl 4294967295 (Z.of_nat bits_used)) in
            set_digit (length num - 1)
              (Z.lor (digit num (length num - 1)) mask) num
          else num in
        let num :=
          for_loop (length num)
            (fun k num => set_digit k (not32 (digit num k)) num) num in
        set_sign (-1) (bi_add_digit_into num 1)
      else num in
    Some (bi_normalize num).

Definition bi_from_bin (str : list ascii) : option BigInt :=
  let p :=
    if Ascii.eqb (char_at str 0) "0"
       && (Ascii.eqb (char_at str 1) "b" || Ascii.eqb (char_at str 1) "B")
    then drop 2 str else str in
  let n := strlen p in
  if negb (forallb (fun i => Ascii.eqb (char_at p i) "0"
                             || Ascii.eqb (char_at p i) "1") (seq 0 n))
  then None
  else if (n =? 0)%nat then None
  else
    let needed_words := ((n + 32 - 1) / 32)%nat in
    let res := set_sign 1 (bi_resize bi_create needed_words) in
    let res :=
      for_loop n
        (fun i res =>
           let res := bi_shift_left_one res in
           if Ascii.eqb (char_at p i) "1"
           then set_sign 1 (set_digit O (Z.lor (digit res O) 1) res)
           else res)
        res in
    let res :=
      if Ascii.eqb (char_at p 0) "1" then
        let res :=
          for_loop (capacity res * 32 - n)
            (fun k res =>
               let bit := (n + k)%nat in
               let word_idx := (bit / 32)%nat in
               let bit_idx := (bit mod 32)%nat in
               if (word_idx <? length res)%nat
               then set_digit word_idx
                      (Z.lor (digit res word_idx)
                         (u32 (Z.shiftl 1 (Z.of_nat bit_idx)))) res
               else res)
            res in
        let res :=
          for_loop (length res)
            (fun z res => set_digit z (not32 (digit res z)) res) res in
        set_sign (-1) (bi_add_digit_into res 1)
      else res in
    Some (bi_normalize res).

Fixpoint skip_spaces (p : list ascii) : list ascii :=
  match p with
  | c :: p' => if isspace c then skip_spaces p' else p
  | [] => []
  end.

Definition bi_from_str (str : list ascii) : option BigInt :=
  let p := skip_spaces str in
  let '(sgn, p) :=
    if Ascii.eqb (char_at p 0) "-" then (-1, drop 1 p)
    else if Ascii.eqb (char_at p 0) "+" then (1, drop 1 p)
    else (1, p) in
  let p := skip_spaces p in
  let num :=
    if Ascii.eqb (char_at p 0) "0"
       && (Ascii.eqb (char_at p 1) "b" || Ascii.eqb (char_at p 1) "B")
    then bi_from_bin (drop 2 p)
    else if Ascii.eqb (char_at p 0) "0"
       && (Ascii.eqb (char_at p 1) "x" || Ascii.eqb (char_at p 1) "X")
    then bi_from_hex (drop 2 p)
    else bi_from_dec p in
  match num with
  | None => None
  | Some num =>
      Some (if sign num =? 0 then num else set_sign (sign num * sgn) num)
  end.

(** ** Power and factorial *)

Definition lit (s : string) : list ascii := list_ascii_of_string s.

(** The squaring loop of [bi_pow].  [None] is a [NULL] return; the exponent is
    halved in every round, so a fuel of one round per exponent bit is never
    used up (see [bi_pow_total]). *)
Fixpoint pow_loop (fuel : nat) (result current n zero two : BigInt)
    : option BigInt :=
  match fuel with
  | O => None
  | S fuel' =>
      if 0 <? bi_compare_abs n zero then
        match bi_mod n two with
        | None => None
        | Some mod_ =>
            let is_odd := negb (sign mod_ =? 0) in
            let result := if is_odd then bi_mul result current else result in
            match bi_div n two with
            | None => None
            | Some new_n =>
                if bi_compare_abs new_n zero <=? 0 then Some result
                else pow_loop fuel' result (bi_mul current current) new_n zero two
            end
        end
      else Some result
  end.

Definition bi_pow (base exponent : BigInt) : option BigInt :=
  if sign exponent =? 0 then bi_from_dec (lit "1")
  else if sign base =? 0 then bi_from_dec (lit "0")
  else if sign exponent =? -1 then bi_from_dec (lit "0")
  else
    match bi_from_dec (lit "1") with
    | None => None
    | Some one =>
        if bi_compare_abs base one =? 0 then
          if sign base =? 1 then bi_from_dec (lit "1")
          else
            match bi_from_dec (lit "2") with
            | None => None
            | Some two =>
                match bi_mod exponent two with
                | Some mod_ =>
                    if sign mod_ =? 0
                    then bi_from_dec (lit "1")   (* Even *)
                    else bi_from_dec (lit "-1")  (* Odd *)
                | None => bi_from_dec (lit "-1")
                end
            end
        else
          match bi_from_dec (lit "1"), bi_from_dec (lit "0"),
                bi_from_dec (lit "2") with
          | Some result, Some zero, Some two =>
              pow_loop (32 * length exponent) result (bi_copy base)
                (bi_copy exponent) zero two
          | _, _, _ => None
          end
    end.

(** [bi_fact] takes a [uint32_t].  Its counter [i] is a [uint32_t] too: for
    [n = 2^32 - 1] the test [i <= n] never fails and the loop does not end,
    which is [None] here. *)
Definition bi_fact (n : Z) : option BigInt :=
  if (n =? 0) || (n =? 1) then bi_from_dec (lit "1")
  else if n =? 4294967295 then None
  else
    Some (for_loop (Z.to_nat (n - 1))
            (fun k res => bi_mul_digit_into res (Z.of_nat k + 2))
            (set_sign 1 (set_digit O 1 bi_create))).

(** ** Conversions to text *)

(** The division loop of [bi_to_dec]; the digits are collected in the order
    they are written to [buffer], least significant first.  The buffer holds
    [max_digits] characters, which bounds the loop. *)
Definition bi_to_dec (n : BigInt) : list ascii :=
  if sign n =? 0 then lit "0"
  else
    let copy := set_sign 1 (bi_copy n) in
    let max_digits := (length n * 10 + 2)%nat in
    let '(_, buffer) :=
      while_loop max_digits
        (fun '(copy, buffer) => negb (sign copy =? 0))
        (fun '(copy, buffer) =>
           let '(copy, remainder) := bi_div10_into copy in
           (copy, buffer ++ [char_of_code (remainder + code "0")]))
        (copy, []) in
    (if sign n =? -1 then ["-"%char] else []) ++ rev buffer.

Definition hex_char (v : Z) : ascii :=
  nth (Z.to_nat v) (lit "0123456789abcdef") NUL.

(** [sprintf("%08x", d)]. *)
Definition hex8 (d : Z) : list ascii :=
  map (fun k => hex_char (Z.land (Z.shiftr d (4 * (7 - Z.of_nat k))) 15))
    (seq 0 HEX_WIDTH).

Definition is_sign_nibble (c : ascii) : bool :=
  in_range "8" "9" c || in_range "a" "f" c || in_range "A" "F" c.

(** Two's complement of the magnitude in place, as [bi_to_hex] and
    [bi_to_bin] do it for a negative number. *)
Definition complement_in_place (working : BigInt) : BigInt :=
  bi_add_digit_into
    (for_loop (length working)
       (fun i working => set_digit i (not32 (digit working i)) working)
       working)
    1.

Definition bi_to_hex (n : BigInt) : list ascii :=
  if sign n =? 0 then lit "0x0"
  else
    let working := bi_copy n in
    let working :=
      if sign n =? -1 then complement_in_place working else working in
    let raw_buffer :=
      concat (map (fun j => hex8 (digit working j))
                (rev (seq 0 (length working)))) in
    let start :=
      if sign n =? 1 then
        let start :=
          while_loop (Datatypes.length raw_buffer)
            (fun start => Ascii.eqb (char_at raw_buffer start) "0"
                          && negb (Ascii.eqb (char_at raw_buffer (start + 1)) NUL))
            S O in
        let needs_leading_zero := is_sign_nibble (char_at raw_buffer start) in
        if needs_leading_zero && negb (start =? 0)%nat
        then (start - 1)%nat else start
      else
        while_loop (Datatypes.length raw_buffer)
          (fun start =>
             Ascii.eqb (char_at raw_buffer start) "f"
             && negb (Ascii.eqb (char_at raw_buffer (start + 1)) NUL)
             && is_sign_nibble (char_at raw_buffer (start + 1)))
          S O in
    lit "0x" ++ drop start raw_buffer.

Definition bi_to_bin (n : BigInt) : list ascii :=
  if sign n =? 0 then lit "0b0"
  else
    let working := bi_copy n in
    let working :=
      if sign n =? -1 then set_sign 1 (complement_in_place working)
      else working in
    let bit_len := bi_bit_length working in
    let buffer :=
      (if sign n =? 1 then "0"%char else "1"%char)
        :: map (fun i => if bi_get_bit working i =? 0 then "0"%char else "1"%char)
             (rev (seq 0 bit_len)) in
    let start :=
      if sign n =? 1 then
        while_loop (Datatypes.length buffer)
          (fun start => Ascii.eqb (char_at buffer start) "0"
                        && Ascii.eqb (char_at buffer (start + 1)) "0")
          S O
      else
        while_loop (Datatypes.length buffer)
          (fun start => Ascii.eqb (char_at buffer start) "1"
                        && Ascii.eqb (char_at buffer (start + 1)) "1")
          S O in
    lit "0b" ++ drop start buffer.

(** ** The syntax validator (parser.c) *)

(** A loop body either goes on with a new state, leaves the loop, or returns
    from the enclosing function. *)
Inductive ctl (St R : Type) : Type :=
  | Next (s : St)
  | Break (s : St)
  | Ret (r : R).
Arguments Next {St R} s.
Arguments Break {St R} s.
Arguments Ret {St R} r.

(** Runs [step] until it breaks or returns; [Next] as a result means the fuel
    ran out. *)
Fixpoint run_loop {St R : Type} (fuel : nat) (step : St -> ctl St R) (s : St)
    : ctl St R :=
  match fuel with
  | O => Next s
  | S fuel' =>
      match step s with
      | Next s' => run_loop fuel' step s'
      | Break s' => Break s'
      | Ret r => Ret r
      end
  end.

Definition is_char (c : ascii) (x : ascii) : bool := Ascii.eqb c x.

(** [strchr(set, c) != NULL] for a character [c] other than NUL. *)
Definition strchr (set : string) (c : ascii) : bool :=
  existsb (is_char c) (lit set).

Definition is_operator (c : ascii) : bool :=
  is_char c "+" || is_char c "-" || is_char c "*" || is_char c "/"
  || is_char c "%" || is_char c "^" || is_char c "!" || is_char c "("
  || is_char c ")".

(** [while (pred(input[i])) i++]. *)
Definition scan (pred : ascii -> bool) (input : list ascii) (i : nat) : nat :=
  while_loop (Datatypes.length input) (fun i => pred (char_at input i))
    S i.

(** The index [j] of the last character before [i] that is not white space,
    or -1. *)
Definition prev_non_space (input : list ascii) (i : nat) : Z :=
  while_loop i
    (fun j => (0 <=? j) && isspace (char_at input (Z.to_nat j)))
    (fun j => j - 1)
    (Z.of_nat i - 1).

(** The flag [is_unary] that the validator computes at a '+' or '-' in
    position [i]. *)
Definition is_unary (input : list ascii) (i : nat) : bool :=
  let j := prev_non_space input i in
  if 0 <=? j then
    let prev := char_at input (Z.to_nat j) in
    if is_char (char_at input i) "-" then
      let is_unary :=
        if negb (is_char prev "(") && negb (is_operator prev)
        then false else true in
      if is_char prev "!" then false else is_unary
    else
      if negb (is_char prev "(") then false else true
  else true.

Definition is_bit_char (c : ascii) : bool := is_char c "0" || is_char c "1".

(** State of the validator: [i], [expect_operand], [last_was_operator],
    [paren_depth]. *)
Definition vstate : Type := nat * bool * bool * Z.

Definition validate_step (input : list ascii) (st : vstate) : ctl vstate bool :=
  let '(i, expect_operand, last_was_operator, paren_depth) := st in
  let c := char_at input i in
  if is_char c NUL then Break st
  else if isspace c then
    Next (S i, expect_operand, last_was_operator, paren_depth)
  else if isdigit c then
    if negb expect_operand then Ret false
    else if is_char c "0"
         && (is_char (char_at input (i + 1)) "x"
             || is_char (char_at input (i + 1)) "X") then
      let i := (i + 2)%nat in
      if negb (isxdigit (char_at input i)) then Ret false
      else Next (scan isxdigit input i, false, false, paren_depth)
    else if is_char c "0"
         && (is_char (char_at input (i + 1)) "b"
             || is_char (char_at input (i + 1)) "B") then
      let i := (i + 2)%nat in
      if negb (is_bit_char (char_at input i)) then Ret false
      else Next (scan is_bit_char input i, false, false, paren_depth)
    else Next (scan isdigit input i, false, false, paren_depth)
  else if is_operator c then
    if is_char c "(" then
      if negb expect_operand then Ret false
      else Next (S i, true, true, paren_depth + 1)
    else if is_char c ")" then
      if expect_operand || (paren_depth <=? 0) then Ret false
      else Next (S i, false, false, paren_depth - 1)
    else if is_char c "!" then
      if expect_operand then Ret false
      else Next (S i, false, false, paren_depth)
    else
      if (is_char c "-" || is_char c "+") && is_unary input i then
        Next (S i, expect_operand, true, paren_depth)
      else if last_was_operator && negb (is_char c "!") then Ret false
      else Next (S i, true, true, paren_depth)
  else Ret false.

Definition validate_expression_syntax (input : list ascii) : bool :=
  match run_loop (S (strlen input)) (validate_step input)
          (O, true, false, 0) with
  | Ret r => r
  | Next _ => false
  | Break (_, expect_operand, _, paren_depth) =>
      if negb (paren_depth =? 0) then false
      else if expect_operand then false
      else
        let len :=
          while_loop (strlen input)
            (fun len => (0 <? len)%nat && isspace (char_at input (len - 1)))
            Nat.pred (strlen input) in
        if (0 <? len)%nat && strchr "+-*/%^" (char_at input (len - 1))
        then false else true
  end.

(** ** The evaluator (parser.c) *)

Definition get_priority (op : ascii) : Z :=
  if is_char op "+" || is_char op "-" then 1
  else if is_char op "*" || is_char op "/" || is_char op "%" then 2
  else if is_char op "^" then 3
  else if is_char op "!" then 4
  else if is_char op "m" then 3
  else 0.

(** What the evaluator leaves behind for its caller: the flag
    [*error_already_printed] and the lines written to standard output. *)
Record world : Type := mkWorld {
  error_already_printed : bool;
  stdout : list string
}.

Definition print_error (msg : string) (w : world) : world :=
  mkWorld true (stdout w ++ [msg]).

(** How a call ends: with a value, with the failure return ([false] or
    [NULL]), by reading through a null pointer, or not at all. *)
Inductive result (A : Type) : Type :=
  | Done (a : A)
  | Failed
  | NullDeref
  | Hangs.
Arguments Done {A} a.
Arguments Failed {A}.
Arguments NullDeref {A}.
Arguments Hangs {A}.

(** The operand stack holds pointers, [None] being [NULL] ([bi_from_str] may
    return it); its top is the head of the list. *)
Definition num_stack : Type := list (option BigInt).

Definition push_result (r : option BigInt) (nums : num_stack)
    : result num_stack :=
  match r with
  | Some v => Done (Some v :: nums)
  | None => Failed
  end.

(** A signed operation called on pointers: [NULL] if an argument is. *)
Definition lift2 (f : BigInt -> BigInt -> option BigInt)
    (a b : option BigInt) : option BigInt :=
  match a, b with
  | Some a, Some b => f a b
  | _, _ => None
  end.

Definition apply_operation (nums : num_stack) (op : ascii) (w : world)
    : result num_stack * world :=
  match nums with
  | [] => (Failed, w)
  | right_ :: nums =>
      if is_char op "!" then
        match right_ with
        | None => (NullDeref, w)
        | Some right_ =>
            if sign right_ =? -1 then
              (Failed, print_error "Input of factorial must not be negative!" w)
            else if (1 <? length right_)%nat then (Failed, w)
            else
              match bi_fact (digit right_ O) with
              | None => (Hangs, w)
              | Some r => (Done (Some r :: nums), w)
              end
        end
      else if is_char op "m" then
        (push_result (option_map bi_negate right_) nums, w)
      else
        match nums with
        | [] => (Failed, w)
        | left_ :: nums =>
            if is_char op "/" || is_char op "%" then
              match right_ with
              | None => (NullDeref, w)
              | Some r =>
                  if sign r =? 0 then
                    (Failed, print_error "Division by zero!" w)
                  else if is_char op "/"
                  then (push_result (lift2 bi_div left_ right_) nums, w)
                  else (push_result (lift2 bi_mod left_ right_) nums, w)
              end
            else if is_char op "+" then
              (push_result (lift2 (fun a b => Some (bi_add a b)) left_ right_) nums, w)
            else if is_char op "-" then
              (push_result (lift2 (fun a b => Some (bi_sub a b)) left_ right_) nums, w)
            else if is_char op "*" then
              (push_result (lift2 (fun a b => Some (bi_mul a b)) left_ right_) nums, w)
            else if is_char op "^" then
              (push_result (lift2 bi_pow left_ right_) nums, w)
            else (Failed, w)
        end
  end.

(** A failure, a null dereference or a hang of a callee ends the caller the
    same way. *)
Definition abort {A B : Type} (r : result A) : result B :=
  match r with
  | Done _ => Failed
  | Failed => Failed
  | NullDeref => NullDeref
  | Hangs => Hangs
  end.

(** [while (!empty(ops) && peek(ops) != '(') if (!apply(pop(ops))) return NULL;] *)
Fixpoint drain_until_paren (ops : list ascii) (nums : num_stack) (w : world)
    : result (num_stack * list ascii) * world :=
  match ops with
  | [] => (Done (nums, []), w)
  | op :: ops' =>
      if is_char op "(" then (Done (nums, ops), w)
      else
        match apply_operation nums op w with
        | (Done nums', w') => drain_until_paren ops' nums' w'
        | (r, w') => (abort r, w')
        end
  end.

(** The loop that applies the operators binding at least as tightly as
    [curr_op], with its three [break]s. *)
Fixpoint drain_higher (curr_op : ascii) (ops : list ascii) (nums : num_stack)
    (w : world) : result (num_stack * list ascii) * world :=
  match ops with
  | [] => (Done (nums, []), w)
  | op :: ops' =>
      if get_priority curr_op <=? get_priority op then
        if is_char curr_op "m" then (Done (nums, ops), w)
        else if is_char curr_op "^" && is_char op "^" then (Done (nums, ops), w)
        else if is_char curr_op "^" && (get_priority op =? get_priority curr_op)
        then (Done (nums, ops), w)
        else
          match apply_operation nums op w with
          | (Done nums', w') => drain_higher curr_op ops' nums' w'
          | (r, w') => (abort r, w')
          end
      else (Done (nums, ops), w)
  end.

(** [while (!empty(ops)) if (!apply(pop(ops))) return NULL;] *)
Fixpoint drain_all (ops : list ascii) (nums : num_stack) (w : world)
    : result num_stack * world :=
  match ops with
  | [] => (Done nums, w)
  | op :: ops' =>
      match apply_operation nums op w with
      | (Done nums', w') => drain_all ops' nums' w'
      | (r, w') => (abort r, w')
      end
  end.

(** The characters the evaluator copies into a number token. *)
Definition is_number_char (c : ascii) : bool :=
  negb (is_char c NUL)
  && (isxdigit c || is_char c "x" || is_char c "X"
      || is_char c "b" || is_char c "B").

(** State of the evaluator: [i], [can_be_sign], the operand stack, the
    operator stack (top first) and the output so far. *)
Definition estate : Type := nat * bool * num_stack * list ascii * world.

Definition eval_step (input : list ascii) (st : estate)
    : ctl estate (result BigInt * world) :=
  let '(i, can_be_sign, nums, ops, w) := st in
  let c := char_at input i in
  if is_char c NUL then Break st
  else if isspace c then Next (S i, can_be_sign, nums, ops, w)
  else if isdigit c then
    let i' := scan is_number_char input i in
    let dynamic_tmp_buf := take (i' - i) (drop i input) in
    Next (i', false, bi_from_str dynamic_tmp_buf :: nums, ops, w)
  else if is_char c "(" then Next (S i, true, nums, c :: ops, w)
  else if is_char c ")" then
    match drain_until_paren ops nums w with
    | (Done (nums, ops), w) => Next (S i, false, nums, drop 1 ops, w)
    | (r, w) => Ret (abort r, w)
    end
  else if is_char c "+" || is_char c "-" || is_char c "*" || is_char c "/"
          || is_char c "%" || is_char c "^" || is_char c "!" then
    if can_be_sign && is_char c "+" then
      Next (S i, can_be_sign, nums, ops, w)
    else if can_be_sign && negb (is_char c "-") then Ret (Failed, w)
    else
      let curr_op := if can_be_sign then "m"%char else c in
      match drain_higher curr_op ops nums w with
      | (Done (nums, ops), w) =>
          Next (S i, negb (is_char curr_op "!"), nums,
                curr_op :: ops, w)
      | (r, w) => Ret (abort r, w)
      end
  else Next (S i, can_be_sign, nums, ops, w).

(** [eval_expression(input, &error_already_printed)]: [Failed] is the [NULL]
    return. *)
Definition eval_expression (input : list ascii) (w : world)
    : result BigInt * world :=
  if negb (validate_expression_syntax input) then (Failed, w)
  else
    match run_loop (S (strlen input)) (eval_step input)
            (O, true, [], [], w) with
    | Ret r => r
    | Next (_, _, _, _, w) => (Hangs, w)
    | Break (_, _, nums, ops, w) =>
        match drain_all ops nums w with
        | (Done (Some final_result :: _), w) => (Done final_result, w)
        | (Done _, w) => (Failed, w)
        | (r, w) => (abort r, w)
        end
    end.

(** ** The shell (main.c) *)

Definition BASE_HEX : Z := 16.
Definition BASE_BIN : Z := 2.

Definition text (s : list ascii) : string := string_of_list_ascii s.

(** The characters of a C string up to its terminator. *)
Definition cstr (s : list ascii) : list ascii := take (strlen s) s.

(** [strstr(p, word) == p]. *)
Definition starts_with (word : string) (p : list ascii) : bool :=
  forallb (fun i => is_char (char_at p i) (char_at (lit word) i))
    (seq 0 (Datatypes.length (lit word))).

Definition list_eqb (a b : list ascii) : bool :=
  (Datatypes.length a =? Datatypes.length b)%nat
  && forallb (fun i => is_char (char_at a i) (char_at b i))
       (seq 0 (Datatypes.length a)).

Definition MAX_CMD_NAME : nat := 256.

Definition quote : string := String (ascii_of_nat 34) EmptyString.

(** The end of [process_and_print]: print the value in the selected base, or
    "Syntax error!" when the evaluator failed without printing. *)
Definition report_result (output_num_system : Z) (r : result BigInt * world)
    : result (Z * list string) :=
  match r with
  | (Done result, w) =>
      let text_ :=
        if output_num_system =? BASE_HEX then bi_to_hex result
        else if output_num_system =? BASE_BIN then bi_to_bin result
        else bi_to_dec result in
      Done (output_num_system, stdout w ++ [text text_])
  | (Failed, w) =>
      Done (output_num_system,
            stdout w ++ (if error_already_printed w then []
                         else ["Syntax error!"%string]))
  | (NullDeref, _) => NullDeref
  | (Hangs, _) => Hangs
  end.

(** [process_and_print(row)] with the global [output_num_system] passed in
    and out; the second component is what the call prints, line by line. *)
Definition process_and_print (row : list ascii) (output_num_system : Z)
    : result (Z * list string) :=
  if (strlen row <? 1)%nat then Done (output_num_system, [])
  else
    let p := skip_spaces (cstr row) in
    if list_eqb p (lit "quit") then Done (output_num_system, ["quit"%string])
    else if starts_with "out" p then
      Done (output_num_system,
            [if output_num_system =? BASE_HEX then "hex"%string
             else if output_num_system =? BASE_BIN then "bin"%string
             else "dec"%string])
    else if starts_with "hex" p then Done (BASE_HEX, ["hex"%string])
    else if starts_with "bin" p then Done (BASE_BIN, ["bin"%string])
    else if starts_with "dec" p then Done (BASE_DEC, ["dec"%string])
    else if isalpha (char_at p 0) && negb (existsb (strchr "+-*/%^()!") p) then
      let cmd_name := take (MAX_CMD_NAME - 1) p in
      let n :=
        while_loop (Datatypes.length cmd_name)
          (fun n => (0 <? n)%nat && isspace (char_at cmd_name (n - 1)))
          Nat.pred (Datatypes.length cmd_name) in
      Done (output_num_system,
            [("Invalid command " ++ quote ++ text (take n cmd_name) ++ quote
              ++ "!")%string])
    else report_result output_num_system (eval_expression p (mkWorld false [])).

(** [run base s]: the shell processes the line [s] with output base [base]. *)
Definition run (base : Z) (s : string) : result (Z * list string) :=
  process_and_print (lit s) base.

(** ** Vocabulary of the specification *)

(** The number a list of limbs stands for, least significant limb first. *)
Fixpoint limbs_value (l : list Z) : Z :=
  match l with
  | [] => 0
  | d :: l' => d + 2 ^ 32 * limbs_value l'
  end.

(** The limbs in use. *)
Definition limbs (n : BigInt) : list Z := take (length n) (digits n).

Definition magnitude (n : BigInt) : Z := limbs_value (limbs n).

(** The integer a [BigInt] denotes. *)
Definition value (n : BigInt) : Z := sign n * magnitude n.

Definition is_limb (d : Z) : Prop := 0 <= d < 2 ^ 32.

(** The limbs in use lie inside the buffer, and every word is a 32-bit one. *)
Definition well_formed (n : BigInt) : Prop :=
  (1 <= length n <= capacity n)%nat /\ Forall is_limb (digits n).

(** The normalized form of the data model. *)
Definition normalized_form (n : BigInt) : Prop :=
  (sign n = 0 /\ length n = 1%nat /\ digit n 0 = 0)
  \/ ((sign n = -1 \/ sign n = 1) /\ (1 <= length n)%nat
      /\ digit n (length n - 1) <> 0).

Definition normalized (n : BigInt) : Prop :=
  well_formed n /\ normalized_form n.

(** Equality of two [BigInt]s as values of the data model: the words past
    [length] and the capacity are not part of the value. *)
Definition same_int (a b : BigInt) : Prop :=
  sign a = sign b /\ length a = length b /\ limbs a = limbs b.

Definition bit_of (c : ascii) : Z := if is_char c "1" then 1 else 0.

(** The value of a string of binary digits read as an unsigned number. *)
Definition bits_value (s : list ascii) : Z :=
  fold_left (fun acc c => 2 * acc + bit_of c) s 0.

(** The value of a string of binary digits read in two's complement over as
    many bits as the string has digits. *)
Definition twos_complement (s : list ascii) : Z :=
  if is_char (char_at s 0) "1"
  then bits_value s - 2 ^ Z.of_nat (Datatypes.length s)
  else bits_value s.

(** No zero limb on top, except for the single limb of zero. *)
Definition trimmed (n : BigInt) : Prop :=
  length n = 1%nat \/ digit n (length n - 1) <> 0.

(** The sign of a number that is not negative. *)
Definition small_sign (n : BigInt) : Prop := sign n = 0 \/ sign n = 1.

(** One step of reading a decimal string: a digit is appended, any other
    character is skipped. *)
Definition dec_step (acc : Z) (c : ascii) : Z :=
  if isdigit c then 10 * acc + (code c - code "0") else acc.

(** The number a decimal string stands for; other characters are skipped. *)
Definition dec_value (s : list ascii) : Z := fold_left dec_step s 0.

(** [bi_from_str] applies the sign it has read to a non-zero number. *)
Definition apply_sign (sgn : Z) (num : BigInt) : BigInt :=
  if sign num =? 0 then num else set_sign (sign num * sgn) num.

(** The number -5, in a buffer of four words. *)
Definition minus_five : BigInt := mkBigInt (-1) 1 [5; 0; 0; 0].

(** The words of the buffer above the limbs in use are zero, as they are in a
    buffer that came from [bi_create] and [bi_resize] and never shrank. *)
Definition zero_above (n : BigInt) : Prop :=
  forall k, (length n <= k)%nat -> digit n k = 0.

(** A number of one limb, in a buffer of four words as [bi_create] makes it. *)
Definition small (s d : Z) : BigInt := mkBigInt s 1 [d; 0; 0; 0].

(** The canonical zero, in a buffer of four words. *)
Definition zero_int : BigInt := mkBigInt 0 1 [0; 0; 0; 0].

(** The binary operators of the grammar. *)
Definition is_binary_operator (c : ascii) : bool := strchr "+-*/%^" c.

(** The state of the caller before [eval_expression] runs: the flag is
    false and nothing is printed. *)
Definition quiet : world := mkWorld false [].

Definition division_by_zero : string := "Division by zero!".
Definition negative_factorial : string :=
  "Input of factorial must not be negative!".

(** What a call may have done to the flag and the output: nothing, or one of
    the two diagnostics together with the failure return. *)
Definition told (w0 : world) {A : Type} (r : result A * world) : Prop :=
  snd r = w0
  \/ (fst r = Failed
      /\ (snd r = print_error division_by_zero w0
          \/ snd r = print_error negative_factorial w0)).

(** n! as the specification defines it: 0! = 1 and n! = n * (n-1)!. *)
Fixpoint factorial (n : nat) : Z :=
  match n with
  | O => 1
  | S k => Z.of_nat n * factorial k
  end.

(** ** The stacks (stack.c)

    stack.c has the same functions twice: for the operand stack, whose
    elements are [BigInt*] and whose [pop] and [peek] return [NULL] when the
    stack is empty, and for the operator stack, whose elements are [char] and
    whose [pop] and [peek] return NUL.  The model has them once, over the
    element type and that null value.  [data] is the allocated array, its
    size the field [capacity]; a cell that was never written holds [null]
    here (in C it is indeterminate, and no function reads one).  The [int]
    fields are integers; [capacity * 2] is taken not to overflow. *)

Record Stack (A : Type) : Type := mkStack {
  data : list A;
  top : Z;
  stack_capacity : Z
}.
Arguments mkStack {A} data top stack_capacity.
Arguments data {A} s.
Arguments top {A} s.
Arguments stack_capacity {A} s.


Definition stack_is_empty {A : Type} (stack : Stack A) : bool :=
  top stack =? -1.


(** [stack_pop] returns the element and the stack it leaves. *)
Definition stack_pop {A : Type} (null : A) (stack : Stack A) : A * Stack A :=
  if stack_is_empty stack then (null, stack)
  else (nth (Z.to_nat (top stack)) (data stack) null,
        mkStack (data stack) (top stack - 1) (stack_capacity stack)).

Definition stack_peek {A : Type} (null : A) (stack : Stack A) : A :=
  if stack_is_empty stack then null
  else nth (Z.to_nat (top stack)) (data stack) null.

(** The operand stack and the operator stack of the evaluator. *)
Definition BigIntStack : Type := Stack (option BigInt).
Definition CharStack : Type := Stack ascii.
Definition INITIAL_STACK_SIZE : Z := 32.

Definition char_stack_pop (stack : CharStack) : ascii * CharStack :=
  stack_pop NUL stack.
Definition char_stack_peek (stack : CharStack) : ascii :=
  stack_peek NUL stack.
Definition char_stack_is_empty (stack : CharStack) : bool :=
  stack_is_empty stack.

(** ** Unfinished lines (main.c) *)

Definition is_unfinished (text_ : list ascii) : bool :=
  let n := strlen text_ in
  if (n =? 0)%nat then false
  else
    let n :=
      while_loop n
        (fun n => (0 <? n)%nat && isspace (char_at text_ (n - 1)))
        Nat.pred n in
    if (n =? 0)%nat then false
    else
      let c := char_at text_ (n - 1) in
      if strchr "+-*/%^(" c then true
      else if (is_char c "x" || is_char c "X") && (1 <? n)%nat
              && is_char (char_at text_ (n - 2)) "0" then true
      else if (is_char c "b" || is_char c "B") && (1 <? n)%nat
              && is_char (char_at text_ (n - 2)) "0" then
        if (n =? 2)%nat then true
        else
          let prev_prev := char_at text_ (n - 3) in
          if is_char prev_prev "x" || is_char prev_prev "X" then false
          else if isxdigit prev_prev then false
          else true
      else false.

(** ** Vocabulary for the stacks and the parser *)



(** Opening minus closing parentheses in a text. *)
Definition paren_balance (s : list ascii) : Z :=
  fold_left
    (fun d c => if is_char c "(" then d + 1
                else if is_char c ")" then d - 1 else d)
    s 0.

(** The value of a string of hexadecimal digits read as an unsigned number. *)
Definition hex_digits_value (s : list ascii) : Z :=
  fold_left (fun acc c => 16 * acc + hex_value c) s 0.

(** The value of a string of hexadecimal digits read in two's complement over
    four bits per digit. *)
Definition twos_complement_hex (s : list ascii) : Z :=
  if 8 <=? hex_value (char_at s 0)
  then hex_digits_value s - 16 ^ Z.of_nat (Datatypes.length s)
  else hex_digits_value s.

(** The characters an expression may hold: white space, the characters of
    number tokens and the operators. *)
Definition legal_char (c : ascii) : bool :=
  isspace c || isxdigit c || is_char c "x" || is_char c "X" || is_operator c.

(** [j] is the last character before [i] that is not white space. *)
Definition significant_end (input : list ascii) (i j : nat) : Prop :=
  (j < i)%nat /\ isspace (char_at input j) = false
  /\ forall k, (j < k < i)%nat -> isspace (char_at input k) = true.

(** What holds of the validator's state after it has read [input[0..i)]: the
    depth counts the parentheses read and was never negative, every
    character read is legal, an operand was read if none is expected, and the
    last significant character read is not an opening parenthesis unless an
    operand is expected, is not an [x], and is a [b] after a [0] only inside
    the digits of a hexadecimal literal. *)
Definition validator_inv (input : list ascii) (st : vstate) : Prop :=
  let '(i, expect_operand, _, paren_depth) := st in
  (i <= strlen input)%nat
  /\ paren_depth = paren_balance (take i input)
  /\ (forall k, (k <= i)%nat -> 0 <= paren_balance (take k input))
  /\ forallb legal_char (take i input) = true
  /\ (expect_operand = false -> existsb isdigit (take i input) = true)
  /\ (forall j, significant_end input i j ->
        (is_char (char_at input j) "(" = true -> expect_operand = true)
        /\ is_char (char_at input j) "x" = false
        /\ is_char (char_at input j) "X" = false
        /\ (is_char (char_at input j) "b" || is_char (char_at input j) "B"
            = true ->
            is_char (char_at input (j - 1)) "0" = true ->
            (2 <= j)%nat
            /\ is_char (char_at input (j - 2)) "x"
               || is_char (char_at input (j - 2)) "X"
               || isxdigit (char_at input (j - 2)) = true)).

(** ** Tokens *)

(** An expression without white space, cut into the pieces the validator and
    the evaluator read in one round each: a decimal literal or one operator
    character. *)
Inductive token : Type :=
  | TNum (d : list ascii)
  | TSym (c : ascii).

Definition token_text (t : token) : list ascii :=
  match t with
  | TNum d => d
  | TSym c => [c]
  end.

Definition render (ts : list token) : list ascii := flat_map token_text ts.

(** Literals are non-empty runs of decimal digits, no two of them adjacent;
    the other tokens are operator characters. *)
Fixpoint tokens_ok (ts : list token) : bool :=
  match ts with
  | [] => true
  | TNum d :: ts' =>
      forallb isdigit d && negb (Datatypes.length d =? 0)%nat
      && match ts' with TNum _ :: _ => false | _ => true end
      && tokens_ok ts'
  | TSym c :: ts' => is_operator c && tokens_ok ts'
  end.

(** [is_unary] for a sign [c] that stands right after the character
    [prev]. *)
Definition sign_after (prev c : ascii) : bool :=
  if is_char c "-" then
    let is_unary :=
      if negb (is_char prev "(") && negb (is_operator prev)
      then false else true in
    if is_char prev "!" then false else is_unary
  else
    if negb (is_char prev "(") then false else true.

Definition unary_after (prev : option token) (c : ascii) : bool :=
  match prev with
  | None => true
  | Some (TNum _) => false
  | Some (TSym p) => sign_after p c
  end.

(** One round of the validator on a token: [expect_operand],
    [last_was_operator] and [paren_depth] after it, or [None] for
    [return false]. *)
Definition tstate : Type := bool * bool * Z.

Definition validate_token (prev : option token) (t : token) (st : tstate)
    : option tstate :=
  let '(expect_operand, last_was_operator, paren_depth) := st in
  match t with
  | TNum _ =>
      if negb expect_operand then None else Some (false, false, paren_depth)
  | TSym c =>
      if is_char c "(" then
        if negb expect_operand then None
        else Some (true, true, paren_depth + 1)
      else if is_char c ")" then
        if expect_operand || (paren_depth <=? 0) then None
        else Some (false, false, paren_depth - 1)
      else if is_char c "!" then
        if expect_operand then None else Some (false, false, paren_depth)
      else
        if (is_char c "-" || is_char c "+") && unary_after prev c then
          Some (expect_operand, true, paren_depth)
        else if last_was_operator && negb (is_char c "!") then None
        else Some (true, true, paren_depth)
  end.

Fixpoint validate_tokens (prev : option token) (ts : list token) (st : tstate)
    : option tstate :=
  match ts with
  | [] => Some st
  | t :: ts' =>
      match validate_token prev t st with
      | None => None
      | Some st' => validate_tokens (Some t) ts' st'
      end
  end.

Definition tokens_accepted (ts : list token) : bool :=
  match validate_tokens None ts (true, false, 0) with
  | None => false
  | Some (expect_operand, _, paren_depth) =>
      if negb (paren_depth =? 0) then false
      else if expect_operand then false
      else
        match last ts with
        | Some (TSym c) => negb (strchr "+-*/%^" c)
        | _ => true
        end
  end.

(** One round of the evaluator on a token: [can_be_sign], the two stacks and
    the output after it. *)
Definition ectx : Type := bool * num_stack * list ascii * world.

Definition eval_token (t : token) (st : ectx)
    : ctl ectx (result BigInt * world) :=
  let '(can_be_sign, nums, ops, w) := st in
  match t with
  | TNum d => Next (false, bi_from_str d :: nums, ops, w)
  | TSym c =>
      if is_char c "(" then Next (true, nums, c :: ops, w)
      else if is_char c ")" then
        match drain_until_paren ops nums w with
        | (Done (nums, ops), w) => Next (false, nums, drop 1 ops, w)
        | (r, w) => Ret (abort r, w)
        end
      else
        if can_be_sign && is_char c "+" then Next (can_be_sign, nums, ops, w)
        else if can_be_sign && negb (is_char c "-") then Ret (Failed, w)
        else
          let curr_op := if can_be_sign then "m"%char else c in
          match drain_higher curr_op ops nums w with
          | (Done (nums, ops), w) =>
              Next (negb (is_char curr_op "!"), nums, curr_op :: ops, w)
          | (r, w) => Ret (abort r, w)
          end
  end.

Fixpoint eval_tokens_loop (ts : list token) (st : ectx)
    : ctl ectx (result BigInt * world) :=
  match ts with
  | [] => Break st
  | t :: ts' =>
      match eval_token t st with
      | Next st' => eval_tokens_loop ts' st'
      | r => r
      end
  end.

(** [eval_expression] on the tokens of an expression. *)
Definition eval_tokens (ts : list token) (w : world) : result BigInt * world :=
  if negb (tokens_accepted ts) then (Failed, w)
  else
    match eval_tokens_loop ts (true, [], [], w) with
    | Ret r => r
    | Next (_, _, _, w) => (Hangs, w)
    | Break (_, nums, ops, w) =>
        match drain_all ops nums w with
        | (Done (Some final_result :: _), w) => (Done final_result, w)
        | (Done _, w) => (Failed, w)
        | (r, w) => (abort r, w)
        end
    end.

(** The outcome of a round on a token, with the position put back. *)
Definition at_pos {R : Type} (i : nat) (r : ctl ectx R) : ctl estate R :=
  match r with
  | Next (can_be_sign, nums, ops, w) => Next (i, can_be_sign, nums, ops, w)
  | Break (can_be_sign, nums, ops, w) => Break (i, can_be_sign, nums, ops, w)
  | Ret r => Ret r
  end.

(** The text of a token sequence with white space before each token and
    after the last one. *)
Fixpoint spaced (sts : list (list ascii * token)) (tail : list ascii)
    : list ascii :=
  match sts with
  | [] => tail
  | (ws, t) :: sts' => ws ++ token_text t ++ spaced sts' tail
  end.

Definition spaces_only (sts : list (list ascii * token)) : bool :=
  forallb (fun p => forallb isspace (fst p)) sts.

(** The last token before a position: the text [pre] read so far ends with
    the last character of that token and white space, or is white space only
    when no token was read. *)
Definition seen_before (pre : list ascii) (prev : option token) : Prop :=
  match prev with
  | None => forallb isspace pre = true
  | Some t =>
      exists X p ws,
        pre = X ++ p :: ws /\ forallb isspace ws = true /\ isspace p = false
        /\ match t with
           | TSym c => p = c
           | TNum _ => isdigit p = true
           end
  end.


(** * Loop rules *)

Lemma for_loop_S {St : Type} (n : nat) (body : nat -> St -> St) (s : St) :
  for_loop (S n) body s = body n (for_loop n body s).
Proof.
  unfold for_loop. rewrite seq_S, fold_left_app. reflexivity.
Qed.

(** The invariant rule for a counted loop. *)
Lemma for_loop_inv {St : Type} (P : nat -> St -> Prop) (n : nat)
    (body : nat -> St -> St) (s : St) :
  P O s ->
  (forall i s, (i < n)%nat -> P i s -> P (S i) (body i s)) ->
  P n (for_loop n body s).
Proof.
  intros H0 Hstep. induction n as [|n IH].
  - exact H0.
  - rewrite for_loop_S. apply Hstep; [lia|]. apply IH.
    intros i s' Hi. apply Hstep. lia.
Qed.

(** The invariant rule for a [while] loop with a variant [m]: with enough
    fuel the loop leaves through its test. *)
Lemma while_loop_inv {St : Type} (P : St -> Prop) (m : St -> nat)
    (cond : St -> bool) (body : St -> St) :
  (forall s, P s -> cond s = true -> P (body s) /\ (m (body s) < m s)%nat) ->
  forall fuel s, P s -> (m s <= fuel)%nat ->
    P (while_loop fuel cond body s)
    /\ cond (while_loop fuel cond body s) = false.
Proof.
  intros Hstep fuel. induction fuel as [|fuel IH]; intros s HP Hm; simpl.
  - destruct (cond s) eqn:Hc; [|auto].
    destruct (Hstep s HP Hc) as [_ Hlt]. lia.
  - destruct (cond s) eqn:Hc; [|auto].
    destruct (Hstep s HP Hc) as [HP' Hlt]. apply IH; [exact HP'|lia].
Qed.

(** * Machine words *)

Lemma pow32 : 2 ^ 32 = 4294967296.
Proof. reflexivity. Qed.

Lemma pow64 : 2 ^ 64 = 18446744073709551616.
Proof. reflexivity. Qed.

Lemma u32_range x : is_limb (u32 x).
Proof. unfold is_limb, u32. apply Z.mod_pos_bound. reflexivity. Qed.

Lemma u32_small x : is_limb x -> u32 x = x.
Proof. unfold is_limb, u32. intros. apply Z.mod_small. lia. Qed.

Lemma u64_small x : 0 <= x < 2 ^ 64 -> u64 x = x.
Proof. unfold u64. intros. apply Z.mod_small. lia. Qed.

Lemma shiftr32 x : Z.shiftr x BITS_IN_WORD = x / 2 ^ 32.
Proof. unfold BITS_IN_WORD. rewrite Z.shiftr_div_pow2 by lia. reflexivity. Qed.

(** Splitting a double word into its low and high limb. *)
Lemma split_word x : x = u32 x + 2 ^ 32 * (x / 2 ^ 32).
Proof. unfold u32. pose proof (Z.div_mod x (2 ^ 32)). lia. Qed.

Lemma not32_eq x : is_limb x -> not32 x = 2 ^ 32 - 1 - x.
Proof.
  unfold is_limb, not32, u32. intros H.
  unfold Z.lnot. replace (Z.pred (- x)) with (2 ^ 32 - 1 - x + (-1) * 2 ^ 32) by lia.
  rewrite Z.mod_add by lia. apply Z.mod_small. lia.
Qed.

Lemma lor_disjoint a b : Z.land a b = 0 -> Z.lor a b = a + b.
Proof.
  intros H. pose proof (Z.add_lor_land a b) as E. rewrite H in E. lia.
Qed.

(** * Limb lists *)

Lemma limbs_value_app l1 l2 :
  limbs_value (l1 ++ l2)
  = limbs_value l1 + 2 ^ (32 * Z.of_nat (Datatypes.length l1)) * limbs_value l2.
Proof.
  induction l1 as [|d l1 IH]; simpl Datatypes.length; simpl limbs_value; simpl app.
  - change (32 * Z.of_nat 0) with 0. lia.
  - simpl limbs_value. rewrite IH.
    replace (32 * Z.of_nat (S (Datatypes.length l1)))
      with (32 + 32 * Z.of_nat (Datatypes.length l1)) by lia.
    rewrite Z.pow_add_r by lia. ring.
Qed.

Lemma limbs_value_replicate0 k : limbs_value (replicate k 0) = 0.
Proof. induction k as [|k IH]; simpl; [reflexivity|]. rewrite IH. reflexivity. Qed.

Lemma limbs_value_bound l :
  Forall is_limb l -> 0 <= limbs_value l < 2 ^ (32 * Z.of_nat (Datatypes.length l)).
Proof.
  induction 1 as [|d l Hd Hl IH]; simpl Datatypes.length; simpl limbs_value.
  - change (32 * Z.of_nat 0) with 0. simpl. lia.
  - replace (32 * Z.of_nat (S (Datatypes.length l)))
      with (32 + 32 * Z.of_nat (Datatypes.length l)) by lia.
    rewrite Z.pow_add_r by lia. unfold is_limb in Hd. nia.
Qed.

Lemma pow32_pos k : 0 < 2 ^ (32 * Z.of_nat k).
Proof. apply Z.pow_pos_nonneg; lia. Qed.

Lemma pow32_S k : 2 ^ (32 * Z.of_nat (S k)) = 2 ^ 32 * 2 ^ (32 * Z.of_nat k).
Proof.
  replace (32 * Z.of_nat (S k)) with (32 + 32 * Z.of_nat k) by lia.
  apply Z.pow_add_r; lia.
Qed.

Lemma nth_insert_eq (l : list Z) i v d :
  (i < Datatypes.length l)%nat -> nth i (<[i:=v]> l) d = v.
Proof.
  revert i. induction l as [|x l IH]; intros [|i] H; simpl in *; try lia.
  apply IH. lia.
Qed.

Lemma nth_insert_ne (l : list Z) i j v d :
  i <> j -> nth j (<[i:=v]> l) d = nth j l d.
Proof.
  revert i j. induction l as [|x l IH]; intros [|i] [|j] H; simpl; try reflexivity.
  - congruence.
  - apply IH. congruence.
Qed.

Lemma take_S_nth (l : list Z) i :
  (i < Datatypes.length l)%nat -> take (S i) l = take i l ++ [nth i l 0].
Proof.
  revert i. induction l as [|x l IH]; intros [|i] H; simpl in *; try lia.
  - reflexivity.
  - f_equal. apply IH. lia.
Qed.

Lemma limbs_value_take_S (l : list Z) i :
  (i < Datatypes.length l)%nat ->
  limbs_value (take (S i) l)
  = limbs_value (take i l) + 2 ^ (32 * Z.of_nat i) * nth i l 0.
Proof.
  intros H. rewrite take_S_nth by exact H. rewrite limbs_value_app.
  rewrite length_take. replace (i `min` Datatypes.length l)%nat with i by lia.
  simpl. lia.
Qed.

Lemma Forall_insert_limb (l : list Z) i v :
  Forall is_limb l -> is_limb v -> Forall is_limb (<[i:=v]> l).
Proof.
  intros Hl Hv. revert i. induction Hl as [|x l Hx Hl IH]; intros [|i]; simpl;
    constructor; auto.
Qed.

Lemma Forall_nth_limb (l : list Z) i : Forall is_limb l -> is_limb (nth i l 0).
Proof.
  intros Hl. revert i. induction Hl as [|x l Hx Hl IH]; intros [|i]; simpl; auto;
    unfold is_limb; lia.
Qed.

Lemma Forall_replicate0 k : Forall is_limb (replicate k 0).
Proof. apply Forall_replicate. unfold is_limb. lia. Qed.

(** Limb lists of one length with one value are equal. *)
Lemma limbs_value_inj l1 l2 :
  Forall is_limb l1 -> Forall is_limb l2 ->
  Datatypes.length l1 = Datatypes.length l2 ->
  limbs_value l1 = limbs_value l2 -> l1 = l2.
Proof.
  intros H1. revert l2. induction H1 as [|x l1 Hx H1 IH]; intros l2 H2 Hlen Hv.
  - destruct l2; [reflexivity|discriminate].
  - destruct l2 as [|y l2]; [discriminate|].
    inversion H2 as [|? ? Hy H2']; subst. simpl in Hv.
    unfold is_limb in *. rewrite pow32 in *.
    assert (limbs_value l1 = limbs_value l2) as Hv' by lia.
    assert (x = y) as -> by lia.
    f_equal. apply IH; auto.
Qed.

(** A limb list whose last limb is non-zero is at least a power of the base. *)
Lemma limbs_value_top l :
  Forall is_limb l -> l <> [] -> nth (Datatypes.length l - 1) l 0 <> 0 ->
  2 ^ (32 * Z.of_nat (Datatypes.length l - 1)) <= limbs_value l.
Proof.
  intros Hl Hne Htop.
  destruct (exists_last Hne) as [l' [d ->]].
  rewrite length_app in *. simpl in *.
  replace (Datatypes.length l' + 1 - 1)%nat with (Datatypes.length l') in * by lia.
  rewrite app_nth2 in Htop by lia. rewrite Nat.sub_diag in Htop. simpl in Htop.
  apply Forall_app in Hl as [Hl' Hd]. inversion Hd as [|? ? Hd' _]; subst.
  rewrite limbs_value_app. simpl.
  pose proof (limbs_value_bound l' Hl'). pose proof (pow32_pos (Datatypes.length l')).
  unfold is_limb in Hd'. nia.
Qed.

(** The rule for a [while] loop whose invariant counts the fuel that is left:
    if the invariant at fuel 0 rules out another round, the loop leaves
    through its test. *)
Lemma while_loop_fuel_inv {St : Type} (P : nat -> St -> Prop)
    (cond : St -> bool) (body : St -> St) :
  (forall f s, P (S f) s -> cond s = true -> P f (body s)) ->
  (forall s, P O s -> cond s = false) ->
  forall fuel s, P fuel s ->
    exists f', P f' (while_loop fuel cond body s)
               /\ cond (while_loop fuel cond body s) = false.
Proof.
  intros Hstep Hzero fuel. induction fuel as [|fuel IH]; intros s HP; simpl.
  - exists O. split; [exact HP|apply Hzero; exact HP].
  - destruct (cond s) eqn:Hc.
    + apply IH. apply Hstep; assumption.
    + exists (S fuel). split; assumption.
Qed.

(** A property kept by the body is kept by the loop, whatever the fuel. *)
Lemma while_loop_preserves {St : Type} (P : St -> Prop)
    (cond : St -> bool) (body : St -> St) :
  (forall s, P s -> cond s = true -> P (body s)) ->
  forall fuel s, P s -> P (while_loop fuel cond body s).
Proof.
  intros Hstep fuel. induction fuel as [|fuel IH]; intros s HP; simpl.
  - exact HP.
  - destruct (cond s) eqn:Hc; [|exact HP]. apply IH. apply Hstep; assumption.
Qed.


(** * Buffers *)

Lemma limbs_value_take_insert (l : list Z) i n v :
  (i < n)%nat -> (n <= Datatypes.length l)%nat ->
  limbs_value (take n (<[i:=v]> l))
  = limbs_value (take n l) + 2 ^ (32 * Z.of_nat i) * (v - nth i l 0).
Proof.
  revert i n. induction l as [|x l IH]; intros i n Hi Hn; simpl in Hn; [lia|].
  destruct n as [|n]; [lia|]. destruct i as [|i]; simpl.
  - change (32 * Z.of_nat 0) with 0. simpl. lia.
  - rewrite IH by lia. rewrite pow32_S. ring.
Qed.

Lemma limbs_value_take_insert_ge (l : list Z) i n v :
  (n <= i)%nat -> limbs_value (take n (<[i:=v]> l)) = limbs_value (take n l).
Proof. intros H. rewrite take_insert_ge by exact H. reflexivity. Qed.

(** Taking more than the limbs in use adds what lies above them. *)
Lemma limbs_value_take_le (l : list Z) n :
  Forall is_limb l ->
  0 <= limbs_value (take n l) < 2 ^ (32 * Z.of_nat n).
Proof.
  intros Hl.
  assert (Forall is_limb (take n l)) as Hf by (apply Forall_take; exact Hl).
  pose proof (limbs_value_bound (take n l) Hf) as Hb.
  rewrite length_take in Hb.
  assert (2 ^ (32 * Z.of_nat (n `min` Datatypes.length l))
          <= 2 ^ (32 * Z.of_nat n)) by (apply Z.pow_le_mono_r; lia).
  lia.
Qed.

Lemma take_all_zero_above (l : list Z) n m :
  (n <= m)%nat ->
  (forall k, (n <= k < m)%nat -> nth k l 0 = 0) ->
  limbs_value (take m l) = limbs_value (take n l).
Proof.
  intros Hnm. induction m as [|m IH]; intros Hz.
  - replace n with O by lia. reflexivity.
  - destruct (Nat.eq_dec n (S m)) as [->|Hne]; [reflexivity|].
    destruct (Nat.lt_ge_cases m (Datatypes.length l)) as [Hlt|Hge].
    + rewrite limbs_value_take_S by exact Hlt. rewrite Hz by lia.
      rewrite IH; [lia|lia|]. intros k Hk. apply Hz. lia.
    + rewrite (take_ge l (S m)) by lia. rewrite <- (take_ge l m) at 1 by lia.
      apply IH; [lia|]. intros k Hk. apply Hz. lia.
Qed.

(** * Well-formedness of the elementary updates *)

Lemma well_formed_set_digit n i v :
  well_formed n -> is_limb v -> well_formed (set_digit i v n).
Proof.
  intros [Hlen Hd] Hv. split; unfold capacity in *; simpl.
  - rewrite length_insert. exact Hlen.
  - apply Forall_insert_limb; assumption.
Qed.

Lemma well_formed_set_sign n s : well_formed n -> well_formed (set_sign s n).
Proof. intros H. exact H. Qed.

Lemma well_formed_create : well_formed bi_create.
Proof.
  split; [vm_compute; lia|]. apply Forall_replicate0.
Qed.

Lemma well_formed_resize n c : well_formed n -> well_formed (bi_resize n c).
Proof.
  intros [Hlen Hd]. unfold bi_resize.
  destruct (c <=? capacity n)%nat eqn:E; [split; assumption|].
  split; unfold capacity in *; simpl.
  - rewrite length_app. lia.
  - apply Forall_app. split; [assumption|apply Forall_replicate0].
Qed.

Lemma capacity_resize n c : (c <= capacity (bi_resize n c))%nat.
Proof.
  unfold bi_resize. destruct (c <=? capacity n)%nat eqn:E.
  - apply Nat.leb_le in E. exact E.
  - apply Nat.leb_gt in E. unfold capacity in *. simpl. rewrite length_app, length_replicate. lia.
Qed.

Lemma capacity_resize_mono n c : (capacity n <= capacity (bi_resize n c))%nat.
Proof.
  unfold bi_resize. destruct (c <=? capacity n)%nat eqn:E; [lia|].
  unfold capacity. simpl. rewrite length_app. lia.
Qed.

Lemma length_resize n c : length (bi_resize n c) = length n.
Proof. unfold bi_resize. destruct (c <=? capacity n)%nat; reflexivity. Qed.

Lemma sign_resize n c : sign (bi_resize n c) = sign n.
Proof. unfold bi_resize. destruct (c <=? capacity n)%nat; reflexivity. Qed.

Lemma limbs_resize n c :
  (length n <= capacity n)%nat -> limbs (bi_resize n c) = limbs n.
Proof.
  intros H. unfold limbs, bi_resize.
  destruct (c <=? capacity n)%nat; [reflexivity|]. simpl.
  apply take_app_le. exact H.
Qed.

Lemma nth_replicate0 k i : nth i (replicate k 0) 0 = 0.
Proof.
  revert i. induction k as [|k IH]; intros [|i]; simpl; auto.
Qed.

Lemma digit_resize n c i :
  digit (bi_resize n c) i = digit n i.
Proof.
  unfold digit, bi_resize. destruct (c <=? capacity n)%nat; [reflexivity|]. simpl.
  destruct (Nat.lt_ge_cases i (Datatypes.length (digits n))) as [Hlt|Hge].
  - apply app_nth1. exact Hlt.
  - rewrite app_nth2 by exact Hge. rewrite (nth_overflow (digits n)) by exact Hge.
    apply nth_replicate0.
Qed.

Lemma well_formed_copy n : well_formed n -> well_formed (bi_copy n).
Proof.
  intros [Hlen Hd]. split; unfold capacity in *; simpl.
  - rewrite length_app, length_take, length_replicate. lia.
  - apply Forall_app. split; [apply Forall_take; assumption|apply Forall_replicate0].
Qed.

Lemma limbs_copy n : (length n <= capacity n)%nat -> limbs (bi_copy n) = limbs n.
Proof.
  intros H. unfold limbs, bi_copy, capacity in *. simpl.
  rewrite take_app_le by (rewrite length_take; lia).
  rewrite take_take. f_equal. lia.
Qed.

Lemma capacity_copy n : (length n <= capacity n)%nat -> capacity (bi_copy n) = capacity n.
Proof.
  intros H. unfold bi_copy, capacity in *. simpl.
  rewrite length_app, length_take, length_replicate. lia.
Qed.

Lemma same_int_copy n : well_formed n -> same_int (bi_copy n) n.
Proof.
  intros [Hlen _]. repeat split. apply limbs_copy. lia.
Qed.

Lemma digit_limbs n i : (i < length n)%nat -> digit n i = nth i (limbs n) 0.
Proof.
  intros H. unfold digit, limbs. rewrite !nth_lookup, lookup_take_lt by exact H.
  reflexivity.
Qed.

(** * Normalization *)

Lemma trim_length_le d len : (trim_length d len <= len)%nat.
Proof.
  induction len as [|[|len] IH]; simpl; try lia.
  destruct (nth (S len) d 0 =? 0); simpl in IH; lia.
Qed.

Lemma trim_length_pos d len : (1 <= len)%nat -> (1 <= trim_length d len)%nat.
Proof.
  induction len as [|[|len] IH]; simpl; try lia. intros _.
  destruct (nth (S len) d 0 =? 0); [apply IH|]; lia.
Qed.

Lemma trim_length_top d len :
  trim_length d len = 1%nat \/ trim_length d len = O
  \/ nth (trim_length d len - 1) d 0 <> 0.
Proof.
  induction len as [|[|len] IH]; simpl; try tauto.
  destruct (nth (S len) d 0 =? 0) eqn:E; [exact IH|].
  right. right. replace (S (S len) - 1)%nat with (S len) by lia.
  apply Z.eqb_neq. exact E.
Qed.

Lemma trim_length_value d len :
  (len <= Datatypes.length d)%nat ->
  limbs_value (take (trim_length d len) d) = limbs_value (take len d).
Proof.
  induction len as [|[|len] IH]; intros H; try reflexivity.
  change (trim_length d (S (S len)))
    with (if nth (S len) d 0 =? 0 then trim_length d (S len) else S (S len)).
  destruct (nth (S len) d 0 =? 0) eqn:E; [|reflexivity].
  apply Z.eqb_eq in E. rewrite IH by lia.
  rewrite (limbs_value_take_S d (S len)) by lia. rewrite E. lia.
Qed.

Lemma trim_length_idem d len :
  trim_length d (trim_length d len) = trim_length d len.
Proof.
  induction len as [|[|len] IH]; try reflexivity.
  change (trim_length d (S (S len)))
    with (if nth (S len) d 0 =? 0 then trim_length d (S len) else S (S len)).
  destruct (nth (S len) d 0 =? 0) eqn:E; [exact IH|].
  simpl. rewrite E. reflexivity.
Qed.

(** A buffer that is already trimmed is left alone. *)
Lemma trim_length_trimmed d len :
  len = 1%nat \/ nth (len - 1) d 0 <> 0 -> trim_length d len = len.
Proof.
  intros [->|H]; [reflexivity|].
  destruct len as [|[|len]]; try reflexivity.
  replace (S (S len) - 1)%nat with (S len) in H by lia.
  apply Z.eqb_neq in H. simpl. rewrite H. reflexivity.
Qed.

Lemma digits_normalize n : digits (bi_normalize n) = digits n.
Proof.
  unfold bi_normalize.
  destruct ((trim_length (digits n) (length n) =? 1)%nat && (nth 0 (digits n) 0 =? 0));
    reflexivity.
Qed.

Lemma length_normalize n :
  length (bi_normalize n) = trim_length (digits n) (length n).
Proof.
  unfold bi_normalize.
  destruct ((trim_length (digits n) (length n) =? 1)%nat && (nth 0 (digits n) 0 =? 0));
    reflexivity.
Qed.

Lemma bi_normalize_idem n : bi_normalize (bi_normalize n) = bi_normalize n.
Proof.
  unfold bi_normalize at 1. rewrite digits_normalize, length_normalize, trim_length_idem.
  unfold bi_normalize.
  destruct ((trim_length (digits n) (length n) =? 1)%nat && (nth 0 (digits n) 0 =? 0));
    reflexivity.
Qed.

Lemma well_formed_normalize n : well_formed n -> well_formed (bi_normalize n).
Proof.
  intros [Hlen Hd]. split; unfold capacity in *.
  - rewrite digits_normalize, length_normalize.
    pose proof (trim_length_le (digits n) (length n)).
    pose proof (trim_length_pos (digits n) (length n)). lia.
  - rewrite digits_normalize. exact Hd.
Qed.

Lemma magnitude_normalize n :
  well_formed n -> magnitude (bi_normalize n) = magnitude n.
Proof.
  intros [Hlen _]. unfold magnitude, limbs, capacity in *.
  rewrite digits_normalize, length_normalize. apply trim_length_value. lia.
Qed.

Lemma trimmed_normalize n : well_formed n -> trimmed (bi_normalize n).
Proof.
  intros [Hlen _]. unfold trimmed, digit.
  rewrite digits_normalize, length_normalize.
  pose proof (trim_length_pos (digits n) (length n)).
  destruct (trim_length_top (digits n) (length n)) as [H1|[H0|Ht]]; [tauto|lia|tauto].
Qed.

(** The magnitude of a trimmed number is zero exactly when it is the single
    limb zero. *)
Lemma magnitude_zero_iff n :
  well_formed n -> trimmed n ->
  (magnitude n = 0 <-> length n = 1%nat /\ digit n 0 = 0).
Proof.
  intros [Hlen Hd] Ht. unfold magnitude, limbs, capacity, digit in *. split.
  - intros Hz. destruct Ht as [H1|Htop].
    + split; [exact H1|]. rewrite H1 in Hz.
      destruct (digits n) as [|x l]; simpl in *; lia.
    + exfalso.
      pose proof (limbs_value_top (take (length n) (digits n))) as Hb.
      rewrite length_take in Hb.
      replace (length n `min` Datatypes.length (digits n))%nat with (length n) in Hb by lia.
      assert (take (length n) (digits n) <> []) as Hne.
      { intros E. apply (f_equal Datatypes.length) in E. rewrite length_take in E.
        simpl in E. lia. }
      assert (Forall is_limb (take (length n) (digits n))) as Hf
        by (apply Forall_take; exact Hd).
      specialize (Hb Hf Hne).
      rewrite nth_lookup, lookup_take_lt, <- nth_lookup in Hb by lia.
      specialize (Hb Htop). pose proof (pow32_pos (length n - 1)). lia.
  - intros [H1 H0]. rewrite H1.
    destruct (digits n) as [|x l]; simpl in *; lia.
Qed.

Lemma sign_normalize n :
  well_formed n ->
  sign (bi_normalize n) = if magnitude n =? 0 then 0 else sign n.
Proof.
  intros Hwf.
  pose proof (magnitude_zero_iff (bi_normalize n) (well_formed_normalize n Hwf)
                (trimmed_normalize n Hwf)) as Hz.
  rewrite magnitude_normalize in Hz by exact Hwf.
  unfold digit in Hz. rewrite digits_normalize, length_normalize in Hz.
  unfold bi_normalize.
  destruct ((trim_length (digits n) (length n) =? 1)%nat && (nth 0 (digits n) 0 =? 0)) eqn:E;
    simpl.
  - apply andb_prop in E as [E1 E2]. apply Nat.eqb_eq in E1. apply Z.eqb_eq in E2.
    destruct Hz as [_ Hz]. rewrite Hz by tauto. reflexivity.
  - destruct (magnitude n =? 0) eqn:Em; [|reflexivity].
    apply Z.eqb_eq in Em. destruct Hz as [Hz _]. specialize (Hz Em) as [E1 E2].
    apply Nat.eqb_eq in E1. apply Z.eqb_eq in E2. rewrite E1, E2 in E. discriminate.
Qed.

(** Normalizing gives the normalized form whenever the sign is one of -1, 0, 1
    and is 0 only for the magnitude zero. *)
Lemma normalized_normalize n :
  well_formed n -> (sign n = 1 \/ sign n = -1 \/ (sign n = 0 /\ magnitude n = 0)) ->
  normalized (bi_normalize n).
Proof.
  intros Hwf Hs. split; [apply well_formed_normalize; exact Hwf|].
  pose proof (magnitude_zero_iff (bi_normalize n) (well_formed_normalize n Hwf)
                (trimmed_normalize n Hwf)) as Hz.
  rewrite magnitude_normalize in Hz by exact Hwf.
  pose proof (sign_normalize n Hwf) as Hsg.
  pose proof (trimmed_normalize n Hwf) as Ht.
  pose proof (well_formed_normalize n Hwf) as [Hlen _].
  unfold normalized_form.
  destruct (magnitude n =? 0) eqn:Em.
  - apply Z.eqb_eq in Em. left. tauto.
  - apply Z.eqb_neq in Em. right. rewrite Hsg.
    split; [lia|]. split; [lia|].
    destruct Ht as [H1|Ht]; [|exact Ht].
    rewrite H1. simpl. intros H0. apply Em. apply Hz. tauto.
Qed.

Lemma normalized_trimmed n : normalized n -> trimmed n.
Proof.
  intros [_ [[_ [H _]]|[_ [_ H]]]]; [left|right]; assumption.
Qed.

Lemma normalized_sign_zero n :
  normalized n -> (sign n = 0 <-> magnitude n = 0).
Proof.
  intros Hn. pose proof (magnitude_zero_iff n (proj1 Hn) (normalized_trimmed n Hn)) as Hz.
  destruct Hn as [_ [[Hs [Hl Hd]]|[Hs [Hl Hd]]]].
  - tauto.
  - split; [lia|]. intros Hm. apply Hz in Hm as [H1 H0]. rewrite H1 in Hd. simpl in Hd. tauto.
Qed.

(** A normalized number is a fixed point of [bi_normalize]. *)
Lemma normalize_normalized n : normalized n -> bi_normalize n = n.
Proof.
  intros Hn. pose proof (normalized_trimmed n Hn) as Ht.
  pose proof (normalized_sign_zero n Hn) as Hs0.
  pose proof (magnitude_zero_iff n (proj1 Hn) Ht) as Hz.
  unfold bi_normalize. rewrite (trim_length_trimmed (digits n) (length n) Ht).
  destruct n as [s l d]. simpl in *. unfold digit in *. simpl in *.
  destruct ((l =? 1)%nat && (nth 0 d 0 =? 0)) eqn:E; [|reflexivity].
  apply andb_prop in E as [E1 E2]. apply Nat.eqb_eq in E1. apply Z.eqb_eq in E2.
  f_equal. symmetry. apply Hs0. apply Hz. tauto.
Qed.


(** * Magnitudes under the elementary updates *)

Lemma magnitude_set_digit n i v :
  (i < length n <= capacity n)%nat ->
  magnitude (set_digit i v n)
  = magnitude n + 2 ^ (32 * Z.of_nat i) * (v - digit n i).
Proof.
  intros H. unfold magnitude, limbs, set_digit, digit, capacity in *. simpl.
  apply limbs_value_take_insert; lia.
Qed.

Lemma magnitude_set_digit_above n i v :
  (length n <= i)%nat -> magnitude (set_digit i v n) = magnitude n.
Proof.
  intros H. unfold magnitude, limbs, set_digit. simpl.
  apply limbs_value_take_insert_ge. exact H.
Qed.

Lemma magnitude_set_sign n s : magnitude (set_sign s n) = magnitude n.
Proof. reflexivity. Qed.

Lemma digit_set_digit_eq n i v :
  (i < capacity n)%nat -> digit (set_digit i v n) i = v.
Proof. intros H. unfold digit, set_digit. simpl. apply nth_insert_eq. exact H. Qed.

Lemma digit_set_digit_ne n i j v :
  i <> j -> digit (set_digit i v n) j = digit n j.
Proof. intros H. unfold digit, set_digit. simpl. apply nth_insert_ne. exact H. Qed.

Lemma digit_is_limb n i : well_formed n -> is_limb (digit n i).
Proof. intros [_ H]. apply Forall_nth_limb. exact H. Qed.

(** Writing a new top limb and counting it in. *)
Lemma magnitude_push n v :
  (length n < capacity n)%nat ->
  magnitude (set_length (S (length n)) (set_digit (length n) v n))
  = magnitude n + 2 ^ (32 * Z.of_nat (length n)) * v.
Proof.
  intros H. unfold magnitude, limbs, set_length, set_digit, capacity in *. simpl.
  rewrite limbs_value_take_S by (rewrite length_insert; exact H).
  rewrite nth_insert_eq by exact H.
  rewrite take_insert_ge by lia. reflexivity.
Qed.

Lemma well_formed_push n v :
  well_formed n -> (length n < capacity n)%nat -> is_limb v ->
  well_formed (set_length (S (length n)) (set_digit (length n) v n)).
Proof.
  intros [Hlen Hd] Hc Hv. split; unfold capacity in *; simpl.
  - rewrite length_insert. lia.
  - apply Forall_insert_limb; assumption.
Qed.

Lemma magnitude_bound n :
  well_formed n -> 0 <= magnitude n < 2 ^ (32 * Z.of_nat (length n)).
Proof. intros [_ Hd]. apply limbs_value_take_le. exact Hd. Qed.

(** * Comparison of magnitudes *)

Lemma compare_digits_spec a b i :
  Forall is_limb a -> Forall is_limb b ->
  (i <= Datatypes.length a)%nat -> (i <= Datatypes.length b)%nat ->
  compare_digits a b i = Z.sgn (limbs_value (take i a) - limbs_value (take i b)).
Proof.
  intros Ha Hb. induction i as [|i IH]; intros Hia Hib.
  - reflexivity.
  - simpl compare_digits.
    rewrite !limbs_value_take_S by lia.
    pose proof (limbs_value_take_le a i Ha). pose proof (limbs_value_take_le b i Hb).
    pose proof (Forall_nth_limb a i Ha) as Hai. pose proof (Forall_nth_limb b i Hb) as Hbi.
    unfold is_limb in *. pose proof (pow32_pos i).
    destruct (nth i b 0 <? nth i a 0) eqn:E1.
    + apply Z.ltb_lt in E1. symmetry. apply Z.sgn_pos. nia.
    + apply Z.ltb_ge in E1. destruct (nth i a 0 <? nth i b 0) eqn:E2.
      * apply Z.ltb_lt in E2. symmetry. apply Z.sgn_neg. nia.
      * apply Z.ltb_ge in E2. rewrite IH by lia. f_equal.
        replace (nth i a 0) with (nth i b 0) by lia. lia.
Qed.

Lemma magnitude_lower n :
  well_formed n -> trimmed n -> (2 <= length n)%nat ->
  2 ^ (32 * Z.of_nat (length n - 1)) <= magnitude n.
Proof.
  intros [Hlen Hd] [H1|Htop] H2; [lia|].
  unfold magnitude, limbs, capacity, digit in *.
  pose proof (limbs_value_top (take (length n) (digits n))) as Hb.
  rewrite length_take in Hb.
  replace (length n `min` Datatypes.length (digits n))%nat with (length n) in Hb by lia.
  apply Hb.
  - apply Forall_take. exact Hd.
  - intros E. apply (f_equal Datatypes.length) in E. rewrite length_take in E.
    simpl in E. lia.
  - rewrite nth_lookup, lookup_take_lt, <- nth_lookup by lia. exact Htop.
Qed.

(** [bi_compare_abs] is the sign of the difference of the magnitudes. *)
Lemma bi_compare_abs_spec a b :
  well_formed a -> well_formed b -> trimmed a -> trimmed b ->
  bi_compare_abs a b = Z.sgn (magnitude a - magnitude b).
Proof.
  intros Ha Hb Hta Htb. unfold bi_compare_abs.
  pose proof (magnitude_bound a Ha). pose proof (magnitude_bound b Hb).
  destruct (length b <? length a)%nat eqn:E1.
  - apply Nat.ltb_lt in E1. symmetry. apply Z.sgn_pos.
    pose proof (magnitude_lower a Ha Hta).
    assert (2 ^ (32 * Z.of_nat (length b)) <= 2 ^ (32 * Z.of_nat (length a - 1)))
      by (apply Z.pow_le_mono_r; destruct Hb as [? _]; lia).
    destruct Hb as [? _]. lia.
  - apply Nat.ltb_ge in E1. destruct (length a <? length b)%nat eqn:E2.
    + apply Nat.ltb_lt in E2. symmetry. apply Z.sgn_neg.
      pose proof (magnitude_lower b Hb Htb).
      assert (2 ^ (32 * Z.of_nat (length a)) <= 2 ^ (32 * Z.of_nat (length b - 1)))
        by (apply Z.pow_le_mono_r; destruct Ha as [? _]; lia).
      destruct Ha as [? _]. lia.
    + apply Nat.ltb_ge in E2. assert (length a = length b) as E by lia.
      destruct Ha as [Hla Hda]. destruct Hb as [Hlb Hdb]. unfold capacity in *.
      rewrite compare_digits_spec by (assumption || lia).
      unfold magnitude, limbs. rewrite E. reflexivity.
Qed.

(** * Adding one limb in place *)

Lemma bi_add_digit_into_0 res : bi_add_digit_into res 0 = res.
Proof. reflexivity. Qed.

Lemma bi_add_digit_into_spec res val :
  well_formed res -> is_limb val -> val <> 0 ->
  (sign res = 0 -> magnitude res = 0) ->
  let r := bi_add_digit_into res val in
  well_formed r /\ trimmed r
  /\ magnitude r = magnitude res + val
  /\ sign r = (if sign res =? 0 then 1 else sign res).
Proof.
  intros Hwf Hval Hv0 Hs0. unfold bi_add_digit_into.
  apply Z.eqb_neq in Hv0 as Ev. rewrite Ev. apply Z.eqb_neq in Ev.
  destruct (sign res =? 0) eqn:Es.
  - (* the value was zero: the limb becomes the value *)
    apply Z.eqb_eq in Es. specialize (Hs0 Es). cbv zeta.
    destruct Hwf as [Hlen Hd]. unfold capacity in *.
    destruct (digits res) as [|d0 ds] eqn:Ed; [simpl in Hlen; lia|].
    split; [split; [unfold capacity; simpl; lia
                   |simpl; inversion Hd; subst; constructor; assumption]|].
    split; [left; reflexivity|].
    split; [rewrite Hs0; unfold magnitude, limbs; simpl; lia|reflexivity].
  - apply Z.eqb_neq in Es.
    set (P := fun s : nat * Z * BigInt =>
      let '(i, carry, r) := s in
      (i <= length res)%nat /\ length r = length res /\ capacity r = capacity res
      /\ well_formed r /\ sign r = sign res /\ 0 <= carry < 2 ^ 32
      /\ magnitude r + carry * 2 ^ (32 * Z.of_nat i) = magnitude res + val).
    set (m := fun s : nat * Z * BigInt => let '(i, _, _) := s in (length res - i)%nat).
    pose proof (while_loop_inv P m
      (fun '(i, carry, res) => (i <? length res)%nat && negb (carry =? 0))
      (fun '(i, carry, res) =>
         let sum := u64 (digit res i + carry) in
         (S i, Z.shiftr sum BITS_IN_WORD, set_digit i (u32 sum) res))) as Hloop.
    assert (forall s, P s ->
      (let '(i, carry, res) := s in (i <? length res)%nat && negb (carry =? 0)) = true ->
      P (let '(i, carry, res) := s in
         let sum := u64 (digit res i + carry) in
         (S i, Z.shiftr sum BITS_IN_WORD, set_digit i (u32 sum) res))
      /\ (m (let '(i, carry, res) := s in
         let sum := u64 (digit res i + carry) in
         (S i, Z.shiftr sum BITS_IN_WORD, set_digit i (u32 sum) res)) < m s)%nat) as Hstep.
    { intros [[i carry] r] (Hi & Hl & Hc & Hw & Hsg & Hcar & Hval') Hcond.
      apply andb_prop in Hcond as [Hlt _]. apply Nat.ltb_lt in Hlt.
      cbv zeta. unfold P, m.
      pose proof (digit_is_limb r i Hw) as Hdi. unfold is_limb in Hdi.
      rewrite u64_small by (rewrite pow64; rewrite pow32 in *; lia).
      rewrite shiftr32.
      split; [|lia].
      split; [lia|]. split; [exact Hl|]. split.
      { unfold capacity, set_digit in *. simpl. rewrite length_insert. exact Hc. }
      split; [apply well_formed_set_digit; [exact Hw|apply u32_range]|].
      split; [exact Hsg|]. split.
      { split; [apply Z.div_pos; lia|]. apply Z.div_lt_upper_bound; [lia|].
        rewrite pow32 in *. lia. }
      rewrite magnitude_set_digit by (destruct Hw as [? _]; lia).
      rewrite pow32_S.
      pose proof (split_word (digit r i + carry)) as Hsw.
      rewrite <- Hval'. nia. }
    specialize (Hloop Hstep (length res) (O, val, res)).
    destruct Hloop as [HP Hcond].
    { unfold P. repeat split; try lia; try apply Hwf; try apply Hval. }
    { unfold m. lia. }
    destruct (while_loop (length res) _ _ (O, val, res)) as [[i carry] r].
    destruct HP as (Hi & Hl & Hc & Hw & Hsg & Hcar & Hval').
    cbv zeta.
    assert (exists r', well_formed r' /\ sign r' = sign res
                       /\ magnitude r' = magnitude res + val
                       /\ (if carry =? 0 then r
                           else set_length (S (length (bi_resize r (length r + 1))))
                                  (set_digit (length (bi_resize r (length r + 1)))
                                     (u32 carry) (bi_resize r (length r + 1)))) = r')
      as (r' & Hw' & Hs' & Hm' & ->).
    { destruct (carry =? 0) eqn:Ec.
      - apply Z.eqb_eq in Ec. subst carry. exists r. repeat split; try assumption; try apply Hw.
        lia.
      - apply Z.eqb_neq in Ec. simpl in Hcond.
        rewrite andb_true_r in Hcond. apply Nat.ltb_ge in Hcond.
        assert (i = length res) as -> by lia.
        eexists. split; [|split; [|split; [|reflexivity]]].
        + apply well_formed_push; [apply well_formed_resize; exact Hw| |apply u32_range].
          rewrite length_resize. pose proof (capacity_resize r (length r + 1)). lia.
        + simpl. rewrite sign_resize. exact Hsg.
        + rewrite magnitude_push
            by (rewrite length_resize; pose proof (capacity_resize r (length r + 1)); lia).
          rewrite length_resize. unfold magnitude at 1.
          rewrite limbs_resize by (destruct Hw as [? _]; lia).
          fold (magnitude r). rewrite u32_small by exact Hcar. rewrite Hl. lia. }
    pose proof (magnitude_normalize r' Hw') as Hmn.
    pose proof (sign_normalize r' Hw') as Hsn.
    split; [apply well_formed_normalize; exact Hw'|].
    split; [apply trimmed_normalize; exact Hw'|].
    split; [lia|].
    rewrite Hsn. pose proof (magnitude_bound res Hwf). unfold is_limb in Hval.
    destruct (magnitude r' =? 0) eqn:E0; [apply Z.eqb_eq in E0; lia|]. exact Hs'.
Qed.

(** Loop rules as tactics: state the invariant (and the variant), get the
    premises of the rule as goals and the invariant at the exit as a
    hypothesis. *)
Ltac while_rule P m :=
  match goal with
  | |- context [while_loop ?f ?c ?b ?s] =>
      let HP := fresh "HP" in
      let Hexit := fresh "Hexit" in
      assert (P (while_loop f c b s) /\ c (while_loop f c b s) = false)
        as [HP Hexit]; [apply (while_loop_inv P m c b)|]
  end.

Ltac for_rule P :=
  match goal with
  | |- context [for_loop ?n ?b ?s] =>
      let HP := fresh "HP" in
      assert (P n (for_loop n b s)) as HP; [apply (for_loop_inv P n b s)|]
  end.

(** * Multiplying by one limb in place *)

Lemma capacity_set_digit n i v : capacity (set_digit i v n) = capacity n.
Proof. unfold capacity, set_digit. simpl. apply length_insert. Qed.

Lemma magnitude_take n k :
  (length n <= capacity n)%nat -> (k <= length n)%nat ->
  limbs_value (take k (limbs n)) = limbs_value (take k (digits n)).
Proof.
  intros H Hk. unfold limbs. rewrite take_take. f_equal. f_equal. lia.
Qed.

Lemma bi_mul_digit_into_spec res d :
  well_formed res -> is_limb d -> (sign res = 0 -> magnitude res = 0) ->
  let r := bi_mul_digit_into res d in
  well_formed r /\ trimmed r
  /\ magnitude r = magnitude res * d
  /\ sign r = (if magnitude res * d =? 0 then 0 else sign res).
Proof.
  intros Hwf Hd Hs0. unfold bi_mul_digit_into.
  destruct ((sign res =? 0) || (d =? 0)) eqn:Ez.
  - cbv zeta. destruct Hwf as [Hlen Hds]. unfold capacity in *.
    destruct (digits res) as [|d0 ds] eqn:Ed; [simpl in Hlen; lia|].
    assert (magnitude res * d = 0) as Hz.
    { apply orb_prop in Ez as [E|E]; apply Z.eqb_eq in E; [rewrite Hs0 by exact E|]; lia. }
    rewrite Hz.
    split; [split; [unfold capacity; simpl; lia
                   |simpl; inversion Hds; subst; constructor; [unfold is_limb; lia|assumption]]|].
    split; [left; reflexivity|].
    split; [unfold magnitude, limbs; simpl; lia|reflexivity].
  - apply orb_false_elim in Ez as [Es Ed]. apply Z.eqb_neq in Es, Ed.
    cbv zeta. rewrite length_resize.
    set (res1 := bi_resize res (length res + 1)).
    assert (well_formed res1) as Hwf1 by (apply well_formed_resize; exact Hwf).
    assert (length res1 = length res) as Hl1 by apply length_resize.
    assert (length res < capacity res1)%nat as Hc1
      by (pose proof (capacity_resize res (length res + 1)); unfold res1; lia).
    assert (magnitude res1 = magnitude res) as Hm1
      by (unfold magnitude, res1; rewrite limbs_resize by (destruct Hwf; lia); reflexivity).
    set (P := fun (i : nat) (s : BigInt * Z) =>
      let '(r, carry) := s in
      length r = length res /\ capacity r = capacity res1 /\ well_formed r
      /\ sign r = sign res /\ 0 <= carry < 2 ^ 32
      /\ limbs_value (take i (digits r)) + carry * 2 ^ (32 * Z.of_nat i)
         = limbs_value (take i (digits res1)) * d
      /\ (forall k, (i <= k)%nat -> digit r k = digit res1 k)).
    for_rule P.
    { unfold P. repeat split; try assumption; try apply Hwf1; try lia.
      apply sign_resize. }
    { intros i [r carry] Hi (Hl & Hc & Hw & Hsg & Hcar & Hv & Hup). unfold P.
      pose proof (digit_is_limb r i Hw) as Hdi. unfold is_limb in Hdi, Hd.
      assert (0 <= digit r i * d + carry < 2 ^ 64) as Hprod
        by (rewrite pow64; rewrite pow32 in *; nia).
      rewrite u64_small by exact Hprod. rewrite shiftr32.
      split; [exact Hl|]. split; [rewrite capacity_set_digit; exact Hc|].
      split; [apply well_formed_set_digit; [exact Hw|apply u32_range]|].
      split; [exact Hsg|]. split.
      { split; [apply Z.div_pos; lia|]. apply Z.div_lt_upper_bound; [lia|].
        rewrite pow32 in *. nia. }
      split.
      - unfold set_digit. simpl digits.
        assert (i < Datatypes.length (digits r))%nat as Hir by (unfold capacity in *; lia).
        assert (i < Datatypes.length (digits res1))%nat as Hir1
          by (unfold capacity in *; lia).
        rewrite limbs_value_take_S by (rewrite length_insert; exact Hir).
        rewrite nth_insert_eq by exact Hir. rewrite take_insert_ge by lia.
        rewrite (limbs_value_take_S (digits res1)) by exact Hir1.
        fold (digit res1 i). rewrite <- (Hup i) by lia.
        rewrite pow32_S. pose proof (split_word (digit r i * d + carry)). nia.
      - intros k Hk. rewrite digit_set_digit_ne by lia. apply Hup. lia. }
    destruct (for_loop _ _ _) as [r carry].
    destruct HP as (Hl & Hc & Hw & Hsg & Hcar & Hv & Hup).
    assert (limbs_value (take (length res) (digits r))
            + carry * 2 ^ (32 * Z.of_nat (length res)) = magnitude res * d) as Hv'.
    { rewrite Hv, <- Hm1. unfold magnitude, limbs. rewrite Hl1. reflexivity. }
    assert (exists r', well_formed r' /\ sign r' = sign res
                       /\ magnitude r' = magnitude res * d
                       /\ (if carry =? 0 then r
                           else set_length (S (length r))
                                  (set_digit (length r) (u32 carry) r)) = r')
      as (r' & Hw' & Hs' & Hm' & ->).
    { destruct (carry =? 0) eqn:Ec.
      - apply Z.eqb_eq in Ec. subst carry. exists r.
        repeat split; try assumption; try apply Hw.
        unfold magnitude at 1, limbs. rewrite Hl. lia.
      - eexists. split; [|split; [|split; [|reflexivity]]].
        + apply well_formed_push; [exact Hw|lia|apply u32_range].
        + exact Hsg.
        + rewrite magnitude_push by lia. rewrite u32_small by exact Hcar.
          unfold magnitude at 1, limbs. rewrite Hl. lia. }
    pose proof (magnitude_normalize r' Hw') as Hmn.
    pose proof (sign_normalize r' Hw') as Hsn.
    split; [apply well_formed_normalize; exact Hw'|].
    split; [apply trimmed_normalize; exact Hw'|].
    split; [lia|]. rewrite Hsn, Hm', Hs'. reflexivity.
Qed.

(** * Dividing by ten in place *)

Lemma div10_loop_spec i : forall rem res,
  well_formed res -> (i <= length res)%nat -> 0 <= rem < 10 ->
  let '(r, rem') := div10_loop i rem res in
  well_formed r /\ length r = length res /\ sign r = sign res
  /\ 0 <= rem' < 10
  /\ limbs_value (take i (digits r)) * 10 + rem'
     = limbs_value (take i (digits res)) + rem * 2 ^ (32 * Z.of_nat i)
  /\ (forall k, (i <= k)%nat -> digit r k = digit res k).
Proof.
  induction i as [|i IH]; intros rem res Hwf Hi Hrem.
  - simpl. repeat split; try assumption; try apply Hwf; lia.
  - simpl div10_loop. unfold DEC_DIVISOR.
    pose proof (digit_is_limb res i Hwf) as Hdi. unfold is_limb in Hdi.
    assert (Z.shiftl rem BITS_IN_WORD = rem * 2 ^ 32) as Hsh
      by (unfold BITS_IN_WORD; rewrite Z.shiftl_mul_pow2 by lia; reflexivity).
    rewrite Hsh.
    assert (0 <= digit res i + rem * 2 ^ 32 < 2 ^ 64) as Hcur
      by (rewrite pow64; rewrite pow32 in *; lia).
    rewrite u64_small by exact Hcur.
    set (current := digit res i + rem * 2 ^ 32) in *.
    assert (is_limb (current / 10)) as Hq.
    { unfold is_limb. split; [apply Z.div_pos; lia|].
      apply Z.div_lt_upper_bound; [lia|]. unfold current. rewrite pow32 in *. lia. }
    rewrite (u32_small _ Hq).
    pose proof (Z.mod_pos_bound current 10 ltac:(lia)) as Hmod.
    specialize (IH (current mod 10) (set_digit i (current / 10) res)
                  (well_formed_set_digit res i _ Hwf Hq) ltac:(simpl; lia) Hmod).
    destruct (div10_loop i (current mod 10) (set_digit i (current / 10) res))
      as [r rem'].
    destruct IH as (Hw & Hl & Hsg & Hrem' & Hv & Hup).
    simpl in Hl, Hsg.
    split; [exact Hw|]. split; [exact Hl|]. split; [exact Hsg|]. split; [exact Hrem'|].
    assert (i < Datatypes.length (digits res))%nat as Hir
      by (destruct Hwf as [? _]; unfold capacity in *; lia).
    assert (i < Datatypes.length (digits r))%nat as Hir'
      by (destruct Hw as [? _]; unfold capacity in *; lia).
    split.
    + rewrite limbs_value_take_S by exact Hir'.
      rewrite (limbs_value_take_S (digits res)) by exact Hir.
      fold (digit r i). fold (digit res i).
      rewrite (Hup i) by lia. rewrite digit_set_digit_eq
        by (unfold capacity; exact Hir).
      unfold set_digit in Hv. simpl digits in Hv.
      rewrite take_insert_ge in Hv by lia.
      rewrite pow32_S. pose proof (Z.div_mod current 10 ltac:(lia)).
      unfold current in *. nia.
    + intros k Hk. rewrite Hup by lia. apply digit_set_digit_ne. lia.
Qed.

Lemma bi_div10_into_spec res :
  well_formed res -> sign res <> 0 ->
  let '(r, rem) := bi_div10_into res in
  well_formed r /\ trimmed r /\ 0 <= rem < 10
  /\ magnitude res = 10 * magnitude r + rem
  /\ sign r = (if magnitude r =? 0 then 0 else sign res).
Proof.
  intros Hwf Hs. unfold bi_div10_into.
  apply Z.eqb_neq in Hs. rewrite Hs.
  pose proof (div10_loop_spec (length res) 0 res Hwf ltac:(lia) ltac:(lia)) as H.
  destruct (div10_loop (length res) 0 res) as [r rem].
  destruct H as (Hw & Hl & Hsg & Hrem & Hv & _).
  assert (magnitude r * 10 + rem = magnitude res) as Hm
    by (unfold magnitude, limbs; rewrite Hl; lia).
  split; [apply well_formed_normalize; exact Hw|].
  split; [apply trimmed_normalize; exact Hw|].
  rewrite u32_small by (unfold is_limb; rewrite pow32; lia).
  split; [exact Hrem|].
  rewrite magnitude_normalize by exact Hw. split; [lia|].
  rewrite sign_normalize by exact Hw. rewrite Hsg. reflexivity.
Qed.


(** * Equality of normalized numbers *)

Lemma limbs_length n : (length n <= capacity n)%nat -> Datatypes.length (limbs n) = length n.
Proof. intros H. unfold limbs, capacity in *. rewrite length_take. lia. Qed.

(** Two normalized numbers with the same sign and magnitude are the same. *)
Lemma same_int_of_value a b :
  well_formed a -> well_formed b -> trimmed a -> trimmed b ->
  sign a = sign b -> magnitude a = magnitude b -> same_int a b.
Proof.
  intros Ha Hb Hta Htb Hs Hm.
  assert (length a = length b) as Hl.
  { pose proof (magnitude_bound a Ha). pose proof (magnitude_bound b Hb).
    destruct (Nat.lt_trichotomy (length a) (length b)) as [Hlt|[E|Hgt]]; [|exact E|].
    - pose proof (magnitude_lower b Hb Htb ltac:(destruct Ha; lia)).
      assert (2 ^ (32 * Z.of_nat (length a)) <= 2 ^ (32 * Z.of_nat (length b - 1)))
        by (apply Z.pow_le_mono_r; lia). lia.
    - pose proof (magnitude_lower a Ha Hta ltac:(destruct Hb; lia)).
      assert (2 ^ (32 * Z.of_nat (length b)) <= 2 ^ (32 * Z.of_nat (length a - 1)))
        by (apply Z.pow_le_mono_r; lia). lia. }
  split; [exact Hs|]. split; [exact Hl|].
  apply limbs_value_inj.
  - apply Forall_take. apply Ha.
  - apply Forall_take. apply Hb.
  - rewrite !limbs_length by (destruct Ha, Hb; lia). exact Hl.
  - exact Hm.
Qed.

(** * Decimal digits *)

Lemma dec_value_snoc s c : dec_value (s ++ [c]) = dec_step (dec_value s) c.
Proof. unfold dec_value. rewrite fold_left_app. reflexivity. Qed.

Lemma fold_dec_step_digits s : forall acc,
  forallb isdigit s = true ->
  fold_left dec_step s acc
  = acc * 10 ^ Z.of_nat (Datatypes.length s) + fold_left dec_step s 0.
Proof.
  induction s as [|c s IH]; intros acc Hs; simpl in *.
  - lia.
  - apply andb_prop in Hs as [Hc Hs]. rewrite (IH (dec_step acc c) Hs).
    rewrite (IH (dec_step 0 c) Hs). unfold dec_step. rewrite Hc.
    replace (Z.of_nat (S (Datatypes.length s))) with (1 + Z.of_nat (Datatypes.length s)) by lia.
    rewrite Z.pow_add_r by lia. ring.
Qed.

Lemma dec_value_cons c s :
  isdigit c = true -> forallb isdigit s = true ->
  dec_value (c :: s)
  = (code c - code "0") * 10 ^ Z.of_nat (Datatypes.length s) + dec_value s.
Proof.
  intros Hc Hs. unfold dec_value. simpl. rewrite fold_dec_step_digits by exact Hs.
  unfold dec_step at 1. rewrite Hc. ring.
Qed.

Lemma strlen_le s : (strlen s <= Datatypes.length s)%nat.
Proof. induction s as [|c s IH]; simpl; [lia|]. destruct (Ascii.eqb c NUL); lia. Qed.

Lemma strlen_no_nul s :
  forallb (fun c => negb (Ascii.eqb c NUL)) s = true -> strlen s = Datatypes.length s.
Proof.
  induction s as [|c s IH]; simpl; [reflexivity|]. intros H.
  apply andb_prop in H as [Hc Hs]. apply negb_true_iff in Hc. rewrite Hc.
  f_equal. apply IH. exact Hs.
Qed.

Lemma isdigit_not_nul c : isdigit c = true -> negb (Ascii.eqb c NUL) = true.
Proof.
  intros H. destruct (Ascii.eqb c NUL) eqn:E; [|reflexivity].
  apply Ascii.eqb_eq in E. subst c. discriminate H.
Qed.

Lemma strlen_digits s : forallb isdigit s = true -> strlen s = Datatypes.length s.
Proof.
  intros H. apply strlen_no_nul. rewrite forallb_forall in *.
  intros c Hc. apply isdigit_not_nul. apply H. exact Hc.
Qed.

Lemma take_S_char_at (s : list ascii) k :
  (k < Datatypes.length s)%nat -> take (S k) s = take k s ++ [char_at s k].
Proof.
  revert k. induction s as [|c s IH]; intros [|k] H; simpl in *; try lia.
  - reflexivity.
  - f_equal. apply IH. lia.
Qed.

(** * Parsing decimal text *)

Lemma isdigit_code c : isdigit c = true -> 0 <= code c - code "0" < 10.
Proof.
  unfold isdigit, in_range. intros H. apply andb_prop in H as [H1 H2].
  apply Z.leb_le in H1, H2. change (code "0") with 48 in *. change (code "9") with 57 in *.
  lia.
Qed.

Lemma normalized_zero_limb ds d0 :
  Forall is_limb (d0 :: ds) -> normalized (mkBigInt 0 1 (0 :: ds)).
Proof.
  intros H. inversion H; subst. split.
  - split; [unfold capacity; simpl; lia|]. constructor; [unfold is_limb; lia|assumption].
  - left. repeat split.
Qed.

Lemma horner_step res c :
  normalized res -> small_sign res -> isdigit c = true ->
  let r := bi_add_digit_into (bi_mul_digit_into res BASE_DEC) (code c - code "0") in
  normalized r /\ small_sign r
  /\ magnitude r = 10 * magnitude res + (code c - code "0").
Proof.
  intros Hn Hss Hc. pose proof (isdigit_code c Hc) as Hcode.
  pose proof (normalized_sign_zero res Hn) as Hs0.
  destruct (bi_mul_digit_into_spec res BASE_DEC (proj1 Hn)) as (Hw1 & Ht1 & Hm1 & Hs1).
  { unfold is_limb, BASE_DEC. rewrite pow32. lia. }
  { apply Hs0. }
  set (r1 := bi_mul_digit_into res BASE_DEC) in *. unfold BASE_DEC in *.
  pose proof (magnitude_bound res (proj1 Hn)) as Hb.
  assert (sign r1 = 0 <-> magnitude r1 = 0) as Hs10.
  { rewrite Hs1, Hm1. destruct (magnitude res * 10 =? 0) eqn:E.
    - apply Z.eqb_eq in E. tauto.
    - apply Z.eqb_neq in E. split; [|lia]. intros Hz. apply Hs0 in Hz. lia. }
  assert (small_sign r1) as Hss1.
  { unfold small_sign. rewrite Hs1. destruct (magnitude res * 10 =? 0); [left; reflexivity|exact Hss]. }
  cbv zeta. destruct (Z.eq_dec (code c - code "0") 0) as [E0|Hne].
  - rewrite E0. rewrite bi_add_digit_into_0.
    split; [|split; [exact Hss1|lia]].
    split; [exact Hw1|].
    destruct (Z.eq_dec (magnitude r1) 0) as [Ez|Enz].
    + left. pose proof (magnitude_zero_iff r1 Hw1 Ht1) as Hz. tauto.
    + right. split; [destruct Hss1; [tauto|lia]|].
      split; [destruct Hw1; lia|].
      destruct Ht1 as [H1|Htop]; [|exact Htop].
      rewrite H1. simpl. intros Hd0. apply Enz.
      apply (magnitude_zero_iff r1 Hw1 (or_introl H1)). tauto.
  - destruct (bi_add_digit_into_spec r1 (code c - code "0") Hw1) as (Hw2 & Ht2 & Hm2 & Hs2).
    { unfold is_limb. rewrite pow32. lia. }
    { exact Hne. }
    { apply Hs10. }
    set (r2 := bi_add_digit_into r1 (code c - code "0")) in *.
    assert (sign r2 = 1) as Hsg2.
    { rewrite Hs2. destruct (sign r1 =? 0) eqn:E; [reflexivity|].
      apply Z.eqb_neq in E. destruct Hss1; lia. }
    pose proof (magnitude_bound r1 Hw1).
    split; [|split; [right; exact Hsg2|lia]].
    split; [exact Hw2|]. right. split; [right; exact Hsg2|].
    split; [destruct Hw2; lia|].
    destruct Ht2 as [H1|Htop]; [|exact Htop].
    rewrite H1. simpl. intros Hd0.
    pose proof (proj2 (magnitude_zero_iff r2 Hw2 (or_introl H1)) (conj H1 Hd0)). lia.
Qed.

Lemma normalized_create : normalized bi_create.
Proof. split; [apply well_formed_create|]. left. repeat split. Qed.

(** [bi_from_dec] on a non-empty string gives the normalized number with the
    value of its digits, never a negative one. *)
Lemma bi_from_dec_spec str :
  strlen str <> O ->
  exists r, bi_from_dec str = Some r /\ normalized r /\ small_sign r
            /\ magnitude r = dec_value (take (strlen str) str).
Proof.
  intros Hlen. unfold bi_from_dec.
  apply Nat.eqb_neq in Hlen. rewrite Hlen.
  set (P := fun (k : nat) (res : BigInt) =>
    normalized res /\ small_sign res /\ magnitude res = dec_value (take k str)).
  for_rule P.
  { unfold P. split; [apply normalized_create|]. split; [left; reflexivity|]. reflexivity. }
  { intros k res Hk (Hn & Hss & Hm). unfold P.
    pose proof (strlen_le str).
    rewrite take_S_char_at by lia. rewrite dec_value_snoc. unfold dec_step.
    change (in_range "0" "9" (char_at str k)) with (isdigit (char_at str k)).
    destruct (isdigit (char_at str k)) eqn:Hc.
    - destruct (horner_step res (char_at str k) Hn Hss Hc) as (Hn' & Hss' & Hm').
      split; [exact Hn'|]. split; [exact Hss'|]. rewrite Hm', Hm. reflexivity.
    - split; [exact Hn|]. split; [exact Hss|]. exact Hm. }
  destruct HP as (Hn & Hss & Hm).
  eexists. split; [reflexivity|].
  rewrite normalize_normalized by exact Hn.
  split; [exact Hn|]. split; [exact Hss|]. exact Hm.
Qed.

(** * Printing decimal text *)

Ltac while_fuel_rule P :=
  match goal with
  | |- context [while_loop ?f ?c ?b ?s] =>
      let f' := fresh "f'" in
      let HP := fresh "HP" in
      let Hexit := fresh "Hexit" in
      assert (exists f', P f' (while_loop f c b s)
                         /\ c (while_loop f c b s) = false)
        as (f' & HP & Hexit); [apply (while_loop_fuel_inv P c b)|]
  end.

Lemma digit_char rem :
  0 <= rem < 10 ->
  isdigit (char_of_code (rem + code "0")) = true
  /\ code (char_of_code (rem + code "0")) - code "0" = rem.
Proof.
  intros H.
  assert (rem = 0 \/ rem = 1 \/ rem = 2 \/ rem = 3 \/ rem = 4 \/ rem = 5
          \/ rem = 6 \/ rem = 7 \/ rem = 8 \/ rem = 9) as Hc by lia.
  repeat (destruct Hc as [->|Hc]; [split; reflexivity|]). subst. split; reflexivity.
Qed.

Lemma pow2_32_le_pow10 k : 2 ^ (32 * Z.of_nat k) <= 10 ^ Z.of_nat (k * 10 + 2).
Proof.
  rewrite Z.pow_mul_r by lia.
  replace (Z.of_nat (k * 10 + 2)) with (10 * Z.of_nat k + 2) by lia.
  rewrite Z.pow_add_r, Z.pow_mul_r by lia.
  assert ((2 ^ 32) ^ Z.of_nat k <= (10 ^ 10) ^ Z.of_nat k)
    by (apply Z.pow_le_mono_l; rewrite pow32; lia).
  assert (0 < (10 ^ 10) ^ Z.of_nat k) by (apply Z.pow_pos_nonneg; lia).
  change (10 ^ 2) with 100. lia.
Qed.

Lemma trimmed_copy n : well_formed n -> trimmed n -> trimmed (bi_copy n).
Proof.
  intros Hwf [H1|Htop]; [left; exact H1|right].
  destruct Hwf as [Hlen Hd].
  rewrite digit_limbs by (simpl; lia).
  rewrite limbs_copy by lia. simpl length.
  rewrite <- digit_limbs by lia. exact Htop.
Qed.

Lemma magnitude_copy n : well_formed n -> magnitude (bi_copy n) = magnitude n.
Proof. intros [Hlen _]. unfold magnitude. rewrite limbs_copy by lia. reflexivity. Qed.

Lemma forallb_rev {A : Type} (f : A -> bool) (l : list A) :
  forallb f (rev l) = forallb f l.
Proof.
  induction l as [|a l IH]; [reflexivity|]. simpl rev.
  rewrite forallb_app, IH. simpl. rewrite andb_true_r. apply andb_comm.
Qed.

(** What [bi_to_dec] prints for a non-zero number: an optional minus sign and
    the decimal digits of the magnitude. *)
Lemma bi_to_dec_spec x :
  normalized x -> sign x <> 0 ->
  exists ds, bi_to_dec x = (if sign x =? -1 then ["-"%char] else []) ++ ds
             /\ forallb isdigit ds = true /\ ds <> []
             /\ dec_value ds = magnitude x.
Proof.
  intros Hn Hs. unfold bi_to_dec. apply Z.eqb_neq in Hs as Es. rewrite Es.
  pose proof (proj1 Hn) as Hwf. pose proof (normalized_trimmed x Hn) as Ht.
  pose proof (normalized_sign_zero x Hn) as Hs0.
  set (copy0 := set_sign 1 (bi_copy x)).
  set (P := fun (f : nat) (s : BigInt * list ascii) =>
    let '(copy, buffer) := s in
    well_formed copy /\ trimmed copy
    /\ sign copy = (if magnitude copy =? 0 then 0 else 1)
    /\ forallb isdigit buffer = true
    /\ magnitude x
       = magnitude copy * 10 ^ Z.of_nat (Datatypes.length buffer)
         + dec_value (rev buffer)
    /\ magnitude copy < 10 ^ Z.of_nat f
    /\ (buffer = [] -> magnitude copy <> 0)).
  while_fuel_rule P.
  { intros f [copy buffer] (Hw & Htr & Hsg & Hb & Hv & Hlt & _) Hc.
    apply negb_true_iff in Hc. apply Z.eqb_neq in Hc.
    pose proof (bi_div10_into_spec copy Hw Hc) as Hd.
    destruct (bi_div10_into copy) as [r rem].
    destruct Hd as (Hw' & Ht' & Hrem & Hm & Hs').
    destruct (digit_char rem Hrem) as [Hdc Hcode].
    unfold P.
    split; [exact Hw'|]. split; [exact Ht'|]. split.
    { rewrite Hs'. destruct (magnitude copy =? 0) eqn:E.
      - rewrite Hsg in Hc. lia.
      - rewrite Hsg. reflexivity. }
    split; [rewrite forallb_app, Hb; simpl; rewrite Hdc; reflexivity|].
    split.
    { rewrite rev_app_distr. simpl rev. simpl app.
      rewrite dec_value_cons by (try rewrite forallb_rev; assumption).
      rewrite Hcode, length_rev, length_app. simpl Datatypes.length.
      replace (Z.of_nat (Datatypes.length buffer + 1))
        with (1 + Z.of_nat (Datatypes.length buffer)) by lia.
      rewrite Z.pow_add_r by lia. rewrite Hv, Hm. ring. }
    split.
    { replace (Z.of_nat (S f)) with (1 + Z.of_nat f) in Hlt by lia.
      rewrite Z.pow_add_r in Hlt by lia. lia. }
    intros E. destruct buffer; discriminate E. }
  { intros [copy buffer] (Hw & Htr & Hsg & Hb & Hv & Hlt & _).
    simpl in Hlt. pose proof (magnitude_bound copy Hw).
    assert (magnitude copy = 0) as E by lia. rewrite E in Hsg. simpl in Hsg.
    rewrite Hsg. reflexivity. }
  { unfold P, copy0.
    split; [apply well_formed_set_sign, well_formed_copy; exact Hwf|].
    split; [apply (trimmed_copy x Hwf Ht)|].
    rewrite magnitude_set_sign, magnitude_copy by exact Hwf.
    assert (magnitude x <> 0) as Hm0 by tauto.
    apply Z.eqb_neq in Hm0 as Em0. rewrite Em0.
    split; [reflexivity|]. split; [reflexivity|]. split; [simpl; unfold dec_value; simpl; lia|].
    split; [|intros _; exact Hm0].
    pose proof (magnitude_bound x Hwf). pose proof (pow2_32_le_pow10 (length x)). lia. }
  destruct (while_loop _ _ _ _) as [copy buffer].
  destruct HP as (Hw & Htr & Hsg & Hb & Hv & Hlt & Hne).
  apply negb_false_iff in Hexit. apply Z.eqb_eq in Hexit.
  assert (magnitude copy = 0) as Hz.
  { destruct (magnitude copy =? 0) eqn:E; [apply Z.eqb_eq; exact E|lia]. }
  exists (rev buffer).
  split; [reflexivity|]. split; [rewrite forallb_rev; exact Hb|]. split.
  - intros E. apply (f_equal (@rev ascii)) in E. rewrite rev_involutive in E.
    simpl in E. apply Hne in E. contradiction.
  - rewrite Hv, Hz. lia.
Qed.

(** * The decimal round trip *)

Lemma digit_class c :
  isdigit c = true ->
  isspace c = false /\ Ascii.eqb c "-" = false /\ Ascii.eqb c "+" = false
  /\ Ascii.eqb c "b" = false /\ Ascii.eqb c "B" = false
  /\ Ascii.eqb c "x" = false /\ Ascii.eqb c "X" = false.
Proof.
  destruct c as [[] [] [] [] [] [] [] []]; intros H; vm_compute in H;
    try discriminate H; repeat split; reflexivity.
Qed.

(** After a digit string comes its end or another digit, never a base
    letter. *)
Lemma no_base_letter ds :
  forallb isdigit ds = true ->
  Ascii.eqb (char_at ds 1) "b" = false /\ Ascii.eqb (char_at ds 1) "B" = false
  /\ Ascii.eqb (char_at ds 1) "x" = false /\ Ascii.eqb (char_at ds 1) "X" = false.
Proof.
  intros H. destruct ds as [|d [|d' ds]]; try (repeat split; reflexivity).
  simpl in H. apply andb_prop in H as [_ H]. apply andb_prop in H as [H _].
  unfold char_at. simpl. pose proof (digit_class d' H). tauto.
Qed.

Lemma bi_from_str_digits ds :
  forallb isdigit ds = true -> ds <> [] ->
  bi_from_str ds = option_map (apply_sign 1) (bi_from_dec ds)
  /\ bi_from_str ("-"%char :: ds) = option_map (apply_sign (-1)) (bi_from_dec ds).
Proof.
  intros Hd Hne. destruct ds as [|d ds']; [contradiction|].
  pose proof (no_base_letter (d :: ds') Hd) as (Hb & HB & Hx & HX).
  simpl in Hd. apply andb_prop in Hd as [Hd0 _].
  pose proof (digit_class d Hd0) as (Hsp & Hm & Hp & _).
  assert (skip_spaces (d :: ds') = d :: ds') as Hskip by (simpl; rewrite Hsp; reflexivity).
  split; unfold bi_from_str.
  - rewrite Hskip. unfold char_at at 1. simpl nth. rewrite Hm.
    unfold char_at at 1. simpl nth. rewrite Hp. rewrite Hskip.
    rewrite Hb, HB, Hx, HX. rewrite !andb_false_r.
    destruct (bi_from_dec (d :: ds')); reflexivity.
  - simpl skip_spaces. unfold char_at at 1. simpl nth.
    change (Ascii.eqb "-" "-") with true. cbv iota. simpl drop. rewrite Hskip.
    rewrite Hb, HB, Hx, HX. rewrite !andb_false_r.
    destruct (bi_from_dec (d :: ds')); reflexivity.
Qed.

Lemma bi_from_dec_minus ds :
  forallb isdigit ds = true -> ds <> [] ->
  exists r, bi_from_dec ("-"%char :: ds) = Some r /\ normalized r /\ small_sign r
            /\ magnitude r = dec_value ds.
Proof.
  intros Hd Hne.
  assert (strlen ("-"%char :: ds) = S (Datatypes.length ds)) as Hlen
    by (simpl; rewrite strlen_digits by exact Hd; reflexivity).
  destruct (bi_from_dec_spec ("-"%char :: ds)) as (r & Hr & Hn & Hss & Hm);
    [rewrite Hlen; discriminate|].
  exists r. split; [exact Hr|]. split; [exact Hn|]. split; [exact Hss|].
  rewrite Hm, Hlen. simpl take. rewrite take_ge by lia. reflexivity.
Qed.

Lemma bi_from_dec_digits ds :
  forallb isdigit ds = true -> ds <> [] ->
  exists r, bi_from_dec ds = Some r /\ normalized r /\ small_sign r
            /\ magnitude r = dec_value ds.
Proof.
  intros Hd Hne.
  pose proof (strlen_digits ds Hd) as Hlen.
  destruct (bi_from_dec_spec ds) as (r & Hr & Hn & Hss & Hm).
  { rewrite Hlen. destruct ds; [contradiction|discriminate]. }
  exists r. split; [exact Hr|]. split; [exact Hn|]. split; [exact Hss|].
  rewrite Hm, Hlen. rewrite take_ge by lia. reflexivity.
Qed.

Lemma normalized_negate x : normalized x -> normalized (bi_negate x).
Proof.
  intros Hn. pose proof (proj1 Hn) as Hwf. pose proof (normalized_trimmed x Hn) as Ht.
  unfold bi_negate. simpl sign.
  assert (normalized (bi_copy x)) as Hc.
  { split; [apply well_formed_copy; exact Hwf|].
    pose proof (trimmed_copy x Hwf Ht) as Htc.
    destruct Hn as [_ [[Hs [Hl Hd]]|[Hs [Hl Hd]]]].
    - left. split; [exact Hs|]. split; [exact Hl|].
      rewrite digit_limbs by (simpl; lia). rewrite limbs_copy by (destruct Hwf; lia).
      rewrite <- digit_limbs by lia. exact Hd.
    - right. split; [exact Hs|]. split; [exact Hl|].
      destruct Htc as [H1|Htop]; [|exact Htop]. simpl in H1. simpl length.
      rewrite digit_limbs by (simpl; lia). rewrite limbs_copy by (destruct Hwf; lia).
      rewrite <- digit_limbs by lia. exact Hd. }
  destruct (sign x =? 0) eqn:E; [exact Hc|].
  apply Z.eqb_neq in E. destruct Hc as [Hwc [[Hs _]|[Hs [Hl Hd]]]]; [simpl in Hs; lia|].
  split; [exact Hwc|]. right. simpl in *. split; [lia|]. split; assumption.
Qed.

Lemma magnitude_negate x : well_formed x -> magnitude (bi_negate x) = magnitude x.
Proof.
  intros Hwf. unfold bi_negate. destruct (sign (bi_copy x) =? 0);
    [|rewrite magnitude_set_sign]; apply magnitude_copy; exact Hwf.
Qed.

Lemma sign_negate x : sign (bi_negate x) = - sign x.
Proof.
  unfold bi_negate. simpl. destruct (sign x =? 0) eqn:E; [|reflexivity].
  apply Z.eqb_eq in E. simpl. lia.
Qed.

(** C4, as the code behaves: the dispatcher [bi_from_str], which consumes the
    leading minus sign, parses the decimal rendering of every normalized [x]
    back to [x]; [bi_from_dec] on its own skips the minus sign like any other
    non-digit, so it gives [x] back when [x >= 0] and [negate x] when
    [x < 0]. *)
Theorem decimal_round_trip (x : BigInt) :
  normalized x ->
  (exists y, bi_from_str (bi_to_dec x) = Some y /\ same_int y x)
  /\ (exists y, bi_from_dec (bi_to_dec x) = Some y
                /\ same_int y (if sign x =? -1 then bi_negate x else x)).
Proof.
  intros Hn. pose proof (proj1 Hn) as Hwf. pose proof (normalized_trimmed x Hn) as Ht.
  destruct (Z.eq_dec (sign x) 0) as [E0|Hne].
  - (* zero prints as "0" *)
    assert (bi_to_dec x = lit "0") as -> by (unfold bi_to_dec; rewrite E0; reflexivity).
    rewrite E0. change (0 =? -1) with false. cbv iota.
    destruct Hn as [_ [[_ [Hl Hd]]|[Hs _]]]; [|lia].
    assert (same_int (mkBigInt 0 1 [0; 0; 0; 0]) x) as Hsame.
    { split; [simpl; lia|]. split; [simpl; lia|].
      unfold limbs. rewrite Hl. simpl. unfold digit in Hd.
      destruct Hwf as [Hcap _]. unfold capacity in Hcap.
      destruct (digits x) as [|d0 ds]; [simpl in Hcap; lia|]. simpl in *. subst. reflexivity. }
    split; eexists; (split; [vm_compute; reflexivity|exact Hsame]).
  - destruct (bi_to_dec_spec x Hn Hne) as (ds & -> & Hd & Hnil & Hv).
    pose proof (normalized_sign_zero x Hn) as Hs0.
    assert (magnitude x <> 0) as Hm0 by tauto.
    destruct (bi_from_str_digits ds Hd Hnil) as [Hpos Hneg].
    destruct (bi_from_dec_digits ds Hd Hnil) as (r & Hr & Hnr & Hssr & Hmr).
    assert (sign r = 1) as Hsr.
    { pose proof (normalized_sign_zero r Hnr). destruct Hssr as [Hz|H1]; [|exact H1].
      apply H in Hz. lia. }
    pose proof (normalized_trimmed r Hnr) as Htr.
    destruct (sign x =? -1) eqn:Em.
    + apply Z.eqb_eq in Em. simpl app. split.
      * rewrite Hneg, Hr. simpl option_map. eexists. split; [reflexivity|].
        unfold apply_sign. rewrite Hsr. simpl.
        apply same_int_of_value; try assumption; try apply Hnr.
        -- simpl. lia.
        -- rewrite magnitude_set_sign. lia.
      * destruct (bi_from_dec_minus ds Hd Hnil) as (r' & Hr' & Hnr' & Hssr' & Hmr').
        exists r'. split; [exact Hr'|].
        pose proof (normalized_negate x Hn) as Hnn.
        apply same_int_of_value; try apply Hnr'; try apply Hnn.
        -- apply normalized_trimmed; exact Hnr'.
        -- apply normalized_trimmed; exact Hnn.
        -- rewrite sign_negate, Em.
           pose proof (normalized_sign_zero r' Hnr'). destruct Hssr' as [Hz|H1]; [|exact H1].
           apply H in Hz. lia.
        -- rewrite magnitude_negate by exact Hwf. lia.
    + apply Z.eqb_neq in Em. simpl app.
      assert (sign x = 1) as Hx1
        by (destruct Hn as [_ [[Hs _]|[[Hs|Hs] _]]]; lia).
      assert (same_int r x) as Hsame
        by (apply same_int_of_value; try assumption; try apply Hnr; lia).
      split.
      * rewrite Hpos, Hr. simpl option_map. eexists. split; [reflexivity|].
        unfold apply_sign. rewrite Hsr. simpl.
        destruct r as [sr lr dr]. simpl in Hsr. subst sr. exact Hsame.
      * exists r. split; [exact Hr|exact Hsame].
Qed.

(** C4, as stated, fails: the decimal rendering of -5 does not parse back to
    -5 with [bi_from_dec]. *)
Lemma from_decimal_loses_minus_sign :
  ~ (exists y, bi_from_dec (bi_to_dec minus_five) = Some y /\ same_int y minus_five).
Proof.
  intros (y & Hy & Hs & _). vm_compute in Hy. inversion Hy; subst y.
  simpl in Hs. discriminate Hs.
Qed.

(** The round trip at -5. *)
Lemma decimal_round_trip_witness :
  normalized minus_five
  /\ (exists y, bi_from_str (bi_to_dec minus_five) = Some y /\ same_int y minus_five)
  /\ (exists y, bi_from_dec (bi_to_dec minus_five) = Some y
                /\ same_int y (if sign minus_five =? -1 then bi_negate minus_five
                               else minus_five)).
Proof.
  assert (normalized minus_five) as H.
  { split; [split; [vm_compute; lia|]|right; vm_compute; repeat split; lia || discriminate].
    simpl. repeat (constructor; [unfold is_limb; rewrite pow32; lia|]). constructor. }
  split; [exact H|]. exact (decimal_round_trip minus_five H).
Defined.


(** * Bit operations on limbs *)

Lemma lor_bit0 d c : (c = 0 \/ c = 1) -> Z.lor (2 * d) c = 2 * d + c.
Proof.
  intros [->| ->]; [rewrite Z.lor_0_r; lia|].
  apply lor_disjoint. apply Z.bits_inj'. intros k Hk.
  rewrite Z.land_spec, Z.bits_0.
  destruct (Z.eq_dec k 0) as [->|Hne].
  - rewrite Z.testbit_even_0. reflexivity.
  - rewrite (Z.bits_above_log2 1 k) by (simpl; lia). apply andb_false_r.
Qed.

Lemma lor_pow2 d b : 0 <= b -> 0 <= d < 2 ^ b -> Z.lor d (2 ^ b) = d + 2 ^ b.
Proof.
  intros Hb Hd. apply lor_disjoint. apply Z.bits_inj'. intros k Hk.
  rewrite Z.land_spec, Z.bits_0, Z.pow2_bits_eqb by lia.
  destruct (Z.eqb_spec b k) as [<-|Hne]; [|apply andb_false_r].
  rewrite andb_true_r. destruct (Z.eq_dec d 0) as [->|Hd0]; [apply Z.bits_0|].
  apply Z.bits_above_log2; [lia|]. apply Z.log2_lt_pow2; lia.
Qed.

Lemma shiftl1 d : Z.shiftl d 1 = 2 * d.
Proof. rewrite Z.shiftl_mul_pow2 by lia. change (2 ^ 1) with 2. lia. Qed.

Lemma shiftr31 d : Z.shiftr d 31 = d / 2 ^ 31.
Proof. apply Z.shiftr_div_pow2. lia. Qed.

(** Doubling a limb with an incoming carry bit: the low word and the outgoing
    carry. *)
Lemma double_limb d c :
  is_limb d -> (c = 0 \/ c = 1) ->
  2 * d + c = u32 (2 * d + c) + 2 ^ 32 * (d / 2 ^ 31)
  /\ (d / 2 ^ 31 = 0 \/ d / 2 ^ 31 = 1).
Proof.
  unfold is_limb, u32. intros Hd Hc. rewrite pow32 in *.
  change (2 ^ 31) with 2147483648.
  pose proof (Z.div_mod d 2147483648 ltac:(lia)).
  pose proof (Z.mod_pos_bound d 2147483648 ltac:(lia)).
  assert (0 <= d / 2147483648 < 2) as Hq.
  { split; [apply Z.div_pos; lia|apply Z.div_lt_upper_bound; lia]. }
  assert ((2 * d + c) mod 4294967296 = 2 * (d mod 2147483648) + c) as ->.
  { symmetry. apply (Z.mod_unique _ _ (d / 2147483648)); lia. }
  lia.
Qed.

(** * Shifting left by one bit *)

Lemma bi_shift_left_one_spec n :
  well_formed n ->
  let r := bi_shift_left_one n in
  well_formed r /\ sign r = sign n
  /\ magnitude r = (if sign n =? 0 then magnitude n else 2 * magnitude n)
  /\ (length n <= length r)%nat.
Proof.
  intros Hwf. unfold bi_shift_left_one.
  destruct (sign n =? 0) eqn:Es.
  { cbv zeta. repeat split; try apply Hwf; lia. }
  cbv zeta. rewrite length_resize.
  set (n1 := bi_resize n (length n + 1)).
  assert (well_formed n1) as Hwf1 by (apply well_formed_resize; exact Hwf).
  assert (length n1 = length n) as Hl1 by apply length_resize.
  assert (length n < capacity n1)%nat as Hc1
    by (pose proof (capacity_resize n (length n + 1)); unfold n1; lia).
  assert (magnitude n1 = magnitude n) as Hm1
    by (unfold magnitude, n1; rewrite limbs_resize by (destruct Hwf; lia); reflexivity).
  set (P := fun (i : nat) (s : BigInt * Z) =>
    let '(r, carry) := s in
    length r = length n /\ capacity r = capacity n1 /\ well_formed r
    /\ sign r = sign n /\ (carry = 0 \/ carry = 1)
    /\ limbs_value (take i (digits r)) + carry * 2 ^ (32 * Z.of_nat i)
       = 2 * limbs_value (take i (digits n1))
    /\ (forall k, (i <= k)%nat -> digit r k = digit n1 k)).
  for_rule P.
  { unfold P. split; [exact Hl1|]. split; [reflexivity|]. split; [exact Hwf1|].
    split; [apply sign_resize|]. split; [left; reflexivity|].
    split; [simpl; lia|]. intros; reflexivity. }
  { intros i [r carry] Hi (Hl & Hc & Hw & Hsg & Hcar & Hv & Hup). unfold P.
    pose proof (digit_is_limb r i Hw) as Hdi.
    rewrite shiftl1, shiftr31, lor_bit0 by exact Hcar.
    destruct (double_limb (digit r i) carry Hdi Hcar) as [Hsplit Hnc].
    split; [exact Hl|]. split; [rewrite capacity_set_digit; exact Hc|].
    split; [apply well_formed_set_digit; [exact Hw|apply u32_range]|].
    split; [exact Hsg|]. split; [exact Hnc|]. split.
    - unfold set_digit. simpl digits.
      assert (i < Datatypes.length (digits r))%nat as Hir by (unfold capacity in *; lia).
      assert (i < Datatypes.length (digits n1))%nat as Hir1 by (unfold capacity in *; lia).
      rewrite limbs_value_take_S by (rewrite length_insert; exact Hir).
      rewrite nth_insert_eq by exact Hir. rewrite take_insert_ge by lia.
      rewrite (limbs_value_take_S (digits n1)) by exact Hir1.
      fold (digit n1 i). rewrite <- (Hup i) by lia.
      rewrite pow32_S. nia.
    - intros k Hk. rewrite digit_set_digit_ne by lia. apply Hup. lia. }
  destruct (for_loop _ _ _) as [r carry].
  destruct HP as (Hl & Hc & Hw & Hsg & Hcar & Hv & Hup).
  assert (limbs_value (take (length n) (digits r))
          + carry * 2 ^ (32 * Z.of_nat (length n)) = 2 * magnitude n) as Hv'.
  { rewrite Hv, <- Hm1. unfold magnitude, limbs. rewrite Hl1. reflexivity. }
  destruct (carry =? 0) eqn:Ec.
  - apply Z.eqb_eq in Ec. subst carry.
    split; [exact Hw|]. split; [exact Hsg|]. split; [|lia].
    unfold magnitude at 1, limbs. rewrite Hl. lia.
  - apply Z.eqb_neq in Ec.
    split; [apply well_formed_push; [exact Hw|lia|]|].
    { unfold is_limb. rewrite pow32. lia. }
    split; [exact Hsg|]. split; [|simpl; lia].
    rewrite magnitude_push by lia. unfold magnitude at 1, limbs. rewrite Hl. lia.
Qed.

(** * Complementing the limbs in use *)

Lemma invert_limbs_spec n :
  well_formed n ->
  let r := for_loop (length n)
             (fun z res => set_digit z (not32 (digit res z)) res) n in
  well_formed r /\ length r = length n /\ sign r = sign n
  /\ capacity r = capacity n
  /\ magnitude r = 2 ^ (32 * Z.of_nat (length n)) - 1 - magnitude n.
Proof.
  intros Hwf. cbv zeta.
  set (P := fun (i : nat) (r : BigInt) =>
    length r = length n /\ capacity r = capacity n /\ well_formed r
    /\ sign r = sign n
    /\ limbs_value (take i (digits r))
       = 2 ^ (32 * Z.of_nat i) - 1 - limbs_value (take i (digits n))
    /\ (forall k, (i <= k)%nat -> digit r k = digit n k)).
  for_rule P.
  { unfold P. repeat split; try assumption; try apply Hwf; try lia. }
  { intros i r Hi (Hl & Hc & Hw & Hsg & Hv & Hup). unfold P.
    pose proof (digit_is_limb r i Hw) as Hdi.
    assert (i < Datatypes.length (digits r))%nat as Hir
      by (destruct Hwf; unfold capacity in *; lia).
    assert (i < Datatypes.length (digits n))%nat as Hir1
      by (destruct Hwf; unfold capacity in *; lia).
    split; [exact Hl|]. split; [rewrite capacity_set_digit; exact Hc|].
    split; [apply well_formed_set_digit; [exact Hw|apply u32_range]|].
    split; [exact Hsg|]. split.
    - unfold set_digit. simpl digits.
      rewrite limbs_value_take_S by (rewrite length_insert; exact Hir).
      rewrite nth_insert_eq by exact Hir. rewrite take_insert_ge by lia.
      rewrite (limbs_value_take_S (digits n)) by exact Hir1.
      fold (digit n i). rewrite <- (Hup i) by lia.
      rewrite not32_eq by exact Hdi. rewrite pow32_S, Hv. ring.
    - intros k Hk. rewrite digit_set_digit_ne by lia. apply Hup. lia. }
  destruct HP as (Hl & Hc & Hw & Hsg & Hv & _).
  split; [exact Hw|]. split; [exact Hl|]. split; [exact Hsg|]. split; [exact Hc|].
  unfold magnitude, limbs. rewrite Hl. exact Hv.
Qed.

(** * A limb as a slice of the magnitude *)

Lemma nth_of_limbs_value l : forall w,
  Forall is_limb l -> (w < Datatypes.length l)%nat ->
  nth w l 0 = (limbs_value l / 2 ^ (32 * Z.of_nat w)) mod 2 ^ 32.
Proof.
  induction l as [|d l IH]; intros w Hl Hw; simpl in Hw; [lia|].
  inversion Hl as [|? ? Hd Hl']; subst. unfold is_limb in Hd. simpl limbs_value.
  destruct w as [|w].
  - change (32 * Z.of_nat 0) with 0. rewrite Z.pow_0_r, Z.div_1_r. simpl nth.
    apply (Z.mod_unique _ _ (limbs_value l)); [left; lia|ring].
  - simpl nth. rewrite IH by (assumption || lia).
    rewrite pow32_S. rewrite <- Z.div_div by (try apply pow32_pos; lia).
    replace ((d + 2 ^ 32 * limbs_value l) / 2 ^ 32) with (limbs_value l);
      [reflexivity|].
    apply (Z.div_unique _ _ _ d); [left; lia|ring].
Qed.

Lemma digit_of_magnitude n w :
  well_formed n -> (w < length n)%nat ->
  digit n w = (magnitude n / 2 ^ (32 * Z.of_nat w)) mod 2 ^ 32.
Proof.
  intros [Hlen Hd] Hw. rewrite digit_limbs by exact Hw. unfold magnitude.
  apply nth_of_limbs_value.
  - apply Forall_take. exact Hd.
  - rewrite limbs_length by lia. exact Hw.
Qed.

(** * Binary literals *)

Lemma bits_value_snoc s c : bits_value (s ++ [c]) = 2 * bits_value s + bit_of c.
Proof. unfold bits_value. rewrite fold_left_app. reflexivity. Qed.

Lemma bits_value_fold s : forall acc,
  fold_left (fun acc c => 2 * acc + bit_of c) s acc
  = acc * 2 ^ Z.of_nat (Datatypes.length s)
    + fold_left (fun acc c => 2 * acc + bit_of c) s 0.
Proof.
  induction s as [|c s IH]; intros acc; simpl fold_left; simpl Datatypes.length.
  - simpl. lia.
  - rewrite (IH (2 * acc + bit_of c)), (IH (2 * 0 + bit_of c)).
    replace (Z.of_nat (S (Datatypes.length s))) with (1 + Z.of_nat (Datatypes.length s)) by lia.
    rewrite Z.pow_add_r by lia. ring.
Qed.

Lemma bits_value_cons c s :
  bits_value (c :: s) = bit_of c * 2 ^ Z.of_nat (Datatypes.length s) + bits_value s.
Proof.
  unfold bits_value. simpl fold_left.
  rewrite bits_value_fold. ring.
Qed.

Lemma bit_of_range c : 0 <= bit_of c <= 1.
Proof. unfold bit_of. destruct (is_char c "1"); lia. Qed.

Lemma bits_value_bound s : 0 <= bits_value s < 2 ^ Z.of_nat (Datatypes.length s).
Proof.
  induction s as [|c s IH].
  - unfold bits_value. simpl. lia.
  - rewrite bits_value_cons. pose proof (bit_of_range c).
    simpl Datatypes.length.
    replace (Z.of_nat (S (Datatypes.length s))) with (1 + Z.of_nat (Datatypes.length s)) by lia.
    rewrite Z.pow_add_r by lia. change (2 ^ 1) with 2. nia.
Qed.

Lemma forallb_char_at (f : ascii -> bool) (s : list ascii) :
  forallb f s = true ->
  forallb (fun i => f (char_at s i)) (seq 0 (Datatypes.length s)) = true.
Proof.
  intros H. apply forallb_forall. intros i Hi. apply in_seq in Hi.
  rewrite forallb_forall in H. apply H. unfold char_at. apply nth_In. lia.
Qed.

Lemma is_bit_char_not_nul c : is_bit_char c = true -> negb (Ascii.eqb c NUL) = true.
Proof.
  unfold is_bit_char, is_char. intros H.
  destruct (Ascii.eqb c "0") eqn:E0; [apply Ascii.eqb_eq in E0; subst; reflexivity|].
  destruct (Ascii.eqb c "1") eqn:E1; [apply Ascii.eqb_eq in E1; subst; reflexivity|].
  discriminate H.
Qed.

Lemma strlen_bits s : forallb is_bit_char s = true -> strlen s = Datatypes.length s.
Proof.
  intros H. apply strlen_no_nul. rewrite forallb_forall in *.
  intros c Hc. apply is_bit_char_not_nul. apply H. exact Hc.
Qed.

Lemma bits_no_prefix s :
  forallb is_bit_char s = true ->
  Ascii.eqb (char_at s 0) "0"
  && (Ascii.eqb (char_at s 1) "b" || Ascii.eqb (char_at s 1) "B") = false.
Proof.
  intros H. destruct s as [|c [|c' s]]; try reflexivity.
  - unfold char_at. simpl. apply andb_false_r.
  - simpl in H. apply andb_prop in H as [_ H]. apply andb_prop in H as [H _].
    unfold char_at. simpl. unfold is_bit_char, is_char in H.
    destruct (Ascii.eqb c' "0") eqn:E0;
      [apply Ascii.eqb_eq in E0; subst; apply andb_false_r|].
    destruct (Ascii.eqb c' "1") eqn:E1;
      [apply Ascii.eqb_eq in E1; subst; apply andb_false_r|].
    discriminate H.
Qed.

(** The loop of [bi_from_bin] that sets the bits from [n] up to the top of
    the limbs in use. *)
Lemma sign_extend_spec res n v :
  well_formed res -> magnitude res = v -> 0 <= v < 2 ^ Z.of_nat n ->
  (n <= 32 * length res)%nat ->
  let r :=
    for_loop (capacity res * 32 - n)
      (fun k res =>
         let bit := (n + k)%nat in
         let word_idx := (bit / 32)%nat in
         let bit_idx := (bit mod 32)%nat in
         if (word_idx <? length res)%nat
         then set_digit word_idx
                (Z.lor (digit res word_idx)
                   (u32 (Z.shiftl 1 (Z.of_nat bit_idx)))) res
         else res)
      res in
  well_formed r /\ length r = length res /\ sign r = sign res
  /\ magnitude r = v + 2 ^ (32 * Z.of_nat (length res)) - 2 ^ Z.of_nat n.
Proof.
  intros Hwf Hm Hv Hn. cbv zeta.
  set (L := length res) in *.
  set (P := fun (k : nat) (r : BigInt) =>
    length r = L /\ capacity r = capacity res /\ well_formed r
    /\ sign r = sign res
    /\ magnitude r = v + 2 ^ (Z.min (Z.of_nat (n + k)) (32 * Z.of_nat L))
                     - 2 ^ Z.of_nat n).
  for_rule P.
  { unfold P. split; [reflexivity|]. split; [reflexivity|]. split; [exact Hwf|].
    split; [reflexivity|]. rewrite Nat.add_0_r.
    rewrite Z.min_l by lia. lia. }
  { intros k r Hk (Hl & Hc & Hw & Hsg & Hmr). unfold P.
    pose proof (Nat.div_mod_eq (n + k) 32) as Hdm.
    pose proof (Nat.mod_upper_bound (n + k) 32 ltac:(lia)) as Hb.
    set (w := ((n + k) / 32)%nat) in *. set (b := ((n + k) mod 32)%nat) in *.
    rewrite Hl.
    destruct (w <? L)%nat eqn:Ew.
    - apply Nat.ltb_lt in Ew.
      rewrite Z.min_l in Hmr by lia.
      assert (u32 (Z.shiftl 1 (Z.of_nat b)) = 2 ^ Z.of_nat b) as Hsh.
      { rewrite Z.shiftl_mul_pow2 by lia. rewrite Z.mul_1_l. apply u32_small.
        unfold is_limb. split; [apply Z.pow_nonneg; lia|].
        apply Z.pow_lt_mono_r; lia. }
      rewrite Hsh.
      assert (Z.of_nat (n + k) = 32 * Z.of_nat w + Z.of_nat b) as Hbit by lia.
      assert (2 ^ Z.of_nat (n + k) = 2 ^ (32 * Z.of_nat w) * 2 ^ Z.of_nat b) as Hpow
        by (rewrite Hbit, Z.pow_add_r by lia; reflexivity).
      assert (0 <= digit r w < 2 ^ Z.of_nat b) as Hd.
      { rewrite digit_of_magnitude by (assumption || lia).
        pose proof (pow32_pos w). pose proof (magnitude_bound r Hw).
        assert (0 <= magnitude r / 2 ^ (32 * Z.of_nat w) < 2 ^ Z.of_nat b) as Hq.
        { split; [apply Z.div_pos; lia|]. apply Z.div_lt_upper_bound; lia. }
        assert (2 ^ Z.of_nat b <= 2 ^ 32) by (apply Z.pow_le_mono_r; lia).
        rewrite Z.mod_small by lia. exact Hq. }
      rewrite lor_pow2 by (lia || exact Hd).
      split; [exact Hl|]. split; [rewrite capacity_set_digit; exact Hc|].
      split.
      { apply well_formed_set_digit; [exact Hw|]. unfold is_limb.
        assert (2 ^ Z.of_nat b + 2 ^ Z.of_nat b <= 2 ^ 32).
        { replace (2 ^ Z.of_nat b + 2 ^ Z.of_nat b) with (2 ^ (Z.of_nat b + 1))
            by (rewrite Z.pow_add_r by lia; lia).
          apply Z.pow_le_mono_r; lia. }
        lia. }
      split; [exact Hsg|].
      rewrite magnitude_set_digit by (destruct Hw; lia).
      rewrite Z.min_l by lia.
      replace (Z.of_nat (n + S k)) with (Z.of_nat (n + k) + 1) by lia.
      rewrite Z.pow_add_r by lia. rewrite Hmr. change (2 ^ 1) with 2. lia.
    - apply Nat.ltb_ge in Ew.
      split; [exact Hl|]. split; [exact Hc|]. split; [exact Hw|]. split; [exact Hsg|].
      rewrite Hmr. rewrite !Z.min_r by lia. reflexivity. }
  destruct HP as (Hl & Hc & Hw & Hsg & Hmr).
  split; [exact Hw|]. split; [exact Hl|]. split; [exact Hsg|].
  rewrite Hmr. rewrite Z.min_r; [reflexivity|].
  destruct Hwf as [Hlen _]. fold L in Hlen. lia.
Qed.

(** The counted-loop rule for the loop that starts in state [s0]. *)
Ltac for_rule_at P n s0 :=
  match goal with
  | |- context [for_loop n ?b s0] =>
      let HP := fresh "HP" in
      assert (P n (for_loop n b s0)) as HP; [apply (for_loop_inv P n b s0)|]
  end.

Lemma value_normalize n :
  well_formed n -> value (bi_normalize n) = value n.
Proof.
  intros Hwf. unfold value. rewrite magnitude_normalize, sign_normalize by exact Hwf.
  destruct (magnitude n =? 0) eqn:E; [|reflexivity].
  apply Z.eqb_eq in E. rewrite E. lia.
Qed.

(** C7: [bi_from_bin] reads a string of binary digits in two's complement
    over as many bits as the string has digits; with a leading 1 that is the
    unsigned value minus 2^len.  The literal 0b1000 is -8, and the line
    [0b1000 + 8] prints 0. *)
Theorem from_binary_twos_complement (s : list ascii) :
  s <> [] -> forallb is_bit_char s = true ->
  (exists r, bi_from_bin s = Some r /\ normalized r
             /\ value r = twos_complement s)
  /\ (char_at s 0 = "1"%char ->
      twos_complement s = bits_value s - 2 ^ Z.of_nat (Datatypes.length s))
  /\ option_map value (bi_from_bin (lit "1000")) = Some (-8)
  /\ run BASE_DEC "0b1000 + 8" = Done (BASE_DEC, ["0"%string]).
Proof.
  intros Hne Hbits.
  split; [|split; [|split; vm_compute; reflexivity]].
  2:{ intros H1. unfold twos_complement, is_char. rewrite H1. reflexivity. }
  unfold bi_from_bin. rewrite (bits_no_prefix s Hbits).
  rewrite (strlen_bits s Hbits).
  pose proof (forallb_char_at is_bit_char s Hbits) as Hchk.
  unfold is_bit_char, is_char in Hchk. rewrite Hchk. simpl negb. cbv iota.
  assert (Datatypes.length s <> O) as Hlen by (destruct s; [contradiction|discriminate]).
  apply Nat.eqb_neq in Hlen as Elen. rewrite Elen. apply Nat.eqb_neq in Elen.
  set (n := Datatypes.length s) in *.
  set (res0 := set_sign 1 (bi_resize bi_create ((n + 32 - 1) / 32))).
  assert (well_formed res0) as Hwf0
    by (apply well_formed_set_sign, well_formed_resize, well_formed_create).
  assert (magnitude res0 = 0) as Hm0.
  { unfold res0. rewrite magnitude_set_sign. unfold magnitude.
    rewrite limbs_resize by (vm_compute; lia). reflexivity. }
  set (P := fun (i : nat) (res : BigInt) =>
    well_formed res /\ sign res = 1 /\ magnitude res = bits_value (take i s)).
  for_rule_at P n res0.
  { unfold P. split; [exact Hwf0|]. split; [reflexivity|]. exact Hm0. }
  { intros i res Hi (Hw & Hsg & Hm). unfold P.
    destruct (bi_shift_left_one_spec res Hw) as (Hw1 & Hsg1 & Hm1 & _).
    rewrite Hsg in Hm1. change (1 =? 0) with false in Hm1. cbv iota in Hm1.
    set (r1 := bi_shift_left_one res) in *.
    rewrite take_S_char_at by (fold n; lia). rewrite bits_value_snoc.
    unfold bit_of, is_char.
    destruct (Ascii.eqb (char_at s i) "1") eqn:Ec.
    - assert (digit r1 O = 2 * (digit r1 O / 2)) as Heven.
      { rewrite (digit_of_magnitude r1 O Hw1) by (destruct Hw1; lia).
        change (32 * Z.of_nat 0) with 0. rewrite Z.pow_0_r, Z.div_1_r, Hm1.
        change (2 ^ 32) with (2 * 2147483648).
        rewrite Z.mul_mod_distr_l by lia.
        rewrite Z.mul_comm, Z.div_mul by lia. lia. }
      pose proof (digit_is_limb r1 O Hw1) as Hd0. unfold is_limb in Hd0.
      rewrite pow32 in Hd0.
      rewrite Heven, lor_bit0 by (right; reflexivity). rewrite <- Heven.
      split; [apply well_formed_set_sign, well_formed_set_digit; [exact Hw1|]|].
      { unfold is_limb. rewrite pow32. lia. }
      split; [reflexivity|].
      rewrite magnitude_set_sign, magnitude_set_digit by (destruct Hw1; lia).
      change (32 * Z.of_nat 0) with 0. rewrite Z.pow_0_r. lia.
    - split; [exact Hw1|]. split; [lia|]. lia. }
  destruct HP as (Hw & Hsg & Hm).
  rewrite take_ge in Hm by (fold n; lia).
  set (res := for_loop n _ res0) in *.
  pose proof (bits_value_bound s) as Hvb. fold n in Hvb.
  unfold twos_complement, is_char.
  destruct (Ascii.eqb (char_at s 0) "1") eqn:E1.
  - (* leading 1: sign-extend, complement, add one *)
    assert (2 ^ (Z.of_nat n - 1) <= bits_value s) as Hlead.
    { destruct s as [|c s']; [contradiction|]. unfold char_at in E1. simpl in E1.
      rewrite bits_value_cons. unfold bit_of, is_char. rewrite E1.
      pose proof (bits_value_bound s'). unfold n. simpl Datatypes.length.
      replace (Z.of_nat (S (Datatypes.length s')) - 1)
        with (Z.of_nat (Datatypes.length s')) by lia. lia. }
    assert (n <= 32 * length res)%nat as Hn32.
    { pose proof (magnitude_bound res Hw) as Hb. rewrite Hm in Hb.
      assert (Z.of_nat n - 1 < 32 * Z.of_nat (length res)) as Hlt
        by (apply (Z.pow_lt_mono_r_iff 2); lia). lia. }
    destruct (sign_extend_spec res n (bits_value s) Hw Hm Hvb Hn32)
      as (Hw1 & Hl1 & Hsg1 & Hm1).
    match type of Hw1 with well_formed ?r => set (r1 := r) in * end.
    destruct (invert_limbs_spec r1 Hw1) as (Hw2 & Hl2 & Hsg2 & _ & Hm2).
    match type of Hw2 with well_formed ?r => set (r2 := r) in * end.
    destruct (bi_add_digit_into_spec r2 1 Hw2) as (Hw3 & _ & Hm3 & Hsg3).
    { unfold is_limb. rewrite pow32. lia. }
    { lia. }
    { rewrite Hsg2, Hsg1, Hsg. discriminate. }
    set (r3 := bi_add_digit_into r2 1) in *.
    eexists. split; [reflexivity|].
    assert (magnitude r3 = 2 ^ Z.of_nat n - bits_value s) as Hm3'.
    { rewrite Hm3, Hm2, Hm1, Hl1. lia. }
    split.
    + apply normalized_normalize; [apply well_formed_set_sign; exact Hw3|].
      right. left. reflexivity.
    + rewrite value_normalize by (apply well_formed_set_sign; exact Hw3).
      unfold value. simpl sign. rewrite magnitude_set_sign, Hm3'. subst n. lia.
  - eexists. split; [reflexivity|]. split.
    + apply normalized_normalize; [exact Hw|]. left. exact Hsg.
    + rewrite value_normalize by exact Hw. unfold value. rewrite Hsg, Hm. lia.
Qed.

(** The literal 1000 read by [bi_from_bin]. *)
Lemma from_binary_twos_complement_witness :
  lit "1000" <> [] /\ forallb is_bit_char (lit "1000") = true
  /\ (exists r, bi_from_bin (lit "1000") = Some r /\ normalized r
                /\ value r = twos_complement (lit "1000")).
Proof.
  assert (lit "1000" <> []) as H1 by discriminate.
  assert (forallb is_bit_char (lit "1000") = true) as H2 by reflexivity.
  split; [exact H1|]. split; [exact H2|].
  exact (proj1 (from_binary_twos_complement (lit "1000") H1 H2)).
Defined.


(** * Adding magnitudes in place *)

(** Limbs that agree from [i] up to [m] contribute the same to the value. *)
Lemma limbs_value_upper (l1 l2 : list Z) i m :
  (i <= m)%nat -> (m <= Datatypes.length l1)%nat -> (m <= Datatypes.length l2)%nat ->
  (forall k, (i <= k < m)%nat -> nth k l1 0 = nth k l2 0) ->
  limbs_value (take m l1) - limbs_value (take i l1)
  = limbs_value (take m l2) - limbs_value (take i l2).
Proof.
  intros Him H1 H2. induction m as [|m IH]; intros Hk.
  - replace i with O by lia. lia.
  - destruct (Nat.eq_dec i (S m)) as [->|Hne]; [lia|].
    rewrite !limbs_value_take_S by lia. rewrite (Hk m) by lia.
    assert (limbs_value (take m l1) - limbs_value (take i l1)
            = limbs_value (take m l2) - limbs_value (take i l2)) as E.
    { apply IH; try lia. intros k Hk'. apply Hk. lia. }
    lia.
Qed.

Lemma length_set_digit n i v : length (set_digit i v n) = length n.
Proof. reflexivity. Qed.

Lemma bi_add_into_abs_spec res b :
  well_formed res -> well_formed b ->
  let r := bi_add_into_abs res b in
  well_formed r /\ trimmed r
  /\ magnitude r = magnitude res + magnitude b
  /\ sign r = (if magnitude res + magnitude b =? 0 then 0 else sign res).
Proof.
  intros Hwf Hwfb. unfold bi_add_into_abs. cbv zeta.
  set (la := length res). set (lb := length b).
  set (max_n := Nat.max la lb).
  set (res1 := bi_resize res (max_n + 1)).
  assert (well_formed res1) as Hwf1 by (apply well_formed_resize; exact Hwf).
  assert (length res1 = la) as Hl1 by apply length_resize.
  assert (max_n < capacity res1)%nat as Hc1
    by (pose proof (capacity_resize res (max_n + 1)); unfold res1; lia).
  assert (forall k, digit res1 k = digit res k) as Hd1
    by (intros k; apply digit_resize).
  assert (la <= Datatypes.length (digits res))%nat as Hla
    by (destruct Hwf as [? _]; unfold capacity in *; lia).
  assert (lb <= Datatypes.length (digits b))%nat as Hlb
    by (destruct Hwfb as [? _]; unfold capacity in *; lia).
  set (P := fun s : nat * Z * BigInt =>
    let '(i, carry, r) := s in
    (i <= max_n + 1)%nat /\ (carry = 0 \/ carry = 1)
    /\ (i = (max_n + 1)%nat -> carry = 0)
    /\ length r = Nat.max la i /\ capacity r = capacity res1
    /\ well_formed r /\ sign r = sign res
    /\ limbs_value (take i (digits r)) + carry * 2 ^ (32 * Z.of_nat i)
       = limbs_value (take (Nat.min i la) (digits res))
         + limbs_value (take (Nat.min i lb) (digits b))
    /\ (forall k, (i <= k < la)%nat -> digit r k = digit res k)).
  set (m := fun s : nat * Z * BigInt => let '(i, _, _) := s in (max_n + 2 - i)%nat).
  while_rule P m.
  { intros [[i carry] r] (Hi & Hcar & Hend & Hl & Hc & Hw & Hsg & Hv & Hup) Hcond.
    assert (i <= max_n)%nat as Hi'.
    { destruct (Nat.eq_dec i (max_n + 1)%nat) as [E|]; [|lia].
      specialize (Hend E). subst carry. apply orb_prop in Hcond as [Hc'|Hc'].
      - apply Nat.ltb_lt in Hc'. lia.
      - discriminate Hc'. }
    assert (i < Datatypes.length (digits r))%nat as Hir by (unfold capacity in *; lia).
    split; [|unfold m; lia]. unfold P.
    set (r' := if (length r <=? i)%nat
               then set_length (S i) (set_digit i 0 r) else r).
    assert (well_formed r' /\ capacity r' = capacity res1 /\ sign r' = sign res
            /\ length r' = Nat.max la (S i)
            /\ take i (digits r') = take i (digits r)
            /\ digit r' i = (if (i <? la)%nat then digit res i else 0)
            /\ (forall k, (S i <= k < la)%nat -> digit r' k = digit res k))
      as (Hw' & Hc' & Hsg' & Hl' & Htk & Hdi & Hup').
    { unfold r'. destruct (length r <=? i)%nat eqn:El.
      - apply Nat.leb_le in El.
        split.
        { destruct Hw as [Hlen Hd]. split; unfold capacity in *; simpl.
          - rewrite length_insert. lia.
          - apply Forall_insert_limb; [exact Hd|unfold is_limb; lia]. }
        split; [unfold capacity; simpl; rewrite length_insert; exact Hc|].
        split; [exact Hsg|]. split; [simpl; lia|].
        split; [simpl; apply take_insert_ge; lia|].
        split.
        { assert ((i <? la)%nat = false) as -> by (apply Nat.ltb_ge; lia).
          unfold digit. simpl. apply nth_insert_eq. exact Hir. }
        intros k Hk. lia.
      - apply Nat.leb_gt in El.
        split; [exact Hw|]. split; [exact Hc|]. split; [exact Hsg|].
        split; [lia|]. split; [reflexivity|]. split.
        { assert ((i <? la)%nat = true) as -> by (apply Nat.ltb_lt; lia).
          apply Hup. lia. }
        intros k Hk. apply Hup. lia. }
    clearbody r'.
    set (val_b := if (i <? lb)%nat then digit b i else 0).
    assert (is_limb val_b) as Hvb.
    { unfold val_b. destruct (i <? lb)%nat; [apply digit_is_limb; exact Hwfb|].
      unfold is_limb. lia. }
    pose proof (digit_is_limb r' i Hw') as Hdl. unfold is_limb in Hdl, Hvb.
    assert (0 <= digit r' i + val_b + carry < 2 ^ 64) as Hsum
      by (rewrite pow64; rewrite pow32 in *; lia).
    rewrite u64_small by exact Hsum. rewrite shiftr32.
    set (sum := digit r' i + val_b + carry) in *.
    assert (sum / 2 ^ 32 = 0 \/ sum / 2 ^ 32 = 1) as Hnc.
    { assert (0 <= sum / 2 ^ 32 < 2); [|lia].
      split; [apply Z.div_pos; lia|]. apply Z.div_lt_upper_bound; [lia|].
      rewrite pow32 in *. lia. }
    split; [lia|]. split; [exact Hnc|]. split.
    { intros E. assert (i = max_n) as -> by lia.
      assert ((max_n <? la)%nat = false) as Ela by (apply Nat.ltb_ge; lia).
      assert ((max_n <? lb)%nat = false) as Elb by (apply Nat.ltb_ge; lia).
      unfold sum, val_b. rewrite Hdi, Ela, Elb.
      apply Z.div_small. rewrite pow32. lia. }
    split; [rewrite length_set_digit; exact Hl'|].
    split; [rewrite capacity_set_digit; exact Hc'|].
    split; [apply well_formed_set_digit; [exact Hw'|apply u32_range]|].
    split; [exact Hsg'|]. split.
    - unfold set_digit. simpl digits.
      assert (i < Datatypes.length (digits r'))%nat as Hir' by (unfold capacity in *; lia).
      rewrite limbs_value_take_S by (rewrite length_insert; exact Hir').
      rewrite nth_insert_eq by exact Hir'. rewrite take_insert_ge by lia.
      rewrite Htk, pow32_S.
      pose proof (split_word sum) as Hsw.
      assert (limbs_value (take (Nat.min (S i) la) (digits res))
              = limbs_value (take (Nat.min i la) (digits res))
                + 2 ^ (32 * Z.of_nat i) * (if (i <? la)%nat then digit res i else 0)) as Ea.
      { destruct (i <? la)%nat eqn:E.
        - apply Nat.ltb_lt in E. rewrite !Nat.min_l by lia.
          apply limbs_value_take_S. lia.
        - apply Nat.ltb_ge in E. rewrite !Nat.min_r by lia. lia. }
      assert (limbs_value (take (Nat.min (S i) lb) (digits b))
              = limbs_value (take (Nat.min i lb) (digits b))
                + 2 ^ (32 * Z.of_nat i) * val_b) as Eb.
      { unfold val_b. destruct (i <? lb)%nat eqn:E.
        - apply Nat.ltb_lt in E. rewrite !Nat.min_l by lia.
          apply limbs_value_take_S. lia.
        - apply Nat.ltb_ge in E. rewrite !Nat.min_r by lia. lia. }
      rewrite Ea, Eb, <- Hdi. unfold sum in *. nia.
    - intros k Hk. rewrite digit_set_digit_ne by lia. apply Hup'. lia. }
  { unfold P. split; [lia|]. split; [left; reflexivity|]. split; [lia|].
    split; [rewrite Hl1; lia|]. split; [reflexivity|]. split; [exact Hwf1|].
    split; [apply sign_resize|]. split; [simpl; lia|].
    intros k Hk. apply Hd1. }
  { unfold m. lia. }
  destruct (while_loop _ _ _ _) as [[i carry] r].
  destruct HP as (Hi & Hcar & Hend & Hl & Hc & Hw & Hsg & Hv & Hup).
  apply orb_false_elim in Hexit as [Hex1 Hex2].
  apply Nat.ltb_ge in Hex1. apply negb_false_iff in Hex2. apply Z.eqb_eq in Hex2.
  subst carry.
  assert (magnitude r = magnitude res + magnitude b) as Hm.
  { unfold magnitude, limbs. rewrite Hl.
    replace (Nat.max la i) with i by lia.
    rewrite !Nat.min_r in Hv by lia. fold la lb. lia. }
  split; [apply well_formed_normalize; exact Hw|].
  split; [apply trimmed_normalize; exact Hw|].
  rewrite magnitude_normalize by exact Hw. split; [exact Hm|].
  rewrite sign_normalize by exact Hw. rewrite Hm, Hsg. reflexivity.
Qed.

(** * Subtracting magnitudes in place *)

(** One limb of the borrow chain. *)
Lemma borrow_limb d bi borrow :
  is_limb d -> is_limb bi -> (borrow = 0 \/ borrow = 1) ->
  let diff := u64 (d - bi - borrow) in
  let borrow' := if d <? diff then 1 else 0 in
  u32 diff = d - bi - borrow + borrow' * 2 ^ 32
  /\ (borrow' = 0 \/ borrow' = 1).
Proof.
  unfold is_limb, u64, u32. rewrite pow32, pow64. intros Hd Hb Hbo. cbv zeta.
  destruct (Z_lt_le_dec (d - bi - borrow) 0) as [Hneg|Hpos].
  - assert ((d - bi - borrow) mod 18446744073709551616
            = d - bi - borrow + 18446744073709551616) as ->.
    { symmetry. apply (Z.mod_unique _ _ (-1)); lia. }
    assert ((d <? d - bi - borrow + 18446744073709551616) = true) as ->
      by (apply Z.ltb_lt; lia).
    split; [|right; reflexivity].
    symmetry. apply (Z.mod_unique _ _ 4294967295); lia.
  - rewrite (Z.mod_small (d - bi - borrow)) by lia.
    assert ((d <? d - bi - borrow) = false) as -> by (apply Z.ltb_ge; lia).
    split; [|left; reflexivity].
    rewrite Z.mod_small by lia. lia.
Qed.

Lemma bi_sub_into_abs_spec result b :
  well_formed result -> well_formed b ->
  (length b <= length result)%nat -> magnitude b <= magnitude result ->
  let r := bi_sub_into_abs result b in
  well_formed r /\ trimmed r
  /\ magnitude r = magnitude result - magnitude b
  /\ sign r = (if magnitude result - magnitude b =? 0 then 0 else sign result).
Proof.
  intros Hwf Hwfb Hlen Hle. unfold bi_sub_into_abs.
  set (L := length result). set (lb := length b).
  assert (L <= Datatypes.length (digits result))%nat as HL
    by (destruct Hwf as [? _]; unfold capacity in *; lia).
  assert (lb <= Datatypes.length (digits b))%nat as Hlb
    by (destruct Hwfb as [? _]; unfold capacity in *; lia).
  set (P := fun (i : nat) (s : BigInt * Z) =>
    let '(r, borrow) := s in
    length r = L /\ capacity r = capacity result /\ well_formed r
    /\ sign r = sign result /\ (borrow = 0 \/ borrow = 1)
    /\ limbs_value (take i (digits r)) - borrow * 2 ^ (32 * Z.of_nat i)
       = limbs_value (take i (digits result)) - limbs_value (take i (digits b))
    /\ (forall k, (i <= k)%nat -> digit r k = digit result k)).
  for_rule_at P lb (result, 0).
  { unfold P. split; [reflexivity|]. split; [reflexivity|]. split; [exact Hwf|].
    split; [reflexivity|]. split; [left; reflexivity|]. split; [simpl; lia|].
    intros; reflexivity. }
  { intros i [r borrow] Hi (Hl & Hc & Hw & Hsg & Hbo & Hv & Hup). unfold P.
    pose proof (digit_is_limb r i Hw) as Hdi.
    pose proof (digit_is_limb b i Hwfb) as Hbi.
    destruct (borrow_limb (digit r i) (digit b i) borrow Hdi Hbi Hbo) as [Hdiff Hbo'].
    cbv zeta in Hdiff, Hbo'.
    assert (i < Datatypes.length (digits r))%nat as Hir by (unfold capacity in *; lia).
    split; [exact Hl|]. split; [rewrite capacity_set_digit; exact Hc|].
    split; [apply well_formed_set_digit; [exact Hw|apply u32_range]|].
    split; [exact Hsg|]. split; [exact Hbo'|]. split.
    - unfold set_digit. simpl digits.
      rewrite limbs_value_take_S by (rewrite length_insert; exact Hir).
      rewrite nth_insert_eq by exact Hir. rewrite take_insert_ge by lia.
      rewrite !limbs_value_take_S by lia.
      fold (digit result i). fold (digit b i). rewrite <- (Hup i) by lia.
      rewrite Hdiff, pow32_S. nia.
    - intros k Hk. rewrite digit_set_digit_ne by lia. apply Hup. lia. }
  destruct (for_loop lb _ (result, 0)) as [r1 borrow1].
  destruct HP as (Hl1 & Hc1 & Hw1 & Hsg1 & Hbo1 & Hv1 & Hup1).
  assert (magnitude r1 - borrow1 * 2 ^ (32 * Z.of_nat lb)
          = magnitude result - magnitude b) as Hm1.
  { unfold magnitude, limbs. rewrite Hl1. fold L lb.
    pose proof (limbs_value_upper (digits r1) (digits result) lb L) as Hu.
    assert (L <= Datatypes.length (digits r1))%nat by (unfold capacity in *; lia).
    specialize (Hu ltac:(lia) ltac:(lia) HL).
    assert (forall k, (lb <= k < L)%nat -> nth k (digits r1) 0 = nth k (digits result) 0)
      as Hk by (intros k Hk; apply Hup1; lia).
    specialize (Hu Hk). lia. }
  set (Q := fun s : nat * Z * BigInt =>
    let '(j, borrow, r) := s in
    (lb <= j <= L)%nat /\ length r = L /\ capacity r = capacity result
    /\ well_formed r /\ sign r = sign result /\ (borrow = 0 \/ borrow = 1)
    /\ magnitude r - borrow * 2 ^ (32 * Z.of_nat j)
       = magnitude result - magnitude b).
  set (m := fun s : nat * Z * BigInt => let '(j, _, _) := s in (L - j)%nat).
  while_rule Q m.
  { intros [[j borrow] r] (Hj & Hl & Hc & Hw & Hsg & Hbo & Hm) Hcond.
    apply andb_prop in Hcond as [Hb1 Hj1].
    apply negb_true_iff in Hb1. apply Z.eqb_neq in Hb1.
    apply Nat.ltb_lt in Hj1. rewrite Hl in Hj1.
    assert (borrow = 1) as -> by lia.
    pose proof (digit_is_limb r j Hw) as Hdj. unfold is_limb in Hdj.
    destruct (0 <? digit r j) eqn:Ed.
    - apply Z.ltb_lt in Ed. split; [|unfold m; lia]. unfold Q.
      split; [lia|]. split; [exact Hl|]. split; [rewrite capacity_set_digit; exact Hc|].
      split; [apply well_formed_set_digit; [exact Hw|apply u32_range]|].
      split; [exact Hsg|]. split; [left; reflexivity|].
      rewrite magnitude_set_digit by (destruct Hw; lia).
      rewrite u32_small by (unfold is_limb; lia). lia.
    - apply Z.ltb_ge in Ed. split; [|unfold m; lia]. unfold Q.
      split; [lia|]. split; [exact Hl|]. split; [rewrite capacity_set_digit; exact Hc|].
      split; [apply well_formed_set_digit; [exact Hw|unfold is_limb; rewrite pow32; lia]|].
      split; [exact Hsg|]. split; [right; reflexivity|].
      rewrite magnitude_set_digit by (destruct Hw; lia).
      rewrite pow32_S. rewrite pow32. lia. }
  { unfold Q. rewrite Hl1. fold L. split; [lia|]. split; [reflexivity|].
    split; [exact Hc1|]. split; [exact Hw1|]. split; [exact Hsg1|].
    split; [exact Hbo1|]. exact Hm1. }
  { unfold m. rewrite Hl1. fold L. lia. }
  destruct (while_loop _ _ _ _) as [[j borrow] r].
  destruct HP as (Hj & Hl & Hc & Hw & Hsg & Hbo & Hm).
  assert (borrow = 0) as ->.
  { destruct Hbo as [E|E]; [exact E|]. subst borrow. simpl in Hexit.
    apply Nat.ltb_ge in Hexit. rewrite Hl in Hexit.
    assert (j = L) as -> by lia.
    pose proof (magnitude_bound r Hw) as Hb. rewrite Hl in Hb. lia. }
  assert (magnitude r = magnitude result - magnitude b) as Hm' by lia.
  split; [apply well_formed_normalize; exact Hw|].
  split; [apply trimmed_normalize; exact Hw|].
  rewrite magnitude_normalize by exact Hw. split; [exact Hm'|].
  rewrite sign_normalize by exact Hw. rewrite Hm', Hsg. reflexivity.
Qed.

(** * Signed addition and subtraction *)

Lemma normalized_intro r :
  well_formed r -> trimmed r -> (sign r = 1 \/ sign r = -1) -> magnitude r <> 0 ->
  normalized r.
Proof.
  intros Hw Ht Hs Hm. split; [exact Hw|]. right.
  split; [tauto|]. split; [destruct Hw; lia|].
  destruct Ht as [H1|Htop]; [|exact Htop].
  rewrite H1. simpl. intros Hd0. apply Hm.
  apply (magnitude_zero_iff r Hw (or_introl H1)). tauto.
Qed.

Lemma trimmed_set_sign r s : trimmed r -> trimmed (set_sign s r).
Proof. intros H. exact H. Qed.

Lemma normalized_copy x : normalized x -> normalized (bi_copy x).
Proof.
  intros Hn. pose proof (proj1 Hn) as Hwf. pose proof (normalized_trimmed x Hn) as Ht.
  pose proof (normalized_sign_zero x Hn) as Hs0.
  destruct (Z.eq_dec (sign x) 0) as [E|E].
  - split; [apply well_formed_copy; exact Hwf|]. left.
    destruct Hn as [_ [[Hs [Hl Hd]]|[Hs _]]]; [|lia].
    split; [exact Hs|]. split; [exact Hl|].
    rewrite digit_limbs by (simpl; lia). rewrite limbs_copy by (destruct Hwf; lia).
    rewrite <- digit_limbs by lia. exact Hd.
  - apply normalized_intro.
    + apply well_formed_copy; exact Hwf.
    + apply trimmed_copy; assumption.
    + destruct Hn as [_ [[Hs _]|[Hs _]]]; simpl; lia.
    + rewrite magnitude_copy by exact Hwf. tauto.
Qed.

Lemma value_copy x : well_formed x -> value (bi_copy x) = value x.
Proof. intros H. unfold value. rewrite magnitude_copy by exact H. reflexivity. Qed.

Lemma normalized_signs x :
  normalized x -> sign x = 0 \/ sign x = 1 \/ sign x = -1.
Proof. intros [_ [[H _]|[[H|H] _]]]; tauto. Qed.

Lemma bi_add_abs_spec a b :
  well_formed a -> well_formed b -> trimmed a -> trimmed b ->
  let r := bi_add_abs a b in
  well_formed r /\ trimmed r /\ magnitude r = magnitude a + magnitude b.
Proof.
  intros Ha Hb Hta Htb. unfold bi_add_abs.
  destruct (0 <=? bi_compare_abs a b).
  - destruct (bi_add_into_abs_spec (bi_copy a) b (well_formed_copy a Ha) Hb)
      as (Hw & Ht & Hm & _).
    rewrite magnitude_copy in Hm by exact Ha. auto.
  - destruct (bi_add_into_abs_spec (bi_copy b) a (well_formed_copy b Hb) Ha)
      as (Hw & Ht & Hm & _).
    rewrite magnitude_copy in Hm by exact Hb.
    split; [exact Hw|]. split; [exact Ht|]. lia.
Qed.

Lemma bi_sub_abs_spec a b :
  well_formed a -> well_formed b -> trimmed a -> trimmed b ->
  magnitude b < magnitude a ->
  let r := bi_sub_abs a b in
  well_formed r /\ trimmed r /\ magnitude r = magnitude a - magnitude b.
Proof.
  intros Ha Hb Hta Htb Hlt. unfold bi_sub_abs.
  assert (length b <= length a)%nat as Hlen.
  { destruct (Nat.le_gt_cases (length b) (length a)) as [H|H]; [exact H|].
    pose proof (magnitude_lower b Hb Htb ltac:(destruct Ha; lia)).
    pose proof (magnitude_bound a Ha).
    assert (2 ^ (32 * Z.of_nat (length a)) <= 2 ^ (32 * Z.of_nat (length b - 1)))
      by (apply Z.pow_le_mono_r; lia). lia. }
  destruct (bi_sub_into_abs_spec (bi_copy a) b (well_formed_copy a Ha) Hb)
    as (Hw & Ht & Hm & _).
  { simpl. exact Hlen. }
  { rewrite magnitude_copy by exact Ha. lia. }
  rewrite magnitude_copy in Hm by exact Ha. auto.
Qed.

(** [bi_add] adds the values and keeps the normalized form. *)
Lemma bi_add_spec a b :
  normalized a -> normalized b ->
  normalized (bi_add a b) /\ value (bi_add a b) = value a + value b.
Proof.
  intros Hna Hnb.
  pose proof (proj1 Hna) as Ha. pose proof (proj1 Hnb) as Hb.
  pose proof (normalized_trimmed a Hna) as Hta.
  pose proof (normalized_trimmed b Hnb) as Htb.
  pose proof (normalized_sign_zero a Hna) as Hza.
  pose proof (normalized_sign_zero b Hnb) as Hzb.
  pose proof (normalized_signs a Hna) as Hsa.
  pose proof (normalized_signs b Hnb) as Hsb.
  pose proof (magnitude_bound a Ha) as Hba. pose proof (magnitude_bound b Hb) as Hbb.
  unfold bi_add.
  destruct (sign a =? 0) eqn:Ea.
  { apply Z.eqb_eq in Ea. split; [apply normalized_copy; exact Hnb|].
    rewrite value_copy by exact Hb. unfold value. rewrite Ea. lia. }
  destruct (sign b =? 0) eqn:Eb.
  { apply Z.eqb_eq in Eb. split; [apply normalized_copy; exact Hna|].
    rewrite value_copy by exact Ha. unfold value. rewrite Eb. lia. }
  apply Z.eqb_neq in Ea, Eb.
  assert (magnitude a <> 0) as Hma by tauto.
  assert (magnitude b <> 0) as Hmb by tauto.
  destruct (sign a =? sign b) eqn:Eab.
  - apply Z.eqb_eq in Eab.
    destruct (bi_add_abs_spec a b Ha Hb Hta Htb) as (Hw & Ht & Hm).
    split.
    + apply normalized_intro; [exact Hw|exact Ht|simpl; lia|].
      rewrite magnitude_set_sign. lia.
    + unfold value. simpl sign. rewrite magnitude_set_sign, Hm, <- Eab. ring.
  - apply Z.eqb_neq in Eab.
    assert (sign b = - sign a) as Hopp by lia.
    rewrite (bi_compare_abs_spec a b Ha Hb Hta Htb).
    destruct (Z.sgn (magnitude a - magnitude b) =? 0) eqn:E0.
    + apply Z.eqb_eq in E0. apply Z.sgn_null_iff in E0.
      split; [apply normalized_create|].
      unfold value. rewrite Hopp. replace (magnitude a) with (magnitude b) by lia.
      change (magnitude bi_create) with 0. simpl. lia.
    + apply Z.eqb_neq in E0.
      destruct (0 <? Z.sgn (magnitude a - magnitude b)) eqn:E1.
      * apply Z.ltb_lt in E1. apply Z.sgn_pos_iff in E1.
        destruct (bi_sub_abs_spec a b Ha Hb Hta Htb ltac:(lia)) as (Hw & Ht & Hm).
        split.
        -- apply normalized_intro; [exact Hw|exact Ht|simpl; lia|].
           rewrite magnitude_set_sign. lia.
        -- unfold value. simpl sign. rewrite magnitude_set_sign, Hm, Hopp. ring.
      * apply Z.ltb_ge in E1.
        assert (magnitude a < magnitude b) as Hlt.
        { destruct (Z.lt_trichotomy (magnitude a) (magnitude b)) as [H|[H|H]];
            [exact H| |].
          - rewrite H, Z.sub_diag in E0. simpl in E0. contradiction.
          - assert (0 < Z.sgn (magnitude a - magnitude b))
              by (apply Z.sgn_pos_iff; lia). lia. }
        destruct (bi_sub_abs_spec b a Hb Ha Htb Hta Hlt) as (Hw & Ht & Hm).
        split.
        -- apply normalized_intro; [exact Hw|exact Ht|simpl; lia|].
           rewrite magnitude_set_sign. lia.
        -- unfold value. simpl sign. rewrite magnitude_set_sign, Hm, Hopp. ring.
Qed.

Lemma value_negate x : well_formed x -> value (bi_negate x) = - value x.
Proof.
  intros H. unfold value. rewrite sign_negate, magnitude_negate by exact H. ring.
Qed.

Lemma bi_sub_spec a b :
  normalized a -> normalized b ->
  normalized (bi_sub a b) /\ value (bi_sub a b) = value a - value b.
Proof.
  intros Ha Hb. unfold bi_sub.
  destruct (bi_add_spec a (bi_negate b) Ha (normalized_negate b Hb)) as [Hn Hv].
  split; [exact Hn|]. rewrite Hv, value_negate by apply Hb. lia.
Qed.


(** * Schoolbook multiplication *)

Lemma mul_ripple_spec pos carry r :
  well_formed r -> (pos < length r)%nat -> 0 <= carry < 2 ^ 32 ->
  magnitude r + carry * 2 ^ (32 * Z.of_nat pos) < 2 ^ (32 * Z.of_nat (length r)) ->
  let r' := mul_ripple pos carry r in
  well_formed r' /\ length r' = length r /\ capacity r' = capacity r
  /\ sign r' = sign r
  /\ magnitude r' = magnitude r + carry * 2 ^ (32 * Z.of_nat pos).
Proof.
  intros Hw Hpos Hcar Hfit. unfold mul_ripple.
  destruct (carry =? 0) eqn:Ec.
  { apply Z.eqb_eq in Ec. subst carry. cbv zeta. repeat split; try apply Hw. lia. }
  cbv zeta.
  pose proof (digit_is_limb r pos Hw) as Hd. unfold is_limb in Hd.
  assert (0 <= digit r pos + carry < 2 ^ 64) as Hsum
    by (rewrite pow64; rewrite pow32 in *; lia).
  rewrite u64_small by exact Hsum. rewrite shiftr32.
  set (sum := digit r pos + carry) in *.
  set (r1 := set_digit pos (u32 sum) r).
  assert (well_formed r1) as Hw1 by (apply well_formed_set_digit; [exact Hw|apply u32_range]).
  assert (magnitude r1 + (sum / 2 ^ 32) * 2 ^ (32 * Z.of_nat (S pos))
          = magnitude r + carry * 2 ^ (32 * Z.of_nat pos)) as Hm1.
  { unfold r1. rewrite magnitude_set_digit by (destruct Hw; lia).
    rewrite pow32_S. pose proof (split_word sum). unfold sum in *. nia. }
  set (P := fun s : nat * Z * BigInt =>
    let '(k, ripple, x) := s in
    (k <= length r)%nat /\ length x = length r /\ capacity x = capacity r
    /\ well_formed x /\ sign x = sign r /\ 0 <= ripple < 2 ^ 32
    /\ magnitude x + ripple * 2 ^ (32 * Z.of_nat k)
       = magnitude r + carry * 2 ^ (32 * Z.of_nat pos)).
  set (m := fun s : nat * Z * BigInt => let '(k, _, _) := s in (length r - k)%nat).
  while_rule P m.
  { intros [[k ripple] x] (Hk & Hl & Hc & Hwx & Hsg & Hrip & Hm) Hcond.
    apply andb_prop in Hcond as [_ Hk1]. apply Nat.ltb_lt in Hk1. rewrite Hl in Hk1.
    split; [|unfold m; lia]. unfold P.
    pose proof (digit_is_limb x k Hwx) as Hdk. unfold is_limb in Hdk.
    assert (0 <= digit x k + ripple < 2 ^ 64) as Hs
      by (rewrite pow64; rewrite pow32 in *; lia).
    rewrite u64_small by exact Hs. rewrite shiftr32.
    split; [lia|]. split; [exact Hl|]. split; [rewrite capacity_set_digit; exact Hc|].
    split; [apply well_formed_set_digit; [exact Hwx|apply u32_range]|].
    split; [exact Hsg|]. split.
    { split; [apply Z.div_pos; lia|]. apply Z.div_lt_upper_bound; [lia|].
      rewrite pow32 in *. lia. }
    rewrite magnitude_set_digit by (destruct Hwx; lia).
    rewrite pow32_S. pose proof (split_word (digit x k + ripple)). nia. }
  { unfold P, r1. split; [simpl; lia|]. split; [reflexivity|].
    split; [apply capacity_set_digit|]. split; [exact Hw1|]. split; [reflexivity|].
    split; [|exact Hm1].
    split; [apply Z.div_pos; lia|]. apply Z.div_lt_upper_bound; [lia|].
    rewrite pow32 in *. lia. }
  { unfold m, r1. simpl. lia. }
  destruct (while_loop _ _ _ _) as [[k ripple] x].
  destruct HP as (Hk & Hl & Hc & Hwx & Hsg & Hrip & Hm).
  split; [exact Hwx|]. split; [exact Hl|]. split; [exact Hc|]. split; [exact Hsg|].
  apply andb_false_iff in Hexit as [He|He].
  - apply Z.ltb_ge in He. assert (ripple = 0) as -> by lia. lia.
  - apply Nat.ltb_ge in He. rewrite Hl in He. assert (k = length r) as -> by lia.
    pose proof (magnitude_bound x Hwx) as Hb.
    pose proof (pow32_pos (length r)).
    assert (ripple = 0) as -> by nia. lia.
Qed.

(** The inner loop adds [a_i * b * B^i] up to a carry. *)
Lemma mul_row_spec (a_i : Z) b i res :
  well_formed res -> well_formed b -> is_limb a_i ->
  (i + length b < length res)%nat ->
  let '(r, carry) :=
    for_loop (length b)
      (fun j '(res, carry) =>
         let current := u64 (a_i * digit b j + digit res (i + j) + carry) in
         (set_digit (i + j) (u32 current) res, Z.shiftr current BITS_IN_WORD))
      (res, 0) in
  well_formed r /\ length r = length res /\ capacity r = capacity res
  /\ sign r = sign res /\ 0 <= carry < 2 ^ 32
  /\ magnitude r + carry * 2 ^ (32 * Z.of_nat (i + length b))
     = magnitude res + a_i * magnitude b * 2 ^ (32 * Z.of_nat i).
Proof.
  intros Hw Hwb Ha Hfit.
  set (P := fun (j : nat) (s : BigInt * Z) =>
    let '(r, carry) := s in
    well_formed r /\ length r = length res /\ capacity r = capacity res
    /\ sign r = sign res /\ 0 <= carry < 2 ^ 32
    /\ magnitude r + carry * 2 ^ (32 * Z.of_nat (i + j))
       = magnitude res
         + a_i * limbs_value (take j (digits b)) * 2 ^ (32 * Z.of_nat i)).
  for_rule P.
  { unfold P. split; [exact Hw|]. repeat (split; [reflexivity|]).
    split; [rewrite pow32; lia|]. simpl. lia. }
  { intros j [r carry] Hj (Hwr & Hl & Hc & Hsg & Hcar & Hm). unfold P.
    pose proof (digit_is_limb r (i + j) Hwr) as Hd.
    pose proof (digit_is_limb b j Hwb) as Hbj. unfold is_limb in Hd, Hbj, Ha.
    assert (0 <= a_i * digit b j + digit r (i + j) + carry < 2 ^ 64) as Hcur
      by (rewrite pow64; rewrite pow32 in *; nia).
    rewrite u64_small by exact Hcur. rewrite shiftr32.
    set (current := a_i * digit b j + digit r (i + j) + carry) in *.
    split; [apply well_formed_set_digit; [exact Hwr|apply u32_range]|].
    split; [exact Hl|]. split; [rewrite capacity_set_digit; exact Hc|].
    split; [exact Hsg|]. split.
    { split; [apply Z.div_pos; lia|]. apply Z.div_lt_upper_bound; [lia|].
      rewrite pow32 in *. nia. }
    rewrite magnitude_set_digit by (destruct Hwr; lia).
    assert (j < Datatypes.length (digits b))%nat
      by (destruct Hwb as [? _]; unfold capacity in *; lia).
    rewrite limbs_value_take_S by lia. fold (digit b j).
    replace (i + S j)%nat with (S (i + j)) by lia. rewrite pow32_S.
    replace (32 * Z.of_nat (i + j)) with (32 * Z.of_nat i + 32 * Z.of_nat j) in * by lia.
    rewrite Z.pow_add_r in * by lia.
    pose proof (split_word current). unfold current in *. nia. }
  destruct (for_loop _ _ _) as [r carry].
  destruct HP as (Hwr & Hl & Hc & Hsg & Hcar & Hm).
  repeat (split; [assumption|]). exact Hm.
Qed.

Lemma magnitude_zeroed total rest :
  magnitude (mkBigInt 1 total (replicate total 0 ++ rest)) = 0.
Proof.
  unfold magnitude, limbs. simpl.
  rewrite take_app_le by (rewrite length_replicate; lia).
  rewrite take_ge by (rewrite length_replicate; lia).
  apply limbs_value_replicate0.
Qed.

(** [bi_mul] multiplies the values and keeps the normalized form. *)
Lemma bi_mul_spec a b :
  normalized a -> normalized b ->
  normalized (bi_mul a b) /\ value (bi_mul a b) = value a * value b.
Proof.
  intros Hna Hnb.
  pose proof (proj1 Hna) as Ha. pose proof (proj1 Hnb) as Hb.
  pose proof (normalized_signs a Hna) as Hsa.
  pose proof (normalized_signs b Hnb) as Hsb.
  unfold bi_mul.
  destruct ((sign a =? 0) || (sign b =? 0)) eqn:Ez.
  { split; [apply normalized_create|].
    apply orb_prop in Ez as [E|E]; apply Z.eqb_eq in E; unfold value; rewrite E;
      change (magnitude bi_create) with 0; simpl; lia. }
  apply orb_false_elim in Ez as [Ea Eb]. apply Z.eqb_neq in Ea, Eb.
  cbv zeta.
  set (total := (length a + length b)%nat).
  set (res0 := mkBigInt (sign (bi_resize bi_create total)) total
                 (replicate total 0 ++ drop total (digits (bi_resize bi_create total)))).
  assert (well_formed res0) as Hw0.
  { pose proof (well_formed_resize bi_create total well_formed_create) as [_ Hd].
    pose proof (capacity_resize bi_create total) as Hc. unfold capacity in Hc.
    split; unfold capacity, res0; simpl.
    - rewrite length_app, length_replicate, length_drop.
      destruct Ha as [? _]. unfold total in *. lia.
    - apply Forall_app. split; [apply Forall_replicate0|apply Forall_drop; exact Hd]. }
  assert (magnitude res0 = 0) as Hm0.
  { unfold magnitude, limbs, res0. simpl.
    rewrite take_app_le by (rewrite length_replicate; lia).
    rewrite take_ge by (rewrite length_replicate; lia).
    apply limbs_value_replicate0. }
  assert (length a <= Datatypes.length (digits a))%nat as Hla
    by (destruct Ha as [? _]; unfold capacity in *; lia).
  pose proof (magnitude_bound b Hb) as Hbb.
  set (P := fun (i : nat) (res : BigInt) =>
    well_formed res /\ length res = total /\ sign res = sign res0
    /\ magnitude res = limbs_value (take i (digits a)) * magnitude b).
  for_rule_at P (length a) res0.
  { unfold P. split; [exact Hw0|]. split; [reflexivity|]. split; [reflexivity|].
    rewrite Hm0. simpl. lia. }
  { intros i res Hi (Hw & Hl & Hsg & Hm). unfold P.
    pose proof (mul_row_spec (digit a i) b i res Hw Hb (digit_is_limb a i Ha)
                  ltac:(unfold total in *; lia)) as Hrow.
    destruct (for_loop (length b) _ (res, 0)) as [r carry].
    destruct Hrow as (Hwr & Hlr & Hcr & Hsgr & Hcar & Hmr).
    assert (magnitude r + carry * 2 ^ (32 * Z.of_nat (i + length b))
            = limbs_value (take (S i) (digits a)) * magnitude b) as Hsum.
    { rewrite Hmr, Hm. rewrite limbs_value_take_S by lia. fold (digit a i). ring. }
    pose proof (limbs_value_take_le (digits a) (S i) (proj2 Ha)) as Hba.
    destruct (mul_ripple_spec (i + length b) carry r Hwr
                ltac:(unfold total in *; lia) Hcar) as (Hw' & Hl' & _ & Hsg' & Hm').
    { rewrite Hsum, Hlr, Hl.
      assert (2 ^ (32 * Z.of_nat (S i)) * 2 ^ (32 * Z.of_nat (length b))
              <= 2 ^ (32 * Z.of_nat total)).
      { rewrite <- Z.pow_add_r by lia. apply Z.pow_le_mono_r; unfold total; lia. }
      pose proof (pow32_pos (S i)). pose proof (pow32_pos (length b)). nia. }
    split; [exact Hw'|]. split; [lia|]. split; [congruence|]. lia. }
  destruct HP as (Hw & Hl & Hsg & Hm).
  set (res := for_loop (length a) _ res0) in *.
  assert (magnitude res = magnitude a * magnitude b) as Hm' by exact Hm.
  set (s := if sign a =? sign b then 1 else -1).
  assert (s = sign a * sign b) as Hs.
  { unfold s. destruct (Z.eqb_spec (sign a) (sign b)); lia. }
  split.
  - apply normalized_normalize; [apply well_formed_set_sign; exact Hw|].
    simpl. unfold s. destruct (sign a =? sign b); lia.
  - rewrite value_normalize by (apply well_formed_set_sign; exact Hw).
    unfold value. simpl sign. rewrite magnitude_set_sign, Hm', Hs. ring.
Qed.


(** * Bits of a number *)

Lemma land_1 x : Z.land x 1 = x mod 2.
Proof. change 1 with (Z.ones 1). rewrite Z.land_ones by lia. reflexivity. Qed.

Lemma bit_split (k : nat) :
  Z.of_nat k = 32 * Z.of_nat (k / 32) + Z.of_nat (k mod 32)
  /\ (k mod 32 < 32)%nat.
Proof.
  pose proof (Nat.div_mod_eq k 32). pose proof (Nat.mod_upper_bound k 32 ltac:(lia)). lia.
Qed.

(** [bi_get_bit] is bit [k] of the magnitude. *)
Lemma bi_get_bit_spec n k :
  well_formed n -> bi_get_bit n k = (magnitude n / 2 ^ Z.of_nat k) mod 2.
Proof.
  intros Hw. unfold bi_get_bit.
  destruct (bit_split k) as [Hk Hb].
  set (w := (k / 32)%nat) in *. set (b := (k mod 32)%nat) in *.
  pose proof (magnitude_bound n Hw) as Hm.
  destruct (w <? length n)%nat eqn:E.
  - apply Nat.ltb_lt in E. rewrite land_1.
    rewrite digit_of_magnitude by assumption.
    rewrite <- !Z.bit0_mod. f_equal.
    rewrite Z.shiftr_spec, Z.mod_pow2_bits_low by lia.
    rewrite !Z.div_pow2_bits by lia. f_equal. lia.
  - apply Nat.ltb_ge in E.
    assert (2 ^ (32 * Z.of_nat (length n)) <= 2 ^ Z.of_nat k)
      by (apply Z.pow_le_mono_r; lia).
    rewrite Z.div_small by lia. reflexivity.
Qed.

Lemma bi_get_bit_range n k : well_formed n -> bi_get_bit n k = 0 \/ bi_get_bit n k = 1.
Proof.
  intros Hw. rewrite bi_get_bit_spec by exact Hw.
  pose proof (Z.mod_pos_bound (magnitude n / 2 ^ Z.of_nat k) 2 ltac:(lia)). lia.
Qed.

(** The magnitude fits in [bi_bit_length] bits. *)
Lemma bi_bit_length_spec n :
  well_formed n -> sign n <> 0 -> magnitude n < 2 ^ Z.of_nat (bi_bit_length n).
Proof.
  intros Hw Hs. unfold bi_bit_length. apply Z.eqb_neq in Hs. rewrite Hs.
  set (base := ((length n - 1) * 32)%nat).
  set (d := digit n (length n - 1)).
  pose proof (digit_is_limb n (length n - 1) Hw) as Hd. fold d in Hd. unfold is_limb in Hd.
  set (P := fun (f : nat) (s : Z * nat) =>
    let '(d', bits) := s in
    0 <= d' < 2 ^ Z.of_nat f /\ (base <= bits)%nat
    /\ d < (d' + 1) * 2 ^ Z.of_nat (bits - base)).
  while_fuel_rule P.
  { intros f [d' bits] (Hd' & Hb & Hv) Hc. apply Z.ltb_lt in Hc. unfold P.
    rewrite Z.shiftr_div_pow2 by lia. change (2 ^ 1) with 2.
    pose proof (Z.div_mod d' 2 ltac:(lia)). pose proof (Z.mod_pos_bound d' 2 ltac:(lia)).
    replace (Z.of_nat (S f)) with (1 + Z.of_nat f) in Hd' by lia.
    rewrite Z.pow_add_r in Hd' by lia. change (2 ^ 1) with 2 in Hd'.
    split; [lia|]. split; [lia|].
    replace (Z.of_nat (S bits - base)) with (1 + Z.of_nat (bits - base)) by lia.
    rewrite Z.pow_add_r by lia. change (2 ^ 1) with 2.
    assert (0 < 2 ^ Z.of_nat (bits - base)) by (apply Z.pow_pos_nonneg; lia). nia. }
  { intros [d' bits] (Hd' & _). simpl in Hd'. apply Z.ltb_ge. lia. }
  { unfold P. split; [exact Hd|]. split; [lia|]. rewrite Nat.sub_diag. simpl. lia. }
  destruct (while_loop _ _ _ _) as [d' bits].
  destruct HP as (Hd' & Hb & Hv). apply Z.ltb_ge in Hexit.
  assert (d' = 0) as -> by lia. simpl snd.
  destruct Hw as [Hlen Hds].
  unfold magnitude, limbs.
  replace (length n) with (S (length n - 1)) at 1 by lia.
  rewrite limbs_value_take_S by (unfold capacity in *; lia).
  fold (digit n (length n - 1)). fold d.
  pose proof (limbs_value_take_le (digits n) (length n - 1) Hds) as Hlow.
  replace (Z.of_nat bits) with (32 * Z.of_nat (length n - 1) + Z.of_nat (bits - base))
    by (unfold base in *; lia).
  rewrite Z.pow_add_r by lia.
  pose proof (pow32_pos (length n - 1)). nia.
Qed.

(** * Binary long division *)

Lemma lor_pow2_clear d b :
  0 <= b -> Z.testbit d b = false -> Z.lor d (2 ^ b) = d + 2 ^ b.
Proof.
  intros Hb Hd. apply lor_disjoint. apply Z.bits_inj'. intros k Hk.
  rewrite Z.land_spec, Z.bits_0, Z.pow2_bits_eqb by lia.
  destruct (Z.eqb_spec b k) as [<-|Hne]; [rewrite Hd; reflexivity|apply andb_false_r].
Qed.

Lemma lor_limb x y : is_limb x -> is_limb y -> is_limb (Z.lor x y).
Proof.
  unfold is_limb. intros Hx Hy.
  assert (0 <= Z.lor x y) as H0 by (apply Z.lor_nonneg; lia).
  split; [exact H0|].
  destruct (Z.eq_dec (Z.lor x y) 0) as [->|Hne]; [lia|].
  apply Z.log2_lt_pow2; [lia|]. rewrite Z.log2_lor by lia.
  assert (Z.log2 x < 32).
  { destruct (Z.eq_dec x 0) as [->|]; [simpl; lia|]. apply Z.log2_lt_pow2; lia. }
  assert (Z.log2 y < 32).
  { destruct (Z.eq_dec y 0) as [->|]; [simpl; lia|]. apply Z.log2_lt_pow2; lia. }
  lia.
Qed.

Lemma digit0_even n m :
  well_formed n -> magnitude n = 2 * m -> digit n O = 2 * (digit n O / 2).
Proof.
  intros Hw Hm.
  rewrite (digit_of_magnitude n O Hw) by (destruct Hw; lia).
  change (32 * Z.of_nat 0) with 0. rewrite Z.pow_0_r, Z.div_1_r, Hm.
  change (2 ^ 32) with (2 * 2147483648).
  rewrite Z.mul_mod_distr_l by lia.
  rewrite (Z.mul_comm 2), Z.div_mul by lia. lia.
Qed.

Lemma zero_above_resize q c : zero_above q -> zero_above (bi_resize q c).
Proof.
  intros H k Hk. rewrite length_resize in Hk. rewrite digit_resize. apply H. exact Hk.
Qed.

Lemma magnitude_extend q l :
  zero_above q -> (length q <= l)%nat ->
  magnitude (set_length l q) = magnitude q.
Proof.
  intros Hz Hl. unfold magnitude, limbs. simpl.
  apply take_all_zero_above; [exact Hl|].
  intros k Hk. apply Hz. lia.
Qed.

(** Setting bit [i] of the quotient, as the loop of [bi_div_mod_abs] does. *)
Lemma set_quotient_bit_spec q (i : nat) :
  well_formed q -> zero_above q ->
  magnitude q mod 2 ^ (Z.of_nat i + 1) = 0 ->
  let w := (i / 32)%nat in
  let q1 := bi_resize q (w + 1) in
  let q2 := set_digit w
              (Z.lor (digit q1 w) (u32 (Z.shiftl 1 (Z.of_nat (i mod 32))))) q1 in
  let q3 := if (length q2 <=? w)%nat then set_length (w + 1) q2 else q2 in
  let q' := set_sign 1 q3 in
  well_formed q' /\ zero_above q'
  /\ magnitude q' = magnitude q + 2 ^ Z.of_nat i.
Proof.
  intros Hw Hz Hdiv. cbv zeta.
  destruct (bit_split i) as [Hi Hb].
  set (w := (i / 32)%nat) in *. set (b := (i mod 32)%nat) in *.
  set (q1 := bi_resize q (w + 1)).
  assert (well_formed q1) as Hw1 by (apply well_formed_resize; exact Hw).
  assert (zero_above q1) as Hz1 by (apply zero_above_resize; exact Hz).
  assert (length q1 = length q) as Hl1 by apply length_resize.
  assert (w < capacity q1)%nat as Hc1
    by (pose proof (capacity_resize q (w + 1)); unfold q1; lia).
  assert (magnitude q1 = magnitude q) as Hm1
    by (unfold magnitude, q1; rewrite limbs_resize by (destruct Hw; lia); reflexivity).
  assert (u32 (Z.shiftl 1 (Z.of_nat b)) = 2 ^ Z.of_nat b) as Hsh.
  { rewrite Z.shiftl_mul_pow2 by lia. rewrite Z.mul_1_l. apply u32_small.
    unfold is_limb. split; [apply Z.pow_nonneg; lia|]. apply Z.pow_lt_mono_r; lia. }
  rewrite Hsh.
  assert (is_limb (2 ^ Z.of_nat b)) as Hpb by (rewrite <- Hsh; apply u32_range).
  pose proof (digit_is_limb q1 w Hw1) as Hd.
  assert (Z.testbit (digit q1 w) (Z.of_nat b) = false) as Hclear.
  { destruct (Nat.lt_ge_cases w (length q1)) as [Hlt|Hge].
    - rewrite digit_of_magnitude by assumption.
      rewrite Z.mod_pow2_bits_low, Z.div_pow2_bits by lia.
      rewrite Hm1. replace (Z.of_nat b + 32 * Z.of_nat w) with (Z.of_nat i) by lia.
      apply Z.mod_divide in Hdiv; [|apply Z.pow_nonzero; lia].
      destruct Hdiv as [t Ht]. rewrite Ht. apply Z.mul_pow2_bits_low. lia.
    - rewrite (Hz1 w Hge). apply Z.bits_0. }
  rewrite lor_pow2_clear by (lia || exact Hclear).
  assert (is_limb (digit q1 w + 2 ^ Z.of_nat b)) as Hnew.
  { rewrite <- lor_pow2_clear by (lia || exact Hclear). apply lor_limb; assumption. }
  set (q2 := set_digit w (digit q1 w + 2 ^ Z.of_nat b) q1).
  assert (well_formed q2) as Hw2 by (apply well_formed_set_digit; assumption).
  assert (2 ^ Z.of_nat i = 2 ^ (32 * Z.of_nat w) * 2 ^ Z.of_nat b) as Hpow
    by (rewrite Hi, Z.pow_add_r by lia; reflexivity).
  change (length q2) with (length q1).
  destruct (length q1 <=? w)%nat eqn:El.
  - apply Nat.leb_le in El.
    split; [|split].
    + destruct Hw2 as [Hlen Hds]. split; [|exact Hds].
      unfold capacity in *. simpl. rewrite length_insert.
      simpl in Hlen. rewrite length_insert in Hlen. lia.
    + intros k Hk. simpl in Hk. unfold digit. simpl.
      rewrite nth_insert_ne by lia. apply Hz1. lia.
    + rewrite magnitude_set_sign.
      assert (zero_above (set_digit w 0 q1)) as Hz0.
      { intros k Hk. destruct (Nat.eq_dec w k) as [<-|Hne].
        - apply digit_set_digit_eq. exact Hc1.
        - rewrite digit_set_digit_ne by exact Hne. apply Hz1. exact Hk. }
      assert (set_length (w + 1) q2
              = set_digit w (digit q1 w + 2 ^ Z.of_nat b)
                  (set_length (w + 1) (set_digit w 0 q1))) as ->.
      { unfold q2, set_length, set_digit. simpl. f_equal.
        rewrite list_insert_insert_eq. reflexivity. }
      rewrite magnitude_set_digit
        by (unfold capacity in *; simpl; rewrite length_insert; lia).
      rewrite magnitude_extend by (assumption || simpl; lia).
      rewrite magnitude_set_digit_above by exact El.
      assert (digit (set_length (w + 1) (set_digit w 0 q1)) w = 0) as ->
        by (unfold digit; simpl; apply nth_insert_eq; exact Hc1).
      rewrite (Hz1 w El), Hm1, Hpow. ring.
  - apply Nat.leb_gt in El.
    split; [exact Hw2|]. split.
    + intros k Hk. simpl in Hk. unfold digit. simpl.
      rewrite nth_insert_ne by lia. apply Hz1. exact Hk.
    + rewrite magnitude_set_sign. unfold q2.
      rewrite magnitude_set_digit by (destruct Hw1; lia).
      rewrite Hm1, Hpow. ring.
Qed.

(** One round of the remainder: shift in the next bit of the dividend. *)
Lemma shift_in_bit_spec r bit :
  well_formed r -> sign r = (if magnitude r =? 0 then 0 else 1) ->
  (bit = 0 \/ bit = 1) ->
  let r1 := bi_shift_left_one r in
  let r2 := if bit =? 0 then r1
            else set_sign 1 (set_digit O (Z.lor (digit r1 O) 1) r1) in
  let r3 := bi_normalize r2 in
  well_formed r3 /\ trimmed r3
  /\ magnitude r3 = 2 * magnitude r + bit
  /\ sign r3 = (if magnitude r3 =? 0 then 0 else 1).
Proof.
  intros Hw Hs Hbit. cbv zeta.
  destruct (bi_shift_left_one_spec r Hw) as (Hw1 & Hsg1 & Hm1 & _).
  set (r1 := bi_shift_left_one r) in *.
  assert (magnitude r1 = 2 * magnitude r) as Hm1'.
  { rewrite Hm1. destruct (sign r =? 0) eqn:E; [|reflexivity].
    apply Z.eqb_eq in E. rewrite Hs in E.
    destruct (magnitude r =? 0) eqn:E0; [apply Z.eqb_eq in E0; lia|discriminate]. }
  pose proof (magnitude_bound r Hw) as Hb.
  set (r2 := if bit =? 0 then r1
             else set_sign 1 (set_digit O (Z.lor (digit r1 O) 1) r1)).
  assert (well_formed r2 /\ magnitude r2 = 2 * magnitude r + bit
          /\ sign r2 = (if bit =? 0 then sign r else 1)) as (Hw2 & Hm2 & Hsg2).
  { unfold r2. destruct Hbit as [->| ->]; simpl Z.eqb; cbv iota.
    - split; [exact Hw1|]. split; [lia|exact Hsg1].
    - pose proof (digit0_even r1 (magnitude r) Hw1 Hm1') as Heven.
      pose proof (digit_is_limb r1 O Hw1) as Hd0. unfold is_limb in Hd0.
      rewrite pow32 in Hd0.
      rewrite Heven, lor_bit0 by (right; reflexivity). rewrite <- Heven.
      split; [apply well_formed_set_sign, well_formed_set_digit; [exact Hw1|]|].
      { unfold is_limb. rewrite pow32. lia. }
      split; [|reflexivity].
      rewrite magnitude_set_sign, magnitude_set_digit by (destruct Hw1; lia).
      change (32 * Z.of_nat 0) with 0. rewrite Z.pow_0_r. lia. }
  clearbody r2.
  split; [apply well_formed_normalize; exact Hw2|].
  split; [apply trimmed_normalize; exact Hw2|].
  rewrite magnitude_normalize, sign_normalize by exact Hw2.
  split; [exact Hm2|]. rewrite Hm2, Hsg2, Hs.
  destruct Hbit as [->| ->]; simpl Z.eqb; cbv iota.
  - destruct (Z.eqb_spec (magnitude r) 0) as [E|E].
    + rewrite E. reflexivity.
    + destruct (Z.eqb_spec (2 * magnitude r + 0) 0); [lia|reflexivity].
  - destruct (Z.eqb_spec (2 * magnitude r + 1) 0); [lia|reflexivity].
Qed.

Lemma length_le_of_magnitude a b :
  well_formed a -> well_formed b -> trimmed b ->
  magnitude b <= magnitude a -> (length b <= length a)%nat.
Proof.
  intros Ha Hb Htb Hle.
  destruct (Nat.le_gt_cases (length b) (length a)) as [H|H]; [exact H|].
  pose proof (magnitude_lower b Hb Htb ltac:(destruct Ha; lia)).
  pose proof (magnitude_bound a Ha).
  assert (2 ^ (32 * Z.of_nat (length a)) <= 2 ^ (32 * Z.of_nat (length b - 1)))
    by (apply Z.pow_le_mono_r; lia). lia.
Qed.

Lemma half_bit A (i : nat) :
  0 <= A ->
  A / 2 ^ Z.of_nat i = 2 * (A / 2 ^ Z.of_nat (S i)) + (A / 2 ^ Z.of_nat i) mod 2.
Proof.
  intros HA. replace (Z.of_nat (S i)) with (Z.of_nat i + 1) by lia.
  rewrite Z.pow_add_r by lia. change (2 ^ 1) with 2.
  rewrite <- Z.div_div by (try apply Z.pow_nonzero; lia).
  apply Z.div_mod. lia.
Qed.

Lemma div_mod_loop_S a b i q r :
  div_mod_loop a b (S i) q r
  = let r := bi_shift_left_one r in
    let r := if bi_get_bit a i =? 0 then r
             else set_sign 1 (set_digit O (Z.lor (digit r O) 1) r) in
    let r := bi_normalize r in
    if 0 <=? bi_compare_abs r b then
      let r := bi_sub_into_abs r b in
      let w := (i / 32)%nat in
      let q := bi_resize q (w + 1) in
      let q := set_digit w
                 (Z.lor (digit q w) (u32 (Z.shiftl 1 (Z.of_nat (i mod 32))))) q in
      let q := if (length q <=? w)%nat then set_length (w + 1) q else q in
      div_mod_loop a b i (set_sign 1 q) r
    else div_mod_loop a b i q r.
Proof. reflexivity. Qed.

Lemma div_mod_loop_spec a b :
  well_formed a -> well_formed b -> trimmed b -> 0 < magnitude b ->
  forall i q r,
    well_formed q -> zero_above q -> magnitude q mod 2 ^ Z.of_nat i = 0 ->
    well_formed r -> trimmed r ->
    sign r = (if magnitude r =? 0 then 0 else 1) ->
    magnitude r < magnitude b ->
    magnitude a / 2 ^ Z.of_nat i
    = (magnitude q / 2 ^ Z.of_nat i) * magnitude b + magnitude r ->
    let '(q', r') := div_mod_loop a b i q r in
    well_formed q' /\ well_formed r' /\ trimmed r'
    /\ sign r' = (if magnitude r' =? 0 then 0 else 1)
    /\ magnitude r' < magnitude b
    /\ magnitude a = magnitude q' * magnitude b + magnitude r'.
Proof.
  intros Ha Hb Htb Hbpos. induction i as [|i IH];
    intros q r Hwq Hzq Hdiv Hwr Htr Hsr Hlt Heq.
  - simpl div_mod_loop. simpl in Heq. rewrite !Z.div_1_r in Heq.
    repeat (split; [assumption|]). exact Heq.
  - rewrite div_mod_loop_S. cbv zeta.
    pose proof (bi_get_bit_spec a i Ha) as Hbit.
    pose proof (bi_get_bit_range a i Ha) as Hbr.
    set (bit := bi_get_bit a i) in *.
    destruct (shift_in_bit_spec r bit Hwr Hsr Hbr) as (Hw3 & Ht3 & Hm3 & Hs3).
    cbv zeta in Hw3, Ht3, Hm3, Hs3.
    set (r3 := bi_normalize _) in *.
    pose proof (magnitude_bound a Ha) as HA.
    pose proof (half_bit (magnitude a) i ltac:(lia)) as Hhalf.
    rewrite <- Hbit in Hhalf.
    replace (Z.of_nat (S i)) with (Z.of_nat i + 1) in Hdiv by lia.
    apply Z.mod_divide in Hdiv as Hdiv'; [|apply Z.pow_nonzero; lia].
    destruct Hdiv' as [t Ht].
    assert (0 < 2 ^ Z.of_nat i) as Hpi by (apply Z.pow_pos_nonneg; lia).
    assert (2 ^ Z.of_nat (S i) = 2 * 2 ^ Z.of_nat i) as HpS
      by (replace (Z.of_nat (S i)) with (1 + Z.of_nat i) by lia;
          rewrite Z.pow_add_r by lia; reflexivity).
    assert (2 ^ (Z.of_nat i + 1) = 2 * 2 ^ Z.of_nat i) as HpS'
      by (rewrite Z.pow_add_r by lia; change (2 ^ 1) with 2; lia).
    assert (magnitude q / 2 ^ Z.of_nat (S i) = t) as Hqt.
    { rewrite Ht, HpS, HpS'. apply Z.div_mul. lia. }
    rewrite Hqt in Heq.
    rewrite (bi_compare_abs_spec r3 b Hw3 Hb Ht3 Htb).
    destruct (0 <=? Z.sgn (magnitude r3 - magnitude b)) eqn:Ecmp.
    + apply Z.leb_le in Ecmp. apply Z.sgn_nonneg in Ecmp.
      pose proof (length_le_of_magnitude r3 b Hw3 Hb Htb ltac:(lia)) as Hlen.
      destruct (bi_sub_into_abs_spec r3 b Hw3 Hb Hlen ltac:(lia))
        as (Hw4 & Ht4 & Hm4 & Hs4).
      set (r4 := bi_sub_into_abs r3 b) in *.
      destruct (set_quotient_bit_spec q i Hwq Hzq Hdiv) as (Hwq' & Hzq' & Hmq').
      cbv zeta in Hwq', Hzq', Hmq'.
      match type of Hwq' with well_formed ?x => set (q' := x) in * end.
      apply IH; try assumption.
      * rewrite Hmq', Ht, HpS'.
        replace (t * (2 * 2 ^ Z.of_nat i) + 2 ^ Z.of_nat i)
          with ((2 * t + 1) * 2 ^ Z.of_nat i) by ring.
        apply Z.mod_mul. lia.
      * rewrite Hs4, <- Hm4, Hs3.
        destruct (Z.eqb_spec (magnitude r4) 0) as [E|E]; [reflexivity|].
        destruct (Z.eqb_spec (magnitude r3) 0); [lia|reflexivity].
      * lia.
      * rewrite Hmq', Ht, HpS'.
        replace (t * (2 * 2 ^ Z.of_nat i) + 2 ^ Z.of_nat i)
          with ((2 * t + 1) * 2 ^ Z.of_nat i) by ring.
        rewrite Z.div_mul by lia. lia.
    + apply Z.leb_gt in Ecmp. apply Z.sgn_neg_iff in Ecmp.
      apply IH; try assumption.
      * rewrite Ht, HpS'.
        replace (t * (2 * 2 ^ Z.of_nat i)) with ((2 * t) * 2 ^ Z.of_nat i) by ring.
        apply Z.mod_mul. lia.
      * lia.
      * rewrite Ht, HpS'.
        replace (t * (2 * 2 ^ Z.of_nat i)) with ((2 * t) * 2 ^ Z.of_nat i) by ring.
        rewrite Z.div_mul by lia. lia.
Qed.

Lemma zero_above_create : zero_above bi_create.
Proof. intros k _. unfold digit, bi_create. simpl digits. apply (nth_replicate0 4 k). Qed.

Lemma trimmed_create : trimmed bi_create.
Proof. left. reflexivity. Qed.

(** [bi_div_mod_abs] divides the magnitudes. *)
Lemma bi_div_mod_abs_spec a b :
  normalized a -> normalized b -> sign b <> 0 ->
  exists q r, bi_div_mod_abs a b = Some (q, r)
    /\ well_formed q /\ trimmed q /\ well_formed r /\ trimmed r
    /\ magnitude a = magnitude q * magnitude b + magnitude r
    /\ 0 <= magnitude r < magnitude b.
Proof.
  intros Hna Hnb Hsb.
  pose proof (proj1 Hna) as Ha. pose proof (proj1 Hnb) as Hb.
  pose proof (normalized_trimmed a Hna) as Hta.
  pose proof (normalized_trimmed b Hnb) as Htb.
  pose proof (normalized_sign_zero b Hnb) as Hzb.
  pose proof (normalized_sign_zero a Hna) as Hza.
  pose proof (magnitude_bound a Ha) as HA. pose proof (magnitude_bound b Hb) as HB.
  assert (0 < magnitude b) as Hbpos by (assert (magnitude b <> 0) by tauto; lia).
  unfold bi_div_mod_abs. apply Z.eqb_neq in Hsb as Esb. rewrite Esb.
  rewrite (bi_compare_abs_spec a b Ha Hb Hta Htb).
  destruct (Z.sgn (magnitude a - magnitude b) <? 0) eqn:Ecmp.
  - apply Z.ltb_lt in Ecmp. apply Z.sgn_neg_iff in Ecmp.
    exists bi_create, (bi_copy a). split; [reflexivity|].
    split; [apply well_formed_create|]. split; [apply trimmed_create|].
    split; [apply well_formed_copy; exact Ha|].
    split; [apply trimmed_copy; assumption|].
    rewrite magnitude_copy by exact Ha. change (magnitude bi_create) with 0. lia.
  - apply Z.ltb_ge in Ecmp. apply Z.sgn_nonneg in Ecmp.
    assert (sign a <> 0) as Hsa by (intros E; apply Hza in E; lia).
    pose proof (bi_bit_length_spec a Ha Hsa) as Hbits.
    pose proof (div_mod_loop_spec a b Ha Hb Htb Hbpos (bi_bit_length a)
                  bi_create bi_create well_formed_create zero_above_create) as Hloop.
    change (magnitude bi_create) with 0 in Hloop.
    assert (0 mod 2 ^ Z.of_nat (bi_bit_length a) = 0) as Hmod0
      by (apply Z.mod_0_l, Z.pow_nonzero; lia).
    specialize (Hloop Hmod0 well_formed_create trimmed_create eq_refl Hbpos).
    rewrite Z.div_small in Hloop by lia. specialize (Hloop eq_refl).
    destruct (div_mod_loop a b (bi_bit_length a) bi_create bi_create) as [q r].
    destruct Hloop as (Hwq & Hwr & Htr & Hsr & Hlt & Heq).
    exists (bi_normalize q), r. split; [reflexivity|].
    split; [apply well_formed_normalize; exact Hwq|].
    split; [apply trimmed_normalize; exact Hwq|].
    split; [exact Hwr|]. split; [exact Htr|].
    rewrite magnitude_normalize by exact Hwq.
    pose proof (magnitude_bound r Hwr). lia.
Qed.

Lemma bi_div_spec a b :
  normalized a -> normalized b -> sign b <> 0 ->
  exists q, bi_div a b = Some q /\ normalized q
    /\ value q = Z.quot (value a) (value b).
Proof.
  intros Hna Hnb Hsb.
  destruct (bi_div_mod_abs_spec a b Hna Hnb Hsb)
    as (q & r & Hqr & Hwq & Htq & Hwr & Htr & Heq & Hr).
  unfold bi_div. apply Z.eqb_neq in Hsb as Esb. rewrite Esb, Hqr.
  eexists. split; [reflexivity|].
  pose proof (normalized_signs a Hna) as Hsa.
  pose proof (normalized_signs b Hnb) as Hsb'.
  pose proof (normalized_sign_zero a Hna) as Hza.
  pose proof (magnitude_bound a (proj1 Hna)) as HA.
  pose proof (magnitude_bound q Hwq) as HQ.
  split.
  - apply normalized_normalize; [apply well_formed_set_sign; exact Hwq|].
    simpl. destruct (sign a =? sign b); lia.
  - rewrite value_normalize by (apply well_formed_set_sign; exact Hwq).
    unfold value at 1. simpl sign. rewrite magnitude_set_sign.
    assert (magnitude q = magnitude a / magnitude b) as Hq
      by (apply (Z.div_unique _ _ _ (magnitude r)); [left; lia|lia]).
    unfold value.
    assert (magnitude q = Z.quot (magnitude a) (magnitude b)) as Hq'
      by (rewrite Z.quot_div_nonneg by lia; exact Hq).
    destruct Hsa as [E|[E|E]]; rewrite E.
    + apply Hza in E. rewrite E in *. rewrite Z.mul_0_l, Z.quot_0_l by lia.
      assert (magnitude q = 0) as -> by nia. lia.
    + destruct Hsb' as [E'|[E'|E']]; [contradiction| |]; rewrite E'; simpl Z.eqb; cbv iota.
      * rewrite !Z.mul_1_l. exact Hq'.
      * replace (-1 * magnitude b) with (- magnitude b) by lia.
        rewrite Z.mul_1_l, Z.quot_opp_r by lia. lia.
    + destruct Hsb' as [E'|[E'|E']]; [contradiction| |]; rewrite E'; simpl Z.eqb; cbv iota.
      * replace (-1 * magnitude a) with (- magnitude a) by lia.
        rewrite Z.mul_1_l, Z.quot_opp_l by lia. lia.
      * replace (-1 * magnitude a) with (- magnitude a) by lia.
        replace (-1 * magnitude b) with (- magnitude b) by lia.
        rewrite Z.quot_opp_opp by lia. lia.
Qed.

Lemma bi_mod_spec a b :
  normalized a -> normalized b -> sign b <> 0 ->
  exists m, bi_mod a b = Some m /\ normalized m
    /\ value m = Z.rem (value a) (value b)
    /\ sign m = (if magnitude m =? 0 then 0 else sign a)
    /\ magnitude m < magnitude b.
Proof.
  intros Hna Hnb Hsb.
  destruct (bi_div_mod_abs_spec a b Hna Hnb Hsb)
    as (q & r & Hqr & Hwq & Htq & Hwr & Htr & Heq & Hr).
  unfold bi_mod. apply Z.eqb_neq in Hsb as Esb. rewrite Esb, Hqr.
  eexists. split; [reflexivity|].
  pose proof (normalized_signs a Hna) as Hsa.
  pose proof (normalized_signs b Hnb) as Hsb'.
  pose proof (normalized_sign_zero a Hna) as Hza.
  pose proof (magnitude_bound a (proj1 Hna)) as HA.
  pose proof (magnitude_bound q Hwq) as HQ.
  assert (well_formed (set_sign (sign a) r)) as Hw' by (apply well_formed_set_sign; exact Hwr).
  split; [|split; [|split]].
  - destruct (Z.eq_dec (sign a) 0) as [E|E].
    + apply normalized_normalize; [exact Hw'|]. right. right.
      split; [exact E|]. rewrite magnitude_set_sign. apply Hza in E. nia.
    + apply normalized_normalize; [exact Hw'|]. simpl. lia.
  - rewrite value_normalize by exact Hw'.
    unfold value at 1. simpl sign. rewrite magnitude_set_sign.
    assert (magnitude r = magnitude a mod magnitude b) as Hrm
      by (apply (Z.mod_unique _ _ (magnitude q)); [left; lia|lia]).
    assert (magnitude r = Z.rem (magnitude a) (magnitude b)) as Hr'
      by (rewrite Z.rem_mod_nonneg by lia; exact Hrm).
    unfold value.
    destruct Hsa as [E|[E|E]]; rewrite E.
    + apply Hza in E. rewrite E. rewrite !Z.mul_0_l, Z.rem_0_l by lia. reflexivity.
    + destruct Hsb' as [E'|[E'|E']]; [contradiction| |]; rewrite E'.
      * rewrite !Z.mul_1_l. exact Hr'.
      * replace (-1 * magnitude b) with (- magnitude b) by lia.
        rewrite !Z.mul_1_l, Z.rem_opp_r by lia. exact Hr'.
    + destruct Hsb' as [E'|[E'|E']]; [contradiction| |]; rewrite E'.
      * replace (-1 * magnitude a) with (- magnitude a) by lia.
        rewrite Z.mul_1_l, Z.rem_opp_l by lia. lia.
      * replace (-1 * magnitude a) with (- magnitude a) by lia.
        replace (-1 * magnitude b) with (- magnitude b) by lia.
        rewrite Z.rem_opp_opp by lia. lia.
  - rewrite sign_normalize, magnitude_normalize by exact Hw'.
    rewrite magnitude_set_sign. reflexivity.
  - rewrite magnitude_normalize by exact Hw'. rewrite magnitude_set_sign. lia.
Qed.


(** * The division identity *)

Lemma same_int_of_normalized a b :
  normalized a -> normalized b -> value a = value b -> same_int a b.
Proof.
  intros Hna Hnb Hv.
  pose proof (normalized_signs a Hna) as Hsa.
  pose proof (normalized_signs b Hnb) as Hsb.
  pose proof (normalized_sign_zero a Hna) as Hza.
  pose proof (normalized_sign_zero b Hnb) as Hzb.
  pose proof (magnitude_bound a (proj1 Hna)) as HA.
  pose proof (magnitude_bound b (proj1 Hnb)) as HB.
  unfold value in Hv.
  assert (sign a = sign b /\ magnitude a = magnitude b) as [Hs Hm].
  { destruct Hsa as [Ea|[Ea|Ea]], Hsb as [Eb|[Eb|Eb]]; rewrite Ea, Eb in *;
      try (split; [reflexivity|lia]);
      try (assert (magnitude a = 0) by tauto);
      try (assert (magnitude b = 0) by tauto);
      try (assert (magnitude a <> 0) by (intros E0; apply Hza in E0; lia));
      try (assert (magnitude b <> 0) by (intros E0; apply Hzb in E0; lia));
      lia. }
  apply same_int_of_value; try apply Hna; try apply Hnb; try assumption.
  - apply normalized_trimmed; exact Hna.
  - apply normalized_trimmed; exact Hnb.
Qed.

Lemma normalized_small s d :
  (s = 1 \/ s = -1) -> 0 < d < 2 ^ 32 -> normalized (small s d).
Proof.
  intros Hs Hd. split.
  - split; [unfold capacity; simpl; lia|]. unfold small. simpl.
    repeat (constructor; [unfold is_limb; lia|]). constructor.
  - right. split; [simpl; tauto|]. split; [simpl; lia|]. unfold digit. simpl. lia.
Qed.

(** C1: for normalized [x] and [y] with [y] non-zero, [bi_div] and [bi_mod]
    return values [q] and [m] with [add (mul q y) m = x]; the sign of [m] is
    0 or the sign of [x]; and [|m| < |y|]. *)
Theorem division_identity (x y : BigInt) :
  normalized x -> normalized y -> sign y <> 0 ->
  exists q m,
    bi_div x y = Some q /\ bi_mod x y = Some m
    /\ same_int (bi_add (bi_mul q y) m) x
    /\ (sign m = 0 \/ sign m = sign x)
    /\ magnitude m < magnitude y.
Proof.
  intros Hx Hy Hsy.
  destruct (bi_div_spec x y Hx Hy Hsy) as (q & Hq & Hnq & Hvq).
  destruct (bi_mod_spec x y Hx Hy Hsy) as (m & Hm & Hnm & Hvm & Hsm & Hlt).
  exists q, m. split; [exact Hq|]. split; [exact Hm|].
  destruct (bi_mul_spec q y Hnq Hy) as [Hnp Hvp].
  destruct (bi_add_spec (bi_mul q y) m Hnp Hnm) as [Hns Hvs].
  split; [|split; [|exact Hlt]].
  - apply same_int_of_normalized; [exact Hns|exact Hx|].
    rewrite Hvs, Hvp, Hvq, Hvm.
    pose proof (Z.quot_rem' (value x) (value y)). lia.
  - rewrite Hsm. destruct (magnitude m =? 0); [left|right]; reflexivity.
Qed.

(** The identity at [x = -7], [y = 2]. *)
Lemma division_identity_witness :
  normalized (small (-1) 7) /\ normalized (small 1 2) /\ sign (small 1 2) <> 0
  /\ exists q m,
       bi_div (small (-1) 7) (small 1 2) = Some q
       /\ bi_mod (small (-1) 7) (small 1 2) = Some m
       /\ same_int (bi_add (bi_mul q (small 1 2)) m) (small (-1) 7)
       /\ (sign m = 0 \/ sign m = sign (small (-1) 7))
       /\ magnitude m < magnitude (small 1 2).
Proof.
  assert (normalized (small (-1) 7)) as Hx by (apply normalized_small; [right; reflexivity|lia]).
  assert (normalized (small 1 2)) as Hy by (apply normalized_small; [left; reflexivity|lia]).
  assert (sign (small 1 2) <> 0) as Hs by (simpl; lia).
  split; [exact Hx|]. split; [exact Hy|]. split; [exact Hs|].
  exact (division_identity (small (-1) 7) (small 1 2) Hx Hy Hs).
Defined.


(** * The parsers return normalized numbers *)

Lemma bi_from_dec_normalized str r : bi_from_dec str = Some r -> normalized r.
Proof.
  intros H. destruct (Nat.eq_dec (strlen str) O) as [E|E].
  - unfold bi_from_dec in H. rewrite E in H. discriminate H.
  - destruct (bi_from_dec_spec str E) as (r' & Hr' & Hn & _).
    rewrite H in Hr'. inversion Hr'; subst. exact Hn.
Qed.

Lemma hex_value_range c : hex_value c = -1 \/ 0 <= hex_value c < 16.
Proof.
  unfold hex_value, in_range.
  destruct ((code "0" <=? code c) && (code c <=? code "9")) eqn:E1.
  { apply andb_prop in E1 as [H1 H2]. apply Z.leb_le in H1, H2.
    change (code "0") with 48 in *. change (code "9") with 57 in *. lia. }
  destruct ((code "a" <=? code c) && (code c <=? code "f")) eqn:E2.
  { apply andb_prop in E2 as [H1 H2]. apply Z.leb_le in H1, H2. unfold HEX_OFFSET.
    change (code "a") with 97 in *. change (code "f") with 102 in *. lia. }
  destruct ((code "A" <=? code c) && (code c <=? code "F")) eqn:E3.
  { apply andb_prop in E3 as [H1 H2]. apply Z.leb_le in H1, H2. unfold HEX_OFFSET.
    change (code "A") with 65 in *. change (code "F") with 70 in *. lia. }
  left. reflexivity.
Qed.

Lemma well_formed_after_complement num :
  well_formed num -> sign num = 1 ->
  normalized
    (bi_normalize
       (set_sign (-1)
          (bi_add_digit_into
             (for_loop (length num)
                (fun k num => set_digit k (not32 (digit num k)) num) num) 1))).
Proof.
  intros Hw Hs.
  destruct (invert_limbs_spec num Hw) as (Hw2 & _ & Hsg2 & _).
  cbv zeta in Hw2, Hsg2.
  match type of Hw2 with well_formed ?r => set (r2 := r) in * end.
  destruct (bi_add_digit_into_spec r2 1 Hw2) as (Hw3 & _).
  { unfold is_limb. rewrite pow32. lia. }
  { lia. }
  { rewrite Hsg2, Hs. discriminate. }
  apply normalized_normalize; [apply well_formed_set_sign; exact Hw3|].
  right. left. reflexivity.
Qed.

Lemma bi_from_hex_normalized str r : bi_from_hex str = Some r -> normalized r.
Proof.
  unfold bi_from_hex.
  destruct (strlen str =? 0)%nat eqn:En; [discriminate|].
  destruct (negb (forallb _ _)); [discriminate|].
  apply Nat.eqb_neq in En.
  set (n := strlen str) in *.
  set (required := ((n + 7) / HEX_WIDTH)%nat).
  set (num0 := mkBigInt 1 required
                 (replicate (capacity (bi_resize bi_create required)) 0)).
  assert (1 <= required)%nat as Hreq.
  { unfold required, HEX_WIDTH.
    pose proof (Nat.Div0.div_le_mono 8 (n + 7) 8 ltac:(lia)) as H.
    change (8 / 8)%nat with 1%nat in H. exact H. }
  assert (well_formed num0) as Hw0.
  { split; [|apply Forall_replicate0].
    unfold capacity, num0. simpl. rewrite length_replicate.
    pose proof (capacity_resize bi_create required) as Hc. lia. }
  set (P := fun s : nat * nat * BigInt =>
    let '(_, _, num) := s in well_formed num /\ length num = required).
  match goal with
  | |- context [while_loop n ?c ?b (n, O, num0)] =>
      assert (P (while_loop n c b (n, O, num0))) as HP
  end.
  { apply while_loop_preserves; [|split; [exact Hw0|reflexivity]].
    intros [[i di] num] [Hw Hl] _.
    set (Q := fun s : nat * nat * Z * Z => let '(_, _, cur, _) := s in is_limb cur).
    match goal with
    | |- context [while_loop HEX_WIDTH ?c ?b (O, i, 0, 0)] =>
        assert (Q (while_loop HEX_WIDTH c b (O, i, 0, 0))) as HQ
    end.
    { apply while_loop_preserves; [|unfold Q, is_limb; lia].
      intros [[[j i'] cur] sh] Hcur _. unfold Q. apply lor_limb; [exact Hcur|apply u32_range]. }
    destruct (while_loop HEX_WIDTH _ _ (O, i, 0, 0)) as [[[j i'] cur] sh].
    unfold P. split; [apply well_formed_set_digit; assumption|exact Hl]. }
  destruct (while_loop n _ _ (n, O, num0)) as [[i di] num].
  destruct HP as [Hw Hl].
  intros H. inversion H; subst r. clear H.
  destruct (8 <=? hex_value (char_at str 0)).
  - apply well_formed_after_complement.
    + match goal with |- context [if ?c then _ else _] => destruct c end;
        [|exact Hw].
      apply well_formed_set_digit; [exact Hw|].
      apply lor_limb; [apply digit_is_limb; exact Hw|apply u32_range].
    + match goal with |- context [if ?c then _ else _] => destruct c end;
        reflexivity.
  - apply normalized_normalize; [exact Hw|]. left. reflexivity.
Qed.

Lemma bi_from_bin_normalized str r : bi_from_bin str = Some r -> normalized r.
Proof.
  unfold bi_from_bin.
  match goal with |- context [strlen ?x] => set (p := x) end.
  destruct (negb (forallb _ _)); [discriminate|].
  destruct (strlen p =? 0)%nat; [discriminate|].
  set (n := strlen p).
  set (res0 := set_sign 1 (bi_resize bi_create ((n + 32 - 1) / 32))).
  assert (well_formed res0) as Hwf0
    by (apply well_formed_set_sign, well_formed_resize, well_formed_create).
  set (P := fun (i : nat) (res : BigInt) => well_formed res /\ sign res = 1).
  for_rule_at P n res0.
  { split; [exact Hwf0|reflexivity]. }
  { intros i res Hi [Hw Hsg]. unfold P.
    destruct (bi_shift_left_one_spec res Hw) as (Hw1 & Hsg1 & _).
    destruct (Ascii.eqb (char_at p i) "1").
    - split; [|reflexivity].
      apply well_formed_set_sign, well_formed_set_digit; [exact Hw1|].
      apply lor_limb; [apply digit_is_limb; exact Hw1|unfold is_limb; rewrite pow32; lia].
    - split; [exact Hw1|lia]. }
  destruct HP as [Hw Hsg].
  set (res := for_loop n _ res0) in *.
  intros H. inversion H; subst r. clear H.
  destruct (Ascii.eqb (char_at p 0) "1").
  - set (Q := fun (k : nat) (x : BigInt) =>
      well_formed x /\ sign x = 1 /\ length x = length res).
    for_rule_at Q (capacity res * 32 - n)%nat res.
    { unfold Q. auto. }
    { intros k x Hk (Hwx & Hsx & Hlx). unfold Q.
      destruct (_ <? length x)%nat; [|auto].
      split; [|auto].
      apply well_formed_set_digit; [exact Hwx|].
      apply lor_limb; [apply digit_is_limb; exact Hwx|apply u32_range]. }
    destruct HP as (Hw1 & Hs1 & Hl1).
    set (res1 := for_loop (capacity res * 32 - n) _ res) in *.
    apply well_formed_after_complement; assumption.
  - apply normalized_normalize; [exact Hw|]. left. exact Hsg.
Qed.

(** * Power and factorial *)

Lemma from_dec_literals :
  bi_from_dec (lit "0") = Some zero_int
  /\ bi_from_dec (lit "1") = Some (small 1 1)
  /\ bi_from_dec (lit "2") = Some (small 1 2)
  /\ bi_from_dec (lit "-1") = Some (small 1 1).
Proof. repeat split; vm_compute; reflexivity. Qed.

Lemma normalized_zero_int : normalized zero_int.
Proof.
  split; [split; [vm_compute; lia|]|left; repeat split].
  simpl. repeat (constructor; [unfold is_limb; lia|]). constructor.
Qed.

Lemma normalized_one : normalized (small 1 1).
Proof. apply normalized_small; [left; reflexivity|rewrite pow32; lia]. Qed.

Lemma normalized_two : normalized (small 1 2).
Proof. apply normalized_small; [left; reflexivity|rewrite pow32; lia]. Qed.

Lemma compare_abs_zero n :
  normalized n -> bi_compare_abs n zero_int = Z.sgn (magnitude n).
Proof.
  intros Hn. rewrite bi_compare_abs_spec.
  - change (magnitude zero_int) with 0. f_equal. lia.
  - apply Hn.
  - apply normalized_zero_int.
  - apply normalized_trimmed; exact Hn.
  - left. reflexivity.
Qed.

Lemma value_pos_magnitude n :
  normalized n -> 0 < magnitude n -> 0 <= value n -> 0 < value n.
Proof.
  intros Hn Hm Hv. pose proof (normalized_signs n Hn) as Hs.
  pose proof (normalized_sign_zero n Hn) as Hz. unfold value in *.
  destruct Hs as [E|[E|E]].
  - apply Hz in E. lia.
  - rewrite E. lia.
  - rewrite E in Hv. lia.
Qed.

(** The squaring loop ends with a normalized result before its fuel runs
    out. *)
Lemma pow_loop_spec : forall fuel result current n,
  normalized result -> normalized current -> normalized n ->
  0 < value n < 2 ^ Z.of_nat fuel ->
  exists r, pow_loop fuel result current n zero_int (small 1 2) = Some r
            /\ normalized r.
Proof.
  induction fuel as [|fuel IH]; intros result current n Hr Hc Hn Hv.
  - simpl in Hv. lia.
  - simpl pow_loop.
    pose proof (normalized_signs n Hn) as Hs.
    pose proof (magnitude_bound n (proj1 Hn)) as Hmb.
    assert (0 < magnitude n) as Hm by (unfold value in Hv; destruct Hs as [E|[E|E]];
      rewrite E in Hv; lia).
    rewrite (compare_abs_zero n Hn).
    assert (Z.sgn (magnitude n) = 1) as -> by (apply Z.sgn_pos; exact Hm).
    simpl Z.ltb. cbv iota.
    assert (sign (small 1 2) <> 0) as H2 by (simpl; lia).
    destruct (bi_mod_spec n (small 1 2) Hn normalized_two H2) as (m & -> & _).
    destruct (bi_div_spec n (small 1 2) Hn normalized_two H2) as (n' & -> & Hn' & Hvn').
    change (value (small 1 2)) with 2 in Hvn'.
    set (result' := if negb (sign m =? 0) then bi_mul result current else result).
    assert (normalized result') as Hr'.
    { unfold result'. destruct (negb (sign m =? 0)); [|exact Hr].
      apply bi_mul_spec; assumption. }
    rewrite (compare_abs_zero n' Hn').
    destruct (Z.sgn (magnitude n') <=? 0) eqn:E.
    + exists result'. split; [reflexivity|exact Hr'].
    + apply Z.leb_gt in E. assert (0 < magnitude n') as Hm' by lia.
      apply IH; try assumption.
      * apply bi_mul_spec; assumption.
      * rewrite Z.quot_div_nonneg in Hvn' by lia.
        replace (Z.of_nat (S fuel)) with (1 + Z.of_nat fuel) in Hv by lia.
        rewrite Z.pow_add_r in Hv by lia. change (2 ^ 1) with 2 in Hv.
        assert (0 <= value n') by (rewrite Hvn'; apply Z.div_pos; lia).
        split; [apply value_pos_magnitude; assumption|].
        rewrite Hvn'. apply Z.div_lt_upper_bound; lia.
Qed.

(** [bi_pow] always returns, and what it returns is normalized. *)
Lemma bi_pow_total base exponent :
  normalized base -> normalized exponent ->
  exists r, bi_pow base exponent = Some r /\ normalized r.
Proof.
  intros Hb He. unfold bi_pow.
  destruct from_dec_literals as (L0 & L1 & L2 & Lm1).
  rewrite L0, L1, L2, Lm1.
  destruct (sign exponent =? 0) eqn:E0; [eexists; split; [reflexivity|apply normalized_one]|].
  destruct (sign base =? 0); [eexists; split; [reflexivity|apply normalized_zero_int]|].
  destruct (sign exponent =? -1) eqn:E1;
    [eexists; split; [reflexivity|apply normalized_zero_int]|].
  destruct (bi_compare_abs base (small 1 1) =? 0).
  - destruct (sign base =? 1); [eexists; split; [reflexivity|apply normalized_one]|].
    destruct (bi_mod exponent (small 1 2)) as [m|];
      [destruct (sign m =? 0)|]; eexists; (split; [reflexivity|apply normalized_one]).
  - apply Z.eqb_neq in E0, E1.
    pose proof (normalized_signs exponent He) as Hs.
    assert (sign exponent = 1) as Hs1 by lia.
    apply pow_loop_spec.
    + apply normalized_one.
    + apply normalized_copy; exact Hb.
    + apply normalized_copy; exact He.
    + rewrite value_copy by apply He. unfold value. rewrite Hs1, Z.mul_1_l.
      pose proof (magnitude_bound exponent (proj1 He)) as Hm.
      pose proof (normalized_sign_zero exponent He) as Hz.
      assert (magnitude exponent <> 0) by (intros E; apply Hz in E; lia).
      replace (Z.of_nat (32 * length exponent)) with (32 * Z.of_nat (length exponent)) by lia.
      lia.
Qed.

(** [bi_fact] returns a normalized number for every argument below
    2^32 - 1. *)
Lemma bi_fact_normalized n :
  0 <= n < 2 ^ 32 - 1 -> exists r, bi_fact n = Some r /\ normalized r.
Proof.
  intros Hn. unfold bi_fact. destruct from_dec_literals as (_ & L1 & _). rewrite L1.
  destruct ((n =? 0) || (n =? 1)) eqn:E01;
    [eexists; split; [reflexivity|apply normalized_one]|].
  assert ((n =? 4294967295) = false) as -> by (apply Z.eqb_neq; rewrite pow32 in Hn; lia).
  eexists. split; [reflexivity|].
  set (P := fun (k : nat) (res : BigInt) => normalized res /\ sign res = 1).
  for_rule P.
  { split; [|reflexivity]. change (set_sign 1 (set_digit O 1 bi_create)) with (small 1 1).
    apply normalized_one. }
  { intros k res Hk [Hres Hs]. unfold P.
    pose proof (normalized_sign_zero res Hres) as Hz.
    destruct (bi_mul_digit_into_spec res (Z.of_nat k + 2) (proj1 Hres))
      as (Hw & Ht & Hm & Hsg).
    { unfold is_limb. lia. }
    { apply Hz. }
    assert (magnitude res <> 0) as Hm0 by (intros E; apply Hz in E; lia).
    assert (magnitude res * (Z.of_nat k + 2) <> 0) as Hp by nia.
    apply Z.eqb_neq in Hp as Ep. rewrite Ep in Hsg.
    split; [|lia].
    apply normalized_intro; [exact Hw|exact Ht|lia|lia]. }
  apply HP.
Qed.

(** * The normalized-form invariant *)

(** C10: normalization is idempotent, and zero, copy, negate, add, sub, mul,
    div, mod, pow, fact and the three parsers return numbers in normalized
    form: sign 0 with the single limb zero, or sign -1 or +1 with a non-zero
    top limb.  ([bi_fact] is called with an argument below 2^32 - 1.) *)
Theorem public_operations_normalized :
  (forall n, bi_normalize (bi_normalize n) = bi_normalize n)
  /\ normalized bi_create
  /\ (forall x, normalized x -> normalized (bi_copy x) /\ normalized (bi_negate x))
  /\ (forall x y, normalized x -> normalized y ->
        normalized (bi_add x y) /\ normalized (bi_sub x y)
        /\ normalized (bi_mul x y))
  /\ (forall x y, normalized x -> normalized y -> sign y <> 0 ->
        exists q m, bi_div x y = Some q /\ bi_mod x y = Some m
                    /\ normalized q /\ normalized m)
  /\ (forall x y, normalized x -> normalized y ->
        exists r, bi_pow x y = Some r /\ normalized r)
  /\ (forall n, 0 <= n < 2 ^ 32 - 1 ->
        exists r, bi_fact n = Some r /\ normalized r)
  /\ (forall s r, bi_from_dec s = Some r -> normalized r)
  /\ (forall s r, bi_from_hex s = Some r -> normalized r)
  /\ (forall s r, bi_from_bin s = Some r -> normalized r).
Proof.
  split; [exact bi_normalize_idem|].
  split; [exact normalized_create|].
  split; [intros x Hx; split; [apply normalized_copy|apply normalized_negate]; exact Hx|].
  split.
  { intros x y Hx Hy. split; [apply bi_add_spec; assumption|].
    split; [apply bi_sub_spec; assumption|apply bi_mul_spec; assumption]. }
  split.
  { intros x y Hx Hy Hs.
    destruct (bi_div_spec x y Hx Hy Hs) as (q & Hq & Hnq & _).
    destruct (bi_mod_spec x y Hx Hy Hs) as (m & Hm & Hnm & _).
    exists q, m. auto. }
  split; [exact bi_pow_total|].
  split; [exact bi_fact_normalized|].
  split; [exact bi_from_dec_normalized|].
  split; [exact bi_from_hex_normalized|exact bi_from_bin_normalized].
Qed.

(** The invariant after adding 5 and -7, and after parsing the hexadecimal
    literal [ff]. *)
Lemma public_operations_normalized_witness :
  normalized (small 1 5) /\ normalized (small (-1) 7)
  /\ normalized (bi_add (small 1 5) (small (-1) 7))
  /\ (exists r, bi_from_hex (lit "ff") = Some r /\ normalized r).
Proof.
  assert (normalized (small 1 5)) as H5 by (apply normalized_small; [left; reflexivity|lia]).
  assert (normalized (small (-1) 7)) as H7 by (apply normalized_small; [right; reflexivity|lia]).
  destruct public_operations_normalized as (_ & _ & _ & Hadd & _ & _ & _ & _ & Hhex & _).
  split; [exact H5|]. split; [exact H7|].
  split; [exact (proj1 (Hadd _ _ H5 H7))|].
  eexists. split; [vm_compute; reflexivity|]. apply (Hhex (lit "ff")). vm_compute. reflexivity.
Defined.


(** * The validator's unary-sign rule *)

(** The backwards scan stops at the last character that is not white
    space. *)
Lemma prev_non_space_loop input j : forall fuel k,
  (j <= k)%nat -> (k - j < fuel)%nat ->
  isspace (char_at input j) = false ->
  (forall t, (j < t <= k)%nat -> isspace (char_at input t) = true) ->
  while_loop fuel
    (fun j => (0 <=? j) && isspace (char_at input (Z.to_nat j)))
    (fun j => j - 1) (Z.of_nat k) = Z.of_nat j.
Proof.
  induction fuel as [|fuel IH]; intros k Hjk Hfuel Hj Hsp; [lia|].
  simpl. rewrite Nat2Z.id.
  assert ((0 <=? Z.of_nat k) = true) as -> by (apply Z.leb_le; lia). simpl.
  destruct (Nat.eq_dec j k) as [->|Hne].
  - rewrite Hj. reflexivity.
  - rewrite Hsp by lia.
    replace (Z.of_nat k - 1) with (Z.of_nat (k - 1)) by lia.
    apply IH; try lia; try assumption. intros t Ht. apply Hsp. lia.
Qed.

Lemma prev_non_space_none input : forall fuel k,
  (k < fuel)%nat ->
  (forall t, (t <= k)%nat -> isspace (char_at input t) = true) ->
  while_loop fuel
    (fun j => (0 <=? j) && isspace (char_at input (Z.to_nat j)))
    (fun j => j - 1) (Z.of_nat k) = -1.
Proof.
  induction fuel as [|fuel IH]; intros k Hfuel Hsp; [lia|].
  simpl. rewrite Nat2Z.id.
  assert ((0 <=? Z.of_nat k) = true) as -> by (apply Z.leb_le; lia). simpl.
  rewrite Hsp by lia. destruct k as [|k].
  - simpl. destruct fuel; reflexivity.
  - replace (Z.of_nat (S k) - 1) with (Z.of_nat k) by lia.
    apply IH; [lia|]. intros t Ht. apply Hsp. lia.
Qed.

Lemma prev_non_space_found input i j :
  (j < i)%nat -> isspace (char_at input j) = false ->
  (forall k, (j < k < i)%nat -> isspace (char_at input k) = true) ->
  prev_non_space input i = Z.of_nat j.
Proof.
  intros Hji Hj Hsp. unfold prev_non_space.
  replace (Z.of_nat i - 1) with (Z.of_nat (i - 1)) by lia.
  apply prev_non_space_loop; try lia; try assumption.
  intros t Ht. apply Hsp. lia.
Qed.

Lemma prev_non_space_start input i :
  (forall k, (k < i)%nat -> isspace (char_at input k) = true) ->
  prev_non_space input i = -1.
Proof.
  intros Hsp. unfold prev_non_space. destruct i as [|i]; [reflexivity|].
  replace (Z.of_nat (S i) - 1) with (Z.of_nat i) by lia.
  apply prev_non_space_none; [lia|]. intros t Ht. apply Hsp. lia.
Qed.

(** The rule for '-' as a function of the previous character. *)
Lemma minus_rule (prev : ascii) :
  prev <> ")"%char ->
  ((if is_char prev "!" then false
    else if negb (is_char prev "(") && negb (is_operator prev) then false else true)
   = true
   <-> prev = "("%char \/ is_binary_operator prev = true).
Proof.
  destruct prev as [[] [] [] [] [] [] [] []]; intros Hne; vm_compute;
    split; intros H; try discriminate H; try (right; reflexivity);
    try (left; reflexivity); try reflexivity;
    try (destruct H as [H|H]; discriminate H);
    exfalso; apply Hne; reflexivity.
Qed.

Lemma plus_rule (prev : ascii) :
  (if negb (is_char prev "(") then false else true) = true <-> prev = "("%char.
Proof.
  unfold is_char. destruct (Ascii.eqb_spec prev "(") as [->|Hne]; simpl.
  - tauto.
  - split; [discriminate|contradiction].
Qed.

(** C5, as the code behaves.  At a '+' or '-' in position [i], with [j] the
    last position before [i] that holds no white space: a '-' whose previous
    character is not ')' is unary exactly when that character is '(' or a
    binary operator (so not after '!' or a digit); a '+' is unary exactly
    when it is '('.  With only white space before [i] both are unary.  A
    chained unary minus is accepted: the validator accepts "--5", and the
    line evaluates to 5. *)
Theorem unary_sign_classification (input : list ascii) (i j : nat) :
  (j < i)%nat -> isspace (char_at input j) = false ->
  (forall k, (j < k < i)%nat -> isspace (char_at input k) = true) ->
  (is_char (char_at input i) "-" = true -> char_at input j <> ")"%char ->
     (is_unary input i = true
      <-> char_at input j = "("%char \/ is_binary_operator (char_at input j) = true))
  /\ (is_char (char_at input i) "-" = false ->
     (is_unary input i = true <-> char_at input j = "("%char))
  /\ (forall input' i', (forall k, (k < i')%nat -> isspace (char_at input' k) = true) ->
        is_unary input' i' = true)
  /\ validate_expression_syntax (lit "--5") = true
  /\ run BASE_DEC "--5" = Done (BASE_DEC, ["5"%string]).
Proof.
  intros Hji Hj Hsp.
  pose proof (prev_non_space_found input i j Hji Hj Hsp) as Hprev.
  split; [|split; [|split; [|split; vm_compute; reflexivity]]].
  - intros Hminus Hne. unfold is_unary. rewrite Hprev.
    assert ((0 <=? Z.of_nat j) = true) as -> by (apply Z.leb_le; lia).
    rewrite Nat2Z.id, Hminus. apply minus_rule. exact Hne.
  - intros Hplus. unfold is_unary. rewrite Hprev.
    assert ((0 <=? Z.of_nat j) = true) as -> by (apply Z.leb_le; lia).
    rewrite Nat2Z.id, Hplus. apply plus_rule.
  - intros input' i' Hall. unfold is_unary.
    rewrite (prev_non_space_start input' i' Hall). reflexivity.
Qed.

(** The rule at the '-' of "2*-3". *)
Lemma unary_sign_classification_witness :
  (1 < 2)%nat /\ isspace (char_at (lit "2*-3") 1) = false
  /\ (is_unary (lit "2*-3") 2 = true
      <-> char_at (lit "2*-3") 1 = "("%char
          \/ is_binary_operator (char_at (lit "2*-3") 1) = true).
Proof.
  assert (1 < 2)%nat as H1 by lia.
  assert (isspace (char_at (lit "2*-3") 1) = false) as H2 by reflexivity.
  assert (forall k, (1 < k < 2)%nat -> isspace (char_at (lit "2*-3") k) = true) as H3
    by (intros k Hk; lia).
  split; [exact H1|]. split; [exact H2|].
  apply (proj1 (unary_sign_classification (lit "2*-3") 2 1 H1 H2 H3)).
  - reflexivity.
  - discriminate.
Defined.

(** C5, as stated, fails: the validator does not reject the chained unary
    minus of "--5". *)
Lemma chained_unary_minus_accepted :
  validate_expression_syntax (lit "--5") <> false.
Proof. vm_compute. discriminate. Qed.

(** * Which failures print *)

Lemma told_same w0 {A : Type} (r : result A) : told w0 (r, w0).
Proof. left. reflexivity. Qed.

Lemma told_abort w0 {A B : Type} (r : result A) w :
  (forall a, r <> Done a) -> told w0 (r, w) -> told w0 (@abort A B r, w).
Proof.
  intros Hnd [H|[H1 H2]]; [left; exact H|right]. simpl in *. subst r.
  split; [reflexivity|exact H2].
Qed.

Lemma apply_operation_told nums op w : told w (apply_operation nums op w).
Proof.
  unfold apply_operation.
  destruct nums as [|right_ nums]; [apply told_same|].
  destruct (is_char op "!").
  { destruct right_ as [r|]; [|apply told_same].
    destruct (sign r =? -1); [right; split; [reflexivity|right; reflexivity]|].
    destruct (1 <? length r)%nat; [apply told_same|].
    destruct (bi_fact (digit r O)); apply told_same. }
  destruct (is_char op "m"); [apply told_same|].
  destruct nums as [|left_ nums]; [apply told_same|].
  destruct (is_char op "/" || is_char op "%").
  { destruct right_ as [r|]; [|apply told_same].
    destruct (sign r =? 0); [right; split; [reflexivity|left; reflexivity]|].
    destruct (is_char op "/"); apply told_same. }
  repeat (match goal with |- context [if ?c then _ else _] => destruct c end;
          try apply told_same).
Qed.

(** An operation that succeeds leaves the flag and the output alone. *)
Lemma apply_operation_done nums op w nums' w' :
  apply_operation nums op w = (Done nums', w') -> w' = w.
Proof.
  intros H. pose proof (apply_operation_told nums op w) as [Ht|[Ht _]];
    rewrite H in Ht; simpl in Ht; [exact Ht|discriminate Ht].
Qed.

Lemma drain_until_paren_told : forall ops nums w,
  told w (drain_until_paren ops nums w).
Proof.
  induction ops as [|op ops IH]; intros nums w; simpl; [apply told_same|].
  destruct (is_char op "("); [apply told_same|].
  pose proof (apply_operation_told nums op w) as Ht.
  destruct (apply_operation nums op w) as [[nums'| | |] w'] eqn:E.
  - apply apply_operation_done in E. subst w'. apply IH.
  - apply (told_abort w Failed w'); [discriminate|exact Ht].
  - apply (told_abort w NullDeref w'); [discriminate|exact Ht].
  - apply (told_abort w Hangs w'); [discriminate|exact Ht].
Qed.

Lemma drain_higher_told curr_op : forall ops nums w,
  told w (drain_higher curr_op ops nums w).
Proof.
  induction ops as [|op ops IH]; intros nums w; simpl; [apply told_same|].
  destruct (get_priority curr_op <=? get_priority op); [|apply told_same].
  destruct (is_char curr_op "m"); [apply told_same|].
  destruct (is_char curr_op "^" && is_char op "^"); [apply told_same|].
  destruct (is_char curr_op "^" && (get_priority op =? get_priority curr_op));
    [apply told_same|].
  pose proof (apply_operation_told nums op w) as Ht.
  destruct (apply_operation nums op w) as [[nums'| | |] w'] eqn:E.
  - apply apply_operation_done in E. subst w'. apply IH.
  - apply (told_abort w Failed w'); [discriminate|exact Ht].
  - apply (told_abort w NullDeref w'); [discriminate|exact Ht].
  - apply (told_abort w Hangs w'); [discriminate|exact Ht].
Qed.

Lemma drain_all_told : forall ops nums w, told w (drain_all ops nums w).
Proof.
  induction ops as [|op ops IH]; intros nums w; simpl; [apply told_same|].
  pose proof (apply_operation_told nums op w) as Ht.
  destruct (apply_operation nums op w) as [[nums'| | |] w'] eqn:E.
  - apply apply_operation_done in E. subst w'. apply IH.
  - apply (told_abort w Failed w'); [discriminate|exact Ht].
  - apply (told_abort w NullDeref w'); [discriminate|exact Ht].
  - apply (told_abort w Hangs w'); [discriminate|exact Ht].
Qed.

Lemma told_done_world w0 {A : Type} (a : A) w : told w0 (Done a, w) -> w = w0.
Proof. intros [H|[H _]]; [exact H|discriminate H]. Qed.

(** One round of the evaluator: it goes on with the flag and the output
    untouched, or returns as [told] says. *)
Lemma eval_step_told input i can_be_sign nums ops w :
  match eval_step input (i, can_be_sign, nums, ops, w) with
  | Next (_, _, _, _, w') => w' = w
  | Break (_, _, _, _, w') => w' = w
  | Ret r => told w r
  end.
Proof.
  unfold eval_step.
  destruct (is_char (char_at input i) NUL); [reflexivity|].
  destruct (isspace (char_at input i)); [reflexivity|].
  destruct (isdigit (char_at input i)); [reflexivity|].
  destruct (is_char (char_at input i) "("); [reflexivity|].
  destruct (is_char (char_at input i) ")").
  { pose proof (drain_until_paren_told ops nums w) as Ht.
    destruct (drain_until_paren ops nums w) as [[[nums' ops']| | |] w'].
    - apply told_done_world in Ht. exact Ht.
    - apply (told_abort w (@Failed (num_stack * list ascii)) w'); [discriminate|exact Ht].
    - apply (told_abort w (@NullDeref (num_stack * list ascii)) w'); [discriminate|exact Ht].
    - apply (told_abort w (@Hangs (num_stack * list ascii)) w'); [discriminate|exact Ht]. }
  match goal with |- context [if ?c then _ else Next _] => destruct c end;
    [|reflexivity].
  destruct (can_be_sign && is_char (char_at input i) "+"); [reflexivity|].
  destruct (can_be_sign && negb (is_char (char_at input i) "-")); [apply told_same|].
  set (curr_op := if can_be_sign then "m"%char else char_at input i).
  pose proof (drain_higher_told curr_op ops nums w) as Ht.
  destruct (drain_higher curr_op ops nums w) as [[[nums' ops']| | |] w'].
  - apply told_done_world in Ht. exact Ht.
  - apply (told_abort w (@Failed (num_stack * list ascii)) w'); [discriminate|exact Ht].
  - apply (told_abort w (@NullDeref (num_stack * list ascii)) w'); [discriminate|exact Ht].
  - apply (told_abort w (@Hangs (num_stack * list ascii)) w'); [discriminate|exact Ht].
Qed.

Lemma eval_loop_told input w0 : forall fuel i can_be_sign nums ops,
  match run_loop fuel (eval_step input) (i, can_be_sign, nums, ops, w0) with
  | Next (_, _, _, _, w') => w' = w0
  | Break (_, _, _, _, w') => w' = w0
  | Ret r => told w0 r
  end.
Proof.
  induction fuel as [|fuel IH]; intros i cbs nums ops; [reflexivity|].
  cbn [run_loop].
  pose proof (eval_step_told input i cbs nums ops w0) as Hs.
  destruct (eval_step input (i, cbs, nums, ops, w0))
    as [[[[[i' cbs'] nums'] ops'] w']|[[[[i' cbs'] nums'] ops'] w']|r].
  - subst w'. apply IH.
  - exact Hs.
  - exact Hs.
Qed.

(** [eval_expression] sets the flag only together with the failure return
    and one of the two diagnostics. *)
Lemma eval_expression_told input w0 : told w0 (eval_expression input w0).
Proof.
  unfold eval_expression.
  destruct (negb (validate_expression_syntax input)); [apply told_same|].
  pose proof (eval_loop_told input w0 (S (strlen input)) O true [] []) as Hl.
  destruct (run_loop _ _ _)
    as [[[[[i' cbs'] nums'] ops'] w']|[[[[i' cbs'] nums'] ops'] w']|r].
  - subst w'. apply told_same.
  - subst w'. pose proof (drain_all_told ops' nums' w0) as Ht.
    destruct (drain_all ops' nums' w0) as [[nums''| | |] w''].
    + apply told_done_world in Ht. subst w''.
      destruct nums'' as [|[v|] rest]; apply told_same.
    + apply (told_abort w0 (@Failed num_stack) w''); [discriminate|exact Ht].
    + apply (told_abort w0 (@NullDeref num_stack) w''); [discriminate|exact Ht].
    + apply (told_abort w0 (@Hangs num_stack) w''); [discriminate|exact Ht].
  - exact Hl.
Qed.

Lemma print_error_changes msg w : print_error msg w <> w.
Proof.
  intros H. apply (f_equal (fun x => Datatypes.length (stdout x))) in H.
  simpl in H. rewrite length_app in H. simpl in H. lia.
Qed.

Lemma is_char_eq c x : is_char c x = true -> c = x.
Proof. apply Ascii.eqb_eq. Qed.

(** The only two places where [apply_operation] touches the flag. *)
Lemma apply_operation_prints nums op w r w' :
  apply_operation nums op w = (r, w') -> w' <> w ->
  r = Failed
  /\ ((exists x rest, nums = Some x :: rest /\ op = "!"%char /\ sign x = -1
                      /\ w' = print_error negative_factorial w)
      \/ (exists x left_ rest, nums = Some x :: left_ :: rest
                      /\ (op = "/"%char \/ op = "%"%char) /\ sign x = 0
                      /\ w' = print_error division_by_zero w)).
Proof.
  unfold apply_operation. intros H Hw.
  assert (Hsame : forall r0 : result num_stack, (r0, w) = (r, w') -> False).
  { intros r0 E. apply Hw. injection E as _ E. symmetry. exact E. }
  destruct nums as [|right_ nums]; [destruct (Hsame _ H)|].
  destruct (is_char op "!") eqn:Eb.
  { destruct right_ as [x|]; [|destruct (Hsame _ H)].
    destruct (sign x =? -1) eqn:Es.
    - injection H as <- <-. split; [reflexivity|left].
      exists x, nums. apply is_char_eq in Eb. apply Z.eqb_eq in Es.
      repeat split; assumption.
    - destruct (1 <? length x)%nat; [destruct (Hsame _ H)|].
      destruct (bi_fact (digit x O)); destruct (Hsame _ H). }
  destruct (is_char op "m"); [destruct (Hsame _ H)|].
  destruct nums as [|left_ nums]; [destruct (Hsame _ H)|].
  destruct (is_char op "/" || is_char op "%") eqn:Ed.
  { destruct right_ as [x|]; [|destruct (Hsame _ H)].
    destruct (sign x =? 0) eqn:Es.
    - injection H as <- <-. split; [reflexivity|right].
      exists x, left_, nums. apply Z.eqb_eq in Es.
      apply orb_true_iff in Ed.
      repeat split; try assumption.
      destruct Ed as [Ed|Ed]; apply is_char_eq in Ed; [left|right]; exact Ed.
    - destruct (is_char op "/"); destruct (Hsame _ H). }
  repeat (match type of H with context [if ?c then _ else _] => destruct c end;
          try (destruct (Hsame _ H))).
Qed.

(** C9: the evaluator prints a diagnostic and sets [error_already_printed]
    for exactly two failures, both returning the failure value: a factorial
    of a negative operand ("Input of factorial must not be negative!") and a
    division or modulo by zero ("Division by zero!").  Every other way an
    evaluation ends leaves the flag false and the output empty; in particular
    a factorial of an operand longer than one limb fails without a message.
    The shell then prints "Syntax error!" for a failure exactly when the flag
    is false. *)
Theorem diagnostics_for_exactly_two_failures :
  (forall x rest w, sign x = -1 ->
     apply_operation (Some x :: rest) "!" w
     = (Failed, print_error negative_factorial w))
  /\ (forall op x left_ rest w, op = "/"%char \/ op = "%"%char -> sign x = 0 ->
     apply_operation (Some x :: left_ :: rest) op w
     = (Failed, print_error division_by_zero w))
  /\ (forall nums op w r w', apply_operation nums op w = (r, w') -> w' <> w ->
     r = Failed
     /\ ((exists x rest, nums = Some x :: rest /\ op = "!"%char /\ sign x = -1
                         /\ w' = print_error negative_factorial w)
         \/ (exists x left_ rest, nums = Some x :: left_ :: rest
                         /\ (op = "/"%char \/ op = "%"%char) /\ sign x = 0
                         /\ w' = print_error division_by_zero w)))
  /\ (forall x rest w, sign x <> -1 -> (1 < length x)%nat ->
     apply_operation (Some x :: rest) "!" w = (Failed, w))
  /\ (forall input base res w, eval_expression input quiet = (res, w) ->
     (w = quiet
      /\ (res = Failed ->
          report_result base (res, w) = Done (base, ["Syntax error!"%string])))
     \/ (res = Failed /\ w = mkWorld true [division_by_zero]
         /\ report_result base (res, w) = Done (base, [division_by_zero]))
     \/ (res = Failed /\ w = mkWorld true [negative_factorial]
         /\ report_result base (res, w) = Done (base, [negative_factorial])))
  /\ run BASE_DEC "5 / 0" = Done (BASE_DEC, [division_by_zero])
  /\ run BASE_DEC "5 % 0" = Done (BASE_DEC, [division_by_zero])
  /\ run BASE_DEC "(-3)!" = Done (BASE_DEC, [negative_factorial])
  /\ run BASE_DEC "4294967296!" = Done (BASE_DEC, ["Syntax error!"%string]).
Proof.
  split; [|split; [|split; [|split; [|split]]]].
  - intros x rest w Hs. unfold apply_operation. simpl is_char.
    apply Z.eqb_eq in Hs. rewrite Hs. reflexivity.
  - intros op x left_ rest w Hop Hs. apply Z.eqb_eq in Hs.
    destruct Hop as [-> | ->]; unfold apply_operation; simpl is_char;
      simpl orb; cbv iota; rewrite Hs; reflexivity.
  - exact apply_operation_prints.
  - intros x rest w Hs Hl. unfold apply_operation. simpl is_char.
    apply Z.eqb_neq in Hs. rewrite Hs.
    apply Nat.ltb_lt in Hl. rewrite Hl. reflexivity.
  - intros input base res w E.
    pose proof (eval_expression_told input quiet) as Ht. rewrite E in Ht.
    destruct Ht as [Ht|[Hf [Ht|Ht]]]; simpl in *.
    + left. subst w. split; [reflexivity|]. intros ->. reflexivity.
    + right. left. subst res w. repeat split.
    + right. right. subst res w. repeat split.
  - repeat split; vm_compute; reflexivity.
Qed.

Lemma diagnostics_for_exactly_two_failures_witness :
  sign minus_five = -1
  /\ apply_operation [Some minus_five] "!" quiet
     = (Failed, print_error negative_factorial quiet).
Proof.
  split; [reflexivity|].
  apply (proj1 diagnostics_for_exactly_two_failures minus_five [] quiet).
  reflexivity.
Defined.


(** * Where the code leaves the specification *)

Lemma sign_of_value n : normalized n -> sign n = Z.sgn (value n).
Proof.
  intros Hn. pose proof (normalized_signs n Hn) as Hs.
  pose proof (normalized_sign_zero n Hn) as Hz.
  pose proof (magnitude_bound n (proj1 Hn)) as Hm. unfold value.
  destruct Hs as [E|[E|E]]; rewrite E.
  - reflexivity.
  - assert (magnitude n <> 0) by (intros M; apply Hz in M; lia). lia.
  - assert (magnitude n <> 0) by (intros M; apply Hz in M; lia). lia.
Qed.

(** C8: the base cases of [bi_pow] as the code has them.  A zero exponent
    gives 1, a zero base with a positive exponent gives 0 and a negative
    exponent gives 0, as the specification says; but a base of -1 with a
    positive exponent gives +1 whatever the parity of the exponent, because
    the "-1" of the odd branch goes through [bi_from_dec], which skips the
    minus sign.  So pow(-1, 3) is 1 and the shell prints 1 for "(-1)^3". *)
Theorem pow_of_minus_one_is_always_one :
  (forall x y, normalized y -> value y = 0 -> bi_pow x y = Some (small 1 1))
  /\ (forall x y, normalized x -> normalized y -> value x = 0 -> 0 < value y ->
        bi_pow x y = Some zero_int)
  /\ (forall x y, normalized y -> value y < 0 -> bi_pow x y = Some zero_int)
  /\ (forall x y, normalized x -> normalized y -> value x = -1 -> 0 < value y ->
        bi_pow x y = Some (small 1 1))
  /\ value (small (-1) 1) = -1 /\ value (small 1 3) = 3
  /\ value (small 1 1) = 1
  /\ bi_pow (small (-1) 1) (small 1 3) = Some (small 1 1)
  /\ run BASE_DEC "(-1)^3" = Done (BASE_DEC, ["1"%string]).
Proof.
  destruct from_dec_literals as (L0 & L1 & L2 & Lm1).
  split; [|split; [|split; [|split]]].
  - intros x y Hy Hv. pose proof (sign_of_value y Hy) as Hs.
    unfold bi_pow. rewrite Hs, Hv. simpl Z.eqb. cbv iota. exact L1.
  - intros x y Hx Hy Hvx Hvy. pose proof (sign_of_value y Hy) as Hsy.
    pose proof (sign_of_value x Hx) as Hsx. unfold bi_pow.
    replace (sign y) with 1 by lia. rewrite Hsx, Hvx. simpl Z.eqb. cbv iota.
    exact L0.
  - intros x y Hy Hv. pose proof (sign_of_value y Hy) as Hsy. unfold bi_pow.
    replace (sign y) with (-1) by lia. simpl Z.eqb. cbv iota.
    destruct (sign x =? 0); exact L0.
  - intros x y Hx Hy Hvx Hvy. pose proof (sign_of_value y Hy) as Hsy.
    pose proof (sign_of_value x Hx) as Hsx.
    assert (Hs : sign x = -1) by lia.
    assert (Hm : magnitude x = 1) by (unfold value in Hvx; lia).
    unfold bi_pow. replace (sign y) with 1 by lia. rewrite Hs.
    simpl Z.eqb. cbv iota. rewrite L1, L2, Lm1.
    rewrite (bi_compare_abs_spec x (small 1 1)).
    + rewrite Hm. change (magnitude (small 1 1)) with 1. simpl Z.eqb. cbv iota.
      destruct (bi_mod y (small 1 2)) as [m|]; [destruct (sign m =? 0)|];
        reflexivity.
    + apply Hx.
    + apply normalized_one.
    + apply normalized_trimmed, Hx.
    + apply normalized_trimmed, normalized_one.
  - repeat split; vm_compute; reflexivity.
Qed.

Lemma pow_of_minus_one_is_always_one_witness :
  value (small (-1) 1) = -1 /\ 0 < value (small 1 3)
  /\ bi_pow (small (-1) 1) (small 1 3) = Some (small 1 1).
Proof.
  split; [reflexivity|]. split; [reflexivity|].
  apply (proj1 (proj2 (proj2 (proj2 pow_of_minus_one_is_always_one)))).
  - apply normalized_small; [right; reflexivity|rewrite pow32; lia].
  - apply normalized_small; [left; reflexivity|rewrite pow32; lia].
  - reflexivity.
  - reflexivity.
Defined.

(** C2: the round trip through [bi_to_hex] fails at 2^31.  The number is
    normalized and positive, [bi_to_hex] prints it as "0x80000000" (no
    leading zero is added when the first digit already opens the buffer),
    and [bi_from_hex] reads those digits back as -2^31.  The number
    -(2^31 + 1) is printed as "0x7fffffff" and as "0b1", which read back as
    2^31 - 1 and as -1. *)
Theorem hex_round_trip_fails_at_2_pow_31 :
  normalized (small 1 2147483648)
  /\ value (small 1 2147483648) = 2 ^ 31
  /\ text (bi_to_hex (small 1 2147483648)) = "0x80000000"%string
  /\ option_map value (bi_from_hex (drop 2 (bi_to_hex (small 1 2147483648))))
     = Some (- 2 ^ 31)
  /\ normalized (small (-1) 2147483649)
  /\ value (small (-1) 2147483649) = - (2 ^ 31 + 1)
  /\ text (bi_to_hex (small (-1) 2147483649)) = "0x7fffffff"%string
  /\ option_map value (bi_from_hex (drop 2 (bi_to_hex (small (-1) 2147483649))))
     = Some (2 ^ 31 - 1)
  /\ text (bi_to_bin (small (-1) 2147483649)) = "0b1"%string
  /\ option_map value (bi_from_bin (drop 2 (bi_to_bin (small (-1) 2147483649))))
     = Some (-1)
  /\ run BASE_HEX "2147483648" = Done (BASE_HEX, ["0x80000000"%string])
  /\ run BASE_DEC "0x80000000" = Done (BASE_DEC, ["-2147483648"%string]).
Proof.
  split; [apply normalized_small; [left; reflexivity|rewrite pow32; lia]|].
  split; [reflexivity|]. split; [vm_compute; reflexivity|].
  split; [vm_compute; reflexivity|].
  split; [apply normalized_small; [right; reflexivity|rewrite pow32; lia]|].
  repeat split; vm_compute; reflexivity.
Qed.

(** C6: the validator accepts "((1)-)", and the evaluator then fails on it
    with none of the three named failures: the minus after ")" is taken as
    unary by the validator and as binary by the evaluator, which reaches
    [apply_operation] for "-" with a single operand on the stack.  The call
    returns the failure value without a diagnostic and the shell prints
    "Syntax error!".  The validator also accepts "(1)-!", where the
    evaluator fails on a "!" in sign position. *)
Theorem accepted_input_underflows_operand_stack :
  validate_expression_syntax (lit "((1)-)") = true
  /\ run_loop 5 (eval_step (lit "((1)-)")) (O, true, [], [], quiet)
     = Next (5%nat, true, [Some (small 1 1)], ["-"%char; "("%char], quiet)
  /\ apply_operation [Some (small 1 1)] "-" quiet = (Failed, quiet)
  /\ eval_expression (lit "((1)-)") quiet = (Failed, quiet)
  /\ run BASE_DEC "((1)-)" = Done (BASE_DEC, ["Syntax error!"%string])
  /\ validate_expression_syntax (lit "(1)-!") = true
  /\ eval_expression (lit "(1)-!") quiet = (Failed, quiet).
Proof. repeat split; vm_compute; reflexivity. Qed.

(** * Concrete runs *)

(** C3, as the code behaves: in hexadecimal mode 255 is printed with a
    restored leading zero, [0x0ff]; -1 is printed as the single sign nibble
    [0xf]. *)
Theorem hex_mode_prints_255_and_minus_1 :
  run BASE_HEX "255" = Done (BASE_HEX, ["0x0ff"%string])
  /\ run BASE_HEX "-1" = Done (BASE_HEX, ["0xf"%string]).
Proof. split; vm_compute; reflexivity. Qed.

(** C3, as stated, fails: in hexadecimal mode the line 255 does not print
    [0xff]. *)
Lemma hex_mode_255_is_not_0xff :
  run BASE_HEX "255" <> Done (BASE_HEX, ["0xff"%string]).
Proof. vm_compute. discriminate. Qed.


(** * The parser loops reach the end of the input *)

Lemma char_at_strlen input : char_at input (strlen input) = NUL.
Proof.
  induction input as [|c s IH]; [reflexivity|]. simpl.
  destruct (Ascii.eqb c NUL) eqn:E.
  - apply Ascii.eqb_eq in E. exact E.
  - exact IH.
Qed.

Lemma before_strlen input i :
  (i <= strlen input)%nat -> is_char (char_at input i) NUL = false ->
  (i < strlen input)%nat.
Proof.
  intros Hi Hc. destruct (Nat.eq_dec i (strlen input)) as [->|]; [|lia].
  rewrite char_at_strlen in Hc. discriminate Hc.
Qed.


Lemma scan_progress pred input i :
  pred NUL = false -> (i <= strlen input)%nat ->
  pred (char_at input i) = true ->
  (i < scan pred input i <= strlen input)%nat.
Proof.
  intros Hp Hi Hc.
  assert (Hlt : (i < strlen input)%nat).
  { destruct (Nat.eq_dec i (strlen input)) as [->|]; [|lia].
    rewrite char_at_strlen, Hp in Hc. discriminate Hc. }
  pose proof (strlen_le input) as Hle. unfold scan.
  destruct (Datatypes.length input) as [|fuel] eqn:El; [lia|].
  simpl. rewrite Hc.
  apply (while_loop_preserves (fun k => (i < k <= strlen input)%nat)); [|lia].
  intros k Hk Hck. simpl in *.
  destruct (Nat.eq_dec k (strlen input)) as [->|]; [|lia].
  rewrite char_at_strlen, Hp in Hck. discriminate Hck.
Qed.



Lemma is_number_char_nul : is_number_char NUL = false.
Proof. reflexivity. Qed.





(** * The engine as integer arithmetic *)

(** X1: on normalized numbers [bi_add], [bi_sub] and [bi_mul] compute the
    sum, the difference and the product of the integers their arguments
    stand for. *)
Theorem signed_arithmetic_values (x y : BigInt) :
  normalized x -> normalized y ->
  value (bi_add x y) = value x + value y
  /\ value (bi_sub x y) = value x - value y
  /\ value (bi_mul x y) = value x * value y.
Proof.
  intros Hx Hy. split; [|split].
  - apply (bi_add_spec x y Hx Hy).
  - apply (bi_sub_spec x y Hx Hy).
  - apply (bi_mul_spec x y Hx Hy).
Qed.

Lemma signed_arithmetic_values_witness :
  value (bi_add (small (-1) 7) (small 1 2)) = -7 + 2
  /\ value (bi_sub (small (-1) 7) (small 1 2)) = -7 - 2
  /\ value (bi_mul (small (-1) 7) (small 1 2)) = -7 * 2.
Proof.
  apply (signed_arithmetic_values (small (-1) 7) (small 1 2)).
  - apply normalized_small; [right; reflexivity|rewrite pow32; lia].
  - apply normalized_small; [left; reflexivity|rewrite pow32; lia].
Defined.

(** X2: [bi_div] and [bi_mod] by a non-zero divisor return the quotient
    truncated toward zero and the remainder with the sign of the dividend. *)
Theorem division_truncates_toward_zero (x y : BigInt) :
  normalized x -> normalized y -> value y <> 0 ->
  exists q m, bi_div x y = Some q /\ bi_mod x y = Some m
              /\ value q = Z.quot (value x) (value y)
              /\ value m = Z.rem (value x) (value y).
Proof.
  intros Hx Hy Hv.
  assert (Hs : sign y <> 0) by (unfold value in Hv; lia).
  destruct (bi_div_spec x y Hx Hy Hs) as (q & Hq & _ & Hvq).
  destruct (bi_mod_spec x y Hx Hy Hs) as (m & Hm & _ & Hvm & _).
  exists q, m. repeat split; assumption.
Qed.

Lemma division_truncates_toward_zero_witness :
  exists q m, bi_div (small (-1) 7) (small 1 2) = Some q
              /\ bi_mod (small (-1) 7) (small 1 2) = Some m
              /\ value q = Z.quot (value (small (-1) 7)) (value (small 1 2))
              /\ value m = Z.rem (value (small (-1) 7)) (value (small 1 2)).
Proof.
  apply (division_truncates_toward_zero (small (-1) 7) (small 1 2)).
  - apply normalized_small; [right; reflexivity|rewrite pow32; lia].
  - apply normalized_small; [left; reflexivity|rewrite pow32; lia].
  - vm_compute. discriminate.
Defined.

(** X3: the ring laws: x + 0 = x, x + (-x) = 0, x * 0 = 0 and x * 1 = x,
    as equalities of sign, length and limbs. *)
Theorem ring_laws (x : BigInt) :
  normalized x ->
  same_int (bi_add x zero_int) x
  /\ same_int (bi_add x (bi_negate x)) zero_int
  /\ same_int (bi_mul x zero_int) zero_int
  /\ same_int (bi_mul x (small 1 1)) x.
Proof.
  intros Hx.
  pose proof (normalized_negate x Hx) as Hn.
  pose proof (bi_add_spec x zero_int Hx normalized_zero_int) as [N1 V1].
  pose proof (bi_add_spec x (bi_negate x) Hx Hn) as [N2 V2].
  pose proof (bi_mul_spec x zero_int Hx normalized_zero_int) as [N3 V3].
  pose proof (bi_mul_spec x (small 1 1) Hx normalized_one) as [N4 V4].
  rewrite value_negate in V2 by apply Hx.
  change (value zero_int) with 0 in *. change (value (small 1 1)) with 1 in *.
  split; [|split; [|split]]; apply same_int_of_normalized;
    try assumption; try apply normalized_zero_int;
    change (value zero_int) with 0; lia.
Qed.

Lemma ring_laws_witness :
  same_int (bi_add minus_five zero_int) minus_five
  /\ same_int (bi_add minus_five (bi_negate minus_five)) zero_int
  /\ same_int (bi_mul minus_five zero_int) zero_int
  /\ same_int (bi_mul minus_five (small 1 1)) minus_five.
Proof.
  apply (ring_laws minus_five).
  apply (normalized_small (-1) 5); [right; reflexivity|rewrite pow32; lia].
Defined.

(** X4: [bi_compare_abs] returns the sign of the difference of the two
    magnitudes. *)
Theorem compare_abs_is_sign_of_difference (a b : BigInt) :
  normalized a -> normalized b ->
  bi_compare_abs a b = Z.sgn (Z.abs (value a) - Z.abs (value b)).
Proof.
  intros Ha Hb.
  rewrite bi_compare_abs_spec;
    [|apply Ha|apply Hb|apply normalized_trimmed, Ha|apply normalized_trimmed, Hb].
  pose proof (magnitude_bound a (proj1 Ha)) as Ma.
  pose proof (magnitude_bound b (proj1 Hb)) as Mb.
  pose proof (sign_of_value a Ha) as Sa.
  pose proof (sign_of_value b Hb) as Sb.
  pose proof (normalized_sign_zero a Ha) as Za.
  pose proof (normalized_sign_zero b Hb) as Zb.
  assert (Z.abs (value a) = magnitude a) as ->.
  { unfold value in *. destruct (normalized_signs a Ha) as [E|[E|E]];
      rewrite E in *; [|lia|lia]. assert (magnitude a = 0) by tauto. lia. }
  assert (Z.abs (value b) = magnitude b) as ->.
  { unfold value in *. destruct (normalized_signs b Hb) as [E|[E|E]];
      rewrite E in *; [|lia|lia]. assert (magnitude b = 0) by tauto. lia. }
  reflexivity.
Qed.

Lemma compare_abs_is_sign_of_difference_witness :
  bi_compare_abs (small (-1) 7) (small 1 2)
  = Z.sgn (Z.abs (value (small (-1) 7)) - Z.abs (value (small 1 2))).
Proof.
  apply (compare_abs_is_sign_of_difference (small (-1) 7) (small 1 2)).
  - apply normalized_small; [right; reflexivity|rewrite pow32; lia].
  - apply normalized_small; [left; reflexivity|rewrite pow32; lia].
Defined.

(** X5: [bi_to_dec] writes a minus sign for a negative number and then
    decimal digits, at least one, whose value is the magnitude. *)
Theorem to_decimal_digits (x : BigInt) :
  normalized x -> value x <> 0 ->
  exists ds, bi_to_dec x = (if value x <? 0 then ["-"%char] else []) ++ ds
             /\ forallb isdigit ds = true /\ ds <> []
             /\ dec_value ds = Z.abs (value x).
Proof.
  intros Hx Hv.
  assert (Hs : sign x <> 0) by (unfold value in Hv; lia).
  destruct (bi_to_dec_spec x Hx Hs) as (ds & Hds & Hd & Hne & Hval).
  pose proof (magnitude_bound x (proj1 Hx)) as Mx.
  pose proof (sign_of_value x Hx) as Sx.
  exists ds. split; [|split; [exact Hd|split; [exact Hne|]]].
  - rewrite Hds. f_equal.
    destruct (sign x =? -1) eqn:E1; destruct (value x <? 0) eqn:E2;
      try reflexivity; exfalso.
    + apply Z.eqb_eq in E1. apply Z.ltb_ge in E2. lia.
    + apply Z.eqb_neq in E1. apply Z.ltb_lt in E2. lia.
  - rewrite Hval. unfold value in *.
    destruct (normalized_signs x Hx) as [E|[E|E]]; rewrite E in *; lia.
Qed.

Lemma to_decimal_digits_witness :
  exists ds, bi_to_dec minus_five
             = (if value minus_five <? 0 then ["-"%char] else []) ++ ds
             /\ forallb isdigit ds = true /\ ds <> []
             /\ dec_value ds = Z.abs (value minus_five).
Proof.
  apply (to_decimal_digits minus_five).
  - apply (normalized_small (-1) 5); [right; reflexivity|rewrite pow32; lia].
  - vm_compute. discriminate.
Defined.


Lemma factorial_pos n : 0 < factorial n.
Proof. induction n as [|n IH]; [reflexivity|]. cbn [factorial]. nia. Qed.

(** The loop of [bi_fact] multiplies the numbers 2, 3, ..., n into the
    result. *)
Lemma bi_fact_value (n : Z) :
  0 <= n < 2 ^ 32 - 1 ->
  exists r, bi_fact n = Some r /\ normalized r
            /\ value r = factorial (Z.to_nat n).
Proof.
  intros Hn. unfold bi_fact. destruct from_dec_literals as (_ & L1 & _).
  rewrite L1.
  destruct ((n =? 0) || (n =? 1)) eqn:E01.
  { exists (small 1 1). split; [reflexivity|]. split; [apply normalized_one|].
    apply orb_prop in E01 as [E|E]; apply Z.eqb_eq in E; subst n; reflexivity. }
  apply orb_false_elim in E01 as [E0 E1].
  apply Z.eqb_neq in E0, E1.
  assert ((n =? 4294967295) = false) as ->
    by (apply Z.eqb_neq; rewrite pow32 in Hn; lia).
  eexists. split; [reflexivity|].
  set (P := fun (k : nat) (res : BigInt) =>
              normalized res /\ sign res = 1
              /\ magnitude res = factorial (S k)).
  for_rule P.
  { split; [|split; reflexivity].
    change (set_sign 1 (set_digit O 1 bi_create)) with (small 1 1).
    apply normalized_one. }
  { intros k res Hk (Hres & Hs & Hm). unfold P.
    pose proof (normalized_sign_zero res Hres) as Hz.
    destruct (bi_mul_digit_into_spec res (Z.of_nat k + 2) (proj1 Hres))
      as (Hw & Ht & Hm' & Hsg).
    { unfold is_limb. lia. }
    { apply Hz. }
    pose proof (factorial_pos (S k)) as Hpos.
    assert (magnitude res * (Z.of_nat k + 2) <> 0) as Hp by nia.
    apply Z.eqb_neq in Hp as Ep. rewrite Ep in Hsg.
    split; [apply normalized_intro; [exact Hw|exact Ht|lia|lia]|].
    split; [lia|].
    rewrite Hm', Hm. change (factorial (S (S k)))
      with (Z.of_nat (S (S k)) * factorial (S k)). lia. }
  destruct HP as (Hnorm & Hs & Hm). split; [exact Hnorm|].
  unfold value. rewrite Hs, Hm. replace (S (Z.to_nat (n - 1))) with (Z.to_nat n) by lia.
  lia.
Qed.

(** X7: for every argument below 2^32 - 1, [bi_fact] returns the factorial:
    the value 1 for 0 and 1, and the product 2 * 3 * ... * n otherwise. *)
Theorem fact_is_factorial (n : Z) :
  0 <= n < 2 ^ 32 - 1 ->
  exists r, bi_fact n = Some r /\ normalized r
            /\ value r = factorial (Z.to_nat n).
Proof.
  intros Hn. destruct (bi_fact_value n Hn) as (r & Hr & Hnr & Hv).
  exists r. split; [exact Hr|]. split; [exact Hnr|exact Hv].
Qed.

Lemma fact_is_factorial_witness :
  exists r, bi_fact 5 = Some r /\ normalized r
            /\ value r = factorial (Z.to_nat 5).
Proof. apply (fact_is_factorial 5). rewrite pow32. lia. Defined.


(** * Exponentiation by squaring *)

(** The squaring loop multiplies [result] by [current ^ n]. *)
Lemma pow_loop_value : forall fuel result current n,
  normalized result -> normalized current -> normalized n ->
  0 < value n < 2 ^ Z.of_nat fuel ->
  exists r, pow_loop fuel result current n zero_int (small 1 2) = Some r
            /\ normalized r
            /\ value r = value result * value current ^ value n.
Proof.
  induction fuel as [|fuel IH]; intros result current n Hr Hc Hn Hv.
  - simpl in Hv. lia.
  - simpl pow_loop.
    pose proof (sign_of_value n Hn) as Hs.
    pose proof (magnitude_bound n (proj1 Hn)) as Hmb.
    assert (0 < magnitude n) as Hm by (unfold value in *; nia).
    rewrite (compare_abs_zero n Hn).
    assert (Z.sgn (magnitude n) = 1) as -> by (apply Z.sgn_pos; exact Hm).
    simpl Z.ltb. cbv iota.
    assert (sign (small 1 2) <> 0) as H2 by (simpl; lia).
    destruct (bi_mod_spec n (small 1 2) Hn normalized_two H2)
      as (m & -> & Hnm & Hvm & _).
    destruct (bi_div_spec n (small 1 2) Hn normalized_two H2)
      as (n' & -> & Hn' & Hvn').
    change (value (small 1 2)) with 2 in Hvn', Hvm.
    rewrite Z.quot_div_nonneg in Hvn' by lia.
    rewrite Z.rem_mod_nonneg in Hvm by lia.
    pose proof (sign_of_value m Hnm) as Hsm.
    pose proof (Z.div_mod (value n) 2 ltac:(lia)) as Hdm.
    pose proof (Z.mod_pos_bound (value n) 2 ltac:(lia)) as Hmod.
    set (result' := if negb (sign m =? 0) then bi_mul result current else result).
    assert (normalized result'
            /\ value result' = value result * value current ^ (value n mod 2))
      as [Hr' Hvr'].
    { unfold result'. destruct (sign m =? 0) eqn:E; simpl negb; cbv iota.
      - apply Z.eqb_eq in E. split; [exact Hr|].
        assert (value n mod 2 = 0) as -> by lia. simpl. lia.
      - apply Z.eqb_neq in E.
        destruct (bi_mul_spec result current Hr Hc) as [Hmn Hmv].
        split; [exact Hmn|].
        assert (value n mod 2 = 1) as -> by lia. rewrite Hmv, Z.pow_1_r.
        reflexivity. }
    assert (0 <= value n') as Hn'0 by (rewrite Hvn'; apply Z.div_pos; lia).
    pose proof (magnitude_bound n' (proj1 Hn')) as Hmb'.
    rewrite (compare_abs_zero n' Hn').
    destruct (Z.sgn (magnitude n') <=? 0) eqn:E.
    + apply Z.leb_le in E. assert (magnitude n' = 0) as Hz by lia.
      assert (value n' = 0) as Hv0 by (unfold value; rewrite Hz; lia).
      exists result'. split; [reflexivity|]. split; [exact Hr'|].
      rewrite Hvr'. f_equal. f_equal. lia.
    + apply Z.leb_gt in E. assert (0 < magnitude n') as Hm' by lia.
      destruct (bi_mul_spec current current Hc Hc) as [Hsq Hvsq].
      destruct (IH result' (bi_mul current current) n' Hr' Hsq Hn')
        as (r & Er & Hnr & Hvr).
      * replace (Z.of_nat (S fuel)) with (1 + Z.of_nat fuel) in Hv by lia.
        rewrite Z.pow_add_r in Hv by lia. change (2 ^ 1) with 2 in Hv.
        split; [apply value_pos_magnitude; assumption|].
        rewrite Hvn'. apply Z.div_lt_upper_bound; lia.
      * exists r. split; [exact Er|]. split; [exact Hnr|].
        rewrite Hvr, Hvr', Hvsq.
        replace (value current ^ value n)
          with (value current ^ (2 * value n' + value n mod 2))
          by (f_equal; lia).
        rewrite Z.pow_add_r, Z.pow_mul_r by lia.
        rewrite Z.pow_2_r. ring.
Qed.

Lemma bi_pow_value (x y : BigInt) :
  normalized x -> normalized y -> 0 <= value y ->
  (value x = -1 -> Z.even (value y) = true) ->
  exists r, bi_pow x y = Some r /\ normalized r
            /\ value r = value x ^ value y.
Proof.
  intros Hx Hy Hy0 Hm1.
  pose proof (sign_of_value x Hx) as Hsx.
  pose proof (sign_of_value y Hy) as Hsy.
  destruct from_dec_literals as (L0 & L1 & L2 & Lm1).
  unfold bi_pow. rewrite L0, L1, L2, Lm1.
  destruct (sign y =? 0) eqn:Ey0.
  { apply Z.eqb_eq in Ey0. exists (small 1 1).
    split; [reflexivity|]. split; [apply normalized_one|].
    assert (value y = 0) as -> by lia. reflexivity. }
  apply Z.eqb_neq in Ey0. assert (0 < value y) as Hy1 by lia.
  destruct (sign x =? 0) eqn:Ex0.
  { apply Z.eqb_eq in Ex0. exists zero_int.
    split; [reflexivity|]. split; [apply normalized_zero_int|].
    assert (value x = 0) as -> by lia. rewrite Z.pow_0_l by lia. reflexivity. }
  apply Z.eqb_neq in Ex0.
  assert ((sign y =? -1) = false) as -> by (apply Z.eqb_neq; lia).
  pose proof (magnitude_bound x (proj1 Hx)) as Hmx.
  rewrite (bi_compare_abs_spec x (small 1 1));
    [|apply Hx|apply normalized_one|apply normalized_trimmed, Hx
     |apply normalized_trimmed, normalized_one].
  change (magnitude (small 1 1)) with 1.
  destruct (Z.sgn (magnitude x - 1) =? 0) eqn:E1.
  - apply Z.eqb_eq in E1. assert (magnitude x = 1) as Hm by lia.
    exists (small 1 1).
    destruct (sign x =? 1) eqn:Es.
    + apply Z.eqb_eq in Es. split; [reflexivity|]. split; [apply normalized_one|].
      assert (value x = 1) as -> by (unfold value; lia).
      rewrite Z.pow_1_l by lia. reflexivity.
    + apply Z.eqb_neq in Es.
      assert (value x = -1) as Hv by (unfold value in *; lia).
      split; [destruct (bi_mod y (small 1 2)) as [m|];
              [destruct (sign m =? 0)|]; reflexivity|].
      split; [apply normalized_one|]. rewrite Hv.
      specialize (Hm1 Hv). apply Z.even_spec in Hm1 as [k Hk]. rewrite Hk.
      rewrite Z.pow_mul_r by lia. change ((-1) ^ 2) with 1.
      rewrite Z.pow_1_l by lia. reflexivity.
  - destruct (pow_loop_value (32 * length y) (small 1 1) (bi_copy x) (bi_copy y))
      as (r & Er & Hnr & Hvr).
    + apply normalized_one.
    + apply normalized_copy, Hx.
    + apply normalized_copy, Hy.
    + rewrite value_copy by apply Hy. split; [exact Hy1|].
      pose proof (magnitude_bound y (proj1 Hy)) as Hmy.
      replace (Z.of_nat (32 * length y)) with (32 * Z.of_nat (length y)) by lia.
      unfold value in *. nia.
    + exists r. split; [exact Er|]. split; [exact Hnr|].
      rewrite Hvr. rewrite !value_copy by (apply Hx || apply Hy).
      change (value (small 1 1)) with 1. lia.
Qed.

(** X8: [bi_pow] computes the power: for a normalized base and a normalized
    exponent that is not negative, it returns the normalized number
    [base ^ exponent] (with [0 ^ 0 = 1]), provided the base is not -1 or the
    exponent is even. *)
Theorem pow_is_exponentiation (x y : BigInt) :
  normalized x -> normalized y -> 0 <= value y ->
  (value x = -1 -> Z.even (value y) = true) ->
  exists r, bi_pow x y = Some r /\ normalized r
            /\ value r = value x ^ value y.
Proof.
  intros Hx Hy Hy0 Hm1.
  destruct (bi_pow_value x y Hx Hy Hy0 Hm1) as (r & Hr & Hn & Hv).
  exists r. split; [exact Hr|]. split; [exact Hn|exact Hv].
Qed.

Lemma pow_is_exponentiation_witness :
  exists r, bi_pow (small (-1) 3) (small 1 5) = Some r /\ normalized r
            /\ value r = value (small (-1) 3) ^ value (small 1 5).
Proof.
  apply (pow_is_exponentiation (small (-1) 3) (small 1 5)).
  - apply normalized_small; [right; reflexivity|rewrite pow32; lia].
  - apply normalized_small; [left; reflexivity|rewrite pow32; lia].
  - vm_compute. discriminate.
  - vm_compute. discriminate.
Defined.


(** * Bits, negation and the in-place kernels as integer operations *)

Lemma abs_value n : normalized n -> Z.abs (value n) = magnitude n.
Proof.
  intros Hn. pose proof (magnitude_bound n (proj1 Hn)) as Hm.
  pose proof (normalized_sign_zero n Hn) as Hz. unfold value.
  destruct (normalized_signs n Hn) as [E|[E|E]]; rewrite E in *; [|lia|lia].
  assert (magnitude n = 0) by tauto. lia.
Qed.

(** The loop of [bi_bit_length] counts the bits of the top limb exactly. *)
Lemma bi_bit_length_lower n :
  well_formed n -> sign n <> 0 -> digit n (length n - 1) <> 0 ->
  2 ^ (Z.of_nat (bi_bit_length n) - 1) <= magnitude n.
Proof.
  intros Hw Hs Htop. unfold bi_bit_length. apply Z.eqb_neq in Hs. rewrite Hs.
  set (base := ((length n - 1) * 32)%nat).
  set (d := digit n (length n - 1)) in *.
  pose proof (digit_is_limb n (length n - 1) Hw) as Hd. fold d in Hd.
  unfold is_limb in Hd.
  set (P := fun (f : nat) (s : Z * nat) =>
    let '(d', bits) := s in
    0 <= d' < 2 ^ Z.of_nat f /\ (base <= bits)%nat
    /\ d' = d / 2 ^ Z.of_nat (bits - base)
    /\ (bits = base \/ 0 < d / 2 ^ (Z.of_nat (bits - base) - 1))).
  while_fuel_rule P.
  { intros f [d' bits] (Hd' & Hb & Hv & _) Hc. apply Z.ltb_lt in Hc. unfold P.
    rewrite Z.shiftr_div_pow2 by lia. change (2 ^ 1) with 2.
    replace (Z.of_nat (S f)) with (1 + Z.of_nat f) in Hd' by lia.
    rewrite Z.pow_add_r in Hd' by lia. change (2 ^ 1) with 2 in Hd'.
    split; [split; [apply Z.div_pos; lia|apply Z.div_lt_upper_bound; lia]|].
    split; [lia|].
    replace (Z.of_nat (S bits - base)) with (Z.of_nat (bits - base) + 1) by lia.
    split.
    - rewrite Z.pow_add_r by lia. change (2 ^ 1) with 2.
      rewrite <- Z.div_div by (try apply Z.pow_pos_nonneg; lia).
      rewrite <- Hv. reflexivity.
    - right. replace (Z.of_nat (bits - base) + 1 - 1) with (Z.of_nat (bits - base)) by lia.
      lia. }
  { intros [d' bits] (Hd' & _). simpl in Hd'. apply Z.ltb_ge. lia. }
  { unfold P. split; [exact Hd|]. split; [lia|]. rewrite Nat.sub_diag.
    split; [simpl; rewrite Z.div_1_r; reflexivity|left; reflexivity]. }
  destruct (while_loop _ _ _ _) as [d' bits].
  destruct HP as (Hd' & Hb & Hv & Hlast). apply Z.ltb_ge in Hexit.
  assert (d' = 0) as Hd0 by lia. simpl snd.
  destruct Hlast as [->|Hlast].
  { rewrite Nat.sub_diag in Hv. simpl in Hv. rewrite Z.div_1_r in Hv. lia. }
  assert (bits <> base) as Hne.
  { intros ->. rewrite Nat.sub_diag in Hv. simpl in Hv. rewrite Z.div_1_r in Hv. lia. }
  set (k := Z.of_nat (bits - base)) in *.
  assert (1 <= k) as Hk by (unfold k; lia).
  assert (2 ^ (k - 1) <= d) as Hlow.
  { assert (0 < 2 ^ (k - 1)) by (apply Z.pow_pos_nonneg; lia).
    destruct (Z_lt_le_dec d (2 ^ (k - 1))) as [Hlt|]; [|assumption].
    rewrite Z.div_small in Hlast by lia. lia. }
  destruct Hw as [Hlen Hds].
  unfold magnitude, limbs.
  replace (length n) with (S (length n - 1)) at 1 by lia.
  rewrite limbs_value_take_S by (unfold capacity in *; lia).
  fold (digit n (length n - 1)). fold d.
  pose proof (limbs_value_take_le (digits n) (length n - 1) Hds) as Hrest.
  replace (Z.of_nat bits - 1) with (32 * Z.of_nat (length n - 1) + (k - 1))
    by (unfold k, base in *; lia).
  rewrite Z.pow_add_r by lia.
  pose proof (pow32_pos (length n - 1)). nia.
Qed.

(** X9: on a normalized number [bi_get_bit] returns bit [k] of the absolute
    value, [bi_bit_length] is 0 for zero and otherwise the exact number of
    bits of the absolute value, and [bi_shift_left_one] doubles the value. *)
Theorem bit_queries (n : BigInt) (k : nat) :
  normalized n ->
  bi_get_bit n k = Z.b2z (Z.testbit (Z.abs (value n)) (Z.of_nat k))
  /\ (value n = 0 -> bi_bit_length n = O)
  /\ (value n <> 0 ->
      2 ^ (Z.of_nat (bi_bit_length n) - 1) <= Z.abs (value n)
      < 2 ^ Z.of_nat (bi_bit_length n))
  /\ well_formed (bi_shift_left_one n)
  /\ value (bi_shift_left_one n) = 2 * value n.
Proof.
  intros Hn. pose proof (sign_of_value n Hn) as Hs.
  rewrite (abs_value n Hn). split; [|split; [|split; [|split]]].
  - rewrite bi_get_bit_spec by apply Hn.
    rewrite Z.testbit_spec' by lia. reflexivity.
  - intros Hv. unfold bi_bit_length.
    assert (sign n = 0) as -> by lia. reflexivity.
  - intros Hv. assert (sign n <> 0) as Hs0 by lia. split.
    + apply bi_bit_length_lower; [apply Hn|exact Hs0|].
      destruct Hn as [_ [[Hz _]|[_ [_ Ht]]]]; [contradiction|exact Ht].
    + apply bi_bit_length_spec; [apply Hn|exact Hs0].
  - apply (bi_shift_left_one_spec n (proj1 Hn)).
  - destruct (bi_shift_left_one_spec n (proj1 Hn)) as (_ & Hsg & Hm & _).
    unfold value. rewrite Hsg, Hm.
    destruct (sign n =? 0) eqn:E; [apply Z.eqb_eq in E; rewrite E|]; lia.
Qed.

Lemma bit_queries_witness :
  bi_get_bit minus_five 2 = Z.b2z (Z.testbit (Z.abs (value minus_five)) 2)
  /\ (value minus_five <> 0 ->
      2 ^ (Z.of_nat (bi_bit_length minus_five) - 1) <= Z.abs (value minus_five)
      < 2 ^ Z.of_nat (bi_bit_length minus_five)).
Proof.
  assert (Hn : normalized minus_five)
    by (apply (normalized_small (-1) 5); [right; reflexivity|rewrite pow32; lia]).
  split.
  - apply (proj1 (bit_queries minus_five 2 Hn)).
  - apply (proj1 (proj2 (proj2 (bit_queries minus_five 2 Hn)))).
Defined.

(** X10: [bi_negate] returns the normalized opposite number, leaves zero
    alone, and applied twice gives the number back. *)
Theorem negate_is_opposite (x : BigInt) :
  normalized x ->
  normalized (bi_negate x)
  /\ value (bi_negate x) = - value x
  /\ same_int (bi_negate (bi_negate x)) x.
Proof.
  intros Hx. pose proof (normalized_negate x Hx) as Hn.
  split; [exact Hn|]. split; [apply value_negate, Hx|].
  apply same_int_of_normalized; [apply normalized_negate, Hn|exact Hx|].
  rewrite !value_negate by (apply Hn || apply Hx). lia.
Qed.

Lemma negate_is_opposite_witness :
  normalized (bi_negate minus_five)
  /\ value (bi_negate minus_five) = - value minus_five
  /\ same_int (bi_negate (bi_negate minus_five)) minus_five.
Proof.
  apply (negate_is_opposite minus_five).
  apply (normalized_small (-1) 5); [right; reflexivity|rewrite pow32; lia].
Defined.

(** X11: [bi_normalize] restores the normalized form of any number with a
    sign of +1 or -1 whose limbs in use lie in its buffer, whatever zero limbs
    it has on top, and does not change the integer it stands for. *)
Theorem normalize_restores_form (n : BigInt) :
  well_formed n -> sign n = 1 \/ sign n = -1 ->
  normalized (bi_normalize n) /\ value (bi_normalize n) = value n.
Proof.
  intros Hw Hs. split.
  - apply normalized_normalize; [exact Hw|tauto].
  - apply value_normalize, Hw.
Qed.

Lemma normalize_restores_form_witness :
  normalized (bi_normalize (mkBigInt (-1) 3 [5; 0; 0; 0]))
  /\ value (bi_normalize (mkBigInt (-1) 3 [5; 0; 0; 0]))
     = value (mkBigInt (-1) 3 [5; 0; 0; 0]).
Proof.
  apply (normalize_restores_form (mkBigInt (-1) 3 [5; 0; 0; 0])).
  - split; [unfold capacity; simpl; lia|].
    repeat (constructor; [unfold is_limb; lia|]). constructor.
  - right. reflexivity.
Defined.

(** X12: [bi_from_dec] returns [NULL] for the empty string and for no other;
    otherwise it returns the normalized, non-negative number whose decimal
    digits are the digit characters of the string, every other character
    being skipped. *)
Theorem from_decimal_reads_digits (s : list ascii) :
  (strlen s = O -> bi_from_dec s = None)
  /\ (strlen s <> O ->
      exists r, bi_from_dec s = Some r /\ normalized r
                /\ value r = dec_value (take (strlen s) s)).
Proof.
  split.
  - intros H. unfold bi_from_dec. rewrite H. reflexivity.
  - intros H. destruct (bi_from_dec_spec s H) as (r & Hr & Hn & Hsm & Hm).
    exists r. split; [exact Hr|]. split; [exact Hn|].
    rewrite <- Hm. pose proof (normalized_sign_zero r Hn) as Hz.
    unfold value. destruct Hsm as [E|E]; rewrite E; [|lia].
    assert (magnitude r = 0) by tauto. lia.
Qed.

Lemma from_decimal_reads_digits_witness :
  exists r, bi_from_dec (lit "1a2") = Some r /\ normalized r
            /\ value r = dec_value (take (strlen (lit "1a2")) (lit "1a2")).
Proof.
  apply (proj2 (from_decimal_reads_digits (lit "1a2"))). discriminate.
Defined.

(** X13: the single-limb kernels behind the decimal conversions.  On a
    normalized number that is not negative, [bi_mul_digit_into] multiplies by
    a limb, [bi_add_digit_into] adds a limb, and [bi_div10_into] leaves the
    quotient by ten and returns the remainder; the results are normalized. *)
Theorem single_limb_kernels (res : BigInt) (d : Z) :
  normalized res -> 0 <= value res -> 0 <= d < 2 ^ 32 ->
  (normalized (bi_mul_digit_into res d)
   /\ value (bi_mul_digit_into res d) = value res * d)
  /\ (normalized (bi_add_digit_into res d)
      /\ value (bi_add_digit_into res d) = value res + d)
  /\ (normalized (fst (bi_div10_into res))
      /\ value (fst (bi_div10_into res)) = value res / 10
      /\ snd (bi_div10_into res) = value res mod 10).
Proof.
  intros Hn Hv Hd.
  pose proof (sign_of_value res Hn) as Hs.
  pose proof (normalized_sign_zero res Hn) as Hz.
  pose proof (magnitude_bound res (proj1 Hn)) as Hmb.
  assert (Hval : value res = magnitude res).
  { rewrite <- (abs_value res Hn). lia. }
  assert (Hform : forall r, well_formed r -> trimmed r ->
            sign r = (if magnitude r =? 0 then 0 else 1) ->
            normalized r /\ value r = magnitude r).
  { intros r Hw Ht Hsg. destruct (magnitude r =? 0) eqn:E.
    - apply Z.eqb_eq in E. split; [|unfold value; rewrite Hsg, E; lia].
      split; [exact Hw|]. left. split; [exact Hsg|].
      apply (magnitude_zero_iff r Hw Ht). exact E.
    - apply Z.eqb_neq in E. split; [|unfold value; rewrite Hsg; lia].
      apply normalized_intro; [exact Hw|exact Ht|left; exact Hsg|exact E]. }
  split; [|split].
  - destruct (bi_mul_digit_into_spec res d (proj1 Hn) Hd (proj1 Hz))
      as (Hw & Ht & Hm & Hsg).
    destruct (Hform _ Hw Ht) as [N V].
    { rewrite Hsg, Hm. destruct (magnitude res * d =? 0) eqn:E; [reflexivity|].
      apply Z.eqb_neq in E. assert (magnitude res <> 0) by nia.
      assert (value res <> 0) by lia. lia. }
    split; [exact N|]. rewrite V, Hm, Hval. reflexivity.
  - destruct (Z.eq_dec d 0) as [->|Hd0].
    { rewrite bi_add_digit_into_0. split; [exact Hn|lia]. }
    destruct (bi_add_digit_into_spec res d (proj1 Hn) Hd Hd0 (proj1 Hz))
      as (Hw & Ht & Hm & Hsg).
    destruct (Hform _ Hw Ht) as [N V].
    { rewrite Hsg, Hm.
      assert ((magnitude res + d =? 0) = false) as -> by (apply Z.eqb_neq; lia).
      destruct (sign res =? 0) eqn:E; [reflexivity|].
      apply Z.eqb_neq in E. lia. }
    split; [exact N|]. rewrite V, Hm, Hval. reflexivity.
  - destruct (Z.eq_dec (sign res) 0) as [E0|E0].
    { unfold bi_div10_into. rewrite E0. simpl.
      assert (value res = 0) as -> by lia. split; [exact Hn|].
      split; reflexivity. }
    pose proof (bi_div10_into_spec res (proj1 Hn) E0) as H10.
    destruct (bi_div10_into res) as [q rem]. simpl fst. simpl snd.
    destruct H10 as (Hw & Ht & Hrem & Hm & Hsg).
    destruct (Hform _ Hw Ht) as [N V].
    { rewrite Hsg. destruct (magnitude q =? 0); [reflexivity|lia]. }
    split; [exact N|]. rewrite V, Hval, Hm.
    split.
    + apply (Z.div_unique _ _ _ rem); [left; lia|lia].
    + apply (Z.mod_unique _ _ (magnitude q)); [left; lia|lia].
Qed.

Lemma single_limb_kernels_witness :
  (normalized (bi_mul_digit_into (small 1 7) 10)
   /\ value (bi_mul_digit_into (small 1 7) 10) = value (small 1 7) * 10)
  /\ (normalized (bi_add_digit_into (small 1 7) 10)
      /\ value (bi_add_digit_into (small 1 7) 10) = value (small 1 7) + 10)
  /\ (normalized (fst (bi_div10_into (small 1 7)))
      /\ value (fst (bi_div10_into (small 1 7))) = value (small 1 7) / 10
      /\ snd (bi_div10_into (small 1 7)) = value (small 1 7) mod 10).
Proof.
  apply (single_limb_kernels (small 1 7) 10).
  - apply normalized_small; [left; reflexivity|rewrite pow32; lia].
  - vm_compute. discriminate.
  - rewrite pow32. lia.
Defined.


(** * The stacks *)

Section StackFacts.
Context {A : Type} (null : A).







End StackFacts.




(** * The shell's commands *)

Lemma isspace_not_nul c : isspace c = true -> Ascii.eqb c NUL = false.
Proof.
  intros H. destruct (Ascii.eqb c NUL) eqn:E; [|reflexivity].
  apply Ascii.eqb_eq in E. subst c. discriminate H.
Qed.

Lemma strlen_app_spaces ws p :
  forallb isspace ws = true ->
  strlen (ws ++ p) = (Datatypes.length ws + strlen p)%nat.
Proof.
  induction ws as [|c ws IH]; intros H; [reflexivity|].
  simpl in H. apply andb_prop in H as [Hc Hws]. simpl.
  rewrite (isspace_not_nul c Hc), IH by exact Hws. reflexivity.
Qed.

Lemma skip_spaces_app ws p :
  forallb isspace ws = true -> skip_spaces (ws ++ p) = skip_spaces p.
Proof.
  induction ws as [|c ws IH]; intros H; [reflexivity|].
  simpl in H. apply andb_prop in H as [Hc Hws]. simpl. rewrite Hc.
  apply IH, Hws.
Qed.

Lemma cstr_app_spaces ws p :
  forallb isspace ws = true -> cstr (ws ++ p) = ws ++ cstr p.
Proof.
  intros H. unfold cstr. rewrite strlen_app_spaces by exact H.
  rewrite take_app_add'; reflexivity.
Qed.

(** What [process_and_print] works on: the line without its leading white
    space. *)
Lemma shell_line ws p :
  forallb isspace ws = true -> isspace (char_at p 0) = false ->
  (strlen p <> 0)%nat ->
  (strlen (ws ++ p) <? 1)%nat = false
  /\ skip_spaces (cstr (ws ++ p)) = cstr p.
Proof.
  intros Hws Hp Hl. split.
  - apply Nat.ltb_ge. rewrite strlen_app_spaces by exact Hws. lia.
  - rewrite cstr_app_spaces, skip_spaces_app by exact Hws.
    unfold cstr. destruct p as [|c p]; [reflexivity|].
    simpl in *. destruct (Ascii.eqb c NUL); [contradiction|].
    unfold char_at in Hp. simpl in Hp. simpl. rewrite Hp. reflexivity.
Qed.

Lemma cstr_cons c p : Ascii.eqb c NUL = false -> cstr (c :: p) = c :: cstr p.
Proof. intros H. unfold cstr. simpl. rewrite H. reflexivity. Qed.

Ltac shell_word :=
  repeat (rewrite cstr_cons by reflexivity).

(** X15: the shell recognises its base commands by prefix.  A line that
    begins, after any leading white space, with [hex], [bin] or [dec]
    selects that output base and prints the name, whatever follows on the
    line; a line that begins with [out] prints the name of the current base
    and keeps it; none of them is evaluated. *)
Theorem base_commands_match_by_prefix (ws rest : list ascii) (base : Z) :
  forallb isspace ws = true ->
  process_and_print (ws ++ lit "hex" ++ rest) base
  = Done (BASE_HEX, ["hex"%string])
  /\ process_and_print (ws ++ lit "bin" ++ rest) base
     = Done (BASE_BIN, ["bin"%string])
  /\ process_and_print (ws ++ lit "dec" ++ rest) base
     = Done (BASE_DEC, ["dec"%string])
  /\ process_and_print (ws ++ lit "out" ++ rest) base
     = Done (base, [if base =? BASE_HEX then "hex"%string
                    else if base =? BASE_BIN then "bin"%string
                    else "dec"%string]).
Proof.
  intros Hws.
  assert (Hline : forall w, isspace (char_at (lit w ++ rest) 0) = false ->
            (strlen (lit w ++ rest) <> 0)%nat ->
            process_and_print (ws ++ lit w ++ rest) base
            = (let p := cstr (lit w ++ rest) in
               if list_eqb p (lit "quit") then Done (base, ["quit"%string])
               else if starts_with "out" p then
                 Done (base, [if base =? BASE_HEX then "hex"%string
                              else if base =? BASE_BIN then "bin"%string
                              else "dec"%string])
               else if starts_with "hex" p then Done (BASE_HEX, ["hex"%string])
               else if starts_with "bin" p then Done (BASE_BIN, ["bin"%string])
               else if starts_with "dec" p then Done (BASE_DEC, ["dec"%string])
               else if isalpha (char_at p 0)
                       && negb (existsb (strchr "+-*/%^()!") p) then
                 let cmd_name := take (MAX_CMD_NAME - 1) p in
                 let n :=
                   while_loop (Datatypes.length cmd_name)
                     (fun n => (0 <? n)%nat
                               && isspace (char_at cmd_name (n - 1)))
                     Nat.pred (Datatypes.length cmd_name) in
                 Done (base,
                       [("Invalid command " ++ quote ++ text (take n cmd_name)
                         ++ quote ++ "!")%string])
               else report_result base (eval_expression p (mkWorld false [])))).
  { intros w Hsp Hl. unfold process_and_print.
    destruct (shell_line ws (lit w ++ rest) Hws Hsp Hl) as [-> ->].
    reflexivity. }
  assert (Hne : forall c d,
            list_eqb (c :: d) (lit "quit") = true -> c = "q"%char).
  { intros c d H. unfold list_eqb in H. apply andb_prop in H as [_ H].
    simpl in H. apply andb_prop in H as [H _]. apply is_char_eq in H. exact H. }
  split; [|split; [|split]].
  - rewrite (Hline "hex"%string) by (simpl; first [reflexivity|discriminate]). cbv zeta.
    simpl lit. simpl app. shell_word.
    match goal with |- context [list_eqb ?a ?b] =>
      destruct (list_eqb a b) eqn:E end;
      [apply Hne in E; discriminate E|]. reflexivity.
  - rewrite (Hline "bin"%string) by (simpl; first [reflexivity|discriminate]). cbv zeta.
    simpl lit. simpl app. shell_word.
    match goal with |- context [list_eqb ?a ?b] =>
      destruct (list_eqb a b) eqn:E end;
      [apply Hne in E; discriminate E|]. reflexivity.
  - rewrite (Hline "dec"%string) by (simpl; first [reflexivity|discriminate]). cbv zeta.
    simpl lit. simpl app. shell_word.
    match goal with |- context [list_eqb ?a ?b] =>
      destruct (list_eqb a b) eqn:E end;
      [apply Hne in E; discriminate E|]. reflexivity.
  - rewrite (Hline "out"%string) by (simpl; first [reflexivity|discriminate]). cbv zeta.
    simpl lit. simpl app. shell_word.
    match goal with |- context [list_eqb ?a ?b] =>
      destruct (list_eqb a b) eqn:E end;
      [apply Hne in E; discriminate E|]. reflexivity.
Qed.

Lemma base_commands_match_by_prefix_witness :
  process_and_print (lit "  " ++ lit "hex" ++ lit "agon") BASE_DEC
  = Done (BASE_HEX, ["hex"%string]).
Proof.
  apply (base_commands_match_by_prefix (lit "  ") (lit "agon") BASE_DEC).
  reflexivity.
Defined.

(** The loop [while (n > 0 && isspace(s[n - 1])) n--] stops at the end of the
    last word. *)
Lemma trim_loop (s : list ascii) (k : nat) : forall fuel n,
  (k <= n)%nat -> (n - k <= fuel)%nat ->
  (forall j, (k <= j < n)%nat -> isspace (char_at s j) = true) ->
  (k = O \/ isspace (char_at s (k - 1)) = false) ->
  while_loop fuel (fun n => (0 <? n)%nat && isspace (char_at s (n - 1)))
    Nat.pred n = k.
Proof.
  induction fuel as [|fuel IH]; intros n Hkn Hf Hsp Hk.
  - simpl. lia.
  - simpl. destruct (Nat.eq_dec n k) as [->|Hne].
    + destruct Hk as [->|Hk]; [reflexivity|]. rewrite Hk.
      rewrite andb_false_r. reflexivity.
    + assert ((0 <? n)%nat = true) as -> by (apply Nat.ltb_lt; lia).
      rewrite Hsp by lia. simpl. apply IH; try lia; try assumption.
      intros j Hj. apply Hsp. lia.
Qed.

Lemma char_at_app_l (a b : list ascii) i :
  (i < Datatypes.length a)%nat -> char_at (a ++ b) i = char_at a i.
Proof. intros H. unfold char_at. apply app_nth1. exact H. Qed.

Lemma char_at_app_r (a b : list ascii) i :
  (Datatypes.length a <= i)%nat ->
  char_at (a ++ b) i = char_at b (i - Datatypes.length a).
Proof. intros H. unfold char_at. apply app_nth2. lia. Qed.

Lemma char_at_forallb (f : ascii -> bool) (s : list ascii) i :
  forallb f s = true -> (i < Datatypes.length s)%nat -> f (char_at s i) = true.
Proof.
  intros H Hi. rewrite forallb_forall in H. apply H. unfold char_at.
  apply nth_In. exact Hi.
Qed.







(** * What the validator accepts *)

(** An invariant of the rounds of a loop holds where the loop breaks. *)
Lemma run_loop_break_inv {St R : Type} (P : St -> Prop) (step : St -> ctl St R) :
  (forall s s', P s -> step s = Next s' -> P s') ->
  (forall s s', step s = Break s' -> s' = s) ->
  forall fuel s s', P s -> run_loop fuel step s = Break s' ->
    P s' /\ step s' = Break s'.
Proof.
  intros Hstep Hsame. induction fuel as [|fuel IH]; intros s s' HP H;
    [discriminate|].
  cbn [run_loop] in H. destruct (step s) as [s1|s1|r] eqn:E.
  - apply (IH s1); [apply (Hstep s); assumption|exact H].
  - injection H as <-. pose proof (Hsame s s1 E) as ->. split; [exact HP|exact E].
  - discriminate.
Qed.

Lemma run_loop_ret_inv {St R : Type} (Q : R -> Prop) (step : St -> ctl St R) :
  (forall s r, step s = Ret r -> Q r) ->
  forall fuel s r, run_loop fuel step s = Ret r -> Q r.
Proof.
  intros Hstep. induction fuel as [|fuel IH]; intros s r H; [discriminate|].
  cbn [run_loop] in H. destruct (step s) as [s1|s1|r1] eqn:E.
  - apply (IH s1). exact H.
  - discriminate.
  - injection H as <-. apply (Hstep s). exact E.
Qed.

Lemma scan_all pred input i : forall k,
  (i <= k < scan pred input i)%nat -> pred (char_at input k) = true.
Proof.
  unfold scan.
  apply (while_loop_preserves
           (fun k' => forall k, (i <= k < k')%nat -> pred (char_at input k) = true)).
  - intros k' Hk' Hc k Hk. destruct (Nat.eq_dec k k') as [->|]; [exact Hc|].
    apply Hk'. lia.
  - intros k Hk. lia.
Qed.

Lemma paren_balance_snoc s c :
  paren_balance (s ++ [c])
  = (if is_char c "(" then paren_balance s + 1
     else if is_char c ")" then paren_balance s - 1 else paren_balance s).
Proof. unfold paren_balance. rewrite fold_left_app. reflexivity. Qed.

(** Reading one more character. *)
Lemma read_one input i :
  (i < Datatypes.length input)%nat ->
  paren_balance (take (S i) input)
  = (if is_char (char_at input i) "(" then paren_balance (take i input) + 1
     else if is_char (char_at input i) ")" then paren_balance (take i input) - 1
     else paren_balance (take i input))
  /\ forallb legal_char (take (S i) input)
     = forallb legal_char (take i input) && legal_char (char_at input i)
  /\ existsb isdigit (take (S i) input)
     = existsb isdigit (take i input) || isdigit (char_at input i).
Proof.
  intros Hi. rewrite take_S_char_at by exact Hi.
  rewrite paren_balance_snoc, forallb_app, existsb_app. simpl.
  rewrite andb_true_r, orb_false_r. repeat split.
Qed.

Lemma token_char_facts c :
  isxdigit c || is_char c "x" || is_char c "X" = true ->
  legal_char c = true /\ is_char c "(" = false /\ is_char c ")" = false
  /\ isspace c = false.
Proof.
  intros H. destruct c as [[] [] [] [] [] [] [] []];
    try discriminate H; repeat split.
Qed.

Lemma operator_facts c :
  is_operator c = true ->
  legal_char c = true /\ isspace c = false /\ isdigit c = false
  /\ is_char c "x" = false /\ is_char c "X" = false
  /\ is_char c "b" = false /\ is_char c "B" = false.
Proof.
  intros H. destruct c as [[] [] [] [] [] [] [] []];
    try discriminate H; repeat split.
Qed.

Lemma xdigit_facts c :
  isxdigit c = true -> is_char c "x" = false /\ is_char c "X" = false.
Proof.
  intros H. destruct c as [[] [] [] [] [] [] [] []];
    try discriminate H; repeat split.
Qed.

Lemma digit_facts c :
  isdigit c = true ->
  isxdigit c = true /\ is_char c "b" = false /\ is_char c "B" = false.
Proof.
  intros H. destruct c as [[] [] [] [] [] [] [] []];
    try discriminate H; repeat split.
Qed.

Lemma bit_char_digit c : is_bit_char c = true -> isdigit c = true.
Proof.
  unfold is_bit_char. intros H. apply orb_prop in H as [H|H];
    apply is_char_eq in H; subst c; reflexivity.
Qed.

(** Reading a run of token characters changes neither the depth nor the
    legality of the text read. *)
Lemma read_token input i : forall i',
  (i <= i' <= Datatypes.length input)%nat ->
  (forall k, (i <= k < i')%nat ->
     isxdigit (char_at input k) || is_char (char_at input k) "x"
     || is_char (char_at input k) "X" = true) ->
  paren_balance (take i' input) = paren_balance (take i input)
  /\ forallb legal_char (take i' input) = forallb legal_char (take i input)
  /\ (existsb isdigit (take i input) = true ->
      existsb isdigit (take i' input) = true).
Proof.
  induction i' as [|i' IH]; intros Hi Htok.
  - assert (i = O) as -> by lia. repeat split. tauto.
  - destruct (Nat.eq_dec i (S i')) as [->|Hne]; [repeat split; tauto|].
    destruct IH as (B & L & D); [lia|intros k Hk; apply Htok; lia|].
    destruct (read_one input i') as (B1 & L1 & D1); [lia|].
    destruct (token_char_facts _ (Htok i' ltac:(lia))) as (Hl & Ho & Hc & _).
    rewrite B1, L1, D1, Ho, Hc, Hl, B, L, andb_true_r.
    repeat split. intros H. rewrite (D H). reflexivity.
Qed.

Lemma significant_end_last input i j :
  significant_end input (S i) j -> isspace (char_at input i) = false -> j = i.
Proof.
  intros (Hj & Hns & Hsp) Hi. destruct (Nat.eq_dec j i) as [|Hne]; [assumption|].
  rewrite Hsp in Hi by lia. discriminate Hi.
Qed.

(** The state after a number token that ends just before [i']. *)
Lemma token_inv input i i' eo lo pd :
  validator_inv input (i, eo, lo, pd) ->
  (i < i' <= strlen input)%nat ->
  isdigit (char_at input i) = true ->
  (forall k, (i <= k < i')%nat ->
     isxdigit (char_at input k) || is_char (char_at input k) "x"
     || is_char (char_at input k) "X" = true) ->
  is_char (char_at input (i' - 1)) "x" = false ->
  is_char (char_at input (i' - 1)) "X" = false ->
  (is_char (char_at input (i' - 1)) "b" || is_char (char_at input (i' - 1)) "B"
   = true ->
   is_char (char_at input (i' - 1 - 1)) "0" = true ->
   (2 <= i' - 1)%nat
   /\ is_char (char_at input (i' - 1 - 2)) "x"
      || is_char (char_at input (i' - 1 - 2)) "X"
      || isxdigit (char_at input (i' - 1 - 2)) = true) ->
  validator_inv input (i', false, false, pd).
Proof.
  intros (Hi & Hpd & Hnn & Hleg & Hdig & HQ) Hi' Hd Htok Hx HX Hb.
  pose proof (strlen_le input) as Hle.
  destruct (read_token input i i' ltac:(lia) Htok) as (B & L & D).
  unfold validator_inv. split; [lia|]. split; [rewrite B; exact Hpd|].
  split.
  { intros k Hk. destruct (le_lt_dec k i) as [Hki|Hki]; [apply Hnn; exact Hki|].
    destruct (read_token input i k ltac:(lia)) as (Bk & _).
    { intros k' Hk'. apply Htok. lia. }
    rewrite Bk. apply Hnn. lia. }
  split; [rewrite L; exact Hleg|].
  split.
  { intros _. destruct (read_token input (S i) i' ltac:(lia)) as (_ & _ & D').
    { intros k Hk. apply Htok. lia. }
    apply D'. destruct (read_one input i ltac:(lia)) as (_ & _ & ->).
    rewrite Hd. apply orb_true_r. }
  intros j Hj.
  assert (j = i' - 1)%nat as ->.
  { destruct (token_char_facts _ (Htok (i' - 1)%nat ltac:(lia))) as (_ & _ & _ & Hs).
    replace i' with (S (i' - 1)) in Hj by lia.
    apply (significant_end_last _ _ _ Hj Hs). }
  destruct (token_char_facts _ (Htok (i' - 1)%nat ltac:(lia))) as (_ & Ho & _).
  split; [rewrite Ho; discriminate|]. split; [exact Hx|]. split; [exact HX|exact Hb].
Qed.

(** The state after one operator or white-space character. *)
Lemma char_inv input i eo lo pd eo' lo' pd' :
  validator_inv input (i, eo, lo, pd) ->
  (i < strlen input)%nat ->
  legal_char (char_at input i) = true ->
  isdigit (char_at input i) = false ->
  pd' = (if is_char (char_at input i) "(" then pd + 1
         else if is_char (char_at input i) ")" then pd - 1 else pd) ->
  0 <= pd' ->
  (eo' = false -> eo = false) ->
  (isspace (char_at input i) = true -> eo' = eo) ->
  (is_char (char_at input i) "(" = true -> eo' = true) ->
  is_char (char_at input i) "x" = false ->
  is_char (char_at input i) "X" = false ->
  is_char (char_at input i) "b" = false ->
  is_char (char_at input i) "B" = false ->
  validator_inv input (S i, eo', lo', pd').
Proof.
  intros (Hi & Hpd & Hnn & Hleg & Hdig & HQ) Hlt Hl Hd Hpd' Hnn' Heo Hsp Hop
    Hx HX Hb HB.
  pose proof (strlen_le input) as Hle.
  destruct (read_one input i ltac:(lia)) as (B1 & L1 & D1).
  unfold validator_inv. split; [lia|].
  split; [rewrite B1, <- Hpd; exact Hpd'|].
  split.
  { intros k Hk. destruct (Nat.eq_dec k (S i)) as [->|];
      [rewrite B1, <- Hpd, <- Hpd'; exact Hnn'|apply Hnn; lia]. }
  split; [rewrite L1, Hleg, Hl; reflexivity|].
  split; [intros E; rewrite D1, (Hdig (Heo E)); reflexivity|].
  intros j Hj. destruct (isspace (char_at input i)) eqn:Es.
  - rewrite (Hsp eq_refl). apply HQ. destruct Hj as (Hj & Hns & Hall).
    assert (j <> i) by (intros ->; rewrite Es in Hns; discriminate).
    split; [lia|]. split; [exact Hns|]. intros k Hk. apply Hall. lia.
  - rewrite (significant_end_last _ _ _ Hj Es).
    split; [exact Hop|]. split; [exact Hx|]. split; [exact HX|].
    rewrite Hb, HB. discriminate.
Qed.

Lemma space_facts c :
  isspace c = true ->
  legal_char c = true /\ isdigit c = false /\ is_char c "(" = false
  /\ is_char c ")" = false /\ is_char c "x" = false /\ is_char c "X" = false
  /\ is_char c "b" = false /\ is_char c "B" = false.
Proof.
  intros H. destruct c as [[] [] [] [] [] [] [] []];
    try discriminate H; repeat split.
Qed.

Lemma next_after_zero input i c :
  (i < strlen input)%nat ->
  is_char (char_at input (i + 1)) c = true -> is_char c NUL = false ->
  (i + 2 <= strlen input)%nat.
Proof.
  intros Hi Hc Hn. apply is_char_eq in Hc.
  assert (i + 1 < strlen input)%nat; [|lia].
  apply before_strlen; [lia|]. rewrite Hc. exact Hn.
Qed.

Ltac operator_round :=
  try assumption; try lia;
  try (intros; congruence);
  try match goal with
      | Eop : is_char _ "(" = _ |- _ = (if _ then _ else _) =>
          rewrite Eop; try reflexivity
      end;
  try match goal with
      | Ecl : is_char _ ")" = _ |- _ = (if _ then _ else _) =>
          rewrite Ecl; reflexivity
      end.

(** Every round of the validator keeps [validator_inv]. *)
Lemma validate_step_inv input st st' :
  validator_inv input st -> validate_step input st = Next st' ->
  validator_inv input st'.
Proof.
  destruct st as [[[i eo] lo] pd]. intros Hinv.
  pose proof Hinv as (Hi & Hpd & Hnn & Hleg & Hdig & HQ).
  unfold validate_step.
  destruct (is_char (char_at input i) NUL) eqn:En; [discriminate|].
  pose proof (before_strlen input i Hi En) as Hlt.
  assert (Hnn0 : 0 <= pd) by (rewrite Hpd; apply Hnn; lia).
  destruct (isspace (char_at input i)) eqn:Es.
  { intros H; injection H as <-.
    destruct (space_facts _ Es) as (Hl & Hd & Ho & Hc & Hx & HX & Hb & HB).
    apply (char_inv input i eo lo pd); try assumption; try tauto.
    - rewrite Ho, Hc. reflexivity.
    - rewrite Ho. discriminate. }
  destruct (isdigit (char_at input i)) eqn:Ed.
  { destruct (negb eo); [discriminate|].
    destruct (is_char (char_at input i) "0"
              && (is_char (char_at input (i + 1)) "x"
                  || is_char (char_at input (i + 1)) "X")) eqn:Ex.
    { destruct (isxdigit (char_at input (i + 2))) eqn:E2; [|discriminate].
      simpl negb. cbv iota. intros H; injection H as <-.
      apply andb_prop in Ex as [E0 Ex].
      assert (i + 2 <= strlen input)%nat as Hi2
        by (apply orb_prop in Ex as [Ex|Ex];
            eapply (next_after_zero input i); try exact Ex; try exact Hlt;
            reflexivity).
      pose proof (scan_progress isxdigit input (i + 2) eq_refl Hi2 E2) as Hsc.
      pose proof (scan_all isxdigit input (i + 2)) as Hall.
      set (i' := scan isxdigit input (i + 2)) in *.
      assert (Htok : forall k, (i <= k < i')%nat ->
                isxdigit (char_at input k) || is_char (char_at input k) "x"
                || is_char (char_at input k) "X" = true).
      { intros k Hk. destruct (Nat.eq_dec k i) as [->|].
        - destruct (digit_facts _ Ed) as (-> & _). reflexivity.
        - destruct (Nat.eq_dec k (i + 1)%nat) as [->|].
          + rewrite <- orb_assoc, Ex. apply orb_true_r.
          + rewrite Hall by lia. reflexivity. }
      destruct (xdigit_facts _ (Hall (i' - 1)%nat ltac:(lia))) as (Hx & HX).
      apply (token_inv input i i' eo lo pd); try assumption; try lia.
      intros _ H0.
      assert (i' - 1 - 1 <> i + 1)%nat as Hne.
      { intros E. rewrite E in H0. apply is_char_eq in H0.
        rewrite H0 in Ex. discriminate Ex. }
      split; [lia|].
      destruct (Nat.eq_dec (i' - 1 - 2)%nat (i + 1)%nat) as [->|].
      - rewrite Ex. reflexivity.
      - rewrite (Hall (i' - 1 - 2)%nat) by lia. apply orb_true_r. }
    destruct (is_char (char_at input i) "0"
              && (is_char (char_at input (i + 1)) "b"
                  || is_char (char_at input (i + 1)) "B")) eqn:Eb.
    { destruct (is_bit_char (char_at input (i + 2))) eqn:E2; [|discriminate].
      simpl negb. cbv iota. intros H; injection H as <-.
      apply andb_prop in Eb as [E0 Eb].
      assert (i + 2 <= strlen input)%nat as Hi2
        by (apply orb_prop in Eb as [Eb|Eb];
            eapply (next_after_zero input i); try exact Eb; try exact Hlt;
            reflexivity).
      pose proof (scan_progress is_bit_char input (i + 2) eq_refl Hi2 E2) as Hsc.
      pose proof (scan_all is_bit_char input (i + 2)) as Hall.
      set (i' := scan is_bit_char input (i + 2)) in *.
      assert (Htok : forall k, (i <= k < i')%nat ->
                isxdigit (char_at input k) || is_char (char_at input k) "x"
                || is_char (char_at input k) "X" = true).
      { intros k Hk. destruct (Nat.eq_dec k i) as [->|].
        - destruct (digit_facts _ Ed) as (-> & _). reflexivity.
        - destruct (Nat.eq_dec k (i + 1)%nat) as [->|].
          + assert (isxdigit (char_at input (i + 1)) = true) as ->; [|reflexivity].
            apply orb_prop in Eb as [Eb|Eb]; apply is_char_eq in Eb;
              rewrite Eb; reflexivity.
          + destruct (digit_facts _ (bit_char_digit _ (Hall k ltac:(lia))))
              as (-> & _). reflexivity. }
      pose proof (bit_char_digit _ (Hall (i' - 1)%nat ltac:(lia))) as Hlast.
      destruct (digit_facts _ Hlast) as (Hxd & Hb & HB).
      destruct (xdigit_facts _ Hxd) as (Hx & HX).
      apply (token_inv input i i' eo lo pd); try assumption; try lia.
      rewrite Hb, HB. discriminate. }
    intros H; injection H as <-.
    pose proof (scan_progress isdigit input i eq_refl Hi Ed) as Hsc.
    pose proof (scan_all isdigit input i) as Hall.
    set (i' := scan isdigit input i) in *.
    pose proof (Hall (i' - 1)%nat ltac:(lia)) as Hlast.
    destruct (digit_facts _ Hlast) as (Hxd & Hb & HB).
    destruct (xdigit_facts _ Hxd) as (Hx & HX).
    apply (token_inv input i i' eo lo pd); try assumption; try lia.
    - intros k Hk. destruct (digit_facts _ (Hall k Hk)) as (-> & _). reflexivity.
    - rewrite Hb, HB. discriminate. }
  destruct (is_operator (char_at input i)) eqn:Eo; [|discriminate].
  destruct (operator_facts _ Eo) as (Hl & _ & _ & Hx & HX & Hb & HB).
  destruct (is_char (char_at input i) "(") eqn:Eop.
  { destruct eo; [|discriminate]. intros H; injection H as <-.
    apply (char_inv input i true lo pd); operator_round. }
  destruct (is_char (char_at input i) ")") eqn:Ecl.
  { destruct eo; [discriminate|]. simpl orb.
    destruct (pd <=? 0) eqn:Epd; [discriminate|]. apply Z.leb_gt in Epd.
    intros H; injection H as <-.
    apply (char_inv input i false lo pd); operator_round. }
  destruct (is_char (char_at input i) "!").
  { destruct eo; [discriminate|]. intros H; injection H as <-.
    apply (char_inv input i false lo pd); operator_round. }
  destruct ((is_char (char_at input i) "-" || is_char (char_at input i) "+")
            && is_unary input i).
  { intros H; injection H as <-.
    apply (char_inv input i eo lo pd); operator_round. }
  match goal with |- context [if ?c then Ret false else _] => destruct c end;
    [discriminate|].
  intros H; injection H as <-.
  apply (char_inv input i eo lo pd); operator_round.
Qed.

Lemma validate_step_ret input st r : validate_step input st = Ret r -> r = false.
Proof.
  destruct st as [[[i eo] lo] pd]. unfold validate_step.
  repeat (match goal with
          | |- context [if ?c then _ else _] => destruct c
          end; try discriminate);
    intros H; injection H as <-; reflexivity.
Qed.

Lemma validate_step_break input st st' :
  validate_step input st = Break st' -> st' = st.
Proof.
  destruct st as [[[i eo] lo] pd]. unfold validate_step.
  repeat (match goal with
          | |- context [if ?c then _ else _] => destruct c
          end; try discriminate).
  intros H; injection H as <-; reflexivity.
Qed.

Lemma validator_inv_start input : validator_inv input (O, true, false, 0).
Proof.
  unfold validator_inv. split; [lia|]. split; [reflexivity|].
  split; [intros k Hk; assert (k = O) as -> by lia; reflexivity|].
  split; [reflexivity|]. split; [discriminate|].
  intros j (Hj & _). lia.
Qed.

(** An accepted text was read to its end, in a state that satisfies the
    invariant, with no operand expected, depth zero, and no binary operator
    at the end. *)
Lemma validate_accepts input :
  validate_expression_syntax input = true ->
  exists lo,
    validator_inv input (strlen input, false, lo, 0)
    /\ (let len :=
          while_loop (strlen input)
            (fun len => (0 <? len)%nat && isspace (char_at input (len - 1)))
            Nat.pred (strlen input) in
        (0 <? len)%nat && strchr "+-*/%^" (char_at input (len - 1)) = false).
Proof.
  unfold validate_expression_syntax. intros H.
  destruct (run_loop _ _ _) as [s|s|r] eqn:E.
  - discriminate.
  - destruct s as [[[i eo] lo] pd].
    destruct (run_loop_break_inv (validator_inv input) (validate_step input)
                (validate_step_inv input) (validate_step_break input)
                _ _ _ (validator_inv_start input) E)
      as [Hinv Hbrk].
    destruct (negb (pd =? 0)) eqn:Epd; [discriminate|].
    destruct eo; [discriminate|].
    apply negb_false_iff, Z.eqb_eq in Epd. subst pd.
    assert (i = strlen input) as ->.
    { destruct Hinv as (Hi & _).
      destruct (Nat.eq_dec i (strlen input)) as [|Hne]; [assumption|].
      unfold validate_step in Hbrk.
      destruct (is_char (char_at input i) NUL) eqn:En.
      - assert (i < strlen input)%nat as Hlt by lia.
        clear - Hlt En. exfalso. revert i Hlt En.
        induction input as [|c s IH]; intros i Hlt En; [simpl in Hlt; lia|].
        simpl in Hlt. destruct (Ascii.eqb c NUL) eqn:Ec; [lia|].
        destruct i as [|i]; [unfold char_at, is_char in En; simpl in En; congruence|].
        apply (IH i); [lia|exact En].
      - exfalso. revert Hbrk.
        repeat (match goal with
                | |- context [if ?c then _ else _] => destruct c
                end; try discriminate). }
    exists lo. split; [exact Hinv|].
    cbv zeta. match type of H with (if ?c then _ else _) = _ =>
      destruct c; [discriminate|reflexivity] end.
  - apply (run_loop_ret_inv (fun r => r = false) (validate_step input)) in E.
    + subst r. discriminate.
    + intros s r0. apply validate_step_ret.
Qed.

(** X17: what every accepted expression looks like.  If
    [validate_expression_syntax] returns true, the parentheses of the text
    are balanced and no prefix closes more than it opens, every character is
    white space, a hexadecimal digit, an [x] or an operator, and the text
    holds at least one decimal digit; in particular the empty and the blank
    text are rejected. *)
Theorem accepted_expressions_are_well_formed (input : list ascii) :
  validate_expression_syntax input = true ->
  paren_balance (cstr input) = 0
  /\ (forall k, (k <= strlen input)%nat -> 0 <= paren_balance (take k input))
  /\ forallb legal_char (cstr input) = true
  /\ existsb isdigit (cstr input) = true.
Proof.
  intros H. destruct (validate_accepts input H) as (lo & Hinv & _).
  destruct Hinv as (_ & Hpd & Hnn & Hleg & Hdig & _). unfold cstr.
  split; [symmetry; exact Hpd|]. split; [exact Hnn|].
  split; [exact Hleg|apply Hdig; reflexivity].
Qed.

Lemma accepted_expressions_are_well_formed_witness :
  paren_balance (cstr (lit "(1+2)*3")) = 0
  /\ (forall k, (k <= strlen (lit "(1+2)*3"))%nat ->
        0 <= paren_balance (take k (lit "(1+2)*3")))
  /\ forallb legal_char (cstr (lit "(1+2)*3")) = true
  /\ existsb isdigit (cstr (lit "(1+2)*3")) = true.
Proof.
  apply (accepted_expressions_are_well_formed (lit "(1+2)*3")).
  vm_compute. reflexivity.
Defined.

Lemma strchr_with_paren c :
  strchr "+-*/%^(" c = strchr "+-*/%^" c || is_char c "(".
Proof.
  unfold strchr. simpl.
  destruct (is_char c "+"), (is_char c "-"), (is_char c "*"), (is_char c "/"),
    (is_char c "%"), (is_char c "^"), (is_char c "("); reflexivity.
Qed.

(** X18: the shell never waits for more input after a complete expression:
    a text that [validate_expression_syntax] accepts is not unfinished for
    [is_unfinished], so in interactive mode it is evaluated at once and in
    file mode it is not reported as cut off. *)
Theorem accepted_expressions_are_finished (input : list ascii) :
  validate_expression_syntax input = true -> is_unfinished input = false.
Proof.
  intros H. destruct (validate_accepts input H) as (lo & Hinv & Htail).
  destruct Hinv as (_ & _ & _ & _ & _ & HQ).
  unfold is_unfinished. cbv zeta in *.
  destruct (strlen input =? 0)%nat; [reflexivity|].
  set (P := fun n : nat =>
              (n <= strlen input)%nat
              /\ forall k, (n <= k < strlen input)%nat ->
                           isspace (char_at input k) = true).
  while_rule P (fun n : nat => n).
  { intros n [Hn Hsp] Hc. apply andb_prop in Hc as [Hpos Hc].
    apply Nat.ltb_lt in Hpos. split; [|lia]. split; [lia|].
    intros k Hk. destruct (Nat.eq_dec k (n - 1)%nat) as [->|]; [exact Hc|].
    apply Hsp. lia. }
  { split; [lia|]. intros k Hk. lia. }
  { lia. }
  set (n := while_loop _ _ _ _) in *. destruct HP as [Hn Hsp].
  destruct (n =? 0)%nat eqn:En0; [reflexivity|].
  apply Nat.eqb_neq in En0.
  assert ((0 <? n)%nat = true) as Hpos by (apply Nat.ltb_lt; lia).
  rewrite Hpos in Hexit, Htail. simpl in Hexit, Htail.
  destruct (HQ (n - 1)%nat) as (Hop & Hx & HX & Hb).
  { split; [lia|]. split; [exact Hexit|]. intros k Hk. apply Hsp. lia. }
  rewrite strchr_with_paren, Htail.
  destruct (is_char (char_at input (n - 1)) "(") eqn:Eop;
    [discriminate (Hop eq_refl)|].
  simpl orb. cbv iota. rewrite Hx, HX. simpl orb. simpl andb. cbv iota.
  replace (n - 2)%nat with (n - 1 - 1)%nat by lia.
  replace (n - 3)%nat with (n - 1 - 2)%nat by lia.
  destruct (is_char (char_at input (n - 1)) "b"
            || is_char (char_at input (n - 1)) "B") eqn:Eb; [|reflexivity].
  destruct (1 <? n)%nat; [|reflexivity]. simpl andb.
  destruct (is_char (char_at input (n - 1 - 1)) "0") eqn:E0; [|reflexivity].
  destruct (Hb eq_refl eq_refl) as [H2 H3].
  assert ((n =? 2)%nat = false) as -> by (apply Nat.eqb_neq; lia).
  destruct (is_char (char_at input (n - 1 - 2)) "x"
            || is_char (char_at input (n - 1 - 2)) "X"); [reflexivity|].
  simpl in H3. rewrite H3. reflexivity.
Qed.

Lemma accepted_expressions_are_finished_witness :
  is_unfinished (lit "1 + 0x0b ") = false.
Proof.
  apply (accepted_expressions_are_finished (lit "1 + 0x0b ")).
  vm_compute. reflexivity.
Defined.


(** * Expressions with two operands, from text to value *)

Lemma dec_value_nonneg s : 0 <= dec_value s.
Proof.
  unfold dec_value.
  assert (H : forall acc, 0 <= acc -> 0 <= fold_left dec_step s acc).
  { induction s as [|c s IH]; intros acc Hacc; [exact Hacc|].
    simpl. apply IH. unfold dec_step. destruct (isdigit c) eqn:E; [|exact Hacc].
    pose proof (isdigit_code c E). lia. }
  apply H. lia.
Qed.

(** A decimal literal read by [bi_from_str]. *)
Lemma literal_value ds :
  forallb isdigit ds = true -> ds <> [] ->
  exists x, bi_from_str ds = Some x /\ normalized x
            /\ value x = dec_value ds.
Proof.
  intros Hd Hne. destruct (bi_from_str_digits ds Hd Hne) as [-> _].
  destruct (bi_from_dec_digits ds Hd Hne) as (r & -> & Hn & Hs & Hm).
  simpl option_map. unfold apply_sign.
  pose proof (normalized_sign_zero r Hn) as Hz.
  destruct (sign r =? 0) eqn:E.
  - apply Z.eqb_eq in E. exists r. split; [reflexivity|]. split; [exact Hn|].
    unfold value. rewrite <- Hm, E. assert (magnitude r = 0) by tauto. lia.
  - apply Z.eqb_neq in E. assert (sign r = 1) as E1 by (destruct Hs; lia).
    exists r. split.
    + f_equal. destruct r as [s l d]. simpl in E1. subst s. reflexivity.
    + split; [exact Hn|]. unfold value. rewrite E1, Hm. lia.
Qed.

Lemma run_loop_next {St R : Type} (step : St -> ctl St R) fuel s s' :
  step s = Next s' -> run_loop (S fuel) step s = run_loop fuel step s'.
Proof. intros H. cbn [run_loop]. rewrite H. reflexivity. Qed.

Lemma run_loop_break {St R : Type} (step : St -> ctl St R) fuel s s' :
  step s = Break s' -> run_loop (S fuel) step s = Break s'.
Proof. intros H. cbn [run_loop]. rewrite H. reflexivity. Qed.

(** [while (pred(input[i])) i++] over a run of [n] characters that satisfy
    [pred], followed by one that does not. *)
Lemma scan_exact pred input i n :
  (i + n <= Datatypes.length input)%nat ->
  (forall k, (i <= k < i + n)%nat -> pred (char_at input k) = true) ->
  pred (char_at input (i + n)) = false ->
  scan pred input i = (i + n)%nat.
Proof.
  intros Hlen Hrun Hstop. unfold scan.
  assert (H : forall fuel m, (m <= fuel)%nat -> (m <= n)%nat ->
            while_loop fuel (fun i => pred (char_at input i)) S (i + n - m)%nat
            = (i + n)%nat).
  { induction fuel as [|fuel IH]; intros m Hm Hmn.
    - simpl. lia.
    - simpl. destruct (Nat.eq_dec m O) as [->|Hne].
      + replace (i + n - 0)%nat with (i + n)%nat by lia. rewrite Hstop.
        reflexivity.
      + rewrite Hrun by lia.
        replace (S (i + n - m)) with (i + n - (m - 1))%nat by lia.
        apply IH; lia. }
  specialize (H (Datatypes.length input) n ltac:(lia) ltac:(lia)).
  replace (i + n - n)%nat with i in H by lia. exact H.
Qed.

Lemma binary_operator_facts op :
  is_binary_operator op = true ->
  is_char op NUL = false /\ isspace op = false /\ isdigit op = false
  /\ is_operator op = true /\ is_char op "(" = false /\ is_char op ")" = false
  /\ is_char op "!" = false /\ is_number_char op = false
  /\ is_char op "x" = false /\ is_char op "X" = false
  /\ is_char op "b" = false /\ is_char op "B" = false
  /\ (is_char op "+" || is_char op "-" || is_char op "*" || is_char op "/"
      || is_char op "%" || is_char op "^" || is_char op "!") = true
  /\ is_char op "m" = false.
Proof.
  intros H. destruct op as [[] [] [] [] [] [] [] []];
    try discriminate H; repeat split.
Qed.

Lemma digit_facts2 c :
  isdigit c = true ->
  is_char c NUL = false /\ isspace c = false /\ is_operator c = false
  /\ is_char c "(" = false /\ is_char c "!" = false
  /\ is_number_char c = true /\ strchr "+-*/%^" c = false
  /\ is_char c "x" = false /\ is_char c "X" = false
  /\ is_char c "b" = false /\ is_char c "B" = false.
Proof.
  intros H. destruct c as [[] [] [] [] [] [] [] []];
    try discriminate H; repeat split.
Qed.

Section TwoOperands.
Variables (a b : list ascii) (op : ascii).
Hypothesis Ha : forallb isdigit a = true.
Hypothesis Hb : forallb isdigit b = true.
Hypothesis Hane : a <> [].
Hypothesis Hbne : b <> [].
Hypothesis Hop : is_binary_operator op = true.

Let input := a ++ op :: b.
Let la := Datatypes.length a.
Let lb := Datatypes.length b.

Lemma two_lengths : (0 < la)%nat /\ (0 < lb)%nat
  /\ Datatypes.length input = (la + 1 + lb)%nat.
Proof.
  unfold la, lb, input. rewrite length_app. simpl.
  destruct a; [contradiction|]. destruct b; [contradiction|]. simpl. lia.
Qed.

Lemma two_left k : (k < la)%nat -> isdigit (char_at input k) = true.
Proof.
  intros Hk. unfold input. rewrite char_at_app_l by exact Hk.
  apply char_at_forallb; assumption.
Qed.

Lemma two_middle : char_at input la = op.
Proof.
  unfold input, la. rewrite char_at_app_r by lia. rewrite Nat.sub_diag.
  reflexivity.
Qed.

Lemma two_right k : (k < lb)%nat -> isdigit (char_at input (la + 1 + k)) = true.
Proof.
  intros Hk. unfold input, la. rewrite char_at_app_r by lia.
  replace (Datatypes.length a + 1 + k - Datatypes.length a)%nat with (S k) by lia.
  change (char_at (op :: b) (S k)) with (char_at b k).
  apply char_at_forallb; assumption.
Qed.

Lemma two_end : char_at input (la + 1 + lb) = NUL.
Proof.
  destruct two_lengths as (_ & _ & Hl). unfold char_at.
  apply nth_overflow. rewrite <- Hl. unfold input. lia.
Qed.

Lemma two_strlen : strlen input = (la + 1 + lb)%nat.
Proof.
  destruct two_lengths as (_ & _ & <-). apply strlen_no_nul.
  unfold input. rewrite forallb_app. simpl.
  destruct (binary_operator_facts op Hop) as (Hn & _).
  unfold is_char in Hn. rewrite Hn. simpl.
  assert (Hd : forall s, forallb isdigit s = true ->
            forallb (fun c => negb (Ascii.eqb c NUL)) s = true).
  { intros s Hs. apply forallb_forall. intros c Hc. rewrite forallb_forall in Hs.
    apply isdigit_not_nul, Hs, Hc. }
  rewrite (Hd a Ha), (Hd b Hb). reflexivity.
Qed.

(** No character of the text, nor the NUL behind it, is a base letter. *)
Lemma two_no_letter k :
  is_char (char_at input k) "x" = false /\ is_char (char_at input k) "X" = false
  /\ is_char (char_at input k) "b" = false /\ is_char (char_at input k) "B" = false.
Proof.
  destruct (lt_dec k la) as [Hk|Hk].
  { destruct (digit_facts2 _ (two_left k Hk)) as (_&_&_&_&_&_&_&H1&H2&H3&H4).
    tauto. }
  destruct (Nat.eq_dec k la) as [->|Hne].
  { rewrite two_middle.
    destruct (binary_operator_facts op Hop) as (_&_&_&_&_&_&_&_&H1&H2&H3&H4&_).
    tauto. }
  destruct (lt_dec k (la + 1 + lb)) as [Hk2|Hk2].
  { replace k with (la + 1 + (k - la - 1))%nat by lia.
    destruct (digit_facts2 _ (two_right (k - la - 1) ltac:(lia)))
      as (_&_&_&_&_&_&_&H1&H2&H3&H4).
    tauto. }
  assert (char_at input k = NUL) as ->.
  { unfold char_at. apply nth_overflow.
    destruct two_lengths as (_ & _ & ->). lia. }
  repeat split.
Qed.

Lemma two_scan_left (pred : ascii -> bool) :
  (forall c, isdigit c = true -> pred c = true) -> pred op = false ->
  scan pred input O = la.
Proof.
  intros Hd Ho. destruct two_lengths as (_ & _ & Hl).
  apply (scan_exact pred input O la).
  - lia.
  - intros k Hk. apply Hd, two_left. lia.
  - simpl. rewrite two_middle. exact Ho.
Qed.

Lemma two_scan_right (pred : ascii -> bool) :
  (forall c, isdigit c = true -> pred c = true) -> pred NUL = false ->
  scan pred input (la + 1) = (la + 1 + lb)%nat.
Proof.
  intros Hd Ho. destruct two_lengths as (_ & _ & Hl).
  apply (scan_exact pred input (la + 1) lb).
  - lia.
  - intros k Hk. replace k with (la + 1 + (k - la - 1))%nat by lia.
    apply Hd, two_right. lia.
  - rewrite two_end. exact Ho.
Qed.

(** The operator of [a op b] is binary for the validator. *)
Lemma two_not_unary : is_unary input la = false.
Proof.
  destruct two_lengths as (Hla & _).
  pose proof (two_left (la - 1) ltac:(lia)) as Hd.
  destruct (digit_facts2 _ Hd) as (_ & Hs & Ho & Hp & Hbang & _).
  unfold is_unary.
  rewrite (prev_non_space_found input la (la - 1)); [|lia|exact Hs|intros k Hk; lia].
  assert ((0 <=? Z.of_nat (la - 1)) = true) as -> by (apply Z.leb_le; lia).
  rewrite Nat2Z.id, Hp, Ho, Hbang. simpl.
  destruct (is_char (char_at input la) "-"); reflexivity.
Qed.

Lemma validate_two_operands : validate_expression_syntax input = true.
Proof.
  destruct two_lengths as (Hla & Hlb & Hl).
  destruct (binary_operator_facts op Hop)
    as (On & Os & Od & Oo & Op & Oc & Ob & _).
  unfold validate_expression_syntax. rewrite two_strlen.
  replace (S (la + 1 + lb)) with (S (S (S (S (la + lb - 2))))) by lia.
  (* the first operand *)
  rewrite (run_loop_next _ _ _ (la, false, false, 0)).
  2:{ unfold validate_step.
      destruct (digit_facts2 _ (two_left O Hla)) as (Dn & Ds & _).
      destruct (two_no_letter (0 + 1)) as (Nx & NX & Nb & NB).
      rewrite Dn, Ds, (two_left O Hla), Nx, NX, Nb, NB.
      simpl negb. rewrite !andb_false_r. cbv iota.
      rewrite (two_scan_left isdigit (fun c H => H) Od). reflexivity. }
  (* the operator *)
  rewrite (run_loop_next _ _ _ (S la, true, true, 0)).
  2:{ unfold validate_step. rewrite two_middle, On, Os, Od, Oo, Op, Oc, Ob.
      rewrite two_not_unary, andb_false_r. reflexivity. }
  (* the second operand *)
  rewrite (run_loop_next _ _ _ ((la + 1 + lb)%nat, false, false, 0)).
  2:{ unfold validate_step. replace (S la) with (la + 1 + 0)%nat by lia.
      destruct (digit_facts2 _ (two_right O Hlb)) as (Dn & Ds & _).
      destruct (two_no_letter (la + 1 + 0 + 1)) as (Nx & NX & Nb & NB).
      rewrite Dn, Ds, (two_right O Hlb), Nx, NX, Nb, NB.
      simpl negb. rewrite !andb_false_r. cbv iota.
      replace (la + 1 + 0)%nat with (la + 1)%nat by lia.
      rewrite (two_scan_right isdigit (fun c H => H) eq_refl). reflexivity. }
  (* the end *)
  rewrite (run_loop_break _ _ _ ((la + 1 + lb)%nat, false, false, 0)).
  2:{ unfold validate_step. rewrite two_end. reflexivity. }
  simpl negb. cbv iota.
  rewrite (trim_loop input (la + 1 + lb)); try lia.
  - replace (la + 1 + lb - 1)%nat with (la + 1 + (lb - 1))%nat by lia.
    destruct (digit_facts2 _ (two_right (lb - 1) ltac:(lia)))
      as (_&_&_&_&_&_& -> &_).
    rewrite andb_false_r. reflexivity.
  - right. replace (la + 1 + lb - 1)%nat with (la + 1 + (lb - 1))%nat by lia.
    destruct (digit_facts2 _ (two_right (lb - 1) ltac:(lia))) as (_ & Ds & _).
    exact Ds.
Qed.

Lemma two_tokens :
  take (la - 0) (drop 0 input) = a
  /\ take (la + 1 + lb - (la + 1)) (drop (la + 1) input) = b.
Proof.
  unfold input, la, lb. split.
  - rewrite Nat.sub_0_r. simpl drop. apply take_app_length.
  - rewrite drop_app_add'; [|reflexivity]. simpl drop.
    replace (Datatypes.length a + 1 + Datatypes.length b
             - (Datatypes.length a + 1))%nat
      with (Datatypes.length b) by lia.
    apply firstn_all.
Qed.

(** The evaluator's loop on [a op b] leaves both operands and the operator
    on the stacks. *)
Lemma eval_loop_two_operands (w : world) :
  run_loop (S (strlen input)) (eval_step input) (O, true, [], [], w)
  = Break ((la + 1 + lb)%nat, false, [bi_from_str b; bi_from_str a], [op], w).
Proof.
  destruct two_lengths as (Hla & Hlb & Hl).
  destruct (binary_operator_facts op Hop)
    as (On & Os & Od & Oo & Op & Oc & Ob & Onum & _ & _ & _ & _ & Oany & _).
  destruct two_tokens as (Ta & Tb).
  assert (Hnum : forall c, isdigit c = true -> is_number_char c = true).
  { intros c Hc. destruct (digit_facts2 c Hc) as (_&_&_&_&_& H &_). exact H. }
  rewrite two_strlen.
  replace (S (la + 1 + lb)) with (S (S (S (S (la + lb - 2))))) by lia.
  rewrite (run_loop_next (eval_step input) _ _ (la, false, [bi_from_str a], [], w)).
  2:{ unfold eval_step.
      destruct (digit_facts2 _ (two_left O Hla)) as (Dn & Ds & _).
      rewrite Dn, Ds, (two_left O Hla). cbv zeta.
      rewrite (two_scan_left is_number_char Hnum Onum), Ta. reflexivity. }
  rewrite (run_loop_next (eval_step input) _ _ (S la, true, [bi_from_str a], [op], w)).
  2:{ unfold eval_step. rewrite two_middle, On, Os, Od, Op, Oc, Oany.
      simpl andb. cbv iota. cbv zeta. simpl drain_higher. rewrite Ob.
      reflexivity. }
  rewrite (run_loop_next (eval_step input) _ _
             ((la + 1 + lb)%nat, false, [bi_from_str b; bi_from_str a], [op], w)).
  2:{ unfold eval_step. replace (S la) with (la + 1 + 0)%nat by lia.
      destruct (digit_facts2 _ (two_right O Hlb)) as (Dn & Ds & _).
      rewrite Dn, Ds, (two_right O Hlb). cbv zeta.
      replace (la + 1 + 0)%nat with (la + 1)%nat by lia.
      rewrite (two_scan_right is_number_char Hnum eq_refl), Tb. reflexivity. }
  apply run_loop_break. unfold eval_step. rewrite two_end. reflexivity.
Qed.

(** [a op b] is evaluated by one call of [apply_operation]. *)
Lemma eval_two_operands (w : world) :
  eval_expression input w
  = match apply_operation [bi_from_str b; bi_from_str a] op w with
    | (Done (Some r :: _), w') => (Done r, w')
    | (Done _, w') => (Failed, w')
    | (r, w') => (abort r, w')
    end.
Proof.
  unfold eval_expression. rewrite validate_two_operands. simpl negb. cbv iota.
  rewrite eval_loop_two_operands. cbn [drain_all].
  destruct (apply_operation _ op w) as [[nums| | |] w']; reflexivity.
Qed.
End TwoOperands.

(** X19: the calculator computes.  For decimal literals [a] and [b],
    [eval_expression] on the text [a+b] returns the normalized number whose
    value is the sum of the two numbers read in decimal, and likewise the
    difference for [a-b], the product for [a*b] and the power for [a^b]; for
    [a/b] and [a%b] it returns the quotient and the remainder when [b] is
    not zero, and when [b] is zero it fails after printing
    [Division by zero!].  Nothing else is printed and the flag stays
    false. *)
Theorem two_operand_expressions (a b : list ascii) :
  forallb isdigit a = true -> forallb isdigit b = true ->
  a <> [] -> b <> [] ->
  (exists r, eval_expression (a ++ "+"%char :: b) quiet = (Done r, quiet)
             /\ normalized r /\ value r = dec_value a + dec_value b)
  /\ (exists r, eval_expression (a ++ "-"%char :: b) quiet = (Done r, quiet)
                /\ normalized r /\ value r = dec_value a - dec_value b)
  /\ (exists r, eval_expression (a ++ "*"%char :: b) quiet = (Done r, quiet)
                /\ normalized r /\ value r = dec_value a * dec_value b)
  /\ (exists r, eval_expression (a ++ "^"%char :: b) quiet = (Done r, quiet)
                /\ normalized r /\ value r = dec_value a ^ dec_value b)
  /\ (dec_value b <> 0 ->
      (exists r, eval_expression (a ++ "/"%char :: b) quiet = (Done r, quiet)
                 /\ normalized r /\ value r = dec_value a / dec_value b)
      /\ (exists r, eval_expression (a ++ "%"%char :: b) quiet = (Done r, quiet)
                    /\ normalized r
                    /\ value r = dec_value a mod dec_value b))
  /\ (dec_value b = 0 ->
      eval_expression (a ++ "/"%char :: b) quiet
      = (Failed, print_error division_by_zero quiet)
      /\ eval_expression (a ++ "%"%char :: b) quiet
         = (Failed, print_error division_by_zero quiet)).
Proof.
  intros Ha Hb Hane Hbne.
  destruct (literal_value a Ha Hane) as (x & Ex & Hx & Vx).
  destruct (literal_value b Hb Hbne) as (y & Ey & Hy & Vy).
  pose proof (dec_value_nonneg a) as Hxa. pose proof (dec_value_nonneg b) as Hyb.
  pose proof (sign_of_value y Hy) as Sy.
  rewrite <- Vx, <- Vy in *.
  assert (Hev : forall op, is_binary_operator op = true ->
            eval_expression (a ++ op :: b) quiet
            = match apply_operation [Some y; Some x] op quiet with
              | (Done (Some r :: _), w') => (Done r, w')
              | (Done _, w') => (Failed, w')
              | (r, w') => (abort r, w')
              end).
  { intros op Hop. rewrite (eval_two_operands a b op Ha Hb Hane Hbne Hop).
    rewrite Ex, Ey. reflexivity. }
  split; [|split; [|split; [|split; [|split]]]].
  - exists (bi_add x y). rewrite (Hev "+"%char eq_refl).
    split; [reflexivity|]. apply bi_add_spec; assumption.
  - exists (bi_sub x y). rewrite (Hev "-"%char eq_refl).
    split; [reflexivity|]. apply bi_sub_spec; assumption.
  - exists (bi_mul x y). rewrite (Hev "*"%char eq_refl).
    split; [reflexivity|]. apply bi_mul_spec; assumption.
  - destruct (bi_pow_value x y Hx Hy Hyb) as (r & Er & Nr & Vr); [lia|].
    exists r. rewrite (Hev "^"%char eq_refl).
    unfold apply_operation. simpl is_char. simpl orb. cbv iota.
    unfold lift2. rewrite Er. split; [reflexivity|]. split; assumption.
  - intros Hy0. assert (sign y <> 0) as Hs by lia.
    assert ((sign y =? 0) = false) as Es by (apply Z.eqb_neq; exact Hs).
    split.
    + destruct (bi_div_spec x y Hx Hy Hs) as (q & Eq & Nq & Vq).
      exists q. rewrite (Hev "/"%char eq_refl).
      unfold apply_operation. simpl is_char. simpl orb. cbv iota.
      rewrite Es. unfold lift2. rewrite Eq.
      split; [reflexivity|]. split; [exact Nq|].
      rewrite Vq. apply Z.quot_div_nonneg; lia.
    + destruct (bi_mod_spec x y Hx Hy Hs) as (m & Em & Nm & Vm & _).
      exists m. rewrite (Hev "%"%char eq_refl).
      unfold apply_operation. simpl is_char. simpl orb. cbv iota.
      rewrite Es. unfold lift2. rewrite Em.
      split; [reflexivity|]. split; [exact Nm|].
      rewrite Vm. apply Z.rem_mod_nonneg; lia.
  - intros Hy0. assert ((sign y =? 0) = true) as Es by (apply Z.eqb_eq; lia).
    split.
    + rewrite (Hev "/"%char eq_refl).
      unfold apply_operation. simpl is_char. simpl orb. cbv iota.
      rewrite Es. reflexivity.
    + rewrite (Hev "%"%char eq_refl).
      unfold apply_operation. simpl is_char. simpl orb. cbv iota.
      rewrite Es. reflexivity.
Qed.

Lemma two_operand_expressions_witness :
  exists r, eval_expression (lit "12" ++ "-"%char :: lit "345") quiet
            = (Done r, quiet)
            /\ normalized r
            /\ value r = dec_value (lit "12") - dec_value (lit "345").
Proof.
  apply (two_operand_expressions (lit "12") (lit "345"));
    first [reflexivity | discriminate].
Defined.


(** * Hexadecimal literals *)

Lemma hex_value_xdigit c :
  (isxdigit c = true -> 0 <= hex_value c < 16)
  /\ (isxdigit c = false -> hex_value c = -1).
Proof.
  destruct c as [[] [] [] [] [] [] [] []]; split; intros H;
    first [discriminate H | reflexivity
          | (vm_compute; split; [discriminate|reflexivity])].
Qed.

Lemma xdigit_not_nul c : isxdigit c = true -> negb (Ascii.eqb c NUL) = true.
Proof.
  intros H. destruct (Ascii.eqb c NUL) eqn:E; [|reflexivity].
  apply Ascii.eqb_eq in E. subst c. discriminate H.
Qed.

Lemma strlen_xdigits s : forallb isxdigit s = true -> strlen s = Datatypes.length s.
Proof.
  intros H. apply strlen_no_nul. rewrite forallb_forall in *.
  intros c Hc. apply xdigit_not_nul, H, Hc.
Qed.

Lemma hex_digits_value_fold s : forall acc,
  fold_left (fun acc c => 16 * acc + hex_value c) s acc
  = acc * 16 ^ Z.of_nat (Datatypes.length s) + hex_digits_value s.
Proof.
  unfold hex_digits_value. induction s as [|c s IH]; intros acc.
  - simpl. lia.
  - cbn [fold_left]. rewrite IH, (IH (16 * 0 + hex_value c)).
    replace (Z.of_nat (Datatypes.length (c :: s)))
      with (1 + Z.of_nat (Datatypes.length s)) by (simpl; lia).
    rewrite Z.pow_add_r by lia. lia.
Qed.

Lemma hex_digits_value_cons c s :
  hex_digits_value (c :: s)
  = hex_value c * 16 ^ Z.of_nat (Datatypes.length s) + hex_digits_value s.
Proof.
  unfold hex_digits_value at 1. cbn [fold_left]. rewrite hex_digits_value_fold.
  lia.
Qed.

Lemma hex_digits_value_app u v :
  hex_digits_value (u ++ v)
  = hex_digits_value u * 16 ^ Z.of_nat (Datatypes.length v) + hex_digits_value v.
Proof.
  unfold hex_digits_value at 1. rewrite fold_left_app.
  fold (hex_digits_value u). apply hex_digits_value_fold.
Qed.

Lemma hex_digits_value_bound s :
  forallb isxdigit s = true ->
  0 <= hex_digits_value s < 16 ^ Z.of_nat (Datatypes.length s).
Proof.
  induction s as [|c s IH]; intros H;
    [vm_compute; split; [discriminate|reflexivity]|].
  simpl in H. apply andb_prop in H as [Hc Hs]. specialize (IH Hs).
  rewrite hex_digits_value_cons.
  destruct (hex_value_xdigit c) as [Hv _]. specialize (Hv Hc).
  replace (Z.of_nat (Datatypes.length (c :: s)))
    with (1 + Z.of_nat (Datatypes.length s)) by (simpl; lia).
  rewrite Z.pow_add_r by lia. change (16 ^ 1) with 16.
  set (p := 16 ^ Z.of_nat (Datatypes.length s)) in *.
  assert (0 <= hex_value c * p) by (apply Z.mul_nonneg_nonneg; lia).
  assert (hex_value c * p <= 15 * p) by (apply Z.mul_le_mono_nonneg_r; lia).
  lia.
Qed.

Lemma pow16 k : 16 ^ k = 2 ^ (4 * k).
Proof.
  destruct (Z_lt_le_dec k 0) as [H|H].
  - rewrite !Z.pow_neg_r by lia. reflexivity.
  - change 16 with (2 ^ 4). rewrite <- Z.pow_mul_r by lia. reflexivity.
Qed.

(** Bits put above a number that fits below them add up. *)
Lemma lor_shifted lo hi k :
  0 <= k -> 0 <= lo < 2 ^ k -> 0 <= hi ->
  Z.lor lo (hi * 2 ^ k) = lo + hi * 2 ^ k.
Proof.
  intros Hk Hlo Hhi. apply lor_disjoint. apply Z.bits_inj'. intros t Ht.
  rewrite Z.land_spec, Z.bits_0.
  destruct (Z_lt_le_dec t k) as [Hlt|Hge].
  - rewrite Z.mul_pow2_bits_low by lia. apply andb_false_r.
  - destruct (Z.eq_dec lo 0) as [->|Hne]; [rewrite Z.bits_0; reflexivity|].
    rewrite (Z.bits_above_log2 lo t); [reflexivity|lia|].
    apply Z.log2_lt_pow2; [lia|].
    apply Z.lt_le_trans with (2 ^ k); [lia|apply Z.pow_le_mono_r; lia].
Qed.

(** The slice [s[i..i0)] of a string. *)
Lemma slice_cons (s : list ascii) i i0 :
  (0 < i <= i0)%nat -> (i0 <= Datatypes.length s)%nat ->
  take (i0 - (i - 1)) (drop (i - 1) s)
  = char_at s (i - 1) :: take (i0 - i) (drop i s).
Proof.
  intros Hi Hl. replace (i0 - (i - 1))%nat with (S (i0 - i)) by lia.
  rewrite (drop_S s (char_at s (i - 1)) (i - 1)).
  - replace (S (i - 1)) with i by lia. reflexivity.
  - unfold char_at.
    destruct (lookup_lt_is_Some_2 s (i - 1)%nat ltac:(lia)) as [x Hx].
    rewrite Hx. f_equal. symmetry. apply (nth_lookup_Some _ _ NUL _ Hx).
Qed.

(** The inner loop of [bi_from_hex] packs up to eight digits, taken from the
    right, into one word. *)
Lemma pack_word (s : list ascii) (i0 : nat) :
  forallb isxdigit s = true -> (i0 <= Datatypes.length s)%nat ->
  let m := Nat.min 8 i0 in
  exists sh,
    while_loop HEX_WIDTH
      (fun '(j, i, current_digit, shift) =>
         (j <? HEX_WIDTH)%nat && (0 <? i)%nat)
      (fun '(j, i, current_digit, shift) =>
         let i := (i - 1)%nat in
         let val := hex_value (char_at s i) in
         (S j, i, Z.lor current_digit (u32 (Z.shiftl val shift)), shift + 4))
      (O, i0, 0, 0)
    = (m, (i0 - m)%nat,
       hex_digits_value (take m (drop (i0 - m) s)), sh)
    /\ 0 <= hex_digits_value (take m (drop (i0 - m) s)) < 2 ^ 32.
Proof.
  intros Hx Hl m.
  set (P := fun st : nat * nat * Z * Z =>
    let '(j, i, cur, shift) := st in
    (j <= 8)%nat /\ (j <= i0)%nat /\ i = (i0 - j)%nat /\ shift = 4 * Z.of_nat j
    /\ cur = hex_digits_value (take j (drop (i0 - j) s))
    /\ 0 <= cur < 2 ^ (4 * Z.of_nat j)).
  while_rule P (fun st : nat * nat * Z * Z =>
                  let '(j, _, _, _) := st in (8 - j)%nat).
  { intros [[[j i] cur] shift] (Hj & Hji & Hi & Hsh & Hcur & Hb) Hc.
    apply andb_prop in Hc as [Hc1 Hc2]. apply Nat.ltb_lt in Hc1, Hc2.
    unfold HEX_WIDTH in Hc1. subst i shift. cbv beta iota zeta.
    split; [|lia]. unfold P.
    assert (Hval : 0 <= hex_value (char_at s (i0 - j - 1)) < 16).
    { apply hex_value_xdigit. apply char_at_forallb; [exact Hx|lia]. }
    assert (Hpow : 0 < 2 ^ (4 * Z.of_nat j)) by (apply Z.pow_pos_nonneg; lia).
    assert (Hle : 2 ^ (4 * Z.of_nat j) <= 2 ^ 28)
      by (apply Z.pow_le_mono_r; lia).
    rewrite Z.shiftl_mul_pow2 by lia.
    rewrite u32_small by (unfold is_limb; rewrite pow32; nia).
    rewrite lor_shifted by lia.
    split; [lia|]. split; [lia|]. split; [lia|]. split; [lia|].
    replace (i0 - S j)%nat with (i0 - j - 1)%nat by lia.
    replace (S j) with (i0 - (i0 - j - 1))%nat at 1 2 by lia.
    rewrite (slice_cons s (i0 - j) i0) by lia.
    replace (i0 - (i0 - j))%nat with j by lia.
    rewrite hex_digits_value_cons, length_take, length_drop.
    replace (Z.of_nat (j `min` (Datatypes.length s - (i0 - j)))) with (Z.of_nat j)
      by lia.
    rewrite pow16, <- Hcur. split; [lia|].
    replace (i0 - (i0 - j - 1))%nat with (S j) by lia.
    replace (4 * Z.of_nat (S j)) with (4 * Z.of_nat j + 4) by lia.
    rewrite Z.pow_add_r by lia. change (2 ^ 4) with 16. nia. }
  { unfold P. repeat split; try lia. }
  { unfold HEX_WIDTH. lia. }
  destruct (while_loop _ _ _ _) as [[[j i] cur] shift].
  destruct HP as (Hj & Hji & Hi & Hsh & Hcur & Hb).
  apply andb_false_iff in Hexit. unfold HEX_WIDTH in Hexit.
  assert (j = m) as ->.
  { unfold m. destruct Hexit as [E|E]; apply Nat.ltb_ge in E; lia. }
  exists shift. subst i cur. split; [reflexivity|].
  assert (2 ^ (4 * Z.of_nat m) <= 2 ^ 32) by (apply Z.pow_le_mono_r; lia).
  lia.
Qed.

Lemma words_needed n :
  (n <= 8 * ((n + 7) / 8) < n + 8)%nat.
Proof.
  pose proof (Nat.div_mod_eq (n + 7) 8).
  pose proof (Nat.mod_upper_bound (n + 7) 8 ltac:(lia)). lia.
Qed.

(** The outer loop of [bi_from_hex] fills the words with the unsigned value
    of the digits. *)
Lemma pack_words (s : list ascii) :
  forallb isxdigit s = true -> s <> [] ->
  let n := Datatypes.length s in
  let required := ((n + 7) / HEX_WIDTH)%nat in
  let num0 := mkBigInt 1 required
                (replicate (capacity (bi_resize bi_create required)) 0) in
  let '(_, _, num) :=
    while_loop n
      (fun '(i, digit_index, num) => (0 <? i)%nat)
      (fun '(i, digit_index, num) =>
         let '(_, i, current_digit, _) :=
           while_loop HEX_WIDTH
             (fun '(j, i, current_digit, shift) =>
                (j <? HEX_WIDTH)%nat && (0 <? i)%nat)
             (fun '(j, i, current_digit, shift) =>
                let i := (i - 1)%nat in
                let val := hex_value (char_at s i) in
                (S j, i,
                 Z.lor current_digit (u32 (Z.shiftl val shift)), shift + 4))
             (O, i, 0, 0) in
         (i, S digit_index, set_digit digit_index current_digit num))
      (n, O, num0) in
  well_formed num /\ length num = required /\ sign num = 1
  /\ magnitude num = hex_digits_value s.
Proof.
  intros Hx Hne n required num0.
  assert (1 <= n)%nat as Hn1 by (unfold n; destruct s; [contradiction|simpl; lia]).
  pose proof (words_needed n) as Hreq. fold HEX_WIDTH in Hreq.
  fold required in Hreq. unfold HEX_WIDTH in Hreq.
  pose proof (capacity_resize bi_create required) as Hcap.
  set (P := fun st : nat * nat * BigInt =>
    let '(i, di, num) := st in
    well_formed num /\ length num = required /\ sign num = 1
    /\ i = (n - 8 * di)%nat /\ (8 * di < n + 8)%nat
    /\ magnitude num = hex_digits_value (drop i s)
    /\ forall k, (di <= k)%nat -> digit num k = 0).
  while_rule P (fun st : nat * nat * BigInt => let '(i, _, _) := st in i).
  { intros [[i di] num] (Hw & Hlen & Hsg & Hi & Hdi & Hm & Hz) Hc.
    apply Nat.ltb_lt in Hc.
    destruct (pack_word s i Hx ltac:(unfold n in *; lia)) as (sh & -> & Hb).
    cbv beta iota zeta.
    set (m := Nat.min 8 i) in *.
    set (cur := hex_digits_value (take m (drop (i - m) s))) in *.
    assert (m <= i)%nat as Hmi by (unfold m; lia).
    assert (0 < m)%nat as Hm0 by (unfold m; lia).
    split; [|lia]. unfold P.
    assert (di < required)%nat as Hdr by lia.
    split; [apply well_formed_set_digit; [exact Hw|unfold is_limb; exact Hb]|].
    split; [exact Hlen|]. split; [exact Hsg|].
    split; [unfold m; lia|]. split; [lia|].
    split.
    - rewrite magnitude_set_digit by (destruct Hw; lia).
      rewrite (Hz di) by lia. rewrite Hm.
      assert (drop (i - m) s = take m (drop (i - m) s) ++ drop i s) as Hsplit.
      { rewrite <- (take_drop m (drop (i - m) s)) at 1. f_equal.
        rewrite drop_drop. f_equal. lia. }
      rewrite Hsplit, hex_digits_value_app, length_drop. fold cur.
      replace (Z.of_nat (Datatypes.length s - i)) with (8 * Z.of_nat di)
        by (unfold n in *; lia).
      rewrite pow16. replace (4 * (8 * Z.of_nat di)) with (32 * Z.of_nat di) by lia.
      lia.
    - intros k Hk. rewrite digit_set_digit_ne by lia. apply Hz. lia. }
  { unfold P. split.
    { split; [|apply Forall_replicate0].
      change (1 <= required
              <= Datatypes.length
                   (replicate (capacity (bi_resize bi_create required)) 0%Z))%nat.
      rewrite length_replicate. lia. }
    split; [reflexivity|]. split; [reflexivity|]. split; [lia|].
    split; [lia|]. split.
    - rewrite drop_ge by (unfold n; lia). unfold magnitude, limbs, num0. simpl.
      rewrite take_replicate. apply limbs_value_replicate0.
    - intros k _. unfold digit, num0. simpl. apply nth_replicate0. }
  { lia. }
  destruct (while_loop _ _ _ _) as [[i di] num].
  destruct HP as (Hw & Hlen & Hsg & Hi & Hdi & Hm & Hz).
  apply Nat.ltb_ge in Hexit. assert (i = O) as E by lia.
  rewrite E in Hm. simpl drop in Hm. tauto.
Qed.

(** The mask [0xFFFFFFFF << k] fills the bits from [k] up. *)
Lemma sign_mask d k :
  0 <= k < 32 -> 0 <= d < 2 ^ k ->
  Z.lor d (u32 (Z.shiftl 4294967295 k)) = d + 2 ^ 32 - 2 ^ k.
Proof.
  intros Hk Hd.
  assert (0 < 2 ^ k) as Hp by (apply Z.pow_pos_nonneg; lia).
  assert (2 ^ 32 = 2 ^ (32 - k) * 2 ^ k) as Hsplit
    by (rewrite <- Z.pow_add_r by lia; f_equal; lia).
  assert (0 < 2 ^ (32 - k)) by (apply Z.pow_pos_nonneg; lia).
  assert (u32 (Z.shiftl 4294967295 k) = (2 ^ (32 - k) - 1) * 2 ^ k) as ->.
  { rewrite Z.shiftl_mul_pow2 by lia. unfold u32. symmetry.
    apply (Z.mod_unique _ _ (2 ^ k - 1)); [left; nia|].
    change 4294967295 with (2 ^ 32 - 1). nia. }
  rewrite lor_shifted by lia. nia.
Qed.

Lemma set_sign_same n s : sign n = s -> set_sign s n = n.
Proof. intros <-. destruct n. reflexivity. Qed.

(** The value [bi_from_hex] returns for a string of hexadecimal digits. *)
Lemma bi_from_hex_value (s : list ascii) :
  s <> [] -> forallb isxdigit s = true ->
  exists r, bi_from_hex s = Some r /\ normalized r
            /\ value r = twos_complement_hex s.
Proof.
  intros Hne Hx.
  pose proof (pack_words s Hx Hne) as Hpack. cbv zeta in Hpack.
  pose proof (hex_digits_value_bound s Hx) as Hvb.
  unfold bi_from_hex. rewrite (strlen_xdigits s Hx).
  assert (Datatypes.length s <> O) as Hlen
    by (destruct s; [contradiction|discriminate]).
  apply Nat.eqb_neq in Hlen as Elen. rewrite Elen.
  assert (forallb (fun i => negb (hex_value (char_at s i) =? -1))
            (seq 0 (Datatypes.length s)) = true) as ->.
  { apply (forallb_char_at (fun c => negb (hex_value c =? -1))).
    apply forallb_forall. intros c Hc. rewrite forallb_forall in Hx.
    destruct (hex_value_xdigit c) as [Hv _]. specialize (Hv (Hx c Hc)).
    apply negb_true_iff, Z.eqb_neq. lia. }
  simpl negb. cbv iota. cbv zeta.
  set (n := Datatypes.length s) in *.
  set (required := ((n + 7) / HEX_WIDTH)%nat) in *.
  pose proof (words_needed n) as Hreq. fold HEX_WIDTH in Hreq.
  fold required in Hreq.
  destruct (while_loop n _ _ _) as [[i di] num].
  destruct Hpack as (Hw & Hl & Hsg & Hm).
  rewrite (set_sign_same num 1 Hsg).
  set (v := hex_digits_value s) in *.
  rewrite pow16 in Hvb.
  unfold twos_complement_hex. fold v. fold n.
  destruct (8 <=? hex_value (char_at s 0)) eqn:E8.
  - (* a leading digit of 8 or more: sign-extend, complement, add one *)
    set (bits_used := if (n mod HEX_WIDTH * 4 =? 0)%nat then 32%nat
                      else (n mod HEX_WIDTH * 4)%nat).
    set (r1 := if (bits_used <? 32)%nat
               then set_digit (length num - 1)
                      (Z.lor (digit num (length num - 1))
                         (u32 (Z.shiftl 4294967295 (Z.of_nat bits_used)))) num
               else num).
    assert (well_formed r1 /\ length r1 = required /\ sign r1 = 1
            /\ magnitude r1
               = v + 2 ^ (32 * Z.of_nat required) - 2 ^ (4 * Z.of_nat n))
      as (Hw1 & Hl1 & Hsg1 & Hm1).
    { pose proof (Nat.div_mod_eq n 8) as Hdm.
      pose proof (Nat.mod_upper_bound n 8 ltac:(lia)) as Hmod.
      unfold r1, bits_used, HEX_WIDTH in *.
      destruct (n mod 8 * 4 =? 0)%nat eqn:E0.
      - apply Nat.eqb_eq in E0. change (32 <? 32)%nat with false. cbv iota.
        split; [exact Hw|]. split; [exact Hl|]. split; [exact Hsg|].
        rewrite Hm. replace (4 * Z.of_nat n) with (32 * Z.of_nat required) by lia.
        lia.
      - apply Nat.eqb_neq in E0.
        assert ((n mod 8 * 4 <? 32)%nat = true) as -> by (apply Nat.ltb_lt; lia).
        set (bu := Z.of_nat (n mod 8 * 4)).
        assert (Hsplit : 4 * Z.of_nat n = 32 * Z.of_nat (required - 1) + bu)
          by (unfold bu; lia).
        assert (Hp : 0 < 2 ^ (32 * Z.of_nat (required - 1)))
          by (apply pow32_pos).
        assert (Hd : digit num (length num - 1)
                     = v / 2 ^ (32 * Z.of_nat (required - 1))
                     /\ 0 <= v / 2 ^ (32 * Z.of_nat (required - 1)) < 2 ^ bu).
        { rewrite digit_of_magnitude by (try exact Hw; lia).
          rewrite Hl, Hm.
          assert (0 <= v / 2 ^ (32 * Z.of_nat (required - 1)) < 2 ^ bu) as Hq.
          { split; [apply Z.div_pos; lia|].
            apply Z.div_lt_upper_bound; [lia|].
            rewrite <- Z.pow_add_r by (unfold bu; lia). rewrite <- Hsplit. lia. }
          split; [|exact Hq]. apply Z.mod_small.
          assert (2 ^ bu <= 2 ^ 32) by (apply Z.pow_le_mono_r; unfold bu; lia).
          lia. }
        destruct Hd as [Hd Hdb].
        rewrite Hd, sign_mask by (unfold bu in *; lia). fold bu.
        split; [apply well_formed_set_digit; [exact Hw|]|].
        { unfold is_limb.
          assert (0 < 2 ^ bu) by (apply Z.pow_pos_nonneg; unfold bu; lia).
          assert (2 ^ bu <= 2 ^ 32) by (apply Z.pow_le_mono_r; unfold bu; lia).
          lia. }
        split; [exact Hl|]. split; [exact Hsg|].
        rewrite magnitude_set_digit by (destruct Hw; lia).
        rewrite Hd, Hm, Hl, Hsplit, Z.pow_add_r by (unfold bu; lia).
        replace (32 * Z.of_nat required) with (32 * Z.of_nat (required - 1) + 32)
          by lia.
        rewrite Z.pow_add_r by lia. ring. }
    clearbody r1.
    destruct (invert_limbs_spec r1 Hw1) as (Hw2 & Hl2 & Hsg2 & _ & Hm2).
    match type of Hw2 with well_formed ?r => set (r2 := r) in * end.
    destruct (bi_add_digit_into_spec r2 1 Hw2) as (Hw3 & _ & Hm3 & Hsg3).
    { unfold is_limb. rewrite pow32. lia. }
    { lia. }
    { rewrite Hsg2, Hsg1. discriminate. }
    set (r3 := bi_add_digit_into r2 1) in *.
    eexists. split; [reflexivity|].
    assert (magnitude r3 = 2 ^ (4 * Z.of_nat n) - v) as Hm3'.
    { rewrite Hm3, Hm2, Hm1, Hl1. lia. }
    split.
    + apply normalized_normalize; [apply well_formed_set_sign; exact Hw3|].
      right. left. reflexivity.
    + rewrite value_normalize by (apply well_formed_set_sign; exact Hw3).
      unfold value. simpl sign. rewrite magnitude_set_sign, Hm3', pow16. lia.
  - eexists. split; [reflexivity|]. split.
    + apply normalized_normalize; [exact Hw|]. left. exact Hsg.
    + rewrite value_normalize by exact Hw. unfold value. rewrite Hsg, Hm. lia.
Qed.

(** X20: [bi_from_hex] returns [NULL] for the empty string and for a string
    with a character that is not a hexadecimal digit; a string of
    hexadecimal digits it reads in two's complement over four bits per digit:
    the unsigned value when the first digit is below 8, and the unsigned
    value minus 16^len when the first digit is 8 or more.  The result is
    normalized. *)
Theorem from_hex_twos_complement (s : list ascii) :
  (strlen s = O -> bi_from_hex s = None)
  /\ (forallb isxdigit (cstr s) = false -> bi_from_hex s = None)
  /\ (s <> [] -> forallb isxdigit s = true ->
      exists r, bi_from_hex s = Some r /\ normalized r
                /\ value r = twos_complement_hex s).
Proof.
  split; [|split].
  - intros H. unfold bi_from_hex. rewrite H. reflexivity.
  - intros H. unfold bi_from_hex.
    destruct (strlen s =? 0)%nat; [reflexivity|].
    assert (forallb (fun i => negb (hex_value (char_at s i) =? -1))
              (seq 0 (strlen s)) = false) as ->; [|reflexivity].
    destruct (forallb _ (seq 0 (strlen s))) eqn:E; [|reflexivity].
    rewrite <- H. symmetry. apply forallb_forall. intros c Hc.
    unfold cstr in Hc. apply (In_nth _ _ NUL) in Hc as (k & Hk & <-).
    rewrite length_take in Hk. pose proof (strlen_le s).
    rewrite forallb_forall in E. specialize (E k).
    rewrite nth_firstn.
    assert ((k <? strlen s)%nat = true) as -> by (apply Nat.ltb_lt; lia).
    fold (char_at s k).
    destruct (isxdigit (char_at s k)) eqn:Ex; [reflexivity|].
    destruct (hex_value_xdigit (char_at s k)) as [_ Hv].
    rewrite (Hv Ex) in E. discriminate E. apply in_seq. lia.
  - apply bi_from_hex_value.
Qed.

Lemma from_hex_twos_complement_witness :
  exists r, bi_from_hex (lit "ff80") = Some r /\ normalized r
            /\ value r = twos_complement_hex (lit "ff80").
Proof.
  apply (proj2 (proj2 (from_hex_twos_complement (lit "ff80"))));
    [discriminate|reflexivity].
Defined.


(** * Precedence and associativity *)

Lemma not_number_char_facts c :
  is_number_char c = false ->
  isdigit c = false /\ is_char c "x" = false /\ is_char c "X" = false
  /\ is_char c "b" = false /\ is_char c "B" = false.
Proof.
  intros H. destruct c as [[] [] [] [] [] [] [] []];
    try discriminate H; repeat split.
Qed.

(** The characters of a literal [d] that stands in [input] after [pre]. *)
Section Literal.
Variables (input pre d rest : list ascii).
Hypothesis Hin : input = pre ++ d ++ rest.
Hypothesis Hd : forallb isdigit d = true.
Hypothesis Hne : d <> [].
Hypothesis Hrest : is_number_char (char_at rest 0) = false.

Lemma literal_length :
  (0 < Datatypes.length d)%nat
  /\ (Datatypes.length pre + Datatypes.length d <= Datatypes.length input)%nat.
Proof.
  rewrite Hin, !length_app. destruct d; [contradiction|]. simpl. lia.
Qed.

Lemma literal_char k :
  (k < Datatypes.length d)%nat ->
  isdigit (char_at input (Datatypes.length pre + k)) = true.
Proof.
  intros Hk. rewrite Hin, char_at_app_r by lia.
  replace (Datatypes.length pre + k - Datatypes.length pre)%nat with k by lia.
  rewrite char_at_app_l by exact Hk. apply char_at_forallb; assumption.
Qed.

Lemma literal_stop :
  char_at input (Datatypes.length pre + Datatypes.length d) = char_at rest 0.
Proof.
  rewrite Hin, char_at_app_r by lia.
  replace (Datatypes.length pre + Datatypes.length d - Datatypes.length pre)%nat
    with (Datatypes.length d) by lia.
  rewrite char_at_app_r by lia. rewrite Nat.sub_diag. reflexivity.
Qed.

Lemma literal_second :
  is_char (char_at input (Datatypes.length pre + 1)) "x" = false
  /\ is_char (char_at input (Datatypes.length pre + 1)) "X" = false
  /\ is_char (char_at input (Datatypes.length pre + 1)) "b" = false
  /\ is_char (char_at input (Datatypes.length pre + 1)) "B" = false.
Proof.
  destruct literal_length as [Hl _].
  destruct (Nat.eq_dec (Datatypes.length d) 1%nat) as [E|E].
  - rewrite <- E at 1 2 3 4. rewrite literal_stop.
    destruct (not_number_char_facts _ Hrest) as (_ & H). exact H.
  - destruct (digit_facts2 _ (literal_char 1%nat ltac:(lia)))
      as (_&_&_&_&_&_&_&H1&H2&H3&H4). tauto.
Qed.

Lemma literal_scan (pred : ascii -> bool) :
  (forall c, isdigit c = true -> pred c = true) ->
  pred (char_at rest 0) = false ->
  scan pred input (Datatypes.length pre)
  = (Datatypes.length pre + Datatypes.length d)%nat.
Proof.
  intros Hp Hs. destruct literal_length as [_ Hl].
  apply scan_exact.
  - exact Hl.
  - intros k Hk.
    replace k with (Datatypes.length pre + (k - Datatypes.length pre))%nat by lia.
    apply Hp, literal_char. lia.
  - rewrite literal_stop. exact Hs.
Qed.

Lemma literal_token :
  take (Datatypes.length pre + Datatypes.length d - Datatypes.length pre)
    (drop (Datatypes.length pre) input) = d.
Proof.
  rewrite Hin, drop_app_length.
  replace (Datatypes.length pre + Datatypes.length d - Datatypes.length pre)%nat
    with (Datatypes.length d) by lia.
  apply take_app_length.
Qed.

(** The validator reads the literal in one round. *)
Lemma validate_literal lo pd :
  validate_step input (Datatypes.length pre, true, lo, pd)
  = Next ((Datatypes.length pre + Datatypes.length d)%nat, false, false, pd).
Proof.
  destruct literal_length as [Hl _].
  pose proof (literal_char O Hl) as H0. rewrite Nat.add_0_r in H0.
  destruct (digit_facts2 _ H0) as (Dn & Ds & _).
  destruct literal_second as (Nx & NX & Nb & NB).
  destruct (not_number_char_facts _ Hrest) as (Rd & _).
  unfold validate_step. rewrite Dn, Ds, H0, Nx, NX, Nb, NB.
  simpl negb. rewrite !andb_false_r. cbv iota.
  rewrite (literal_scan isdigit (fun c H => H) Rd). reflexivity.
Qed.

(** So does the evaluator, which pushes the number. *)
Lemma eval_literal cbs nums ops w :
  eval_step input (Datatypes.length pre, cbs, nums, ops, w)
  = Next ((Datatypes.length pre + Datatypes.length d)%nat, false,
          bi_from_str d :: nums, ops, w).
Proof.
  destruct literal_length as [Hl _].
  pose proof (literal_char O Hl) as H0. rewrite Nat.add_0_r in H0.
  destruct (digit_facts2 _ H0) as (Dn & Ds & _).
  unfold eval_step. rewrite Dn, Ds, H0. cbv zeta.
  rewrite (literal_scan is_number_char); [rewrite literal_token; reflexivity| |exact Hrest].
  intros c Hc. destruct (digit_facts2 c Hc) as (_&_&_&_&_& H &_). exact H.
Qed.
End Literal.

(** A binary operator that stands in [input] after [pre], which ends with a
    digit. *)
Section Operator.
Variables (input pre rest : list ascii) (p op : ascii).
Hypothesis Hin : input = (pre ++ [p]) ++ op :: rest.
Hypothesis Hp : isdigit p = true.
Hypothesis Hop : is_binary_operator op = true.

Lemma operator_char : char_at input (Datatypes.length (pre ++ [p])) = op.
Proof. rewrite Hin, char_at_app_r by lia. rewrite Nat.sub_diag. reflexivity. Qed.

Lemma operator_not_unary : is_unary input (Datatypes.length (pre ++ [p])) = false.
Proof.
  assert (Hlast : char_at input (Datatypes.length pre) = p).
  { rewrite Hin, <- app_assoc, char_at_app_r by lia. rewrite Nat.sub_diag.
    reflexivity. }
  destruct (digit_facts2 _ Hp) as (_ & Hs & Ho & Hpar & Hbang & _).
  unfold is_unary. rewrite length_app. simpl Datatypes.length.
  rewrite (prev_non_space_found input _ (Datatypes.length pre));
    [|lia|rewrite Hlast; exact Hs|intros k Hk; lia].
  assert ((0 <=? Z.of_nat (Datatypes.length pre)) = true) as ->
    by (apply Z.leb_le; lia).
  rewrite Nat2Z.id, Hlast, Hpar, Ho, Hbang. simpl.
  match goal with |- context [if ?c then _ else _] => destruct c end; reflexivity.
Qed.

Lemma validate_operator pd :
  validate_step input (Datatypes.length (pre ++ [p]), false, false, pd)
  = Next (S (Datatypes.length (pre ++ [p])), true, true, pd).
Proof.
  destruct (binary_operator_facts op Hop)
    as (On & Os & Od & Oo & Op & Oc & Ob & _).
  unfold validate_step. rewrite operator_char, On, Os, Od, Oo, Op, Oc, Ob.
  rewrite operator_not_unary, andb_false_r. reflexivity.
Qed.

Lemma eval_operator nums ops w :
  eval_step input (Datatypes.length (pre ++ [p]), false, nums, ops, w)
  = match drain_higher op ops nums w with
    | (Done (nums', ops'), w') =>
        Next (S (Datatypes.length (pre ++ [p])), true, nums', op :: ops', w')
    | (r, w') => Ret (abort r, w')
    end.
Proof.
  destruct (binary_operator_facts op Hop)
    as (On & Os & Od & Oo & Op & Oc & Ob & Onum & _ & _ & _ & _ & Oany & _).
  unfold eval_step. rewrite operator_char, On, Os, Od, Op, Oc, Oany.
  simpl andb. cbv iota. cbv zeta. rewrite Ob. reflexivity.
Qed.
End Operator.

Lemma digits_last d :
  forallb isdigit d = true -> d <> [] ->
  exists pre p, d = pre ++ [p] /\ isdigit p = true.
Proof.
  intros Hd Hne. destruct (exists_last Hne) as (pre & p & ->).
  exists pre, p. split; [reflexivity|].
  rewrite forallb_app in Hd. apply andb_prop in Hd as [_ Hd]. simpl in Hd.
  rewrite andb_true_r in Hd. exact Hd.
Qed.

Lemma validate_literal_at input pre d rest i lo pd :
  input = pre ++ d ++ rest -> i = Datatypes.length pre ->
  forallb isdigit d = true -> d <> [] ->
  is_number_char (char_at rest 0) = false ->
  validate_step input (i, true, lo, pd)
  = Next ((i + Datatypes.length d)%nat, false, false, pd).
Proof. intros Hin -> Hd Hne Hr. apply (validate_literal input pre d rest); assumption. Qed.

Lemma eval_literal_at input pre d rest i cbs nums ops w :
  input = pre ++ d ++ rest -> i = Datatypes.length pre ->
  forallb isdigit d = true -> d <> [] ->
  is_number_char (char_at rest 0) = false ->
  eval_step input (i, cbs, nums, ops, w)
  = Next ((i + Datatypes.length d)%nat, false, bi_from_str d :: nums, ops, w).
Proof. intros Hin -> Hd Hne Hr. apply (eval_literal input pre d rest); assumption. Qed.

Lemma validate_operator_at input pre d op rest i pd :
  input = pre ++ d ++ op :: rest ->
  i = (Datatypes.length pre + Datatypes.length d)%nat ->
  forallb isdigit d = true -> d <> [] -> is_binary_operator op = true ->
  validate_step input (i, false, false, pd) = Next (S i, true, true, pd).
Proof.
  intros Hin -> Hd Hne Hop. destruct (digits_last d Hd Hne) as (d' & p & -> & Hp).
  replace (Datatypes.length pre + Datatypes.length (d' ++ [p]))%nat
    with (Datatypes.length ((pre ++ d') ++ [p]))
    by (rewrite !length_app; simpl; lia).
  apply (validate_operator input (pre ++ d') rest p op); try assumption.
  rewrite Hin, <- !app_assoc. reflexivity.
Qed.

Lemma eval_operator_at input pre d op rest i nums ops w :
  input = pre ++ d ++ op :: rest ->
  i = (Datatypes.length pre + Datatypes.length d)%nat ->
  forallb isdigit d = true -> d <> [] -> is_binary_operator op = true ->
  eval_step input (i, false, nums, ops, w)
  = match drain_higher op ops nums w with
    | (Done (nums', ops'), w') => Next (S i, true, nums', op :: ops', w')
    | (r, w') => Ret (abort r, w')
    end.
Proof.
  intros Hin -> Hd Hne Hop. destruct (digits_last d Hd Hne) as (d' & p & -> & Hp).
  replace (Datatypes.length pre + Datatypes.length (d' ++ [p]))%nat
    with (Datatypes.length ((pre ++ d') ++ [p]))
    by (rewrite !length_app; simpl; lia).
  apply (eval_operator input (pre ++ d') rest p op); try assumption.
  rewrite Hin, <- !app_assoc. reflexivity.
Qed.

Lemma run_loop_next_pos {St R : Type} (step : St -> ctl St R) fuel s s' :
  (0 < fuel)%nat -> step s = Next s' ->
  run_loop fuel step s = run_loop (fuel - 1) step s'.
Proof.
  intros Hf H. destruct fuel as [|fuel]; [lia|].
  replace (S fuel - 1)%nat with fuel by lia. apply run_loop_next, H.
Qed.

Lemma run_loop_break_pos {St R : Type} (step : St -> ctl St R) fuel s s' :
  (0 < fuel)%nat -> step s = Break s' -> run_loop fuel step s = Break s'.
Proof.
  intros Hf H. destruct fuel as [|fuel]; [lia|]. apply run_loop_break, H.
Qed.

Lemma run_loop_ret_pos {St R : Type} (step : St -> ctl St R) fuel s r :
  (0 < fuel)%nat -> step s = Ret r -> run_loop fuel step s = Ret r.
Proof.
  intros Hf H. destruct fuel as [|fuel]; [lia|]. cbn [run_loop]. rewrite H.
  reflexivity.
Qed.

Lemma binary_operator_not_number op :
  is_binary_operator op = true ->
  is_number_char op = false /\ Ascii.eqb op NUL = false.
Proof.
  intros H. destruct (binary_operator_facts op H) as (Hn &_&_&_&_&_&_& Hnum &_).
  split; [exact Hnum|exact Hn].
Qed.

Section ThreeOperands.
Variables (a b c : list ascii) (o1 o2 : ascii).
Hypothesis Ha : forallb isdigit a = true.
Hypothesis Hb : forallb isdigit b = true.
Hypothesis Hc : forallb isdigit c = true.
Hypothesis Hane : a <> [].
Hypothesis Hbne : b <> [].
Hypothesis Hcne : c <> [].
Hypothesis Ho1 : is_binary_operator o1 = true.
Hypothesis Ho2 : is_binary_operator o2 = true.

Let input := a ++ o1 :: b ++ o2 :: c.
Let la := Datatypes.length a.
Let lb := Datatypes.length b.
Let lc := Datatypes.length c.

Lemma three_lengths :
  (0 < la)%nat /\ (0 < lb)%nat /\ (0 < lc)%nat
  /\ Datatypes.length input = (la + lb + lc + 2)%nat.
Proof.
  unfold la, lb, lc, input. rewrite length_app. simpl. rewrite length_app. simpl.
  destruct a; [contradiction|]. destruct b; [contradiction|].
  destruct c; [contradiction|]. simpl. lia.
Qed.

Lemma three_strlen : strlen input = (la + lb + lc + 2)%nat.
Proof.
  destruct three_lengths as (_ & _ & _ & <-). apply strlen_no_nul.
  assert (Hd : forall s, forallb isdigit s = true ->
            forallb (fun c => negb (Ascii.eqb c NUL)) s = true).
  { intros s Hs. apply forallb_forall. intros x Hx. rewrite forallb_forall in Hs.
    apply isdigit_not_nul, Hs, Hx. }
  destruct (binary_operator_not_number o1 Ho1) as [_ N1].
  destruct (binary_operator_not_number o2 Ho2) as [_ N2].
  unfold input. rewrite forallb_app. simpl. rewrite forallb_app. simpl.
  rewrite (Hd a Ha), (Hd b Hb), (Hd c Hc), N1, N2. reflexivity.
Qed.

Lemma three_end : char_at input (la + lb + lc + 2) = NUL.
Proof.
  destruct three_lengths as (_ & _ & _ & Hl). unfold char_at.
  apply nth_overflow. rewrite <- Hl. unfold input. lia.
Qed.

Lemma three_last : isdigit (char_at input (la + lb + lc + 2 - 1)) = true.
Proof.
  destruct three_lengths as (_ & _ & Hlc & _).
  assert (input = (a ++ o1 :: b ++ [o2]) ++ c ++ []) as Hin.
  { unfold input. rewrite app_nil_r, <- !app_assoc. simpl.
    rewrite <- !app_assoc. reflexivity. }
  replace (la + lb + lc + 2 - 1)%nat
    with (Datatypes.length (a ++ o1 :: b ++ [o2]) + (lc - 1))%nat.
  - apply (literal_char input _ c [] Hin Hc). unfold lc in *. lia.
  - rewrite length_app. simpl. rewrite length_app. simpl.
    unfold la, lb, lc in *. lia.
Qed.

Lemma validate_three_operands : validate_expression_syntax input = true.
Proof.
  destruct three_lengths as (Hla & Hlb & Hlc & Hl).
  destruct (binary_operator_not_number o1 Ho1) as [M1 _].
  destruct (binary_operator_not_number o2 Ho2) as [M2 _].
  unfold validate_expression_syntax. rewrite three_strlen.
  rewrite (run_loop_next_pos _ _ _ (la, false, false, 0)); [|lia|].
  2:{ apply (validate_literal_at input [] a (o1 :: b ++ o2 :: c));
        try assumption; reflexivity. }
  rewrite (run_loop_next_pos _ _ _ (S la, true, true, 0)); [|lia|].
  2:{ apply (validate_operator_at input [] a o1 (b ++ o2 :: c));
        try assumption; reflexivity. }
  rewrite (run_loop_next_pos _ _ _ ((S la + lb)%nat, false, false, 0)); [|lia|].
  2:{ apply (validate_literal_at input (a ++ [o1]) b (o2 :: c));
        try assumption.
      - unfold input. rewrite <- app_assoc. reflexivity.
      - rewrite length_app. simpl. unfold la. lia. }
  rewrite (run_loop_next_pos _ _ _ (S (S la + lb), true, true, 0)); [|lia|].
  2:{ apply (validate_operator_at input (a ++ [o1]) b o2 c); try assumption.
      - unfold input. rewrite <- app_assoc. reflexivity.
      - rewrite length_app. simpl. unfold la, lb. lia. }
  rewrite (run_loop_next_pos _ _ _
             ((S (S la + lb) + lc)%nat, false, false, 0)); [|lia|].
  2:{ apply (validate_literal_at input (a ++ o1 :: b ++ [o2]) c []);
        try assumption; try reflexivity.
      - unfold input. rewrite app_nil_r, <- !app_assoc. simpl.
        rewrite <- !app_assoc. reflexivity.
      - rewrite length_app. simpl. rewrite length_app. simpl.
        unfold la, lb. lia. }
  rewrite (run_loop_break_pos _ _ _
             ((S (S la + lb) + lc)%nat, false, false, 0)); [|lia|].
  2:{ unfold validate_step.
      replace (S (S la + lb) + lc)%nat with (la + lb + lc + 2)%nat by lia.
      rewrite three_end. reflexivity. }
  simpl negb. cbv iota.
  destruct (digit_facts2 _ three_last) as (_ & Ds & _ & _ & _ & _ & Dop & _).
  rewrite (trim_loop input (la + lb + lc + 2)); try lia.
  - rewrite Dop, andb_false_r. reflexivity.
  - right. exact Ds.
Qed.

(** [a o1 b o2 c] is evaluated as the shunting-yard loop orders the two
    operators: [o1] is applied before [o2] is pushed when [drain_higher]
    says so, and after it otherwise. *)
Lemma eval_three_operands (w : world) :
  eval_expression input w
  = match drain_higher o2 [o1] [bi_from_str b; bi_from_str a] w with
    | (Done (nums', ops'), w') =>
        match drain_all (o2 :: ops') (bi_from_str c :: nums') w' with
        | (Done (Some r :: _), w'') => (Done r, w'')
        | (Done _, w'') => (Failed, w'')
        | (r, w'') => (abort r, w'')
        end
    | (r, w') => (abort r, w')
    end.
Proof.
  destruct three_lengths as (Hla & Hlb & Hlc & Hl).
  destruct (binary_operator_not_number o1 Ho1) as [M1 _].
  destruct (binary_operator_not_number o2 Ho2) as [M2 _].
  unfold eval_expression. rewrite validate_three_operands. simpl negb. cbv iota.
  rewrite three_strlen.
  rewrite (run_loop_next_pos (eval_step input) _ _
             (la, false, [bi_from_str a], [], w)); [|lia|].
  2:{ apply (eval_literal_at input [] a (o1 :: b ++ o2 :: c));
        try assumption; reflexivity. }
  rewrite (run_loop_next_pos (eval_step input) _ _
             (S la, true, [bi_from_str a], [o1], w)); [|lia|].
  2:{ rewrite (eval_operator_at input [] a o1 (b ++ o2 :: c));
        try assumption; reflexivity. }
  rewrite (run_loop_next_pos (eval_step input) _ _
             ((S la + lb)%nat, false, [bi_from_str b; bi_from_str a], [o1], w));
    [|lia|].
  2:{ apply (eval_literal_at input (a ++ [o1]) b (o2 :: c)); try assumption.
      - unfold input. rewrite <- app_assoc. reflexivity.
      - rewrite length_app. simpl. unfold la. lia. }
  assert (Hstep : eval_step input
                    ((S la + lb)%nat, false, [bi_from_str b; bi_from_str a],
                     [o1], w)
                  = match drain_higher o2 [o1] [bi_from_str b; bi_from_str a] w with
                    | (Done (nums', ops'), w') =>
                        Next (S (S la + lb), true, nums', o2 :: ops', w')
                    | (r, w') => Ret (abort r, w')
                    end).
  { apply (eval_operator_at input (a ++ [o1]) b o2 c); try assumption.
    - unfold input. rewrite <- app_assoc. reflexivity.
    - rewrite length_app. simpl. unfold la, lb. lia. }
  destruct (drain_higher o2 [o1] [bi_from_str b; bi_from_str a] w)
    as [[[nums' ops']| | |] w'].
  - erewrite (run_loop_next_pos (eval_step input)); [|lia|exact Hstep].
    rewrite (run_loop_next_pos (eval_step input) _ _
               ((S (S la + lb) + lc)%nat, false, bi_from_str c :: nums',
                o2 :: ops', w')); [|lia|].
    2:{ apply (eval_literal_at input (a ++ o1 :: b ++ [o2]) c []);
          try assumption; try reflexivity.
        - unfold input. rewrite app_nil_r, <- !app_assoc. simpl.
          rewrite <- !app_assoc. reflexivity.
        - rewrite length_app. simpl. rewrite length_app. simpl.
          unfold la, lb. lia. }
    rewrite (run_loop_break_pos (eval_step input) _ _
               ((S (S la + lb) + lc)%nat, false, bi_from_str c :: nums',
                o2 :: ops', w')); [reflexivity|lia|].
    unfold eval_step.
    replace (S (S la + lb) + lc)%nat with (la + lb + lc + 2)%nat by lia.
    rewrite three_end. reflexivity.
  - erewrite (run_loop_ret_pos (eval_step input)); [reflexivity|lia|exact Hstep].
  - erewrite (run_loop_ret_pos (eval_step input)); [reflexivity|lia|exact Hstep].
  - erewrite (run_loop_ret_pos (eval_step input)); [reflexivity|lia|exact Hstep].
Qed.
End ThreeOperands.

Lemma apply_add x y rest w :
  apply_operation (Some y :: Some x :: rest) "+" w
  = (Done (Some (bi_add x y) :: rest), w).
Proof. reflexivity. Qed.

Lemma apply_sub x y rest w :
  apply_operation (Some y :: Some x :: rest) "-" w
  = (Done (Some (bi_sub x y) :: rest), w).
Proof. reflexivity. Qed.

Lemma apply_mul x y rest w :
  apply_operation (Some y :: Some x :: rest) "*" w
  = (Done (Some (bi_mul x y) :: rest), w).
Proof. reflexivity. Qed.

Lemma apply_pow x y r rest w :
  bi_pow x y = Some r ->
  apply_operation (Some y :: Some x :: rest) "^" w = (Done (Some r :: rest), w).
Proof.
  intros H. unfold apply_operation. simpl is_char. simpl orb. cbv iota.
  unfold lift2. rewrite H. reflexivity.
Qed.

(** X21: precedence and associativity.  For decimal literals [a], [b] and
    [c], [eval_expression] multiplies before it adds ([a+b*c] is
    a + (b * c) and [a*b+c] is (a * b) + c), subtracts and adds from left to
    right ([a-b-c] is (a - b) - c and [a-b+c] is (a - b) + c), raises to a
    power before it multiplies ([a*b^c] is a * (b ^ c)) and takes powers
    from right to left ([a^b^c] is a ^ (b ^ c)).  The result is normalized,
    nothing is printed and the flag stays false. *)
Theorem precedence_and_associativity (a b c : list ascii) :
  forallb isdigit a = true -> forallb isdigit b = true ->
  forallb isdigit c = true -> a <> [] -> b <> [] -> c <> [] ->
  (exists r, eval_expression (a ++ "+"%char :: b ++ "*"%char :: c) quiet
             = (Done r, quiet) /\ normalized r
             /\ value r = dec_value a + dec_value b * dec_value c)
  /\ (exists r, eval_expression (a ++ "*"%char :: b ++ "+"%char :: c) quiet
                = (Done r, quiet) /\ normalized r
                /\ value r = dec_value a * dec_value b + dec_value c)
  /\ (exists r, eval_expression (a ++ "-"%char :: b ++ "-"%char :: c) quiet
                = (Done r, quiet) /\ normalized r
                /\ value r = dec_value a - dec_value b - dec_value c)
  /\ (exists r, eval_expression (a ++ "-"%char :: b ++ "+"%char :: c) quiet
                = (Done r, quiet) /\ normalized r
                /\ value r = dec_value a - dec_value b + dec_value c)
  /\ (exists r, eval_expression (a ++ "*"%char :: b ++ "^"%char :: c) quiet
                = (Done r, quiet) /\ normalized r
                /\ value r = dec_value a * dec_value b ^ dec_value c)
  /\ (exists r, eval_expression (a ++ "^"%char :: b ++ "^"%char :: c) quiet
                = (Done r, quiet) /\ normalized r
                /\ value r = dec_value a ^ (dec_value b ^ dec_value c)).
Proof.
  intros Ha Hb Hc Hane Hbne Hcne.
  destruct (literal_value a Ha Hane) as (x & Ex & Hx & Vx).
  destruct (literal_value b Hb Hbne) as (y & Ey & Hy & Vy).
  destruct (literal_value c Hc Hcne) as (z & Ez & Hz & Vz).
  pose proof (dec_value_nonneg a) as Hxa. pose proof (dec_value_nonneg b) as Hyb.
  pose proof (dec_value_nonneg c) as Hzc.
  rewrite <- Vx, <- Vy, <- Vz in *.
  assert (Hev : forall o1 o2, is_binary_operator o1 = true ->
            is_binary_operator o2 = true ->
            eval_expression (a ++ o1 :: b ++ o2 :: c) quiet
            = match drain_higher o2 [o1] [Some y; Some x] quiet with
              | (Done (nums', ops'), w') =>
                  match drain_all (o2 :: ops') (Some z :: nums') w' with
                  | (Done (Some r :: _), w'') => (Done r, w'')
                  | (Done _, w'') => (Failed, w'')
                  | (r, w'') => (abort r, w'')
                  end
              | (r, w') => (abort r, w')
              end).
  { intros o1 o2 H1 H2.
    rewrite (eval_three_operands a b c o1 o2 Ha Hb Hc Hane Hbne Hcne H1 H2).
    rewrite Ex, Ey, Ez. reflexivity. }
  destruct (bi_add_spec x y Hx Hy) as [Nadd Vadd].
  destruct (bi_sub_spec x y Hx Hy) as [Nsub Vsub].
  destruct (bi_mul_spec x y Hx Hy) as [Nxy Vxy].
  destruct (bi_mul_spec y z Hy Hz) as [Nyz Vyz].
  destruct (bi_pow_value y z Hy Hz Hzc ltac:(lia)) as (p & Ep & Np & Vp).
  assert (0 <= value p) as Hp0 by (rewrite Vp; apply Z.pow_nonneg; lia).
  destruct (bi_pow_value x p Hx Np Hp0 ltac:(lia)) as (q & Eq & Nq & Vq).
  split; [|split; [|split; [|split; [|split]]]].
  - exists (bi_add x (bi_mul y z)). rewrite (Hev "+"%char "*"%char eq_refl eq_refl).
    split; [reflexivity|]. destruct (bi_add_spec x (bi_mul y z) Hx Nyz) as [N V].
    split; [exact N|]. rewrite V, Vyz. reflexivity.
  - exists (bi_add (bi_mul x y) z). rewrite (Hev "*"%char "+"%char eq_refl eq_refl).
    split; [reflexivity|]. destruct (bi_add_spec (bi_mul x y) z Nxy Hz) as [N V].
    split; [exact N|]. rewrite V, Vxy. reflexivity.
  - exists (bi_sub (bi_sub x y) z). rewrite (Hev "-"%char "-"%char eq_refl eq_refl).
    split; [reflexivity|]. destruct (bi_sub_spec (bi_sub x y) z Nsub Hz) as [N V].
    split; [exact N|]. rewrite V, Vsub. reflexivity.
  - exists (bi_add (bi_sub x y) z). rewrite (Hev "-"%char "+"%char eq_refl eq_refl).
    split; [reflexivity|]. destruct (bi_add_spec (bi_sub x y) z Nsub Hz) as [N V].
    split; [exact N|]. rewrite V, Vsub. reflexivity.
  - exists (bi_mul x p). rewrite (Hev "*"%char "^"%char eq_refl eq_refl).
    change (drain_higher "^" ["*"%char] [Some y; Some x] quiet)
      with (Done ([Some y; Some x], ["*"%char]), quiet).
    cbn [drain_all]. rewrite (apply_pow y z p _ _ Ep). rewrite apply_mul.
    split; [reflexivity|]. destruct (bi_mul_spec x p Hx Np) as [N V].
    split; [exact N|]. rewrite V, Vp. reflexivity.
  - exists q. rewrite (Hev "^"%char "^"%char eq_refl eq_refl).
    change (drain_higher "^" ["^"%char] [Some y; Some x] quiet)
      with (Done ([Some y; Some x], ["^"%char]), quiet).
    cbn [drain_all]. rewrite (apply_pow y z p _ _ Ep).
    rewrite (apply_pow x p q _ _ Eq).
    split; [reflexivity|]. split; [exact Nq|]. rewrite Vq, Vp. reflexivity.
Qed.

Lemma precedence_and_associativity_witness :
  exists r, eval_expression (lit "2" ++ "+"%char :: lit "3" ++ "*"%char :: lit "4")
              quiet = (Done r, quiet)
            /\ normalized r
            /\ value r = dec_value (lit "2") + dec_value (lit "3") * dec_value (lit "4").
Proof.
  apply (precedence_and_associativity (lit "2") (lit "3") (lit "4"));
    first [reflexivity | discriminate].
Defined.


(** * Binary output read back *)

(** The loop of [bi_from_bin] that shifts the digits in. *)
Lemma from_bin_accumulate (s : list ascii) :
  let n := Datatypes.length s in
  let res0 := set_sign 1 (bi_resize bi_create ((n + 32 - 1) / 32)) in
  let res :=
    for_loop n
      (fun i res =>
         let res := bi_shift_left_one res in
         if Ascii.eqb (char_at s i) "1"
         then set_sign 1 (set_digit O (Z.lor (digit res O) 1) res)
         else res)
      res0 in
  well_formed res /\ sign res = 1 /\ magnitude res = bits_value s.
Proof.
  intros n res0.
  assert (well_formed res0) as Hwf0
    by (apply well_formed_set_sign, well_formed_resize, well_formed_create).
  assert (magnitude res0 = 0) as Hm0.
  { unfold res0. rewrite magnitude_set_sign. unfold magnitude.
    rewrite limbs_resize by (vm_compute; lia). reflexivity. }
  set (P := fun (i : nat) (res : BigInt) =>
    well_formed res /\ sign res = 1 /\ magnitude res = bits_value (take i s)).
  for_rule_at P n res0.
  { unfold P. split; [exact Hwf0|]. split; [reflexivity|]. exact Hm0. }
  { intros i res Hi (Hw & Hsg & Hm). unfold P.
    destruct (bi_shift_left_one_spec res Hw) as (Hw1 & Hsg1 & Hm1 & _).
    rewrite Hsg in Hm1. change (1 =? 0) with false in Hm1. cbv iota in Hm1.
    set (r1 := bi_shift_left_one res) in *.
    rewrite take_S_char_at by (fold n; lia). rewrite bits_value_snoc.
    unfold bit_of, is_char.
    destruct (Ascii.eqb (char_at s i) "1") eqn:Ec; [|split; [exact Hw1|lia]].
    assert (digit r1 O = 2 * (digit r1 O / 2)) as Heven
      by (apply (digit0_even r1 (magnitude res) Hw1); lia).
    pose proof (digit_is_limb r1 O Hw1) as Hd0. unfold is_limb in Hd0.
    rewrite pow32 in Hd0.
    rewrite Heven, lor_bit0 by (right; reflexivity). rewrite <- Heven.
    split; [apply well_formed_set_sign, well_formed_set_digit; [exact Hw1|]|].
    { unfold is_limb. rewrite pow32. lia. }
    split; [reflexivity|].
    rewrite magnitude_set_sign, magnitude_set_digit by (destruct Hw1; lia).
    change (32 * Z.of_nat 0) with 0. rewrite Z.pow_0_r. lia. }
  destruct HP as (Hw & Hsg & Hm). rewrite take_ge in Hm by (fold n; lia).
  split; [exact Hw|]. split; [exact Hsg|exact Hm].
Qed.

(** The value [bi_from_bin] returns for a string of binary digits. *)
Lemma bi_from_bin_value (s : list ascii) :
  s <> [] -> forallb is_bit_char s = true ->
  exists r, bi_from_bin s = Some r /\ normalized r
            /\ value r = twos_complement s.
Proof.
  intros Hne Hbits.
  pose proof (from_bin_accumulate s) as Hacc. cbv zeta in Hacc.
  unfold bi_from_bin. rewrite (bits_no_prefix s Hbits).
  rewrite (strlen_bits s Hbits).
  pose proof (forallb_char_at is_bit_char s Hbits) as Hchk.
  unfold is_bit_char, is_char in Hchk. rewrite Hchk. simpl negb. cbv iota.
  assert (Datatypes.length s <> O) as Hlen
    by (destruct s; [contradiction|discriminate]).
  apply Nat.eqb_neq in Hlen as Elen. rewrite Elen. apply Nat.eqb_neq in Elen.
  cbv zeta.
  set (n := Datatypes.length s) in *.
  set (res := for_loop n _ _) in *.
  destruct Hacc as (Hw & Hsg & Hm).
  pose proof (bits_value_bound s) as Hvb. fold n in Hvb.
  unfold twos_complement, is_char.
  destruct (Ascii.eqb (char_at s 0) "1") eqn:E1.
  - assert (2 ^ (Z.of_nat n - 1) <= bits_value s) as Hlead.
    { destruct s as [|c s']; [contradiction|]. unfold char_at in E1. simpl in E1.
      rewrite bits_value_cons. unfold bit_of, is_char. rewrite E1.
      pose proof (bits_value_bound s'). unfold n. simpl Datatypes.length.
      replace (Z.of_nat (S (Datatypes.length s')) - 1)
        with (Z.of_nat (Datatypes.length s')) by lia. lia. }
    assert (n <= 32 * length res)%nat as Hn32.
    { pose proof (magnitude_bound res Hw) as Hb. rewrite Hm in Hb.
      assert (Z.of_nat n - 1 < 32 * Z.of_nat (length res)) as Hlt
        by (apply (Z.pow_lt_mono_r_iff 2); lia). lia. }
    destruct (sign_extend_spec res n (bits_value s) Hw Hm Hvb Hn32)
      as (Hw1 & Hl1 & Hsg1 & Hm1).
    match type of Hw1 with well_formed ?r => set (r1 := r) in * end.
    destruct (invert_limbs_spec r1 Hw1) as (Hw2 & Hl2 & Hsg2 & _ & Hm2).
    match type of Hw2 with well_formed ?r => set (r2 := r) in * end.
    destruct (bi_add_digit_into_spec r2 1 Hw2) as (Hw3 & _ & Hm3 & Hsg3).
    { unfold is_limb. rewrite pow32. lia. }
    { lia. }
    { rewrite Hsg2, Hsg1, Hsg. discriminate. }
    set (r3 := bi_add_digit_into r2 1) in *.
    eexists. split; [reflexivity|].
    assert (magnitude r3 = 2 ^ Z.of_nat n - bits_value s) as Hm3'
      by (rewrite Hm3, Hm2, Hm1, Hl1; lia).
    split.
    + apply normalized_normalize; [apply well_formed_set_sign; exact Hw3|].
      right. left. reflexivity.
    + rewrite value_normalize by (apply well_formed_set_sign; exact Hw3).
      unfold value. simpl sign. rewrite magnitude_set_sign, Hm3'.
      fold n. lia.
  - eexists. split; [reflexivity|]. split.
    + apply normalized_normalize; [exact Hw|]. left. exact Hsg.
    + rewrite value_normalize by exact Hw. unfold value. rewrite Hsg, Hm. lia.
Qed.


(** The digits [bi_to_bin] writes for the bits [L-1 .. 0] of [m]. *)
Lemma bit_string (m : Z) (L : nat) :
  let bs := map (fun i => if (m / 2 ^ Z.of_nat i) mod 2 =? 0
                          then "0"%char else "1"%char) (rev (seq 0 L)) in
  forallb is_bit_char bs = true /\ Datatypes.length bs = L
  /\ bits_value bs = m mod 2 ^ Z.of_nat L.
Proof.
  induction L as [|L IH]; cbv zeta.
  - split; [reflexivity|]. split; [reflexivity|].
    change (2 ^ Z.of_nat 0) with 1. rewrite Z.mod_1_r. reflexivity.
  - destruct IH as (Hall & Hlen & Hval).
    rewrite seq_S, rev_app_distr. cbn [rev app map Nat.add].
    split; [|split].
    + cbn [forallb]. rewrite Hall.
      destruct ((m / 2 ^ Z.of_nat L) mod 2 =? 0); reflexivity.
    + cbn [Datatypes.length]. rewrite Hlen. reflexivity.
    + rewrite bits_value_cons, Hlen, Hval.
      replace (Z.of_nat (S L)) with (Z.of_nat L + 1) by lia.
      rewrite Z.pow_add_r by lia. change (2 ^ 1) with 2.
      rewrite Z.rem_mul_r by lia.
      pose proof (Z.mod_pos_bound (m / 2 ^ Z.of_nat L) 2 ltac:(lia)) as Hb.
      unfold bit_of, is_char.
      destruct ((m / 2 ^ Z.of_nat L) mod 2 =? 0) eqn:E;
        [apply Z.eqb_eq in E|apply Z.eqb_neq in E].
      * change (Ascii.eqb "0" "1") with false. cbv iota. rewrite E. lia.
      * change (Ascii.eqb "1" "1") with true. cbv iota.
        replace ((m / 2 ^ Z.of_nat L) mod 2) with 1 by lia. lia.

Qed.

Lemma drop_char_at (s : list ascii) i :
  (i < Datatypes.length s)%nat -> drop i s = char_at s i :: drop (S i) s.
Proof.
  intros Hi. destruct (lookup_lt_is_Some_2 s i Hi) as [c Hc].
  rewrite (drop_S s c i Hc). f_equal. unfold char_at. symmetry.
  apply nth_lookup_Some. exact Hc.
Qed.

Lemma char_at_inside (s : list ascii) i :
  char_at s i <> NUL -> (i < Datatypes.length s)%nat.
Proof.
  intros H. destruct (Nat.lt_ge_cases i (Datatypes.length s)) as [Hlt|Hge];
    [exact Hlt|]. exfalso. apply H. unfold char_at. apply nth_overflow. exact Hge.
Qed.

Lemma forallb_drop {A} (f : A -> bool) (s : list A) i :
  forallb f s = true -> forallb f (drop i s) = true.
Proof.
  intros H. rewrite <- (take_drop i s), forallb_app in H.
  apply andb_true_iff in H. apply H.
Qed.

Lemma while_loop_skip {St : Type} (cond : St -> bool) (body : St -> St) fuel s :
  cond s = false -> while_loop fuel cond body s = s.
Proof. intros H. destruct fuel; simpl; [reflexivity|]. rewrite H. reflexivity. Qed.

(** The loop of [bi_to_bin] that drops repeated leading ones keeps the
    number the digits denote in two's complement. *)
Lemma leading_ones_strip (B : list ascii) fuel :
  forallb is_bit_char B = true -> char_at B 0 = "1"%char ->
  let start :=
    while_loop fuel
      (fun start => Ascii.eqb (char_at B start) "1"
                    && Ascii.eqb (char_at B (start + 1)) "1")
      S O in
  drop start B <> [] /\ forallb is_bit_char (drop start B) = true
  /\ twos_complement (drop start B) = twos_complement B.
Proof.
  intros Hall H0. cbv zeta.
  set (P := fun start : nat =>
    (start < Datatypes.length B)%nat /\ char_at B start = "1"%char
    /\ twos_complement (drop start B) = twos_complement B).
  match goal with |- context [while_loop fuel ?c ?b ?s] =>
    assert (P (while_loop fuel c b s)) as HP end.
  { apply while_loop_preserves.
    - intros s (Hlt & Hc & Htc) Hcond.
      apply andb_true_iff in Hcond as [_ Hnext]. apply Ascii.eqb_eq in Hnext.
      replace (s + 1)%nat with (S s) in Hnext by lia.
      assert (S s < Datatypes.length B)%nat as Hlt'
        by (apply char_at_inside; rewrite Hnext; discriminate).
      split; [exact Hlt'|]. split; [exact Hnext|].
      rewrite <- Htc. rewrite (drop_char_at B s Hlt), Hc.
      rewrite (drop_char_at B (S s) Hlt'), Hnext.
      unfold twos_complement, char_at, is_char. cbn [nth]. simpl Ascii.eqb.
      cbv iota. rewrite !bits_value_cons. unfold bit_of, is_char.
      simpl Ascii.eqb. cbv iota. cbn [Datatypes.length].
      set (k := Datatypes.length (drop (S (S s)) B)).
      replace (Z.of_nat (S (S k))) with (Z.of_nat k + 2) by lia.
      replace (Z.of_nat (S k)) with (Z.of_nat k + 1) by lia.
      rewrite !Z.pow_add_r by lia. change (2 ^ 2) with 4. change (2 ^ 1) with 2.
      lia.
    - split; [|split; [exact H0|reflexivity]].
      apply char_at_inside. rewrite H0. discriminate. }
  destruct HP as (Hlt & _ & Htc). split; [|split; [|exact Htc]].
  - rewrite (drop_char_at B _ Hlt). discriminate.
  - apply forallb_drop. exact Hall.
Qed.

Lemma magnitude_pos x : normalized x -> sign x <> 0 -> 0 < magnitude x.
Proof.
  intros Hn Hs. pose proof (abs_value x Hn) as Ha.
  pose proof (sign_of_value x Hn) as Hsv. lia.
Qed.

Lemma top_nonzero w :
  well_formed w -> trimmed w -> magnitude w <> 0 ->
  digit w (length w - 1) <> 0.
Proof.
  intros Hw Ht Hm. destruct Ht as [H1|Htop]; [|exact Htop].
  intros Hz. apply Hm. apply (magnitude_zero_iff w Hw (or_introl H1)).
  split; [exact H1|]. rewrite H1 in Hz. exact Hz.
Qed.

(** A top limb below 2^31 leaves the top bit of the limbs in use clear. *)
Lemma magnitude_top_clear x :
  well_formed x -> digit x (length x - 1) < 2 ^ 31 ->
  magnitude x < 2 ^ (32 * Z.of_nat (length x) - 1).
Proof.
  intros Hw Htop. pose proof (magnitude_bound x Hw) as Hb.
  assert (1 <= length x)%nat as Hl by (destruct Hw; lia).
  rewrite digit_of_magnitude in Htop by (assumption || lia).
  set (B := 2 ^ (32 * Z.of_nat (length x - 1))) in *.
  assert (0 < B) as HB by (apply Z.pow_pos_nonneg; lia).
  assert (2 ^ (32 * Z.of_nat (length x)) = B * 2 ^ 32) as E32.
  { unfold B. rewrite <- Z.pow_add_r by lia. f_equal. lia. }
  assert (2 ^ (32 * Z.of_nat (length x) - 1) = B * 2 ^ 31) as E31.
  { unfold B. rewrite <- Z.pow_add_r by lia. f_equal. lia. }
  rewrite E31. rewrite E32 in Hb.
  rewrite Z.mod_small in Htop.
  - pose proof (Z.mul_succ_div_gt (magnitude x) B HB). nia.
  - split; [apply Z.div_pos; lia|]. apply Z.div_lt_upper_bound; lia.
Qed.

(** The complement [bi_to_hex] and [bi_to_bin] take of a negative number. *)
Lemma complement_in_place_spec w :
  well_formed w -> sign w <> 0 -> 0 < magnitude w ->
  let r := complement_in_place w in
  well_formed r /\ trimmed r /\ sign r = sign w
  /\ magnitude r = 2 ^ (32 * Z.of_nat (length w)) - magnitude w.
Proof.
  intros Hw Hs Hm. cbv zeta. unfold complement_in_place.
  destruct (invert_limbs_spec w Hw) as (Hw2 & Hl2 & Hsg2 & _ & Hm2).
  match type of Hw2 with well_formed ?r => set (r2 := r) in * end.
  destruct (bi_add_digit_into_spec r2 1 Hw2) as (Hw3 & Ht3 & Hm3 & Hsg3).
  { unfold is_limb. rewrite pow32. lia. }
  { lia. }
  { rewrite Hsg2. intros; contradiction. }
  split; [exact Hw3|]. split; [exact Ht3|]. split; [|lia].
  rewrite Hsg3, Hsg2. apply Z.eqb_neq in Hs. rewrite Hs. reflexivity.
Qed.

(** What [bi_to_bin] prints: the prefix and binary digits that denote the
    number in two's complement. *)
Lemma bi_to_bin_spec x :
  normalized x ->
  (value x < 0 -> digit x (length x - 1) < 2 ^ 31) ->
  exists s, bi_to_bin x = lit "0b" ++ s /\ s <> []
            /\ forallb is_bit_char s = true /\ twos_complement s = value x.
Proof.
  intros Hn Htop. pose proof (proj1 Hn) as Hw.
  pose proof (sign_of_value x Hn) as Hsv.
  unfold bi_to_bin.
  destruct (normalized_signs x Hn) as [Es|[Es|Es]]; rewrite Es.
  - (* zero *)
    exists ["0"%char]. split; [reflexivity|]. split; [discriminate|].
    split; [reflexivity|]. unfold value. rewrite Es. reflexivity.
  - (* positive *)
    change (1 =? 0) with false. change (1 =? -1) with false.
    change (1 =? 1) with true. cbv iota. cbv zeta.
    assert (0 < magnitude x) as Hm by (apply magnitude_pos; [exact Hn|lia]).
    set (w := bi_copy x).
    assert (well_formed w) as Hww by (apply well_formed_copy; exact Hw).
    assert (magnitude w = magnitude x) as Hmw by (apply magnitude_copy; exact Hw).
    assert (sign w <> 0) as Hsw by (change (sign w) with (sign x); lia).
    assert (digit w (length w - 1) <> 0) as Htw.
    { apply top_nonzero; [exact Hww| |lia].
      apply trimmed_copy; [exact Hw|apply normalized_trimmed; exact Hn]. }
    pose proof (bi_bit_length_spec w Hww Hsw) as Hup.
    pose proof (bi_bit_length_lower w Hww Hsw Htw) as Hlow.
    rewrite (map_ext _ _ (fun i => f_equal (fun b => if b =? 0 then "0"%char else "1"%char)
                                     (bi_get_bit_spec w i Hww))).
    rewrite Hmw in *.
    destruct (bi_bit_length w) as [|L].
    { change (2 ^ Z.of_nat 0) with 1 in Hup. lia. }
    replace (Z.of_nat (S L) - 1) with (Z.of_nat L) in Hlow by lia.
    replace (Z.of_nat (S L)) with (Z.of_nat L + 1) in Hup by lia.
    rewrite Z.pow_add_r in Hup by lia. change (2 ^ 1) with 2 in Hup.
    destruct (bit_string (magnitude x) (S L)) as (Hall & Hlen & Hval).
    set (bs := map _ (rev (seq 0 (S L)))) in *.
    assert (char_at ("0"%char :: bs) 1 = "1"%char) as Hfirst.
    { unfold bs. rewrite seq_S, rev_app_distr. cbn [rev app map Nat.add].
      unfold char_at. cbn [nth].
      assert (magnitude x / 2 ^ Z.of_nat L = 1) as ->.
      { symmetry. apply (Z.div_unique _ _ 1 (magnitude x - 2 ^ Z.of_nat L)); lia. }
      reflexivity. }
    rewrite while_loop_skip
      by (change (0 + 1)%nat with 1%nat; rewrite Hfirst; reflexivity).
    exists ("0"%char :: bs). split; [reflexivity|]. split; [discriminate|].
    split; [exact Hall|].
    unfold twos_complement, is_char, char_at. cbn [nth]. simpl Ascii.eqb. cbv iota.
    rewrite bits_value_cons, Hval. unfold bit_of, is_char. simpl Ascii.eqb.
    cbv iota. replace (Z.of_nat (S L)) with (Z.of_nat L + 1) by lia.
    rewrite Z.pow_add_r by lia. change (2 ^ 1) with 2.
    rewrite Z.mod_small by lia. unfold value. rewrite Es. lia.
  - (* negative *)
    change (-1 =? 0) with false. change (-1 =? -1) with true.
    change (-1 =? 1) with false. cbv iota. cbv zeta.
    assert (0 < magnitude x) as Hm by (apply magnitude_pos; [exact Hn|lia]).
    assert (value x = - magnitude x) as Hvx by (unfold value; rewrite Es; lia).
    assert (magnitude x < 2 ^ (32 * Z.of_nat (length x) - 1)) as Hclear
      by (apply magnitude_top_clear; [exact Hw|apply Htop; lia]).
    assert (1 <= length x)%nat as Hl by (destruct Hw; lia).
    destruct (complement_in_place_spec (bi_copy x)) as (Hwc & Htc & Hsc & Hmc).
    { apply well_formed_copy; exact Hw. }
    { change (sign (bi_copy x)) with (sign x). lia. }
    { rewrite magnitude_copy by exact Hw. exact Hm. }
    rewrite magnitude_copy in Hmc by exact Hw.
    change (length (bi_copy x)) with (length x) in Hmc.
    set (w := set_sign 1 (complement_in_place (bi_copy x))).
    assert (well_formed w) as Hww by (apply well_formed_set_sign; exact Hwc).
    assert (magnitude w = 2 ^ (32 * Z.of_nat (length x)) - magnitude x) as Hmw
      by (unfold w; rewrite magnitude_set_sign; exact Hmc).
    assert (sign w <> 0) as Hsw by (simpl; lia).
    assert (2 ^ (32 * Z.of_nat (length x)) = 2 * 2 ^ (32 * Z.of_nat (length x) - 1))
      as Ehalf.
    { rewrite <- (Z.pow_succ_r 2) by lia. f_equal. lia. }
    assert (digit w (length w - 1) <> 0) as Htw.
    { apply top_nonzero; [exact Hww|apply trimmed_set_sign; exact Htc|lia]. }
    pose proof (bi_bit_length_spec w Hww Hsw) as Hup.
    pose proof (bi_bit_length_lower w Hww Hsw Htw) as Hlow.
    rewrite (map_ext _ _ (fun i => f_equal (fun b => if b =? 0 then "0"%char else "1"%char)
                                     (bi_get_bit_spec w i Hww))).
    rewrite Hmw in *.
    assert (bi_bit_length w = (32 * length x)%nat) as EL.
    { assert (Z.of_nat (bi_bit_length w) - 1 < 32 * Z.of_nat (length x))
        by (apply (Z.pow_lt_mono_r_iff 2); lia).
      assert (32 * Z.of_nat (length x) - 1 < Z.of_nat (bi_bit_length w))
        by (apply (Z.pow_lt_mono_r_iff 2); lia).
      lia. }
    rewrite EL in *. clear Hup Hlow.
    destruct (bit_string (2 ^ (32 * Z.of_nat (length x)) - magnitude x)
                (32 * length x)) as (Hall & Hlen & Hval).
    set (bs := map _ (rev (seq 0 (32 * length x)))) in *.
    set (B := "1"%char :: bs).
    destruct (leading_ones_strip B (Datatypes.length B)) as (Hne & Hall' & Hv');
      [exact Hall|reflexivity|].
    match goal with |- context [while_loop ?f ?c ?b ?s] =>
      set (start := while_loop f c b s) in * end.
    exists (drop start B). split; [reflexivity|]. split; [exact Hne|].
    split; [exact Hall'|]. rewrite Hv'.
    unfold B, twos_complement, is_char, char_at. cbn [nth]. simpl Ascii.eqb.
    cbv iota. rewrite bits_value_cons, Hval. unfold bit_of, is_char.
    simpl Ascii.eqb. cbv iota. cbn [Datatypes.length]. rewrite Hlen.
    replace (Z.of_nat (S (32 * length x))) with (32 * Z.of_nat (length x) + 1) by lia.
    replace (Z.of_nat (32 * length x)) with (32 * Z.of_nat (length x)) by lia.
    rewrite Z.pow_add_r by lia. change (2 ^ 1) with 2.
    rewrite Z.mod_small by lia. lia.
Qed.


(** * Hexadecimal output read back *)

Lemma hex_char_value v :
  0 <= v < 16 -> isxdigit (hex_char v) = true /\ hex_value (hex_char v) = v.
Proof.
  intros Hv.
  assert (v = 0 \/ v = 1 \/ v = 2 \/ v = 3 \/ v = 4 \/ v = 5 \/ v = 6 \/ v = 7
          \/ v = 8 \/ v = 9 \/ v = 10 \/ v = 11 \/ v = 12 \/ v = 13 \/ v = 14
          \/ v = 15) as H by lia.
  repeat (destruct H as [H|H]; [subst v; split; reflexivity|]).
  subst v. split; reflexivity.
Qed.

Lemma is_sign_nibble_spec c :
  isxdigit c = true -> is_sign_nibble c = (8 <=? hex_value c).
Proof.
  destruct c as [[] [] [] [] [] [] [] []]; intros H;
    first [discriminate H | reflexivity].
Qed.

Lemma nibble k d :
  0 <= k -> Z.land (Z.shiftr d (4 * k)) 15 = (d / 16 ^ k) mod 16.
Proof.
  intros Hk. rewrite Z.shiftr_div_pow2 by lia. change 15 with (Z.ones 4).
  rewrite Z.land_ones by lia. rewrite Z.pow_mul_r by lia. reflexivity.
Qed.

(** A 32-bit word is the sum of its eight nibbles. *)
Lemma nibbles_sum d :
  0 <= d < 2 ^ 32 ->
  (d / 268435456) mod 16 * 268435456 + (d / 16777216) mod 16 * 16777216
  + (d / 1048576) mod 16 * 1048576 + (d / 65536) mod 16 * 65536
  + (d / 4096) mod 16 * 4096 + (d / 256) mod 16 * 256
  + (d / 16) mod 16 * 16 + d mod 16 = d.
Proof.
  intros Hd. rewrite pow32 in Hd.
  pose proof (Z.div_mod d 16 ltac:(lia)).
  pose proof (Z.div_mod (d / 16) 16 ltac:(lia)) as H1.
  rewrite Z.div_div in H1 by lia. change (16 * 16) with 256 in H1.
  pose proof (Z.div_mod (d / 256) 16 ltac:(lia)) as H2.
  rewrite Z.div_div in H2 by lia. change (256 * 16) with 4096 in H2.
  pose proof (Z.div_mod (d / 4096) 16 ltac:(lia)) as H3.
  rewrite Z.div_div in H3 by lia. change (4096 * 16) with 65536 in H3.
  pose proof (Z.div_mod (d / 65536) 16 ltac:(lia)) as H4.
  rewrite Z.div_div in H4 by lia. change (65536 * 16) with 1048576 in H4.
  pose proof (Z.div_mod (d / 1048576) 16 ltac:(lia)) as H5.
  rewrite Z.div_div in H5 by lia. change (1048576 * 16) with 16777216 in H5.
  pose proof (Z.div_mod (d / 16777216) 16 ltac:(lia)) as H6.
  rewrite Z.div_div in H6 by lia. change (16777216 * 16) with 268435456 in H6.
  pose proof (Z.div_mod (d / 268435456) 16 ltac:(lia)) as H7.
  rewrite Z.div_div in H7 by lia. change (268435456 * 16) with 4294967296 in H7.
  rewrite (Z.div_small d 4294967296) in H7 by lia.
  lia.
Qed.

(** [sprintf("%08x")] writes the eight hexadecimal digits of a word. *)
Lemma hex8_spec d :
  is_limb d ->
  forallb isxdigit (hex8 d) = true /\ Datatypes.length (hex8 d) = 8%nat
  /\ hex_digits_value (hex8 d) = d
  /\ hex_value (char_at (hex8 d) 0) = d / 2 ^ 28.
Proof.
  intros Hd. unfold is_limb in Hd. unfold hex8, HEX_WIDTH. cbn [seq map].
  change (4 * (7 - Z.of_nat 0)) with (4 * 7).
  change (4 * (7 - Z.of_nat 1)) with (4 * 6).
  change (4 * (7 - Z.of_nat 2)) with (4 * 5).
  change (4 * (7 - Z.of_nat 3)) with (4 * 4).
  change (4 * (7 - Z.of_nat 4)) with (4 * 3).
  change (4 * (7 - Z.of_nat 5)) with (4 * 2).
  change (4 * (7 - Z.of_nat 6)) with (4 * 1).
  change (4 * (7 - Z.of_nat 7)) with (4 * 0).
  rewrite !nibble by lia.
  change (16 ^ 7) with 268435456. change (16 ^ 6) with 16777216.
  change (16 ^ 5) with 1048576. change (16 ^ 4) with 65536.
  change (16 ^ 3) with 4096. change (16 ^ 2) with 256.
  change (16 ^ 1) with 16. change (16 ^ 0) with 1. rewrite Z.div_1_r.
  destruct (hex_char_value ((d / 268435456) mod 16)) as [X7 V7];
    [apply Z.mod_pos_bound; lia|].
  destruct (hex_char_value ((d / 16777216) mod 16)) as [X6 V6];
    [apply Z.mod_pos_bound; lia|].
  destruct (hex_char_value ((d / 1048576) mod 16)) as [X5 V5];
    [apply Z.mod_pos_bound; lia|].
  destruct (hex_char_value ((d / 65536) mod 16)) as [X4 V4];
    [apply Z.mod_pos_bound; lia|].
  destruct (hex_char_value ((d / 4096) mod 16)) as [X3 V3];
    [apply Z.mod_pos_bound; lia|].
  destruct (hex_char_value ((d / 256) mod 16)) as [X2 V2];
    [apply Z.mod_pos_bound; lia|].
  destruct (hex_char_value ((d / 16) mod 16)) as [X1 V1];
    [apply Z.mod_pos_bound; lia|].
  destruct (hex_char_value (d mod 16)) as [X0 V0];
    [apply Z.mod_pos_bound; lia|].
  split; [|split; [reflexivity|split]].
  - cbn [forallb]. rewrite X7, X6, X5, X4, X3, X2, X1, X0. reflexivity.
  - rewrite !hex_digits_value_cons. cbn [Datatypes.length].
    rewrite V7, V6, V5, V4, V3, V2, V1, V0.
    change (hex_digits_value []) with 0.
    change (16 ^ Z.of_nat 7) with 268435456.
    change (16 ^ Z.of_nat 6) with 16777216.
    change (16 ^ Z.of_nat 5) with 1048576.
    change (16 ^ Z.of_nat 4) with 65536.
    change (16 ^ Z.of_nat 3) with 4096.
    change (16 ^ Z.of_nat 2) with 256.
    change (16 ^ Z.of_nat 1) with 16.
    change (16 ^ Z.of_nat 0) with 1.
    pose proof (nibbles_sum d Hd). lia.
  - unfold char_at. cbn [nth]. rewrite V7. change (2 ^ 28) with 268435456.
    apply Z.mod_small. rewrite pow32 in Hd. split; [apply Z.div_pos; lia|].
    apply Z.div_lt_upper_bound; lia.
Qed.

(** The digits [bi_to_hex] writes for the [n] lowest limbs, most significant
    first. *)
Lemma raw_hex_spec w n :
  well_formed w -> (n <= capacity w)%nat ->
  let raw := concat (map (fun j => hex8 (digit w j)) (rev (seq 0 n))) in
  forallb isxdigit raw = true /\ Datatypes.length raw = (8 * n)%nat
  /\ hex_digits_value raw = limbs_value (take n (digits w))
  /\ ((1 <= n)%nat -> hex_value (char_at raw 0) = digit w (n - 1) / 2 ^ 28).
Proof.
  intros Hw. induction n as [|n IH]; intros Hn; cbv zeta.
  - split; [reflexivity|]. split; [reflexivity|]. split; [reflexivity|]. lia.
  - destruct IH as (Hall & Hlen & Hval & _); [lia|].
    rewrite seq_S, rev_app_distr. cbn [rev app map concat Nat.add].
    destruct (hex8_spec (digit w n) (digit_is_limb w n Hw)) as (Ha & Hl & Hv & Ht).
    split; [|split; [|split]].
    + rewrite forallb_app, Ha, Hall. reflexivity.
    + rewrite length_app, Hl, Hlen. lia.
    + rewrite hex_digits_value_app, Hv, Hlen, Hval.
      rewrite limbs_value_take_S by (unfold capacity in Hn; lia).
      replace (Z.of_nat (8 * n)) with (8 * Z.of_nat n) by lia.
      replace (32 * Z.of_nat n) with (4 * (8 * Z.of_nat n)) by lia.
      rewrite (Z.pow_mul_r 2 4) by lia. change (2 ^ 4) with 16.
      unfold digit. lia.
    + intros _. rewrite char_at_app_l by (rewrite Hl; lia).
      replace (S n - 1)%nat with n by lia. exact Ht.
Qed.

(** The loop of [bi_to_hex] that drops leading [f] digits of a negative
    number keeps the number the digits denote in two's complement. *)
Lemma leading_f_strip (raw : list ascii) fuel :
  forallb isxdigit raw = true -> 8 <= hex_value (char_at raw 0) ->
  let start :=
    while_loop fuel
      (fun start =>
         Ascii.eqb (char_at raw start) "f"
         && negb (Ascii.eqb (char_at raw (start + 1)) NUL)
         && is_sign_nibble (char_at raw (start + 1)))
      S O in
  drop start raw <> [] /\ forallb isxdigit (drop start raw) = true
  /\ twos_complement_hex (drop start raw) = twos_complement_hex raw.
Proof.
  intros Hall H0. cbv zeta.
  set (P := fun start : nat =>
    (start < Datatypes.length raw)%nat /\ 8 <= hex_value (char_at raw start)
    /\ twos_complement_hex (drop start raw) = twos_complement_hex raw).
  match goal with |- context [while_loop fuel ?c ?b ?s] =>
    assert (P (while_loop fuel c b s)) as HP end.
  { apply while_loop_preserves.
    - intros s (Hlt & Hc & Htc) Hcond.
      apply andb_true_iff in Hcond as [Hcond Hsn].
      apply andb_true_iff in Hcond as [Hf Hnn].
      apply Ascii.eqb_eq in Hf. apply negb_true_iff, Ascii.eqb_neq in Hnn.
      replace (s + 1)%nat with (S s) in * by lia.
      assert (S s < Datatypes.length raw)%nat as Hlt'
        by (apply char_at_inside; exact Hnn).
      rewrite is_sign_nibble_spec in Hsn
        by (apply char_at_forallb; assumption).
      apply Z.leb_le in Hsn.
      split; [exact Hlt'|]. split; [exact Hsn|].
      rewrite <- Htc. rewrite (drop_char_at raw s Hlt), Hf.
      rewrite (drop_char_at raw (S s) Hlt').
      unfold twos_complement_hex, char_at. cbn [nth]. fold (char_at raw (S s)).
      apply Z.leb_le in Hsn. rewrite Hsn. change (8 <=? hex_value "f") with true.
      cbv iota. rewrite (hex_digits_value_cons "f"). cbn [Datatypes.length].
      change (hex_value "f") with 15.
      set (k := Datatypes.length (drop (S (S s)) raw)).
      replace (Z.of_nat (S (S k))) with (Z.of_nat (S k) + 1) by lia.
      rewrite Z.pow_add_r by lia. change (16 ^ 1) with 16. lia.
    - split; [|split; [exact H0|reflexivity]].
      apply char_at_inside. intros E. rewrite E in H0. vm_compute in H0.
      apply H0. reflexivity. }
  destruct HP as (Hlt & _ & Htc). split; [|split; [|exact Htc]].
  - rewrite (drop_char_at raw _ Hlt). discriminate.
  - apply forallb_drop. exact Hall.
Qed.

(** The loop of [bi_to_hex] that drops leading zeros of a positive number,
    and the zero it puts back in front of a digit above 7. *)
Lemma leading_zero_strip (raw : list ascii) :
  forallb isxdigit raw = true -> raw <> [] ->
  hex_value (char_at raw 0) < 8 ->
  let start :=
    while_loop (Datatypes.length raw)
      (fun start => Ascii.eqb (char_at raw start) "0"
                    && negb (Ascii.eqb (char_at raw (start + 1)) NUL))
      S O in
  let start' :=
    if is_sign_nibble (char_at raw start) && negb (start =? 0)%nat
    then (start - 1)%nat else start in
  drop start' raw <> [] /\ forallb isxdigit (drop start' raw) = true
  /\ twos_complement_hex (drop start' raw) = hex_digits_value raw.
Proof.
  intros Hall Hne H0. cbv zeta.
  assert (0 < Datatypes.length raw)%nat as Hlen
    by (destruct raw; [contradiction|simpl; lia]).
  set (P := fun start : nat =>
    (start < Datatypes.length raw)%nat
    /\ (forall j, (j < start)%nat -> char_at raw j = "0"%char)
    /\ hex_digits_value (drop start raw) = hex_digits_value raw).
  assert (P (while_loop (Datatypes.length raw)
               (fun start => Ascii.eqb (char_at raw start) "0"
                             && negb (Ascii.eqb (char_at raw (start + 1)) NUL))
               S O)) as HP.
  { apply (while_loop_inv P (fun start => (Datatypes.length raw - start)%nat));
      [|split; [exact Hlen|split; [intros j Hj; lia|reflexivity]]|lia].
    intros s (Hlt & Hz & Hv) Hcond.
    apply andb_true_iff in Hcond as [Hc Hnn].
    apply Ascii.eqb_eq in Hc. apply negb_true_iff, Ascii.eqb_neq in Hnn.
    replace (s + 1)%nat with (S s) in * by lia.
    assert (S s < Datatypes.length raw)%nat as Hlt'
      by (apply char_at_inside; exact Hnn).
    split; [|lia]. split; [exact Hlt'|]. split.
    - intros j Hj. destruct (Nat.eq_dec j s) as [->|Hjs]; [exact Hc|].
      apply Hz. lia.
    - rewrite <- Hv, (drop_char_at raw s Hlt), Hc, hex_digits_value_cons.
      change (hex_value "0") with 0. lia. }
  set (start := while_loop _ _ _ _) in *.
  destruct HP as (Hlt & Hz & Hv).
  assert (isxdigit (char_at raw start) = true) as Hx
    by (apply char_at_forallb; assumption).
  assert (forall i, (i < Datatypes.length raw)%nat ->
            hex_value (char_at raw i) < 8 ->
            hex_digits_value (drop i raw) = hex_digits_value raw ->
            drop i raw <> [] /\ forallb isxdigit (drop i raw) = true
            /\ twos_complement_hex (drop i raw) = hex_digits_value raw) as Hfin.
  { intros i Hi Hlow Hvi. rewrite (drop_char_at raw i Hi) in *.
    split; [discriminate|]. split.
    - rewrite <- (drop_char_at raw i Hi). apply forallb_drop. exact Hall.
    - unfold twos_complement_hex. unfold char_at at 1. cbn [nth].
      apply Z.leb_gt in Hlow. rewrite Hlow. exact Hvi. }
  rewrite (is_sign_nibble_spec _ Hx).
  destruct (8 <=? hex_value (char_at raw start)) eqn:E8.
  - destruct (start =? 0)%nat eqn:E0.
    + apply Nat.eqb_eq in E0. rewrite E0 in E8. apply Z.leb_le in E8. lia.
    + apply Nat.eqb_neq in E0. cbn [negb andb].
      assert (char_at raw (start - 1) = "0"%char) as Hprev by (apply Hz; lia).
      apply Hfin; [lia|rewrite Hprev; vm_compute; reflexivity|].
      rewrite (drop_char_at raw (start - 1)) by lia.
      replace (S (start - 1)) with start by lia.
      rewrite Hprev, hex_digits_value_cons. change (hex_value "0") with 0. lia.
  - cbn [andb]. apply Z.leb_gt in E8. apply Hfin; assumption.
Qed.

(** What [bi_to_hex] prints: the prefix and hexadecimal digits that denote
    the number in two's complement. *)
Lemma bi_to_hex_spec x :
  normalized x -> digit x (length x - 1) < 2 ^ 31 ->
  exists s, bi_to_hex x = lit "0x" ++ s /\ s <> []
            /\ forallb isxdigit s = true /\ twos_complement_hex s = value x.
Proof.
  intros Hn Htop. pose proof (proj1 Hn) as Hw.
  pose proof (sign_of_value x Hn) as Hsv.
  assert (1 <= length x <= capacity x)%nat as Hl by (destruct Hw; lia).
  assert (2 ^ (32 * Z.of_nat (length x))
          = 2 ^ 32 * 2 ^ (32 * Z.of_nat (length x - 1))) as E32.
  { rewrite <- Z.pow_add_r by lia. f_equal. lia. }
  assert (2 ^ (32 * Z.of_nat (length x) - 1)
          = 2 ^ 31 * 2 ^ (32 * Z.of_nat (length x - 1))) as E31.
  { rewrite <- Z.pow_add_r by lia. f_equal. lia. }
  set (B := 2 ^ (32 * Z.of_nat (length x - 1))) in *.
  assert (0 < B) as HB by (apply Z.pow_pos_nonneg; lia).
  unfold bi_to_hex.
  destruct (normalized_signs x Hn) as [Es|[Es|Es]]; rewrite Es.
  - (* zero *)
    exists ["0"%char]. split; [reflexivity|]. split; [discriminate|].
    split; [reflexivity|]. unfold value. rewrite Es. reflexivity.
  - (* positive *)
    change (1 =? 0) with false. change (1 =? -1) with false.
    change (1 =? 1) with true. cbv iota. cbv zeta.
    set (w := bi_copy x).
    assert (well_formed w) as Hww by (apply well_formed_copy; exact Hw).
    assert (magnitude w = magnitude x) as Hmw by (apply magnitude_copy; exact Hw).
    change (length w) with (length x).
    destruct (raw_hex_spec w (length x) Hww) as (Hall & Hlen & Hval & Hfirst).
    { unfold w. rewrite (capacity_copy x) by lia. lia. }
    specialize (Hfirst ltac:(lia)).
    set (raw := concat _) in *.
    assert (digit w (length x - 1) = digit x (length x - 1)) as Hdw.
    { rewrite (digit_of_magnitude w), (digit_of_magnitude x), Hmw
        by (assumption || (change (length w) with (length x); lia) || lia).
      reflexivity. }
    destruct (leading_zero_strip raw Hall) as (Hne & Hall' & Hv').
    { intros E. rewrite E in Hlen. simpl in Hlen. lia. }
    { rewrite Hfirst, Hdw. apply Z.div_lt_upper_bound; [lia|].
      change (2 ^ 28 * 8) with (2 ^ 31). exact Htop. }
    match goal with |- context [drop ?s raw] => set (start := s) in * end.
    exists (drop start raw). split; [reflexivity|]. split; [exact Hne|].
    split; [exact Hall'|]. rewrite Hv', Hval.
    change (limbs_value (take (length x) (digits w))) with (magnitude w).
    rewrite Hmw. unfold value. rewrite Es. lia.
  - (* negative *)
    change (-1 =? 0) with false. change (-1 =? -1) with true.
    change (-1 =? 1) with false. cbv iota. cbv zeta.
    assert (0 < magnitude x) as Hm by (apply magnitude_pos; [exact Hn|lia]).
    assert (value x = - magnitude x) as Hvx by (unfold value; rewrite Es; lia).
    pose proof (magnitude_top_clear x Hw Htop) as Hclear.
    destruct (complement_in_place_spec (bi_copy x)) as (Hwc & Htc & Hsc & Hmc).
    { apply well_formed_copy; exact Hw. }
    { change (sign (bi_copy x)) with (sign x). lia. }
    { rewrite magnitude_copy by exact Hw. exact Hm. }
    rewrite magnitude_copy in Hmc by exact Hw.
    change (length (bi_copy x)) with (length x) in Hmc.
    set (w := complement_in_place (bi_copy x)) in *.
    pose proof (magnitude_bound w Hwc) as Hbw.
    assert (length w = length x) as Elen.
    { assert (32 * Z.of_nat (length x) - 1 < 32 * Z.of_nat (length w))
        by (apply (Z.pow_lt_mono_r_iff 2); lia).
      destruct (Nat.lt_ge_cases (length w) 2) as [Hs|Hg];
        [destruct Hwc; lia|].
      pose proof (magnitude_lower w Hwc Htc Hg) as Hlow.
      assert (32 * Z.of_nat (length w - 1) < 32 * Z.of_nat (length x))
        by (apply (Z.pow_lt_mono_r_iff 2); lia).
      lia. }
    rewrite Elen.
    destruct (raw_hex_spec w (length x) Hwc) as (Hall & Hlen & Hval & Hfirst).
    { destruct Hwc; lia. }
    specialize (Hfirst ltac:(lia)).
    set (raw := concat _) in *.
    assert (limbs_value (take (length x) (digits w)) = magnitude w) as Hmag
      by (unfold magnitude, limbs; rewrite Elen; reflexivity).
    rewrite Hmag, Hmc in Hval.
    assert (2 ^ 31 <= digit w (length x - 1)) as Hdw.
    { rewrite (digit_of_magnitude w) by (assumption || lia).
      fold B. rewrite Hmc. rewrite Z.mod_small.
      - apply Z.div_le_lower_bound; lia.
      - split; [apply Z.div_pos; lia|]. apply Z.div_lt_upper_bound; lia. }
    assert (8 <= hex_value (char_at raw 0)) as H8.
    { rewrite Hfirst. apply Z.div_le_lower_bound; [lia|].
      change (2 ^ 28 * 8) with (2 ^ 31). exact Hdw. }
    destruct (leading_f_strip raw (Datatypes.length raw) Hall H8)
      as (Hne & Hall' & Hv').
    match goal with |- context [drop ?s raw] => set (start := s) in * end.
    exists (drop start raw). split; [reflexivity|]. split; [exact Hne|].
    split; [exact Hall'|]. rewrite Hv'.
    unfold twos_complement_hex. apply Z.leb_le in H8. rewrite H8.
    rewrite Hval, Hlen.
    replace (Z.of_nat (8 * length x)) with (8 * Z.of_nat (length x)) by lia.
    replace (32 * Z.of_nat (length x)) with (4 * (8 * Z.of_nat (length x))) by lia.
    rewrite (Z.pow_mul_r 2 4) by lia. change (2 ^ 4) with 16. lia.
Qed.

(** * Output read back through [bi_from_str] *)

Lemma same_int_apply_sign r x : same_int r x -> same_int (apply_sign 1 r) x.
Proof.
  intros (Hs & Hl & Hd). unfold apply_sign.
  destruct (sign r =? 0); [repeat split; assumption|].
  split; [simpl; lia|]. split; [exact Hl|exact Hd].
Qed.

Lemma bi_from_str_bin s :
  bi_from_str (lit "0b" ++ s) = option_map (apply_sign 1) (bi_from_bin s).
Proof.
  unfold bi_from_str. change (lit "0b" ++ s) with ("0"%char :: "b"%char :: s).
  cbn [skip_spaces]. change (isspace "0") with false. cbv iota.
  unfold char_at. cbn [nth]. change (Ascii.eqb "0" "-") with false.
  change (Ascii.eqb "0" "+") with false. cbv iota.
  cbn [skip_spaces]. change (isspace "0") with false. cbv iota. cbn [nth].
  change (Ascii.eqb "0" "0") with true. change (Ascii.eqb "b" "b") with true.
  cbn [andb orb]. cbv iota. change (drop 2 ("0"%char :: "b"%char :: s)) with s.
  destruct (bi_from_bin s); reflexivity.
Qed.

Lemma bi_from_str_hex s :
  bi_from_str (lit "0x" ++ s) = option_map (apply_sign 1) (bi_from_hex s).
Proof.
  unfold bi_from_str. change (lit "0x" ++ s) with ("0"%char :: "x"%char :: s).
  cbn [skip_spaces]. change (isspace "0") with false. cbv iota.
  unfold char_at. cbn [nth]. change (Ascii.eqb "0" "-") with false.
  change (Ascii.eqb "0" "+") with false. cbv iota.
  cbn [skip_spaces]. change (isspace "0") with false. cbv iota. cbn [nth].
  change (Ascii.eqb "0" "0") with true. change (Ascii.eqb "x" "b") with false.
  change (Ascii.eqb "x" "B") with false. change (Ascii.eqb "x" "x") with true.
  cbn [andb orb]. cbv iota. change (drop 2 ("0"%char :: "x"%char :: s)) with s.
  destruct (bi_from_hex s); reflexivity.
Qed.

(** X22: the binary output reads back.  For a normalized number that is not
    negative, or is negative with a top limb below 2^31, [bi_to_bin] prints
    [0b] and a non-empty string of binary digits that denotes the number in
    two's complement over as many bits as it has digits, and [bi_from_str]
    reads that output back as the same number. *)
Theorem binary_output_reads_back (x : BigInt) :
  normalized x ->
  (value x < 0 -> digit x (length x - 1) < 2 ^ 31) ->
  exists s r,
    bi_to_bin x = lit "0b" ++ s /\ s <> [] /\ forallb is_bit_char s = true
    /\ twos_complement s = value x
    /\ bi_from_str (bi_to_bin x) = Some r /\ same_int r x.
Proof.
  intros Hn Htop.
  destruct (bi_to_bin_spec x Hn Htop) as (s & Hout & Hne & Hall & Hv).
  destruct (bi_from_bin_value s Hne Hall) as (r & Hr & Hnr & Hvr).
  exists s, (apply_sign 1 r). split; [exact Hout|]. split; [exact Hne|].
  split; [exact Hall|]. split; [exact Hv|]. split.
  - rewrite Hout, bi_from_str_bin, Hr. reflexivity.
  - apply same_int_apply_sign, same_int_of_normalized;
      [exact Hnr|exact Hn|]. rewrite Hvr. exact Hv.
Qed.

Lemma binary_output_reads_back_witness :
  exists s r,
    bi_to_bin minus_five = lit "0b" ++ s /\ s <> []
    /\ forallb is_bit_char s = true
    /\ twos_complement s = value minus_five
    /\ bi_from_str (bi_to_bin minus_five) = Some r /\ same_int r minus_five.
Proof.
  apply (binary_output_reads_back minus_five).
  - apply (normalized_small (-1) 5); [right; reflexivity|rewrite pow32; lia].
  - intros _. reflexivity.
Defined.

(** X23: the hexadecimal output reads back.  For a normalized number whose top
    limb is below 2^31, [bi_to_hex] prints [0x] and a non-empty string of
    hexadecimal digits that denotes the number in two's complement over four
    bits per digit, and [bi_from_str] reads that output back as the same
    number. *)
Theorem hexadecimal_output_reads_back (x : BigInt) :
  normalized x -> digit x (length x - 1) < 2 ^ 31 ->
  exists s r,
    bi_to_hex x = lit "0x" ++ s /\ s <> [] /\ forallb isxdigit s = true
    /\ twos_complement_hex s = value x
    /\ bi_from_str (bi_to_hex x) = Some r /\ same_int r x.
Proof.
  intros Hn Htop.
  destruct (bi_to_hex_spec x Hn Htop) as (s & Hout & Hne & Hall & Hv).
  destruct (bi_from_hex_value s Hne Hall) as (r & Hr & Hnr & Hvr).
  exists s, (apply_sign 1 r). split; [exact Hout|]. split; [exact Hne|].
  split; [exact Hall|]. split; [exact Hv|]. split.
  - rewrite Hout, bi_from_str_hex, Hr. reflexivity.
  - apply same_int_apply_sign, same_int_of_normalized;
      [exact Hnr|exact Hn|]. rewrite Hvr. exact Hv.
Qed.

Lemma hexadecimal_output_reads_back_witness :
  exists s r,
    bi_to_hex minus_five = lit "0x" ++ s /\ s <> []
    /\ forallb isxdigit s = true
    /\ twos_complement_hex s = value minus_five
    /\ bi_from_str (bi_to_hex minus_five) = Some r /\ same_int r minus_five.
Proof.
  apply (hexadecimal_output_reads_back minus_five).
  - apply (normalized_small (-1) 5); [right; reflexivity|rewrite pow32; lia].
  - reflexivity.
Defined.


(** * The parser reads an expression token by token *)

Lemma operator_facts2 c :
  is_operator c = true ->
  is_char c NUL = false /\ isspace c = false /\ isdigit c = false
  /\ is_number_char c = false /\ negb (Ascii.eqb c NUL) = true
  /\ (is_char c "(" = false -> is_char c ")" = false ->
      (is_char c "+" || is_char c "-" || is_char c "*" || is_char c "/"
       || is_char c "%" || is_char c "^" || is_char c "!") = true).
Proof.
  intros H. destruct c as [[] [] [] [] [] [] [] []];
    try discriminate H; repeat split; intros; try discriminate; reflexivity.
Qed.

Lemma space_facts2 c :
  isspace c = true ->
  is_char c NUL = false /\ is_number_char c = false
  /\ negb (Ascii.eqb c NUL) = true.
Proof.
  intros H. destruct c as [[] [] [] [] [] [] [] []];
    try discriminate H; repeat split.
Qed.

Lemma tokens_ok_num d ts :
  tokens_ok (TNum d :: ts) = true ->
  forallb isdigit d = true /\ d <> []
  /\ match ts with TNum _ :: _ => False | _ => True end
  /\ tokens_ok ts = true.
Proof.
  cbn [tokens_ok]. intros H.
  apply andb_prop in H as [H Hts]. apply andb_prop in H as [H Hnext].
  apply andb_prop in H as [Hd Hne].
  split; [exact Hd|]. split; [|split; [|exact Hts]].
  - intros ->. discriminate Hne.
  - destruct ts as [|[d'|c] ts']; [exact I|discriminate Hnext|exact I].
Qed.

Lemma tokens_ok_sym c ts :
  tokens_ok (TSym c :: ts) = true -> is_operator c = true /\ tokens_ok ts = true.
Proof. cbn [tokens_ok]. intros H. apply andb_prop in H. exact H. Qed.

Lemma tokens_ok_one t ts : tokens_ok (t :: ts) = true -> tokens_ok [t] = true.
Proof.
  destruct t as [d|c]; intros H.
  - destruct (tokens_ok_num d ts H) as (Hd & Hne & _).
    cbn [tokens_ok]. rewrite Hd. destruct d; [contradiction|reflexivity].
  - destruct (tokens_ok_sym c ts H) as (Hc & _).
    cbn [tokens_ok]. rewrite Hc. reflexivity.
Qed.

(** The last character of the text of a token is not white space. *)
Lemma token_last t :
  tokens_ok [t] = true ->
  exists X p, token_text t = X ++ [p] /\ isspace p = false
              /\ match t with
                 | TSym c => p = c
                 | TNum _ => isdigit p = true
                 end.
Proof.
  intros Ht. destruct t as [d|c].
  - destruct (tokens_ok_num d [] Ht) as (Hd & Hne & _).
    destruct (digits_last d Hd Hne) as (d' & p & -> & Hp).
    exists d', p. split; [reflexivity|]. split; [|exact Hp].
    apply (digit_facts2 p Hp).
  - destruct (tokens_ok_sym c [] Ht) as (Hc & _).
    exists [], c. split; [reflexivity|]. split; [|reflexivity].
    apply (operator_facts2 c Hc).
Qed.

Lemma token_no_nul t :
  tokens_ok [t] = true ->
  forallb (fun c => negb (Ascii.eqb c NUL)) (token_text t) = true
  /\ (1 <= Datatypes.length (token_text t))%nat.
Proof.
  intros Ht. destruct t as [d|c].
  - destruct (tokens_ok_num d [] Ht) as (Hd & Hne & _). split.
    + apply forallb_forall. intros x Hx. apply isdigit_not_nul.
      rewrite forallb_forall in Hd. apply Hd, Hx.
    + destruct d; [contradiction|simpl; lia].
  - destruct (tokens_ok_sym c [] Ht) as (Hc & _). split; [|simpl; lia].
    cbn [token_text forallb].
    destruct (operator_facts2 c Hc) as (_&_&_&_& Hn &_). rewrite Hn. reflexivity.
Qed.

(** ** Texts with white space *)

Lemma spaces_only_cons ws t sts :
  spaces_only ((ws, t) :: sts) = true ->
  forallb isspace ws = true /\ spaces_only sts = true.
Proof. unfold spaces_only. cbn [forallb fst]. intros H. apply andb_prop, H. Qed.

Lemma spaced_no_nul tail : forall sts,
  spaces_only sts = true -> forallb isspace tail = true ->
  tokens_ok (map snd sts) = true ->
  forallb (fun c => negb (Ascii.eqb c NUL)) (spaced sts tail) = true.
Proof.
  assert (Hsp : forall ws, forallb isspace ws = true ->
            forallb (fun c => negb (Ascii.eqb c NUL)) ws = true).
  { intros ws H. apply forallb_forall. intros x Hx.
    rewrite forallb_forall in H. apply (space_facts2 x (H x Hx)). }
  induction sts as [|[ws t] sts IH]; intros Hs Ht Hok; [apply Hsp, Ht|].
  destruct (spaces_only_cons ws t sts Hs) as [Hws Hs'].
  cbn [map snd] in Hok. cbn [spaced].
  destruct (token_no_nul t (tokens_ok_one t _ Hok)) as [Hn _].
  assert (tokens_ok (map snd sts) = true) as Hok'
    by (destruct t; [apply (tokens_ok_num _ _ Hok)|apply (tokens_ok_sym _ _ Hok)]).
  rewrite !forallb_app, (Hsp ws Hws), Hn, (IH Hs' Ht Hok'). reflexivity.
Qed.

Lemma spaced_strlen sts tail :
  spaces_only sts = true -> forallb isspace tail = true ->
  tokens_ok (map snd sts) = true ->
  strlen (spaced sts tail) = Datatypes.length (spaced sts tail).
Proof. intros Hs Ht Hok. apply strlen_no_nul, spaced_no_nul; assumption. Qed.

(** What follows a literal is not a character of a number. *)
Lemma spaced_after_literal sts tail :
  spaces_only sts = true -> forallb isspace tail = true ->
  tokens_ok (map snd sts) = true ->
  match map snd sts with TNum _ :: _ => False | _ => True end ->
  is_number_char (char_at (spaced sts tail) 0) = false.
Proof.
  intros Hs Ht Hok Hfirst. destruct sts as [|[ws t] sts].
  - cbn [spaced]. destruct tail as [|c tail]; [reflexivity|].
    simpl in Ht. apply andb_prop in Ht as [Hc _]. apply (space_facts2 c Hc).
  - destruct (spaces_only_cons ws t sts Hs) as [Hws _]. cbn [spaced].
    destruct ws as [|c ws].
    + cbn [map snd] in Hok, Hfirst. destruct t as [d|c]; [contradiction|].
      destruct (tokens_ok_sym c _ Hok) as (Hc & _).
      apply (operator_facts2 c Hc).
    + simpl in Hws. apply andb_prop in Hws as [Hc _]. apply (space_facts2 c Hc).
Qed.

Lemma seen_before_spaces pre prev ws :
  seen_before pre prev -> forallb isspace ws = true ->
  seen_before (pre ++ ws) prev.
Proof.
  intros H Hws. destruct prev as [t|]; cbn [seen_before] in *.
  - destruct H as (X & p & ws0 & -> & Hw0 & Hp & Ht).
    exists X, p, (ws0 ++ ws). split; [rewrite <- app_assoc; reflexivity|].
    split; [rewrite forallb_app, Hw0, Hws; reflexivity|]. split; assumption.
  - rewrite forallb_app, H, Hws. reflexivity.
Qed.

Lemma seen_before_token pre t :
  tokens_ok [t] = true -> seen_before (pre ++ token_text t) (Some t).
Proof.
  intros Ht. destruct (token_last t Ht) as (X & p & -> & Hp & Hm).
  exists (pre ++ X), p, []. split; [rewrite <- app_assoc; reflexivity|].
  split; [reflexivity|]. split; assumption.
Qed.

Lemma sign_after_digit p c : isdigit p = true -> sign_after p c = false.
Proof.
  intros Hp. destruct (digit_facts2 p Hp) as (_ & _ & Ho & Hpar & Hbang & _).
  unfold sign_after. rewrite Ho, Hpar, Hbang. destruct (is_char c "-"); reflexivity.
Qed.

(** [is_unary] depends on the token before the sign only. *)
Lemma is_unary_seen input pre prev c rest :
  input = pre ++ c :: rest -> seen_before pre prev ->
  is_unary input (Datatypes.length pre) = unary_after prev c.
Proof.
  intros Hin Hseen.
  assert (Hc : char_at input (Datatypes.length pre) = c)
    by (rewrite Hin, char_at_app_r by lia; rewrite Nat.sub_diag; reflexivity).
  destruct prev as [t|]; cbn [seen_before unary_after] in *.
  - destruct Hseen as (X & p & ws & Hpre & Hws & Hp & Ht).
    assert (Hlast : char_at input (Datatypes.length X) = p).
    { rewrite Hin, Hpre, <- !app_assoc, char_at_app_r by lia.
      rewrite Nat.sub_diag. reflexivity. }
    assert (Hlen : Datatypes.length pre = (Datatypes.length X + 1 + Datatypes.length ws)%nat)
      by (rewrite Hpre, length_app; simpl; lia).
    unfold is_unary. rewrite Hc.
    rewrite (prev_non_space_found input _ (Datatypes.length X)); [|lia| |].
    + assert ((0 <=? Z.of_nat (Datatypes.length X)) = true) as ->
        by (apply Z.leb_le; lia).
      rewrite Nat2Z.id, Hlast. fold (sign_after p c).
      destruct t as [d|c']; [apply sign_after_digit, Ht|subst p; reflexivity].
    + rewrite Hlast. exact Hp.
    + intros k Hk. rewrite Hin, char_at_app_l by lia.
      rewrite Hpre, char_at_app_r by lia.
      replace (k - Datatypes.length X)%nat
        with (S (k - Datatypes.length X - 1)) by lia.
      unfold char_at. cbn [nth]. apply (char_at_forallb isspace ws); [exact Hws|lia].
  - unfold is_unary. rewrite prev_non_space_start; [reflexivity|].
    intros k Hk. rewrite Hin, char_at_app_l by exact Hk.
    apply char_at_forallb; assumption.
Qed.

Section Round.
Variables (input pre rest : list ascii) (t : token) (prev : option token).
Hypothesis Hin : input = pre ++ token_text t ++ rest.
Hypothesis Hseen : seen_before pre prev.
Hypothesis Ht : tokens_ok [t] = true.
Hypothesis Hnext :
  match t with
  | TNum _ => is_number_char (char_at rest 0) = false
  | TSym _ => True
  end.

(** One round of the validator reads one token. *)
Lemma validate_step_token eo lo pd :
  validate_step input (Datatypes.length pre, eo, lo, pd)
  = match validate_token prev t (eo, lo, pd) with
    | None => Ret false
    | Some (eo', lo', pd') =>
        Next ((Datatypes.length pre + Datatypes.length (token_text t))%nat,
              eo', lo', pd')
    end.
Proof.
  destruct t as [d|c]; cbn [token_text] in *.
  - destruct (tokens_ok_num d [] Ht) as (Hd & Hne & _).
    cbn [validate_token]. destruct eo; cbn [negb].
    + apply (validate_literal_at input pre d rest); try assumption; reflexivity.
    + assert (isdigit (char_at input (Datatypes.length pre)) = true) as H0.
      { rewrite <- (Nat.add_0_r (Datatypes.length pre)).
        apply (literal_char input pre d rest Hin Hd).
        destruct d; [contradiction|simpl; lia]. }
      destruct (digit_facts2 _ H0) as (Dn & Ds & _).
      unfold validate_step. rewrite Dn, Ds, H0. reflexivity.
  - destruct (tokens_ok_sym c [] Ht) as (Hc & _).
    destruct (operator_facts2 c Hc) as (Cn & Cs & Cd & _).
    assert (char_at input (Datatypes.length pre) = c) as Hchar.
    { rewrite Hin, char_at_app_r by lia. rewrite Nat.sub_diag. reflexivity. }
    simpl Datatypes.length. rewrite Nat.add_1_r.
    unfold validate_step, validate_token. rewrite Hchar, Cn, Cs, Cd, Hc.
    rewrite (is_unary_seen input pre prev c rest Hin Hseen).
    destruct (is_char c "("); [destruct (negb eo); reflexivity|].
    destruct (is_char c ")"); [destruct (eo || (pd <=? 0)); reflexivity|].
    destruct (is_char c "!"); [destruct eo; reflexivity|].
    destruct ((is_char c "-" || is_char c "+") && unary_after prev c);
      [reflexivity|].
    destruct (lo && negb false); reflexivity.
Qed.

(** One round of the evaluator reads one token. *)
Lemma eval_step_token cbs nums ops w :
  eval_step input (Datatypes.length pre, cbs, nums, ops, w)
  = at_pos (Datatypes.length pre + Datatypes.length (token_text t))
      (eval_token t (cbs, nums, ops, w)).
Proof.
  destruct t as [d|c]; cbn [token_text] in *.
  - destruct (tokens_ok_num d [] Ht) as (Hd & Hne & _).
    cbn [eval_token at_pos].
    apply (eval_literal_at input pre d rest); try assumption; reflexivity.
  - destruct (tokens_ok_sym c [] Ht) as (Hc & _).
    destruct (operator_facts2 c Hc) as (Cn & Cs & Cd & _ & _ & Cany).
    assert (char_at input (Datatypes.length pre) = c) as Hchar.
    { rewrite Hin, char_at_app_r by lia. rewrite Nat.sub_diag. reflexivity. }
    simpl Datatypes.length. rewrite Nat.add_1_r.
    unfold eval_step, eval_token. rewrite Hchar, Cn, Cs, Cd.
    destruct (is_char c "(") eqn:Eo; [reflexivity|].
    destruct (is_char c ")") eqn:Ec.
    { destruct (drain_until_paren ops nums w) as [[[n' o']| | |] w'];
        reflexivity. }
    rewrite (Cany eq_refl eq_refl).
    destruct (cbs && is_char c "+"); [reflexivity|].
    destruct (cbs && negb (is_char c "-")); [reflexivity|].
    cbv zeta.
    destruct (drain_higher (if cbs then "m"%char else c) ops nums w)
      as [[[n' o']| | |] w']; reflexivity.
Qed.
End Round.

(** Both loops pass over white space without a change of state. *)
Lemma validate_skip_spaces input : forall ws pre rest st fuel,
  input = pre ++ ws ++ rest -> forallb isspace ws = true ->
  run_loop (Datatypes.length ws + fuel) (validate_step input)
    (Datatypes.length pre, fst (fst st), snd (fst st), snd st)
  = run_loop fuel (validate_step input)
      ((Datatypes.length pre + Datatypes.length ws)%nat,
       fst (fst st), snd (fst st), snd st).
Proof.
  induction ws as [|c ws IH]; intros pre rest st fuel Hin Hws.
  - simpl. rewrite Nat.add_0_r. reflexivity.
  - simpl in Hws. apply andb_prop in Hws as [Hc Hws].
    assert (char_at input (Datatypes.length pre) = c) as Hchar
      by (rewrite Hin, char_at_app_r by lia; rewrite Nat.sub_diag; reflexivity).
    cbn [Datatypes.length Nat.add run_loop].
    unfold validate_step at 1. rewrite Hchar.
    destruct (space_facts2 c Hc) as (Cn & _). rewrite Cn, Hc.
    specialize (IH (pre ++ [c]) rest st fuel).
    rewrite length_app in IH. simpl Datatypes.length in IH.
    rewrite Nat.add_1_r in IH. rewrite IH; [f_equal; f_equal; f_equal; f_equal; lia| |exact Hws].
    rewrite Hin, <- app_assoc. reflexivity.
Qed.

Lemma eval_skip_spaces input : forall ws pre rest cbs nums ops w fuel,
  input = pre ++ ws ++ rest -> forallb isspace ws = true ->
  run_loop (Datatypes.length ws + fuel) (eval_step input)
    (Datatypes.length pre, cbs, nums, ops, w)
  = run_loop fuel (eval_step input)
      ((Datatypes.length pre + Datatypes.length ws)%nat, cbs, nums, ops, w).
Proof.
  induction ws as [|c ws IH]; intros pre rest cbs nums ops w fuel Hin Hws.
  - simpl. rewrite Nat.add_0_r. reflexivity.
  - simpl in Hws. apply andb_prop in Hws as [Hc Hws].
    assert (char_at input (Datatypes.length pre) = c) as Hchar
      by (rewrite Hin, char_at_app_r by lia; rewrite Nat.sub_diag; reflexivity).
    cbn [Datatypes.length Nat.add run_loop].
    unfold eval_step at 1. rewrite Hchar.
    destruct (space_facts2 c Hc) as (Cn & _). rewrite Cn, Hc.
    specialize (IH (pre ++ [c]) rest cbs nums ops w fuel).
    rewrite length_app in IH. simpl Datatypes.length in IH.
    rewrite Nat.add_1_r in IH. rewrite IH; [f_equal; f_equal; f_equal; f_equal; f_equal; lia| |exact Hws].
    rewrite Hin, <- app_assoc. reflexivity.
Qed.

Lemma tokens_ok_piece (sts : list (list ascii * token)) :
  tokens_ok (map snd sts) = true ->
  match sts with
  | [] => True
  | (ws, t) :: sts' =>
      tokens_ok [t] = true /\ tokens_ok (map snd sts') = true
      /\ match t with
         | TNum _ => match map snd sts' with TNum _ :: _ => False | _ => True end
         | TSym _ => True
         end
  end.
Proof.
  destruct sts as [|[ws t] sts']; [exact (fun _ => I)|]. cbn [map snd].
  intros Hok. split; [exact (tokens_ok_one t _ Hok)|].
  destruct t as [d|c].
  - destruct (tokens_ok_num d _ Hok) as (_ & _ & Hn & Hts). split; assumption.
  - destruct (tokens_ok_sym c _ Hok) as (_ & Hts). split; [exact Hts|exact I].
Qed.

(** The loop of the validator on the tokens that are left. *)
Lemma validate_loop_tokens input tail : forall sts pre prev st fuel,
  input = pre ++ spaced sts tail -> seen_before pre prev ->
  spaces_only sts = true -> forallb isspace tail = true ->
  tokens_ok (map snd sts) = true ->
  (Datatypes.length (spaced sts tail) < fuel)%nat ->
  run_loop fuel (validate_step input)
    (Datatypes.length pre, fst (fst st), snd (fst st), snd st)
  = match validate_tokens prev (map snd sts) st with
    | None => Ret false
    | Some (eo, lo, pd) => Break (Datatypes.length input, eo, lo, pd)
    end.
Proof.
  induction sts as [|[ws t] sts IH];
    intros pre prev st fuel Hin Hseen Hs Htail Hok Hfuel.
  - cbn [spaced map validate_tokens] in *.
    replace fuel with (Datatypes.length tail + (fuel - Datatypes.length tail))%nat
      by lia.
    rewrite (validate_skip_spaces input tail pre [] st)
      by (rewrite ?app_nil_r; assumption).
    destruct st as [[eo lo] pd]. cbn [fst snd].
    replace (Datatypes.length pre + Datatypes.length tail)%nat
      with (Datatypes.length input) by (rewrite Hin, length_app; reflexivity).
    apply run_loop_break_pos; [lia|].
    unfold validate_step. unfold char_at. rewrite nth_overflow by lia.
    reflexivity.
  - destruct (spaces_only_cons ws t sts Hs) as [Hws Hs'].
    destruct (tokens_ok_piece _ Hok) as (Ht & Hok' & Hadj).
    destruct (token_no_nul t Ht) as [_ Hlen].
    cbn [spaced] in Hin, Hfuel. rewrite !length_app in Hfuel.
    replace fuel
      with (Datatypes.length ws + S (fuel - Datatypes.length ws - 1))%nat by lia.
    rewrite (validate_skip_spaces input ws pre (token_text t ++ spaced sts tail) st)
      by assumption.
    rewrite <- length_app. destruct st as [[eo lo] pd]. cbn [fst snd run_loop].
    rewrite (validate_step_token input (pre ++ ws) (spaced sts tail) t prev).
    + cbn [map snd validate_tokens].
      destruct (validate_token prev t (eo, lo, pd)) as [[[eo' lo'] pd']|];
        [|reflexivity].
      rewrite <- length_app.
      apply (IH ((pre ++ ws) ++ token_text t) (Some t) (eo', lo', pd'));
        try assumption.
      * rewrite Hin, <- !app_assoc. reflexivity.
      * apply seen_before_token, Ht.
      * lia.
    + rewrite Hin, <- !app_assoc. reflexivity.
    + apply seen_before_spaces; assumption.
    + exact Ht.
    + destruct t as [d|c]; [|exact I].
      apply spaced_after_literal; assumption.
Qed.

Lemma eval_token_goes_on t st s : eval_token t st <> Break s.
Proof.
  destruct st as [[[cbs nums] ops] w]. unfold eval_token.
  destruct t as [d|c]; [discriminate|].
  destruct (is_char c "("); [discriminate|].
  destruct (is_char c ")").
  { destruct (drain_until_paren ops nums w) as [[[n' o']| | |] w'];
      discriminate. }
  destruct (cbs && is_char c "+"); [discriminate|].
  destruct (cbs && negb (is_char c "-")); [discriminate|].
  cbv zeta.
  destruct (drain_higher (if cbs then "m"%char else c) ops nums w)
    as [[[n' o']| | |] w']; discriminate.
Qed.

(** The loop of the evaluator on the tokens that are left. *)
Lemma eval_loop_tokens input tail : forall sts pre cbs nums ops w fuel,
  input = pre ++ spaced sts tail ->
  spaces_only sts = true -> forallb isspace tail = true ->
  tokens_ok (map snd sts) = true ->
  (Datatypes.length (spaced sts tail) < fuel)%nat ->
  run_loop fuel (eval_step input) (Datatypes.length pre, cbs, nums, ops, w)
  = at_pos (Datatypes.length input)
      (eval_tokens_loop (map snd sts) (cbs, nums, ops, w)).
Proof.
  induction sts as [|[ws t] sts IH];
    intros pre cbs nums ops w fuel Hin Hs Htail Hok Hfuel.
  - cbn [spaced map eval_tokens_loop at_pos] in *.
    replace fuel with (Datatypes.length tail + (fuel - Datatypes.length tail))%nat
      by lia.
    rewrite (eval_skip_spaces input tail pre [])
      by (rewrite ?app_nil_r; assumption).
    replace (Datatypes.length pre + Datatypes.length tail)%nat
      with (Datatypes.length input) by (rewrite Hin, length_app; reflexivity).
    apply run_loop_break_pos; [lia|].
    unfold eval_step. unfold char_at. rewrite nth_overflow by lia.
    reflexivity.
  - destruct (spaces_only_cons ws t sts Hs) as [Hws Hs'].
    destruct (tokens_ok_piece _ Hok) as (Ht & Hok' & Hadj).
    destruct (token_no_nul t Ht) as [_ Hlen].
    cbn [spaced] in Hin, Hfuel. rewrite !length_app in Hfuel.
    replace fuel
      with (Datatypes.length ws + S (fuel - Datatypes.length ws - 1))%nat by lia.
    rewrite (eval_skip_spaces input ws pre (token_text t ++ spaced sts tail))
      by assumption.
    rewrite <- length_app. cbn [run_loop].
    rewrite (eval_step_token input (pre ++ ws) (spaced sts tail) t).
    + cbn [map snd eval_tokens_loop].
      destruct (eval_token t (cbs, nums, ops, w))
        as [[[[cbs' nums'] ops'] w']|s|r] eqn:Et;
        cbn [at_pos];
        [|exfalso; exact (eval_token_goes_on _ _ _ Et)|reflexivity].
      rewrite <- length_app.
      apply (IH ((pre ++ ws) ++ token_text t)); try assumption.
      * rewrite Hin, <- !app_assoc. reflexivity.
      * lia.
    + rewrite Hin, <- !app_assoc. reflexivity.
    + exact Ht.
    + destruct t as [d|c]; [|exact I].
      apply spaced_after_literal; assumption.
Qed.

(** The text ends with the last token and the white space after it. *)
Lemma spaced_last tail : forall sts ws t,
  spaces_only (sts ++ [(ws, t)]) = true -> tokens_ok [t] = true ->
  exists X p, spaced (sts ++ [(ws, t)]) tail = X ++ p :: tail
              /\ isspace p = false
              /\ match t with
                 | TSym c => p = c
                 | TNum _ => isdigit p = true
                 end.
Proof.
  induction sts as [|[ws0 t0] sts IH]; intros ws t Hs Ht.
  - destruct (token_last t Ht) as (X & p & E & Hp & Hm).
    exists (ws ++ X), p. cbn [app spaced]. rewrite E, <- !app_assoc.
    split; [reflexivity|]. split; assumption.
  - change ((ws0, t0) :: sts ++ [(ws, t)]) with ((ws0, t0) :: (sts ++ [(ws, t)])) in *.
    destruct (spaces_only_cons _ _ _ Hs) as [_ Hs'].
    destruct (IH ws t Hs' Ht) as (X & p & E & Hp & Hm).
    exists (ws0 ++ token_text t0 ++ X), p.
    change (((ws0, t0) :: sts) ++ [(ws, t)]) with ((ws0, t0) :: (sts ++ [(ws, t)])).
    cbn [spaced]. rewrite E, <- !app_assoc.
    split; [reflexivity|]. split; assumption.
Qed.

Lemma tokens_ok_last : forall ts t,
  tokens_ok (ts ++ [t]) = true -> tokens_ok [t] = true.
Proof.
  induction ts as [|t0 ts IH]; intros t H; [exact H|].
  apply IH. change ((t0 :: ts) ++ [t]) with (t0 :: (ts ++ [t])) in H.
  destruct t0 as [d|c];
    [apply (tokens_ok_num _ _ H)|apply (tokens_ok_sym _ _ H)].
Qed.

(** The validator accepts a text exactly when the rounds on its tokens
    do. *)
Lemma validate_spaced sts tail :
  spaces_only sts = true -> forallb isspace tail = true ->
  tokens_ok (map snd sts) = true ->
  validate_expression_syntax (spaced sts tail) = tokens_accepted (map snd sts).
Proof.
  intros Hs Htail Hok. unfold validate_expression_syntax, tokens_accepted.
  rewrite (spaced_strlen sts tail Hs Htail Hok).
  pose proof (validate_loop_tokens (spaced sts tail) tail sts [] None
                (true, false, 0) (S (Datatypes.length (spaced sts tail)))
                eq_refl eq_refl Hs Htail Hok ltac:(lia)) as Hloop.
  cbn [fst snd Datatypes.length] in Hloop. rewrite Hloop. clear Hloop.
  destruct (validate_tokens None (map snd sts) (true, false, 0))
    as [[[eo lo] pd]|] eqn:Ev; [|reflexivity].
  destruct (negb (pd =? 0)); [reflexivity|].
  destruct eo; [reflexivity|].
  destruct sts as [|st0 sts0] eqn:E; [discriminate Ev|].
  rewrite <- E in *. assert (sts <> []) as Hne by (rewrite E; discriminate).
  clear E Ev. destruct (exists_last Hne) as (sts' & [ws t] & ->).
  rewrite map_app in Hok |- *. cbn [map snd] in Hok |- *.
  pose proof (tokens_ok_last _ _ Hok) as Ht.
  destruct (spaced_last tail sts' ws t Hs Ht) as (X & p & HX & Hp & Hm).
  rewrite last_snoc, HX.
  assert (Hlen : Datatypes.length (X ++ p :: tail)
                 = (S (Datatypes.length X) + Datatypes.length tail)%nat)
    by (rewrite length_app; simpl; lia).
  rewrite (trim_loop (X ++ p :: tail) (S (Datatypes.length X))).
  - cbn [Nat.ltb Nat.leb andb]. replace (S (Datatypes.length X) - 1)%nat
      with (Datatypes.length X) by lia.
    rewrite char_at_app_r by lia. rewrite Nat.sub_diag. unfold char_at at 1.
    cbn [nth]. destruct t as [d|c].
    + destruct (digit_facts2 p Hm) as (_&_&_&_&_&_& Hno &_). rewrite Hno.
      reflexivity.
    + subst p. destruct (strchr "+-*/%^" c); reflexivity.
  - lia.
  - lia.
  - intros j Hj. rewrite char_at_app_r by lia.
    replace (j - Datatypes.length X)%nat
      with (S (j - Datatypes.length X - 1)) by lia.
    unfold char_at. cbn [nth]. apply (char_at_forallb isspace tail); [exact Htail|lia].
  - right. replace (S (Datatypes.length X) - 1)%nat
      with (Datatypes.length X) by lia.
    rewrite char_at_app_r by lia. rewrite Nat.sub_diag. exact Hp.
Qed.

(** [eval_expression] on a text is the rounds on its tokens. *)
Lemma eval_spaced sts tail w :
  spaces_only sts = true -> forallb isspace tail = true ->
  tokens_ok (map snd sts) = true ->
  eval_expression (spaced sts tail) w = eval_tokens (map snd sts) w.
Proof.
  intros Hs Htail Hok. unfold eval_expression, eval_tokens.
  rewrite (validate_spaced sts tail Hs Htail Hok).
  destruct (tokens_accepted (map snd sts)); [|reflexivity]. cbn [negb].
  rewrite (spaced_strlen sts tail Hs Htail Hok).
  pose proof (eval_loop_tokens (spaced sts tail) tail sts [] true [] [] w
                (S (Datatypes.length (spaced sts tail)))
                eq_refl Hs Htail Hok ltac:(lia)) as Hloop.
  match goal with |- context [run_loop ?f ?step ?s0] =>
    replace (run_loop f step s0)
      with (at_pos (Datatypes.length (spaced sts tail))
              (eval_tokens_loop (map snd sts) (true, [], [], w)))
      by (symmetry; exact Hloop) end.
  clear Hloop.
  destruct (eval_tokens_loop (map snd sts) (true, [], [], w))
    as [[[[cbs' nums'] ops'] w']|[[[cbs' nums'] ops'] w']|r]; reflexivity.
Qed.

(** The text without white space. *)
Lemma render_spaced ts :
  render ts = spaced (map (fun t => (@nil ascii, t)) ts) []
  /\ spaces_only (map (fun t => (@nil ascii, t)) ts) = true
  /\ map snd (map (fun t => (@nil ascii, t)) ts) = ts.
Proof.
  induction ts as [|t ts (IH1 & IH2 & IH3)]; [repeat split|].
  cbn [map spaced app snd]. rewrite <- IH1, IH3. repeat split. exact IH2.
Qed.

Lemma eval_tokens_spec ts w :
  tokens_ok ts = true -> eval_expression (render ts) w = eval_tokens ts w.
Proof.
  intros Hok. destruct (render_spaced ts) as (E & Hs & Hm).
  rewrite E. rewrite <- Hm at 2.
  apply eval_spaced; [exact Hs|reflexivity|rewrite Hm; exact Hok].
Qed.


(** * Parentheses, signs and the factorial in expressions *)

Lemma nonempty_length (d : list ascii) :
  d <> [] -> (Datatypes.length d =? 0)%nat = false.
Proof. intros H. destruct d; [contradiction|reflexivity]. Qed.

(** A literal and what the evaluator needs to know of it. *)
Lemma literal_operand d :
  forallb isdigit d = true -> d <> [] ->
  (Datatypes.length d =? 0)%nat = false
  /\ exists x, bi_from_str d = Some x /\ normalized x
               /\ value x = dec_value d /\ 0 <= value x.
Proof.
  intros Hd Hne. split; [apply nonempty_length, Hne|].
  destruct (literal_value d Hd Hne) as (x & Ex & Hx & Vx).
  exists x. split; [exact Ex|]. split; [exact Hx|]. split; [exact Vx|].
  rewrite Vx. apply dec_value_nonneg.
Qed.

(** The text of an expression as the text of its tokens, and
    [eval_expression] on it as the rounds on the tokens. *)
Ltac tokens ts :=
  match goal with |- context [eval_expression ?s quiet] =>
    replace s with (render ts)
      by (cbn [render flat_map token_text app]; rewrite ?app_nil_r;
          reflexivity)
  end;
  rewrite (eval_tokens_spec ts quiet)
    by (cbn [tokens_ok];
        repeat match goal with
               | H : forallb isdigit _ = true |- _ => rewrite H
               | H : (Datatypes.length _ =? 0)%nat = false |- _ => rewrite H
               end; reflexivity);
  unfold eval_tokens.

Ltac rounds :=
  repeat (cbn -[bi_from_str bi_add bi_sub bi_mul bi_pow bi_negate bi_fact
                bi_div bi_mod];
          repeat match goal with
                 | H : bi_from_str _ = Some _ |- _ => rewrite H
                 end).

Ltac accepted ts :=
  tokens ts; replace (tokens_accepted ts) with true by reflexivity; rounds.

Ltac rejected ts :=
  tokens ts; replace (tokens_accepted ts) with false by reflexivity;
  reflexivity.

(** X24: parentheses group operands.  For decimal literals [a], [b] and [c],
    [eval_expression] takes [(a+b)*c] as (a + b) * c, [a*(b+c)] as
    a * (b + c), [a-(b-c)] as a - (b - c) and [((a))] as a; the result is
    normalized and nothing is printed.  It fails, without a message, on a
    parenthesis that is not closed, on one that was not opened, and on two
    groups with no operator between them. *)
Theorem parentheses_group_operands (a b c : list ascii) :
  forallb isdigit a = true -> forallb isdigit b = true ->
  forallb isdigit c = true -> a <> [] -> b <> [] -> c <> [] ->
  (exists r, eval_expression
               ("("%char :: a ++ "+"%char :: b ++ ")"%char :: "*"%char :: c)
               quiet = (Done r, quiet)
             /\ normalized r
             /\ value r = (dec_value a + dec_value b) * dec_value c)
  /\ (exists r, eval_expression
                  (a ++ "*"%char :: "("%char :: b ++ "+"%char :: c ++ [")"%char])
                  quiet = (Done r, quiet)
                /\ normalized r
                /\ value r = dec_value a * (dec_value b + dec_value c))
  /\ (exists r, eval_expression
                  (a ++ "-"%char :: "("%char :: b ++ "-"%char :: c ++ [")"%char])
                  quiet = (Done r, quiet)
                /\ normalized r
                /\ value r = dec_value a - (dec_value b - dec_value c))
  /\ (exists r, eval_expression
                  ("("%char :: "("%char :: a ++ [")"%char; ")"%char]) quiet
                = (Done r, quiet)
                /\ normalized r /\ value r = dec_value a)
  /\ eval_expression ("("%char :: a ++ "+"%char :: b) quiet = (Failed, quiet)
  /\ eval_expression (a ++ "+"%char :: b ++ [")"%char]) quiet = (Failed, quiet)
  /\ eval_expression ("("%char :: a ++ ")"%char :: "("%char :: b ++ [")"%char])
       quiet = (Failed, quiet).
Proof.
  intros Ha Hb Hc Hane Hbne Hcne.
  destruct (literal_operand a Ha Hane) as (La & x & Ex & Hx & Vx & Px).
  destruct (literal_operand b Hb Hbne) as (Lb & y & Ey & Hy & Vy & Py).
  destruct (literal_operand c Hc Hcne) as (Lc & z & Ez & Hz & Vz & Pz).
  rewrite <- Vx, <- Vy, <- Vz.
  destruct (bi_add_spec x y Hx Hy) as [Nxy Vxy].
  destruct (bi_add_spec y z Hy Hz) as [Nyz Vyz].
  destruct (bi_sub_spec y z Hy Hz) as [Syz Wyz].
  split; [|split; [|split; [|split; [|split; [|split]]]]].
  - exists (bi_mul (bi_add x y) z).
    accepted [TSym "("; TNum a; TSym "+"; TNum b; TSym ")"; TSym "*"; TNum c].
    split; [reflexivity|]. destruct (bi_mul_spec (bi_add x y) z Nxy Hz) as [N V].
    split; [exact N|]. rewrite V, Vxy. reflexivity.
  - exists (bi_mul x (bi_add y z)).
    accepted [TNum a; TSym "*"; TSym "("; TNum b; TSym "+"; TNum c; TSym ")"].
    split; [reflexivity|]. destruct (bi_mul_spec x (bi_add y z) Hx Nyz) as [N V].
    split; [exact N|]. rewrite V, Vyz. reflexivity.
  - exists (bi_sub x (bi_sub y z)).
    accepted [TNum a; TSym "-"; TSym "("; TNum b; TSym "-"; TNum c; TSym ")"].
    split; [reflexivity|]. destruct (bi_sub_spec x (bi_sub y z) Hx Syz) as [N V].
    split; [exact N|]. rewrite V, Wyz. reflexivity.
  - exists x.
    accepted [TSym "("; TSym "("; TNum a; TSym ")"; TSym ")"].
    split; [reflexivity|]. split; [exact Hx|reflexivity].
  - rejected [TSym "("; TNum a; TSym "+"; TNum b].
  - rejected [TNum a; TSym "+"; TNum b; TSym ")"].
  - rejected [TSym "("; TNum a; TSym ")"; TSym "("; TNum b; TSym ")"].
Qed.

Lemma parentheses_group_operands_witness :
  exists r, eval_expression
              ("("%char :: lit "2" ++ "+"%char :: lit "3" ++ ")"%char
                 :: "*"%char :: lit "4") quiet = (Done r, quiet)
            /\ normalized r
            /\ value r
               = (dec_value (lit "2") + dec_value (lit "3")) * dec_value (lit "4").
Proof.
  apply (parentheses_group_operands (lit "2") (lit "3") (lit "4"));
    first [reflexivity | discriminate].
Defined.

(** [bi_pow] with a negative exponent: 0, whatever the base. *)
Lemma bi_pow_negative_exponent x e :
  sign e = -1 -> bi_pow x e = Some zero_int.
Proof.
  intros He. unfold bi_pow. rewrite He. change (-1 =? 0) with false.
  change (-1 =? -1) with true. cbv iota.
  destruct from_dec_literals as (L0 & _). rewrite L0.
  destruct (sign x =? 0); reflexivity.
Qed.

Lemma bi_pow_zero_exponent x e : sign e = 0 -> bi_pow x e = Some (small 1 1).
Proof.
  intros He. unfold bi_pow. rewrite He. change (0 =? 0) with true. cbv iota.
  apply from_dec_literals.
Qed.

Ltac rounds_with :=
  repeat (cbn -[bi_from_str bi_add bi_sub bi_mul bi_pow bi_negate bi_fact
                bi_div bi_mod Nat.ltb];
          repeat match goal with
                 | H : bi_from_str _ = Some _ |- _ => rewrite H
                 | H : bi_pow _ _ = Some _ |- _ => rewrite H
                 | H : bi_fact _ = _ |- _ => rewrite H
                 | H : (sign _ =? -1) = _ |- _ => rewrite H
                 | H : (1 <? length _)%nat = _ |- _ => rewrite H
                 end).

Ltac accepted_with ts :=
  tokens ts; replace (tokens_accepted ts) with true by reflexivity;
  rounds_with.

(** X25: signs in expressions.  For decimal literals [a] and [b],
    [eval_expression] takes a minus at the start, after an opening
    parenthesis or after a binary operator as the negation of what follows
    ([-a], [(-a)], [a*-b], [a--b], [a+-b]), and a plus at the start as
    nothing ([+a]); a plus after a binary operator is an error ([a-+b],
    [a*+b]).  The negation binds less than a power to its right ([-a^b] is
    -(a^b)), and a power with a negative exponent is 0 ([a^-b] is 0 unless
    [b] is 0, when it is 1). *)
Theorem signs_in_expressions (a b : list ascii) :
  forallb isdigit a = true -> forallb isdigit b = true ->
  a <> [] -> b <> [] ->
  (exists r, eval_expression ("-"%char :: a) quiet = (Done r, quiet)
             /\ normalized r /\ value r = - dec_value a)
  /\ (exists r, eval_expression ("+"%char :: a) quiet = (Done r, quiet)
                /\ normalized r /\ value r = dec_value a)
  /\ (exists r, eval_expression ("("%char :: "-"%char :: a ++ [")"%char]) quiet
                = (Done r, quiet)
                /\ normalized r /\ value r = - dec_value a)
  /\ (exists r, eval_expression (a ++ "*"%char :: "-"%char :: b) quiet
                = (Done r, quiet)
                /\ normalized r /\ value r = - (dec_value a * dec_value b))
  /\ (exists r, eval_expression (a ++ "-"%char :: "-"%char :: b) quiet
                = (Done r, quiet)
                /\ normalized r /\ value r = dec_value a + dec_value b)
  /\ (exists r, eval_expression (a ++ "+"%char :: "-"%char :: b) quiet
                = (Done r, quiet)
                /\ normalized r /\ value r = dec_value a - dec_value b)
  /\ eval_expression (a ++ "-"%char :: "+"%char :: b) quiet = (Failed, quiet)
  /\ eval_expression (a ++ "*"%char :: "+"%char :: b) quiet = (Failed, quiet)
  /\ (exists r, eval_expression ("-"%char :: a ++ "^"%char :: b) quiet
                = (Done r, quiet)
                /\ normalized r /\ value r = - dec_value a ^ dec_value b)
  /\ (exists r, eval_expression (a ++ "^"%char :: "-"%char :: b) quiet
                = (Done r, quiet)
                /\ normalized r
                /\ value r = if dec_value b =? 0 then 1 else 0).
Proof.
  intros Ha Hb Hane Hbne.
  destruct (literal_operand a Ha Hane) as (La & x & Ex & Hx & Vx & Px).
  destruct (literal_operand b Hb Hbne) as (Lb & y & Ey & Hy & Vy & Py).
  rewrite <- Vx, <- Vy.
  pose proof (normalized_negate x Hx) as Nx.
  pose proof (value_negate x (proj1 Hx)) as Wx.
  pose proof (normalized_negate y Hy) as Ny.
  pose proof (value_negate y (proj1 Hy)) as Wy.
  split; [|split; [|split; [|split; [|split; [|split; [|split; [|split;
    [|split]]]]]]]].
  - exists (bi_negate x). accepted [TSym "-"; TNum a].
    split; [reflexivity|]. split; [exact Nx|exact Wx].
  - exists x. accepted [TSym "+"; TNum a].
    split; [reflexivity|]. split; [exact Hx|reflexivity].
  - exists (bi_negate x). accepted [TSym "("; TSym "-"; TNum a; TSym ")"].
    split; [reflexivity|]. split; [exact Nx|exact Wx].
  - exists (bi_mul x (bi_negate y)).
    accepted [TNum a; TSym "*"; TSym "-"; TNum b].
    split; [reflexivity|]. destruct (bi_mul_spec x (bi_negate y) Hx Ny) as [N V].
    split; [exact N|]. rewrite V, Wy. lia.
  - exists (bi_sub x (bi_negate y)).
    accepted [TNum a; TSym "-"; TSym "-"; TNum b].
    split; [reflexivity|]. destruct (bi_sub_spec x (bi_negate y) Hx Ny) as [N V].
    split; [exact N|]. rewrite V, Wy. lia.
  - exists (bi_add x (bi_negate y)).
    accepted [TNum a; TSym "+"; TSym "-"; TNum b].
    split; [reflexivity|]. destruct (bi_add_spec x (bi_negate y) Hx Ny) as [N V].
    split; [exact N|]. rewrite V, Wy. lia.
  - rejected [TNum a; TSym "-"; TSym "+"; TNum b].
  - rejected [TNum a; TSym "*"; TSym "+"; TNum b].
  - destruct (bi_pow_value x y Hx Hy Py ltac:(lia)) as (p & Ep & Np & Vp).
    exists (bi_negate p). accepted_with [TSym "-"; TNum a; TSym "^"; TNum b].
    split; [reflexivity|]. split; [apply normalized_negate, Np|].
    rewrite (value_negate p (proj1 Np)), Vp. reflexivity.
  - pose proof (sign_of_value y Hy) as Sy.
    pose proof (sign_negate y) as Sn.
    destruct (value y =? 0) eqn:E0;
      [apply Z.eqb_eq in E0|apply Z.eqb_neq in E0].
    + pose proof (bi_pow_zero_exponent x (bi_negate y) ltac:(lia)) as Ep.
      exists (small 1 1). accepted_with [TNum a; TSym "^"; TSym "-"; TNum b].
      split; [reflexivity|]. split; [apply normalized_one|reflexivity].
    + pose proof (bi_pow_negative_exponent x (bi_negate y) ltac:(lia)) as Ep.
      exists zero_int. accepted_with [TNum a; TSym "^"; TSym "-"; TNum b].
      split; [reflexivity|]. split; [apply normalized_zero_int|reflexivity].
Qed.

Lemma signs_in_expressions_witness :
  exists r, eval_expression (lit "2" ++ "*"%char :: "-"%char :: lit "3") quiet
            = (Done r, quiet)
            /\ normalized r
            /\ value r = - (dec_value (lit "2") * dec_value (lit "3")).
Proof.
  apply (signs_in_expressions (lit "2") (lit "3"));
    first [reflexivity | discriminate].
Defined.

(** What [apply_operation] tests of the operand of a factorial. *)
Lemma factorial_operand x :
  normalized x -> 0 <= value x ->
  (sign x =? -1) = false
  /\ (value x < 2 ^ 32 -> (1 <? length x)%nat = false /\ digit x O = value x)
  /\ (2 ^ 32 <= value x -> (1 <? length x)%nat = true).
Proof.
  intros Hx Px. pose proof (sign_of_value x Hx) as Sx.
  pose proof (abs_value x Hx) as Ax. pose proof (proj1 Hx) as Hw.
  pose proof (magnitude_bound x Hw) as Hb.
  assert (1 <= length x)%nat as Hl by (destruct Hw; lia).
  split; [apply Z.eqb_neq; lia|]. split.
  - intros Hlt.
    assert (length x = 1%nat) as E1.
    { destruct (Nat.lt_ge_cases (length x) 2) as [H|H]; [lia|].
      pose proof (magnitude_lower x Hw (normalized_trimmed x Hx) H) as Hlow.
      assert (2 ^ 32 <= 2 ^ (32 * Z.of_nat (length x - 1)))
        by (apply Z.pow_le_mono_r; lia).
      lia. }
    split; [rewrite E1; reflexivity|].
    rewrite (digit_of_magnitude x O Hw) by lia.
    change (2 ^ (32 * Z.of_nat 0)) with 1. rewrite Z.div_1_r.
    rewrite Z.mod_small by lia. lia.
  - intros Hge. apply Nat.ltb_lt.
    destruct (Nat.lt_ge_cases 1 (length x)) as [H|H]; [exact H|].
    assert (length x = 1%nat) as E1 by lia. rewrite E1 in Hb.
    change (2 ^ (32 * Z.of_nat 1)) with (2 ^ 32) in Hb. lia.
Qed.

(** X26: the factorial in expressions.  For decimal literals [a] and [b]
    with [a] below 2^32 - 1, [eval_expression] takes [a!] as the factorial of
    [a], and the factorial binds tighter than a sign or a product before it
    ([-a!] is -(a!), [b*a!] is b * (a!)).  For [a] equal to 2^32 - 1 the call
    does not return; for [a] of 2^32 or more it fails without a message; for
    the negative operand of [(-a)!] it fails after printing that the input of
    a factorial must not be negative; and a factorial sign before its operand
    is an error. *)
Theorem factorial_in_expressions (a b : list ascii) :
  forallb isdigit a = true -> forallb isdigit b = true ->
  a <> [] -> b <> [] ->
  (dec_value a < 2 ^ 32 - 1 ->
   (exists r, eval_expression (a ++ ["!"%char]) quiet = (Done r, quiet)
              /\ normalized r
              /\ value r = factorial (Z.to_nat (dec_value a)))
   /\ (exists r, eval_expression ("-"%char :: a ++ ["!"%char]) quiet
                 = (Done r, quiet)
                 /\ normalized r
                 /\ value r = - factorial (Z.to_nat (dec_value a)))
   /\ (exists r, eval_expression (b ++ "*"%char :: a ++ ["!"%char]) quiet
                 = (Done r, quiet)
                 /\ normalized r
                 /\ value r = dec_value b * factorial (Z.to_nat (dec_value a))))
  /\ (dec_value a = 2 ^ 32 - 1 ->
      eval_expression (a ++ ["!"%char]) quiet = (Hangs, quiet))
  /\ (2 ^ 32 <= dec_value a ->
      eval_expression (a ++ ["!"%char]) quiet = (Failed, quiet))
  /\ (0 < dec_value a ->
      eval_expression ("("%char :: "-"%char :: a ++ [")"%char; "!"%char]) quiet
      = (Failed, print_error negative_factorial quiet))
  /\ eval_expression ("!"%char :: a) quiet = (Failed, quiet).
Proof.
  intros Ha Hb Hane Hbne.
  destruct (literal_operand a Ha Hane) as (La & x & Ex & Hx & Vx & Px).
  destruct (literal_operand b Hb Hbne) as (Lb & y & Ey & Hy & Vy & Py).
  rewrite <- Vx, <- Vy.
  destruct (factorial_operand x Hx Px) as (Sx & Hsmall & Hlarge).
  split; [|split; [|split; [|split]]].
  - intros Hlt. destruct (Hsmall ltac:(lia)) as [Lx Dx].
    destruct (bi_fact_value (value x) ltac:(lia)) as (f & Ef & Nf & Vf).
    rewrite <- Dx in Ef.
    split; [|split].
    + exists f. accepted_with [TNum a; TSym "!"].
      split; [reflexivity|]. split; [exact Nf|exact Vf].
    + exists (bi_negate f). accepted_with [TSym "-"; TNum a; TSym "!"].
      split; [reflexivity|]. split; [apply normalized_negate, Nf|].
      rewrite (value_negate f (proj1 Nf)), Vf. reflexivity.
    + exists (bi_mul y f). accepted_with [TNum b; TSym "*"; TNum a; TSym "!"].
      split; [reflexivity|]. destruct (bi_mul_spec y f Hy Nf) as [N V].
      split; [exact N|]. rewrite V, Vf. reflexivity.
  - intros Heq. destruct (Hsmall ltac:(lia)) as [Lx Dx].
    assert (bi_fact (digit x O) = None) as Ef
      by (rewrite Dx, Heq; reflexivity).
    accepted_with [TNum a; TSym "!"]. reflexivity.
  - intros Hge. pose proof (Hlarge Hge) as Lx.
    accepted_with [TNum a; TSym "!"]. reflexivity.
  - intros Hpos.
    assert ((sign (bi_negate x) =? -1) = true) as Sn.
    { rewrite sign_negate. pose proof (sign_of_value x Hx). apply Z.eqb_eq. lia. }
    accepted_with [TSym "("; TSym "-"; TNum a; TSym ")"; TSym "!"].
    reflexivity.
  - rejected [TSym "!"; TNum a].
Qed.

Lemma factorial_in_expressions_witness :
  exists r, eval_expression (lit "5" ++ ["!"%char]) quiet = (Done r, quiet)
            /\ normalized r
            /\ value r = factorial (Z.to_nat (dec_value (lit "5"))).
Proof.
  apply (factorial_in_expressions (lit "5") (lit "2"));
    first [reflexivity | discriminate].
Defined.


(** * White space in expressions *)

(** X27: white space between the tokens of an expression is not significant.
    For a sequence of decimal literals and operator characters, no two
    literals adjacent, the text with any white space before each token and
    after the last one is accepted by [validate_expression_syntax] exactly
    when the text without white space is, and [eval_expression] returns and
    prints the same on both. *)
Theorem white_space_is_insignificant
    (sts : list (list ascii * token)) (tail : list ascii) (w : world) :
  spaces_only sts = true -> forallb isspace tail = true ->
  tokens_ok (map snd sts) = true ->
  validate_expression_syntax (spaced sts tail)
  = validate_expression_syntax (render (map snd sts))
  /\ eval_expression (spaced sts tail) w
     = eval_expression (render (map snd sts)) w.
Proof.
  intros Hs Htail Hok.
  destruct (render_spaced (map snd sts)) as (E & Hs0 & Hm).
  split.
  - rewrite (validate_spaced sts tail Hs Htail Hok), E.
    rewrite (validate_spaced _ [] Hs0 eq_refl) by (rewrite Hm; exact Hok).
    rewrite Hm. reflexivity.
  - rewrite (eval_spaced sts tail w Hs Htail Hok).
    symmetry. apply eval_tokens_spec, Hok.
Qed.

Lemma white_space_is_insignificant_witness :
  validate_expression_syntax
    (spaced [(lit " ", TNum (lit "1")); (lit " ", TSym "+");
             (lit "  ", TNum (lit "2"))] (lit " "))
  = validate_expression_syntax
      (render (map snd [(lit " ", TNum (lit "1")); (lit " ", TSym "+");
                        (lit "  ", TNum (lit "2"))]))
  /\ eval_expression
       (spaced [(lit " ", TNum (lit "1")); (lit " ", TSym "+");
                (lit "  ", TNum (lit "2"))] (lit " ")) quiet
     = eval_expression
         (render (map snd [(lit " ", TNum (lit "1")); (lit " ", TSym "+");
                           (lit "  ", TNum (lit "2"))])) quiet.
Proof.
  apply (white_space_is_insignificant
           [(lit " ", TNum (lit "1")); (lit " ", TSym "+");
            (lit "  ", TNum (lit "2"))] (lit " ") quiet); reflexivity.
Defined.

(** * [bi_from_str]: white space, sign and base *)

Lemma digit_facts3 c :
  isdigit c = true ->
  isspace c = false /\ Ascii.eqb c "-" = false /\ Ascii.eqb c "+" = false.
Proof.
  intros H. destruct c as [[] [] [] [] [] [] [] []];
    try discriminate H; repeat split.
Qed.

Lemma apply_sign_spec k r :
  normalized r -> k = 1 \/ k = -1 ->
  normalized (apply_sign k r) /\ value (apply_sign k r) = k * value r.
Proof.
  intros Hr Hk. unfold apply_sign. destruct (sign r =? 0) eqn:E.
  - apply Z.eqb_eq in E. split; [exact Hr|]. unfold value. rewrite E. lia.
  - apply Z.eqb_neq in E. destruct Hr as [Hw Hf]. split.
    + split; [exact Hw|]. destruct Hf as [[Hz _]|[Hs Hrest]]; [contradiction|].
      right. split; [|exact Hrest]. simpl. lia.
    + unfold value. simpl sign. rewrite magnitude_set_sign. lia.
Qed.

(** The part of [bi_from_str] before the digits: white space, an optional
    sign, white space. *)
Lemma bi_from_str_frame ws1 ws2 sg k c0 body :
  forallb isspace ws1 = true -> forallb isspace ws2 = true ->
  (sg = [] /\ k = 1) \/ (sg = ["+"%char] /\ k = 1)
  \/ (sg = ["-"%char] /\ k = -1) ->
  isdigit c0 = true ->
  bi_from_str (ws1 ++ sg ++ ws2 ++ c0 :: body)
  = option_map (apply_sign k)
      (if Ascii.eqb c0 "0"
          && (Ascii.eqb (char_at (c0 :: body) 1) "b"
              || Ascii.eqb (char_at (c0 :: body) 1) "B")
       then bi_from_bin (drop 2 (c0 :: body))
       else if Ascii.eqb c0 "0"
               && (Ascii.eqb (char_at (c0 :: body) 1) "x"
                   || Ascii.eqb (char_at (c0 :: body) 1) "X")
       then bi_from_hex (drop 2 (c0 :: body))
       else bi_from_dec (c0 :: body)).
Proof.
  intros H1 H2 Hsg Hc. destruct (digit_facts3 c0 Hc) as (Cs & Cm & Cp).
  assert (Hskip : skip_spaces (c0 :: body) = c0 :: body)
    by (simpl; rewrite Cs; reflexivity).
  unfold bi_from_str. rewrite (skip_spaces_app ws1) by exact H1.
  destruct Hsg as [[-> ->]|[[-> ->]|[-> ->]]]; cbn [app].
  - rewrite (skip_spaces_app ws2) by exact H2. rewrite Hskip.
    unfold char_at. cbn [nth]. rewrite Cm, Cp. cbv beta iota zeta.
    rewrite Hskip. cbn [nth].
    match goal with |- context [option_map _ ?n] => destruct n end; reflexivity.
  - cbn [skip_spaces]. change (isspace "+") with false. cbv iota.
    unfold char_at. cbn [nth]. change (Ascii.eqb "+" "-") with false.
    change (Ascii.eqb "+" "+") with true. cbv beta iota zeta.
    change (drop 1 ("+"%char :: ws2 ++ c0 :: body))
      with (ws2 ++ c0 :: body).
    rewrite (skip_spaces_app ws2) by exact H2. rewrite Hskip. cbn [nth].
    match goal with |- context [option_map _ ?n] => destruct n end; reflexivity.
  - cbn [skip_spaces]. change (isspace "-") with false. cbv iota.
    unfold char_at. cbn [nth]. change (Ascii.eqb "-" "-") with true.
    cbv beta iota zeta.
    change (drop 1 ("-"%char :: ws2 ++ c0 :: body))
      with (ws2 ++ c0 :: body).
    rewrite (skip_spaces_app ws2) by exact H2. rewrite Hskip. cbn [nth].
    match goal with |- context [option_map _ ?n] => destruct n end; reflexivity.
Qed.

(** X28: [bi_from_str] reads white space, an optional sign, white space and
    then a number in one of three bases.  Decimal digits give the number they
    write; after [0x] or [0X] hexadecimal digits, and after [0b] or [0B]
    binary digits, are read in two's complement; a minus sign negates the
    number read, a plus sign or no sign keeps it.  The result is
    normalized. *)
Theorem from_str_reads_sign_and_base (ws1 ws2 sg d : list ascii) (k : Z) :
  forallb isspace ws1 = true -> forallb isspace ws2 = true ->
  (sg = [] /\ k = 1) \/ (sg = ["+"%char] /\ k = 1)
  \/ (sg = ["-"%char] /\ k = -1) ->
  d <> [] ->
  (forallb isdigit d = true ->
   exists r, bi_from_str (ws1 ++ sg ++ ws2 ++ d) = Some r /\ normalized r
             /\ value r = k * dec_value d)
  /\ (forallb isxdigit d = true ->
      forall x, x = "x"%char \/ x = "X"%char ->
      exists r, bi_from_str (ws1 ++ sg ++ ws2 ++ "0"%char :: x :: d) = Some r
                /\ normalized r /\ value r = k * twos_complement_hex d)
  /\ (forallb is_bit_char d = true ->
      forall b, b = "b"%char \/ b = "B"%char ->
      exists r, bi_from_str (ws1 ++ sg ++ ws2 ++ "0"%char :: b :: d) = Some r
                /\ normalized r /\ value r = k * twos_complement d).
Proof.
  intros H1 H2 Hsg Hne.
  assert (Hk : k = 1 \/ k = -1) by (destruct Hsg as [[_ ->]|[[_ ->]|[_ ->]]]; lia).
  split; [|split].
  - intros Hd. destruct d as [|c0 body]; [contradiction|].
    pose proof (no_base_letter (c0 :: body) Hd) as (Hb & HB & Hx & HX).
    assert (isdigit c0 = true) as Hc
      by (simpl in Hd; apply andb_prop in Hd; apply Hd).
    rewrite (bi_from_str_frame ws1 ws2 sg k c0 body H1 H2 Hsg Hc).
    rewrite Hb, HB, Hx, HX, !andb_false_r.
    destruct (bi_from_dec_digits (c0 :: body) Hd Hne) as (r & -> & Hr & Hs & Hm).
    destruct (apply_sign_spec k r Hr Hk) as [N V].
    exists (apply_sign k r). split; [reflexivity|]. split; [exact N|].
    rewrite V. f_equal. rewrite <- Hm. pose proof (abs_value r Hr) as Ha.
    pose proof (sign_of_value r Hr). destruct Hs as [Hs|Hs]; lia.
  - intros Hd x Hx.
    rewrite (bi_from_str_frame ws1 ws2 sg k "0" (x :: d) H1 H2 Hsg eq_refl).
    unfold char_at. cbn [nth].
    destruct (bi_from_hex_value d Hne Hd) as (r & Hr & Nr & Vr).
    destruct (apply_sign_spec k r Nr Hk) as [N V].
    exists (apply_sign k r).
    destruct Hx as [-> | ->];
      (split;
       [change (option_map (apply_sign k) (bi_from_hex d)
                = Some (apply_sign k r)); rewrite Hr; reflexivity|]);
      (split; [exact N|rewrite V, Vr; reflexivity]).
  - intros Hd b Hb.
    rewrite (bi_from_str_frame ws1 ws2 sg k "0" (b :: d) H1 H2 Hsg eq_refl).
    unfold char_at. cbn [nth].
    destruct (bi_from_bin_value d Hne Hd) as (r & Hr & Nr & Vr).
    destruct (apply_sign_spec k r Nr Hk) as [N V].
    exists (apply_sign k r).
    destruct Hb as [-> | ->];
      (split;
       [change (option_map (apply_sign k) (bi_from_bin d)
                = Some (apply_sign k r)); rewrite Hr; reflexivity|]);
      (split; [exact N|rewrite V, Vr; reflexivity]).
Qed.

Lemma from_str_reads_sign_and_base_witness :
  exists r, bi_from_str (lit " " ++ lit "-" ++ lit " "
                           ++ "0"%char :: "x"%char :: lit "ff") = Some r
            /\ normalized r /\ value r = -1 * twos_complement_hex (lit "ff").
Proof.
  apply (from_str_reads_sign_and_base (lit " ") (lit " ") (lit "-") (lit "ff")
           (-1));
    first [reflexivity | discriminate | (right; right; split; reflexivity)
          | (left; reflexivity)].
Defined.

(** * Hexadecimal and binary literals in expressions *)

Lemma xdigit_facts2 c :
  isxdigit c = true ->
  is_number_char c = true /\ isspace c = false
  /\ strchr "+-*/%^" c = false /\ negb (Ascii.eqb c NUL) = true.
Proof.
  intros H. destruct c as [[] [] [] [] [] [] [] []];
    try discriminate H; repeat split.
Qed.

(** A literal [0], a base letter [x] and the digits [h], which satisfy
    [pred]. *)
Section BasedLiteral.
Variables (pred : ascii -> bool) (x : ascii) (h : list ascii).
Hypothesis Hpred : forall c, pred c = true -> isxdigit c = true.
Hypothesis Hnul : pred NUL = false.
Hypothesis Hh : forallb pred h = true.
Hypothesis Hne : h <> [].
Hypothesis Hx : is_number_char x = true.
Hypothesis Hstep :
  validate_step ("0"%char :: x :: h) (O, true, false, 0)
  = Next (scan pred ("0"%char :: x :: h) 2, false, false, 0).

Lemma based_char k :
  (k < Datatypes.length h)%nat ->
  pred (char_at ("0"%char :: x :: h) (2 + k)) = true.
Proof.
  intros Hk. unfold char_at. cbn [Nat.add nth].
  apply (char_at_forallb pred h k Hh Hk).
Qed.

Lemma based_strlen :
  strlen ("0"%char :: x :: h) = (2 + Datatypes.length h)%nat.
Proof.
  rewrite strlen_no_nul; [reflexivity|]. cbn [forallb].
  assert (negb (Ascii.eqb x NUL) = true) as ->.
  { destruct (Ascii.eqb x NUL) eqn:E; [|reflexivity].
    apply Ascii.eqb_eq in E. subst x. discriminate Hx. }
  apply forallb_forall. intros c Hc. rewrite forallb_forall in Hh.
  apply (xdigit_facts2 c (Hpred c (Hh c Hc))).
Qed.

Lemma based_end :
  char_at ("0"%char :: x :: h) (2 + Datatypes.length h) = NUL.
Proof. unfold char_at. cbn [Nat.add nth]. apply nth_overflow. lia. Qed.

Lemma based_last :
  isxdigit (char_at ("0"%char :: x :: h) (2 + Datatypes.length h - 1)) = true.
Proof.
  assert (0 < Datatypes.length h)%nat
    by (destruct h; [contradiction|simpl; lia]).
  replace (2 + Datatypes.length h - 1)%nat
    with (2 + (Datatypes.length h - 1))%nat by lia.
  apply Hpred, based_char. lia.
Qed.

Lemma validate_based_literal :
  validate_expression_syntax ("0"%char :: x :: h) = true.
Proof.
  unfold validate_expression_syntax. rewrite based_strlen.
  rewrite (run_loop_next _ _ _ _ Hstep).
  rewrite (scan_exact pred _ 2 (Datatypes.length h));
    [|simpl; lia|intros k Hk; replace k with (2 + (k - 2))%nat by lia;
                 apply based_char; lia
     |rewrite based_end; exact Hnul].
  rewrite (run_loop_break_pos _ _ _
             ((2 + Datatypes.length h)%nat, false, false, 0)); [|lia|].
  2:{ unfold validate_step. rewrite based_end. reflexivity. }
  cbn [negb Z.eqb]. cbv iota.
  destruct (xdigit_facts2 _ based_last) as (_ & Hs & Hop & _).
  rewrite while_loop_skip by (rewrite Hs; apply andb_false_r).
  rewrite Hop, andb_false_r. reflexivity.
Qed.

Lemma eval_based_literal w r :
  bi_from_str ("0"%char :: x :: h) = Some r ->
  eval_expression ("0"%char :: x :: h) w = (Done r, w).
Proof.
  intros Hr. unfold eval_expression. rewrite validate_based_literal.
  cbn [negb]. rewrite based_strlen.
  assert (Hscan : scan is_number_char ("0"%char :: x :: h) 0
                  = (2 + Datatypes.length h)%nat).
  { apply (scan_exact is_number_char _ 0 (2 + Datatypes.length h)).
    - simpl. lia.
    - intros k Hk. destruct k as [|[|k]]; [reflexivity|exact Hx|].
      apply (xdigit_facts2 _ (Hpred _ (based_char k ltac:(lia)))).
    - rewrite Nat.add_0_l, based_end. reflexivity. }
  rewrite (run_loop_next (eval_step ("0"%char :: x :: h)) _ _
             ((2 + Datatypes.length h)%nat, false, [Some r], [], w)).
  2:{ unfold eval_step. unfold char_at at 1 2 3. cbn [nth].
      change (is_char "0" NUL) with false. change (isspace "0") with false.
      change (isdigit "0") with true. cbv iota zeta. rewrite Hscan.
      rewrite Nat.sub_0_r. cbn [drop].
      rewrite take_ge by (simpl; lia). rewrite Hr. reflexivity. }
  rewrite (run_loop_break_pos (eval_step ("0"%char :: x :: h)) _ _
             ((2 + Datatypes.length h)%nat, false, [Some r], [], w));
    [reflexivity|lia|].
  unfold eval_step. rewrite based_end. reflexivity.
Qed.
End BasedLiteral.

Lemma bit_char_xdigit c : is_bit_char c = true -> isxdigit c = true.
Proof. intros H. apply (digit_facts c (bit_char_digit c H)). Qed.

Lemma first_digit (pred : ascii -> bool) (h : list ascii) :
  forallb pred h = true -> h <> [] -> pred (char_at h 0) = true.
Proof.
  intros Hh Hne. destruct h as [|c h']; [contradiction|].
  simpl in Hh. apply andb_prop in Hh. apply Hh.
Qed.

(** X29: hexadecimal and binary literals in expressions.  A literal [0x] or
    [0X] with hexadecimal digits, and a literal [0b] or [0B] with binary
    digits, is accepted by the validator and evaluates to the number the
    digits denote in two's complement (so [0xff] is -1 and [0x0ff] is
    255); nothing is printed. *)
Theorem based_literals_in_expressions (h : list ascii) :
  h <> [] ->
  (forallb isxdigit h = true ->
   forall x, x = "x"%char \/ x = "X"%char ->
   exists r, eval_expression ("0"%char :: x :: h) quiet = (Done r, quiet)
             /\ normalized r /\ value r = twos_complement_hex h)
  /\ (forallb is_bit_char h = true ->
      forall b, b = "b"%char \/ b = "B"%char ->
      exists r, eval_expression ("0"%char :: b :: h) quiet = (Done r, quiet)
                /\ normalized r /\ value r = twos_complement h).
Proof.
  intros Hne. split.
  - intros Hh x Hx.
    destruct (bi_from_hex_value h Hne Hh) as (r & Hr & Nr & Vr).
    destruct (apply_sign_spec 1 r Nr (or_introl eq_refl)) as [N V].
    pose proof (first_digit isxdigit h Hh Hne) as H0.
    exists (apply_sign 1 r). split; [|split; [exact N|rewrite V, Vr; lia]].
    pose proof (bi_from_str_frame [] [] [] 1 "0" (x :: h) eq_refl eq_refl
                  (or_introl (conj eq_refl eq_refl)) eq_refl) as Hstr.
    cbn [app] in Hstr.
    destruct Hx as [-> | ->];
      (match goal with |- eval_expression (_ :: ?x0 :: _) _ = _ =>
         apply (eval_based_literal isxdigit x0 h (fun c H => H) eq_refl Hh Hne
                  eq_refl) end;
       [unfold validate_step, char_at; cbn [nth Nat.add]; fold (char_at h 0);
        rewrite H0; reflexivity
       |rewrite Hstr;
        change (option_map (apply_sign 1) (bi_from_hex h)
                = Some (apply_sign 1 r)); rewrite Hr; reflexivity]).
  - intros Hh b Hb.
    destruct (bi_from_bin_value h Hne Hh) as (r & Hr & Nr & Vr).
    destruct (apply_sign_spec 1 r Nr (or_introl eq_refl)) as [N V].
    pose proof (first_digit is_bit_char h Hh Hne) as H0.
    exists (apply_sign 1 r). split; [|split; [exact N|rewrite V, Vr; lia]].
    pose proof (bi_from_str_frame [] [] [] 1 "0" (b :: h) eq_refl eq_refl
                  (or_introl (conj eq_refl eq_refl)) eq_refl) as Hstr.
    cbn [app] in Hstr.
    destruct Hb as [-> | ->];
      (match goal with |- eval_expression (_ :: ?x0 :: _) _ = _ =>
         apply (eval_based_literal is_bit_char x0 h bit_char_xdigit eq_refl Hh
                  Hne eq_refl) end;
       [unfold validate_step, char_at; cbn [nth Nat.add]; fold (char_at h 0);
        rewrite H0; reflexivity
       |rewrite Hstr;
        change (option_map (apply_sign 1) (bi_from_bin h)
                = Some (apply_sign 1 r)); rewrite Hr; reflexivity]).
Qed.

Lemma based_literals_in_expressions_witness :
  exists r, eval_expression ("0"%char :: "x"%char :: lit "ff") quiet
            = (Done r, quiet)
            /\ normalized r /\ value r = twos_complement_hex (lit "ff").
Proof.
  apply (based_literals_in_expressions (lit "ff"));
    first [reflexivity | discriminate | (left; reflexivity)].
Defined.

(** * The lines the shell evaluates *)

Lemma not_alpha_facts c :
  isalpha c = false ->
  is_char c "q" = false /\ is_char c "o" = false /\ is_char c "h" = false
  /\ is_char c "b" = false /\ is_char c "d" = false.
Proof.
  intros H. destruct c as [[] [] [] [] [] [] [] []];
    try discriminate H; repeat split.
Qed.

Lemma skip_spaces_all ws : forallb isspace ws = true -> skip_spaces ws = [].
Proof.
  induction ws as [|c ws IH]; intros H; [reflexivity|].
  simpl in H. apply andb_prop in H as [Hc Hws]. simpl. rewrite Hc.
  apply IH, Hws.
Qed.

Lemma cstr_spaces ws : forallb isspace ws = true -> cstr ws = ws.
Proof.
  intros H. rewrite <- (app_nil_r ws) at 1.
  rewrite (cstr_app_spaces ws [] H). apply app_nil_r.
Qed.

(** A line that does not begin with a letter is no command. *)
Lemma no_command c0 rest :
  isalpha c0 = false ->
  list_eqb (c0 :: rest) (lit "quit") = false
  /\ starts_with "out" (c0 :: rest) = false
  /\ starts_with "hex" (c0 :: rest) = false
  /\ starts_with "bin" (c0 :: rest) = false
  /\ starts_with "dec" (c0 :: rest) = false.
Proof.
  intros H. destruct (not_alpha_facts c0 H) as (Hq & Ho & Hh & Hb & Hd).
  split; [|repeat split; unfold starts_with; cbn [lit list_ascii_of_string
             Datatypes.length seq forallb]; unfold char_at; cbn [nth];
           first [rewrite Ho|rewrite Hh|rewrite Hb|rewrite Hd]; reflexivity].
  unfold list_eqb. cbn [Datatypes.length seq forallb].
  unfold char_at at 1 2. cbn [nth lit list_ascii_of_string]. rewrite Hq.
  apply andb_false_r.
Qed.

(** X30: the lines the shell evaluates.  An empty line prints nothing and a
    line of white space only prints [Syntax error!].  A line whose first
    character after the leading white space is not a letter is passed,
    without that white space, to [eval_expression]; when the evaluation
    returns a number, the shell prints exactly one line, the number in the
    selected base, and keeps the base. *)
Theorem other_lines_are_evaluated (ws p : list ascii) (base : Z) :
  forallb isspace ws = true ->
  isspace (char_at p 0) = false -> isalpha (char_at p 0) = false ->
  (strlen p <> 0)%nat ->
  process_and_print [] base = Done (base, [])
  /\ (ws <> [] ->
      process_and_print ws base = Done (base, ["Syntax error!"%string]))
  /\ process_and_print (ws ++ p) base
     = report_result base (eval_expression (cstr p) quiet)
  /\ (forall r w, eval_expression (cstr p) quiet = (Done r, w) ->
      process_and_print (ws ++ p) base
      = Done (base,
              [text (if base =? BASE_HEX then bi_to_hex r
                     else if base =? BASE_BIN then bi_to_bin r
                     else bi_to_dec r)])).
Proof.
  intros Hws Hsp Hal Hlen.
  assert (Hmain : process_and_print (ws ++ p) base
                  = report_result base (eval_expression (cstr p) quiet)).
  { unfold process_and_print.
    destruct (shell_line ws p Hws Hsp Hlen) as [-> ->].
    destruct p as [|c0 rest]; [contradiction Hlen; reflexivity|].
    assert (Ascii.eqb c0 NUL = false) as Hn
      by (simpl in Hlen; destruct (Ascii.eqb c0 NUL); [contradiction|reflexivity]).
    rewrite (cstr_cons c0 rest Hn). unfold char_at in Hal. cbn [nth] in Hal.
    destruct (no_command c0 (cstr rest) Hal) as (-> & -> & -> & -> & ->).
    unfold char_at. cbn [nth]. rewrite Hal. reflexivity. }
  split; [reflexivity|]. split; [|split; [exact Hmain|]].
  - intros Hne. unfold process_and_print.
    assert ((strlen ws <? 1)%nat = false) as ->.
    { apply Nat.ltb_ge. rewrite <- (app_nil_r ws).
      rewrite (strlen_app_spaces ws [] Hws). destruct ws; [contradiction|].
      simpl. lia. }
    rewrite (cstr_spaces ws Hws), (skip_spaces_all ws Hws). reflexivity.
  - intros r w Hev. rewrite Hmain, Hev.
    pose proof (eval_expression_told (cstr p) quiet) as Ht.
    rewrite Hev in Ht. destruct Ht as [Hw|[Hf _]]; [|discriminate Hf].
    simpl in Hw. subst w. reflexivity.
Qed.

Lemma other_lines_are_evaluated_witness :
  process_and_print (lit "  " ++ lit "(1+2)*3") BASE_BIN
  = report_result BASE_BIN (eval_expression (cstr (lit "(1+2)*3")) quiet).
Proof.
  apply (other_lines_are_evaluated (lit "  ") (lit "(1+2)*3") BASE_BIN);
    first [reflexivity | discriminate].
Defined.
